(* ===== verification/_CoqProject ===== *)
-Q . S2P
Prelude.v
Errors.v
UnitOfWork.v
Inventory.v
InventoryInv.v
InventoryHolds.v
InventoryService.v
Text.v
Parse.v
Url.v
AppConfig.v
Sha256.v
Blake2b.v
Base64.v
Json.v
Logging.v
Datetime.v
Keyset.v
Pagination.v
Effects.v
Auth.v
AuthFacts.v
Identity.v
Orders.v
Payments.v
World.v
Cart.v
CartFacts.v
Resilience.v
RateLimit.v
Http.v
Middleware.v
IdentityFacts.v
DirectoryFacts.v
KeycloakAdmin.v
KeycloakFacts.v
IdentityScenarios.v
Catalog.v
CatalogFacts.v
ImageKeys.v
CatalogService.v
CatalogInv.v
CatalogSafety.v
CatalogTheorems.v
CatalogScenarios.v
ProductCache.v
ProductCacheFacts.v
Listings.v
ListingFacts.v
Bus.v
BusFacts.v
DlqReplay.v
ImageWorker.v
AppConfigFacts.v
Retention.v
RetentionFacts.v
Notifications.v
NotificationsFacts.v
Events.v
EventsFacts.v
Topology.v
Subscribers.v
SubscriberScenarios.v
PaymentsService.v
CheckoutSaga.v
SagaInv.v
SagaSteps.v
SagaWorld.v
OrdersService.v
Workers.v
WorkersFacts.v
SagaSafety.v
SagaDrive.v
Deployment.v
Scenarios.v
Api.v
ApiFacts.v
ApiScenarios.v
