(* ===== verification/Prelude.v ===== *)
(** * Verification of the e-commerce backend

    The program (src/src) is a FastAPI monolith of modules - catalog, cart,
    inventory, orders, payments, identity, notifications - over one PostgreSQL
    database, a Valkey store, an object store, a payment provider and an
    outbox-driven event bus.  Its core is the checkout: the saga of
    src/orders/application/checkout_saga.py prices the basket, inserts a pending
    order, reserves stock, charges, commits the stock, flips the order to paid and
    consumes the basket; it journals every step, compensates on failure, and is
    completed after crashes by a recovery poller, a payment reconciler, webhooks and
    a reservation reaper.  Around it, the catalog edits versioned products and runs
    an image pipeline, a read cache sits before it, every module's outbox is relayed
    to queues that carts, caches and mails are projected from, and the HTTP routes
    authenticate against Keycloak and a local mirror of its users.  This library models
    those parts - down to the SQL statements, the Lua scripts and the digests - and
    proves what they promise under every interleaving, fault and crash.

    ** The files, and the source each one models

    - Prelude, Errors: shared lemmas and tactics; the exception classes of
      src/shared/errors/exceptions.py with the subclass tests of the [except]
      clauses, the state/exception monad [ST] and lenses.
    - UnitOfWork: src/shared/db/unit_of_work.py.  [Session] is the request
      session (committed view, own view, nesting depth); [transaction] refines
      [atomically], the form the repositories' clients use.
    - Inventory, InventoryInv, InventoryHolds, InventoryService: the tables,
      repository and service of src/inventory, one definition per SQL statement
      and per method; the accounting invariant [InvOK]; batch holds; the service.
    - Text, Parse, Sha256, Blake2b, Base64, Datetime, Json, Url: the parts of [str],
      [int], [Decimal], [uuid], [datetime], [hashlib], [hmac], [base64], [json] and
      [urllib.parse] the code uses, computed, with round trips and the published test
      vectors; Url also re-hosts the presigned uploads of
      src/catalog/adapters/s3_images.py.
    - AppConfig, AppConfigFacts: src/shared/config/setting.py - every field with its
      bounds, the validators in their order - and what accepted settings satisfy.
    - Logging: src/shared/config/logging.py, the two filters of every log record.
    - Effects: coroutines as trees of atomic blocks ([prog]), exceptions, locals,
      [asyncio.timeout], a scheduler ([pool_step]) and the rely/guarantee rule
      [wpf] with its soundness theorem [pool_sound].
    - Keyset, Pagination, Listings, ListingFacts: src/shared/db/pagination.py - the
      order-theoretic core, then the cursor codec and the statement, then
      [list_products], [list_orders] and [list_by_order_id] over it.
    - Orders, OrdersService: src/orders/adapters/db, src/orders/domain,
      src/orders/application/service.py and the outbox rows it writes.
    - Payments, PaymentsService: src/payments/adapters/db, the gateway port
      (class [PaymentGateway]) and its stub, src/payments/application/service.py
      (charge, refund, webhook, reconcile).
    - Cart, CartFacts: src/cart - the Valkey repository and its Lua scripts, the
      service, the product-event handler - and [SagaBasket], the instance
      [cart_basket] of the port [BasketPort] the saga is written against.
    - Resilience: src/shared/resilience.py and
      src/payments/adapters/resilient_gateway.py.
    - RateLimit: src/shared/ratelimit.  Http: the handler table of
      src/shared/errors/exception_handlers.py and src/shared/api/etag.py.
    - Middleware: the layers src/app.py puts around the routes -
      src/shared/middleware/security.py, the exception handlers, the server-error
      boundary - and the readiness probe of src/shared/api/health.py.
    - Auth, AuthFacts: src/shared/auth - bearer tokens, claims, role gates, the JWKS
      refresh guard.
    - Identity, IdentityFacts, DirectoryFacts: the user mirror, the services and the
      routes of src/identity, over the port [IdentityAdminPort].  KeycloakAdmin,
      KeycloakFacts: its adapter, which discharges [AdminPortLaws].
      IdentityScenarios: a small Keycloak and runs over it.
    - Catalog, CatalogFacts: the tables and repository of src/catalog, with the
      version counter and the outbox.  ImageKeys: src/catalog/domain/image_keys.py.
      CatalogService: the service, the object store and the ingest pipeline as
      coroutines over one world ([CatWorld]); pixels are the class [Imaging].
    - CatalogInv, CatalogSafety, CatalogTheorems, CatalogScenarios: the invariant
      of products, events, images, objects and reclaim rows, that every coroutine
      keeps it, what follows, and concrete runs.
    - ProductCache, ProductCacheFacts: src/catalog/adapters/cache.py, the cache-aside
      read of the service and the invalidation handler.
    - Bus, BusFacts: src/shared/bus - trace context, relay, publisher, consumer -
      over the classes [EventContract] (what a body must satisfy) and [EventHandler]
      with [HandlerLaws] (a subscriber); and the replay of scripts/dlq_replay.py.
      DlqReplay: what one replay does.
    - Events, EventsFacts: src/events - every event class, the registry,
      [validate_event] - with the builders of the modules' application/outbox.py and
      the payload bound of src/shared/db.
    - Notifications, NotificationsFacts: src/notifications; its handler is an
      instance of [EventHandler] and discharges [HandlerLaws].
    - Subscribers, SubscriberScenarios: the registry as [EventContract], and the
      handlers of src/cart/adapters/cart_consumer.py and
      src/notifications/adapters/notification_worker.py as subscribers of the bus.
    - ImageWorker: the queue loop of src/catalog/adapters/image_worker.py.
    - Topology: scripts/bus_bootstrap.py and scripts/s3_bootstrap.py.
    - Retention, RetentionFacts: scripts/retention_prune.py.
    - World: the state the checkout's coroutines share and the ports of
      src/orders/ports/checkout.py; [Settings] are the configured values.
    - CheckoutSaga: src/orders/application/checkout_saga.py with the adapters of
      src/bootstrap/saga_factory.py, one definition per method.
    - SagaInv, SagaSteps, SagaWorld, SagaSafety, SagaDrive: the invariant of the
      deployment ([CoreOK], [WInv]) and what coroutines rely on of each other
      ([evolves]); then, layer by layer, every database block, every block on
      the shared world and every coroutine keep it.
    - Deployment: the coroutines that may arrive ([arrival]), the worlds they
      reach ([reachable]) and the guarantees read off them.
    - Workers, WorkersFacts: the poll loops of the reaper, the payment reconciler and
      the saga recovery.
    - Scenarios: a concrete shop over the real cart and the stub provider, run
      to concrete worlds; the witnesses of Deployment, and behaviours that differ
      from what the comments promise.
    - Api, ApiFacts, ApiScenarios: the routes of the five modules over one world of
      the whole application, the adapters of src/bootstrap/container.py between the
      modules, and what holds of every request under every interleaving.

    ** What the theorems show

    - Deployment: in every reachable world a paid order has exactly one payment,
      for its total, that went through (it may have been refunded since:
      [refund_races_retry]), and owns committed stock for each line;
      a checkout that answers reports the paid order stored under its key; a
      cancelled order whose charge stands has a refund in its journal; keys,
      orders and charges are one to one; terminal states stay; stock is never
      oversold; compensation runs to its end.  These theorems are proved against
      the classes [PaymentGateway] and [BasketPort] and need no law of either:
      a provider that answers anything, at any time, cannot break them.
    - Whole application: a checkout answers 201 only to a validated token of an
      account that was not disabled, with that caller's order; orders are shown to and
      cancelled by their owner or an administrator; products are written by merchants
      that own them.
    - Authentication and identity: a principal comes from a token whose signature and
      registered claims were validated; key refreshes are throttled; a disabled
      account is never served as active again; each user is announced once; account
      creation is all or nothing; walking the directory visits every account once.
    - Bus and subscribers: at-least-once delivery from an outbox row to the
      subscriber's own notion of done, proved against [HandlerLaws], with dead letters
      replayed at any time.  Every event of the contract is read back as it was
      written.  Instantiated: a published product change binds every later cart read,
      and every published order and refund has its mail (or its address is suppressed,
      or its message still queued or dead-lettered); copies of one send share one
      identifier.  A replay is exact; the bootstrap converges from any earlier state.
    - Operations: accepted settings are coherent; a prune pass is exact and spares what
      settlement still reads; the reaper drains; log records leave the handler without
      keys, secrets or addresses; answers carry the request id and, but for unhandled
      exceptions, the security headers.
    - Catalog: a product on sale has its stored image and thumbnails, and public
      objects are re-encodings of checked uploads; once the events are delivered, in
      any order, the carts' projection is the product (composition with CartFacts);
      a cached read is never older than the invalidations handled before it; upload
      notifications reach the ingest with the object's own key, however S3 quotes it.
    - Pagination: following cursors returns every row once, in order, while the
      tables change; on a table at rest it ends with all rows; a search term is
      matched literally.
    - Inventory: the books balance after any sequence of calls, units are
      conserved, a batch is all-or-nothing, replayable and always decided within
      two attempts, release and commit act exactly on the order's rows.
    - Cart: limits, exact consumption, refresh on read, permanence of deletions,
      insensitivity to the order and repetition of product events.
    - Rate limiting: admission is bounded in every window, the advised wait is
      exact, the limiter fails open.
    - Payments, webhooks, keys, resilience, unit of work: as the doc comment of
      each theorem says.
    - Divergences, as theorems on reachable worlds: [refund_races_retry],
      [drive_dies_at_its_journal], [card_number_answers_500],
      [upsert_stock_always_raises], [half_open_admits_two_probes],
      [noop_edit_hides_the_next], [forgotten_instance_loses_update],
      [redelivery_leaks_renditions], [nul_cursor_reaches_the_statement],
      [journal_prune_never_advances], [bare_500].

    ** Modelling choices

    - A database transaction is one block.  Statements that PostgreSQL could
      interleave are serialised by the row locks the code takes; the two
      attempts of [reserve_many], separate savepoints in the source, are kept apart.  Rows
      locked by others ([SKIP LOCKED]) are an argument of the claim.
    - Every [await] may run, fail before acting, act and lose its answer, be
      cancelled by a timeout or by the server, or never be resumed (a crash).
    - Money is in cents, identifiers minted by [uuid4] come from counters
      (fresh by construction), clocks are integers, columns keep the width
      PostgreSQL gives them.  A [str] is a sequence of code points below 256; Lua
      numbers stay below 10^14, where cjson prints them exactly; the token bucket's
      doubles are rationals.
    - The provider is one state shared by all processes; [arr_provider] lets it
      change in any way between calls, which covers the stub's process-local
      maps as well as a real provider.  [arr_basket] does the same for baskets.
      The saga's basket read, several Valkey commands in the cart, is one block
      there.
    - What SQLAlchemy does with a loaded instance is the record [Orm]: whether the
      identity map still holds it, and whether a flush without changes writes.  The
      catalog theorems say which behaviour they need.
    - Worlds carry notes no code reads, for statements about the past: the rows an
      invalidation saw ([kw_floor]), the payloads produced ([bw_produced]).
    - An SQS queue may deliver any waiting message at any time, any number of times,
      and move it to the dead-letter queue; a task group starts all its tasks, each
      of which may fail.
    - [UnitOfWork] has no attribute [depth], which the saga's journal reads.  What
      that read yields is the setting [depth_attribute]: the theorems of Deployment
      hold whatever it is, their witnesses take it to be the nesting depth the
      comment intends, and [drive_dies_at_its_journal] shows what happens with the
      class as written.
    - A price lives in the catalog and, as the checkout reads it, in the shop's
      [w_prices]; the application's world keeps the two worlds side by side.
    - An ARN is the name it ends in; a policy document is the access it grants.
    - Parameters: JSON decoding of a webhook body ([json_loads]), of cursors
      ([JsonLists]) and of cached products ([ResponseCodec]); what pydantic-core reads
      and writes beyond JSON itself ([PydanticJson]); PyJWT and the JWKS client;
      python-keycloak and its server ([KeycloakApi], [KeycloakServer]); PostgreSQL DSNs
      and host names of the settings; image decoding ([Imaging]); PostgreSQL casts, collation and
      case folding ([PgCasts], [Folding]); [fromisoformat] and [Decimal] as
      acceptors ([SortParsers]).  Each is instantiated where a witness needs it.

    ** Bounds and fuel

    [nat_str] unfolds as many digits as the number has bits, [blocks] as many
    blocks as there are words, [substitute] as many steps as the template has
    characters: all proved to be enough ([nat_str_value], [blocks_concat],
    [substitute_fuel_enough]).  [read_body] gets one step per byte and one more
    ([download_is_exact] covers every body).  The cached read counts its polls and
    promotions ([read_through], [poll_fill]); its theorem holds for every count.
    A prune gets two steps more than the table has rows, a replay one more than its
    limit: both are proved to end within them ([prune_is_exact], [replay_is_exact]).
    The worker loops run the given number of turns ([reaper_drains] says how many are
    enough).  Other coroutines are finite trees and need no fuel.  In the scenario files
    [drain] runs at most the given number of blocks; every run there is evaluated,
    so a run cut short would fail its equation.

    ** Not modelled

    Framework glue: CORS, proxy headers, request metrics and the lifespan of
    src/app.py; FastAPI's routing and OpenAPI; the providers of
    src/bootstrap/container.py that only construct objects; command lines, signal
    handlers and process entry points.  Declarative or pure input/output: migrations,
    the JSON Schemas of the events ([schema_for]), metrics export and lag polling,
    SMTP, SES and S3 transports, the texts of problem bodies.  [replay_all] and the
    seed script (scripts/catalog_seed.py) only repeat operations modelled here; the
    pixels of the seeded images are Pillow's.  Not proved: that an undisturbed checkout
    or recovery pass makes progress in general - with the class [UnitOfWork] as written
    it does not ([drive_dies_at_its_journal]). *)

From stdpp Require Export prelude gmap strings list fin_maps.
From Stdlib Require Export ZArith Lia.

(** ** Scopes and tactics *)

Declare Scope shop_scope.
Delimit Scope shop_scope with shop.
Global Open Scope Z_scope.

(** Split every [match]/[if] scrutinee of hypothesis [H], keeping equations. *)
Ltac case_hyp H :=
  match type of H with
  | context [match ?x with _ => _ end] => destruct x eqn:?
  end.

Ltac simp_hyp H := repeat (case_hyp H; simplify_eq/=).

(** Destruct the scrutinee of the first [match] of the goal. *)
Ltac case_goal :=
  match goal with
  | |- context [match ?x with _ => _ end] => destruct x eqn:?
  end.

Create HintDb shop.

(** ** Sums of integers over lists (the SQL [SUM] the invariants speak of) *)

Section SumZ.
Context {A : Type}.
Implicit Types (f g : A → Z) (l : list A).

Fixpoint sumZ f l : Z :=
  match l with
  | [] => 0
  | x :: l' => f x + sumZ f l'
  end.

Lemma sumZ_app f l1 l2 : sumZ f (l1 ++ l2) = sumZ f l1 + sumZ f l2.
Proof. induction l1; simpl; lia. Qed.

Lemma sumZ_ext f g l : (∀ x, x ∈ l → f x = g x) → sumZ f l = sumZ g l.
Proof.
  induction l as [|x l IH]; intros Hfg; simpl; [done|].
  rewrite Hfg by set_solver. rewrite IH; [done|set_solver].
Qed.

Lemma sumZ_nonneg f l : (∀ x, x ∈ l → 0 ≤ f x) → 0 ≤ sumZ f l.
Proof.
  induction l as [|x l IH]; intros Hf; simpl; [done|].
  pose proof (Hf x ltac:(set_solver)). pose proof (IH ltac:(set_solver)). lia.
Qed.

Lemma sumZ_elem_le f l x : (∀ y, y ∈ l → 0 ≤ f y) → x ∈ l → f x ≤ sumZ f l.
Proof.
  induction l as [|y l IH]; intros Hf Hx; [set_solver|]. simpl.
  apply elem_of_cons in Hx as [->|Hx].
  - pose proof (sumZ_nonneg f l ltac:(set_solver)). lia.
  - pose proof (Hf y ltac:(set_solver)). pose proof (IH ltac:(set_solver) Hx). lia.
Qed.

Lemma sumZ_add f g l : sumZ (λ x, f x + g x) l = sumZ f l + sumZ g l.
Proof. induction l; simpl; lia. Qed.

Lemma sumZ_filter_split f (P : A → Prop) `{∀ x, Decision (P x)} l :
  sumZ f (filter P l) = sumZ (λ x, if decide (P x) then f x else 0) l.
Proof.
  induction l as [|x l IH]; [done|].
  rewrite filter_cons. simpl. case_decide; simpl; lia.
Qed.
End SumZ.

Lemma sumZ_fmap {A B} (h : B → A) (f : A → Z) (l : list B) :
  sumZ f (h <$> l) = sumZ (λ x, f (h x)) l.
Proof. induction l; simpl; [done|]. by f_equal. Qed.

#[export] Instance sumZ_perm {A} (f : A → Z) : Proper ((≡ₚ) ==> (=)) (sumZ f).
Proof. intros l1 l2 Hp. induction Hp; simpl; lia. Qed.

#[export] Hint Resolve sumZ_nonneg : shop.

(** ** Rows of a keyed table: [SELECT ... WHERE] over a finite map *)

Section FindRow.
Context {K R : Type} `{Countable K}.
Implicit Types (m : gmap K R) (P : R → Prop).

(** The first row satisfying [P], with its key ([scalar_one_or_none]). *)
Definition find_row P `{∀ r, Decision (P r)} m : option (K * R) :=
  head (filter (λ kr, P kr.2) (map_to_list m)).

Lemma find_row_Some P `{∀ r, Decision (P r)} m k r :
  find_row P m = Some (k, r) → m !! k = Some r ∧ P r.
Proof.
  unfold find_row. intros Hh. apply head_Some_elem_of in Hh.
  apply list_elem_of_filter in Hh as [HP Hin].
  apply elem_of_map_to_list in Hin. done.
Qed.

Lemma find_row_None P `{∀ r, Decision (P r)} m :
  find_row P m = None → ∀ k r, m !! k = Some r → ¬ P r.
Proof.
  unfold find_row. rewrite head_None. intros Hnil k r Hk HP.
  assert ((k, r) ∈ filter (λ kr : K * R, P kr.2) (map_to_list m)) as Hin.
  { apply list_elem_of_filter. split; [done|]. by apply elem_of_map_to_list. }
  rewrite Hnil in Hin. set_solver.
Qed.

(** When at most one row satisfies [P] (a UNIQUE constraint), [find_row]
    finds exactly that row. *)
Lemma find_row_unique P `{∀ r, Decision (P r)} m k r :
  m !! k = Some r → P r →
  (∀ k' r', m !! k' = Some r' → P r' → k' = k) →
  find_row P m = Some (k, r).
Proof.
  intros Hk HP Huniq. destruct (find_row P m) as [[k' r']|] eqn:E.
  - apply find_row_Some in E as [E1 E2]. assert (k' = k) as -> by eauto. congruence.
  - exfalso. by eapply find_row_None.
Qed.
End FindRow.

Lemma filter_all {A} (P : A → Prop) `{∀ x, Decision (P x)} (l : list A) : (∀ x, x ∈ l → P x) → filter P l = l.
Proof.
  induction l as [|x l IH]; intros Hl; [done|]. rewrite filter_cons_True by (apply Hl; set_solver).
  rewrite IH; [done|]. intros y Hy. apply Hl. set_solver.
Qed.

Lemma filter_none {A} (P : A → Prop) `{∀ x, Decision (P x)} (l : list A) :
  (∀ x, x ∈ l → ¬ P x) → filter P l = [].
Proof.
  intros Hn. destruct (filter P l) as [|x l'] eqn:E; [done|]. exfalso.
  assert (x ∈ filter P l) as [HP Hx]%list_elem_of_filter by (rewrite E; set_solver). by eapply Hn.
Qed.

(** ** Lists without duplicates *)

(** A projection without duplicates is injective on the list. *)
Lemma NoDup_fmap_inj {A B} (f : A → B) (l : list A) x y :
  NoDup (f <$> l) → x ∈ l → y ∈ l → f x = f y → x = y.
Proof.
  intros Hnd [i Hi]%list_elem_of_lookup [j Hj]%list_elem_of_lookup Heq.
  assert (i = j) as ->; [|congruence].
  eapply (NoDup_lookup _ i j (f x) Hnd); rewrite list_lookup_fmap.
  - by rewrite Hi.
  - rewrite Hj. simpl. by rewrite Heq.
Qed.

(** Pigeonhole: a duplicate-free list inside another that is no longer than it
    covers it entirely. *)
Lemma NoDup_covers {A} (l1 l2 : list A) :
  NoDup l1 → l1 ⊆ l2 → (length l2 ≤ length l1)%nat → l2 ⊆ l1.
Proof.
  intros Hnd Hsub Hlen x Hx.
  apply NoDup_ListNoDup in Hnd.
  apply list_elem_of_In. apply list_elem_of_In in Hx.
  refine (List.NoDup_length_incl Hnd Hlen _ x Hx).
  intros y Hy. apply list_elem_of_In, Hsub, list_elem_of_In. done.
Qed.

(** ** Column widths *)

(** The range of PostgreSQL's [integer]. *)
Definition int4_max : Z := 2147483647.
Definition int4 (z : Z) : Prop := -2147483648 ≤ z ≤ int4_max.
#[export] Instance int4_dec z : Decision (int4 z).
Proof. unfold int4. apply _. Defined.

(** ** Keys that expire *)

(** The value of a key stored with its expiry. *)
Definition alive {A} (now : Z) (o : option (A * Z)) : option A :=
  match o with Some (a, expires) => if decide (now < expires) then Some a else None | None => None end.

Lemma alive_Some {A} now (o : option (A * Z)) a : alive now o = Some a → ∃ e, o = Some (a, e).
Proof. destruct o as [[b e]|]; simpl; [|done]. case_decide; [|done]. intros [= <-]. by exists e. Qed.
