(* ===== verification/Errors.v ===== *)
(** * Exceptions, results and the state/exception monad

    The exception classes the modelled code raises and catches
    (src/shared/errors/exceptions.py, src/shared/resilience.py and the
    built-in ones), with the subclass tests its [except] clauses perform; the
    [result] of a call; and the state/exception monad [ST] in which database
    code is written: like a Python session, the state reached when an exception
    is raised is kept until somebody rolls it back. *)

From S2P Require Import Prelude.

(** Who cancelled an [await]: the timer of an [asyncio.timeout] block (the
    per-step one or the overall drive deadline) or somebody outside. *)
Inductive cancel_source := StepTimer | OverallTimer | OutsideCancel.

Inductive sqlstate := UNIQUE_VIOLATION | FOREIGN_KEY_VIOLATION | CHECK_VIOLATION | OTHER_STATE.

(** [KeycloakGetError], [KeycloakConnectionError] or another [KeycloakError]. *)
Inductive keycloak_class := GetError | ConnectionFault | OtherKeycloakError.

Inductive exn :=
  (* src/shared/errors/exceptions.py *)
  | InvalidPaymentMethodError
  | PaymentIdempotencyConflictError
  | CheckoutIdempotencyConflictError
  | CartChangedError (detail : string)
  | OrderStateConflictError (detail : string)
  | UnknownPaymentRefError
  | InvalidReservationError (sku : string)
  | AuthenticationError
  | AuthorizationError
  | InsufficientStockError (sku : string) (qty : Z)
  | StockBelowReservedError (sku : string) (on_hand reserved : Z)
  | ReservationConflictError (sku : string) (held_qty qty : Z)
  | ReservationContendedError (sku : string)
  | PreconditionFailedError (sku : string)
  | StockMutationError (what : string)
  | DependencyUnavailableError
  | ConcurrentUpdateError
  | InvalidUploadError
  | InvalidCursorError
  | InvalidQueryParamError (kind value : string)
  | RateLimitExceededError (retry_after_seconds : Z)
  | KeycloakEntityNotFoundError
  | KeycloakConflictError
  | KeycloakInvalidRequestError
  | InvalidCartOperationError (detail : string)
  | CartLineNotFoundError
  | ProductNotFoundError
  (* src/cart/domain/cart.py *)
  | ProductTombstonedError
  (* src/catalog/ports/storage.py, src/catalog/application *)
  | ObjectNotFoundError
  | ObjectChangedError
  | ObjectTooLargeError
  | UnsupportedImageError
  | RepositoryFailure (cause : exn)
  (* src/notifications/application/service.py, src/events/registry.py *)
  | UnknownRecipientError
  | UnknownEventError
  (* src/shared/resilience.py: subclasses of DependencyUnavailableError *)
  | CircuitOpenError
  | DependencyBudgetExhaustedError
  (* src/inventory/adapters/db/repository.py: private control flow *)
  | AttemptRejection (sku : string) (qty : Z)
  | AttemptConflict (sku : string) (held_qty qty : Z)
  | AttemptRaced (sku : string)
  (* the database driver and the language *)
  | IntegrityError (state : sqlstate)
  | DataError
  | OperationalError
  | TimeoutError
  | ConnectionError
  | ProviderError (response_code : Z)
  (* python-keycloak and PyJWT *)
  | KeycloakError (cls : keycloak_class) (response_code : option Z)
  | InvalidTokenError
  | PyJWKClientError
  | PyJWKClientConnectionError
  | MalformedKeySet
  | RuntimeError
  | AttributeError
  | TypeError
  | AssertionError
  | ValidationError
  | ValueError
  | KeyError
  | ExceptionGroup
  | InvalidOperation
  | HTTPException (status_code : Z)
  | RequestValidationError
  | CancelledError (by_ : cancel_source).

#[export] Instance cancel_source_eq_dec : EqDecision cancel_source.
Proof. solve_decision. Defined.
#[export] Instance sqlstate_eq_dec : EqDecision sqlstate.
Proof. solve_decision. Defined.
#[export] Instance keycloak_class_eq_dec : EqDecision keycloak_class.
Proof. solve_decision. Defined.
#[export] Instance exn_eq_dec : EqDecision exn.
Proof. solve_decision. Defined.

(** [isinstance(e, Exception)]: [CancelledError] derives from [BaseException]. *)
Definition is_Exception (e : exn) : bool :=
  match e with CancelledError _ => false | _ => true end.

(** [isinstance(e, DependencyUnavailableError)] *)
Definition is_DependencyUnavailable (e : exn) : bool :=
  match e with
  | DependencyUnavailableError | CircuitOpenError | DependencyBudgetExhaustedError => true
  | _ => false
  end.

(** ** Results *)

Inductive result (A : Type) :=
  | Ok (a : A)
  | Err (e : exn).
Arguments Ok {A} a.
Arguments Err {A} e.

#[export] Instance result_ret : MRet result := λ A a, Ok a.
#[export] Instance result_bind : MBind result := λ A B f r,
  match r with Ok a => f a | Err e => Err e end.
#[export] Instance result_fmap : FMap result := λ A B f r,
  match r with Ok a => Ok (f a) | Err e => Err e end.

#[export] Instance result_eq_dec {A} `{EqDecision A} : EqDecision (result A).
Proof. solve_decision. Defined.

Definition is_ok {A} (r : result A) : bool :=
  match r with Ok _ => true | Err _ => false end.

(** ** The state/exception monad of database code *)

Definition ST (D A : Type) : Type := D → result A * D.

#[export] Instance ST_ret D : MRet (ST D) := λ A a d, (Ok a, d).
#[export] Instance ST_bind D : MBind (ST D) := λ A B f m d,
  match m d with
  | (Ok a, d') => f a d'
  | (Err e, d') => (Err e, d')
  end.

Definition raise {D A} (e : exn) : ST D A := λ d, (Err e, d).
Definition get {D} : ST D D := λ d, (Ok d, d).
Definition modify {D} (f : D → D) : ST D unit := λ d, (Ok tt, f d).
Definition guard_ {D} (b : bool) (e : exn) : ST D unit :=
  if b then mret tt else raise e.

(** [for x in xs: body] with an early exit on the first exception. *)
Fixpoint for_each {D A} (xs : list A) (body : A → ST D unit) : ST D unit :=
  match xs with
  | [] => mret tt
  | x :: xs' => body x ;; for_each xs' body
  end.

(** [try: m except e: h e] (the handler decides what it catches by re-raising). *)
Definition try_except {D A} (m : ST D A) (h : exn → ST D A) : ST D A := λ d,
  match m d with
  | (Ok a, d') => (Ok a, d')
  | (Err e, d') => h e d'
  end.

(** Unfold the monad's plumbing everywhere. *)
Ltac st_simp :=
  unfold mbind, ST_bind, mret, ST_ret, raise, get, modify in *; simpl in *.

(** A state predicate every outcome of [m] preserves, exceptions included. *)
Definition preserves {D A} (I : D → Prop) (m : ST D A) : Prop :=
  ∀ d, I d → I (m d).2.

Section Preserves.
Context {D : Type} (I : D → Prop).

Lemma preserves_ret {A} (a : A) : preserves I (mret a : ST D A).
Proof. by intros d. Qed.

Lemma preserves_raise {A} e : preserves I (raise e : ST D A).
Proof. by intros d. Qed.

Lemma preserves_bind {A B} (m : ST D A) (f : A → ST D B) :
  preserves I m → (∀ a, preserves I (f a)) → preserves I (m ≫= f).
Proof.
  intros Hm Hf d Hd. unfold mbind, ST_bind.
  specialize (Hm d Hd). destruct (m d) as [[a|e] d']; simpl in *; [|done].
  by apply Hf.
Qed.

Lemma preserves_for_each {A} (xs : list A) (body : A → ST D unit) :
  (∀ x, preserves I (body x)) → preserves I (for_each xs body).
Proof.
  intros Hb. induction xs as [|x xs IH]; simpl; [apply preserves_ret|].
  by apply preserves_bind.
Qed.

Lemma preserves_try {A} (m : ST D A) h :
  preserves I m → (∀ e, preserves I (h e)) → preserves I (try_except m h).
Proof.
  intros Hm Hh d Hd. unfold try_except. specialize (Hm d Hd).
  destruct (m d) as [[a|e] d']; simpl in *; [done|]. by apply Hh.
Qed.
End Preserves.

#[export] Hint Resolve preserves_ret preserves_raise preserves_bind
  preserves_for_each preserves_try : shop.

(** ** Parts of a larger state *)

Record Lens (D X : Type) := MkLens { view : D → X; put : X → D → D }.
Arguments MkLens {D X} view put.
Arguments view {D X} l d.
Arguments put {D X} l x d.

Definition zoom {D X A} (l : Lens D X) (m : ST X A) : ST D A := λ d,
  let '(r, x) := m (view l d) in (r, put l x d).
