(* ===== verification/UnitOfWork.v ===== *)
(** * The service-owned unit of work (src/shared/db/unit_of_work.py)

    [Session] is the request-scoped [AsyncSession]: what the database has
    committed, what this session sees (its uncommitted work included) and the
    nesting depth kept in [session.info].  [transaction] is
    [UnitOfWork.transaction]: the outermost block commits or rolls back, every
    deeper block is a SAVEPOINT.

    Repositories are modelled as plain state/exception computations ([ST]) in
    which a nested block is [begin_nested] and a whole use-case is
    [atomically].  The refinement at the end of the file discharges that
    reading: a body that acts like [m] inside a transaction makes the outermost
    [transaction] act like [atomically m] on the committed database. *)

From S2P Require Import Prelude Errors.

Section Session.
Context {D : Type}.

Record Session := MkSession {
  committed : D;      (* visible to every other session *)
  current : D;        (* what this session reads and writes *)
  depth : nat         (* session.info["uow_depth"] *)
}.

(** A statement executed through the session. *)
Definition execute {A} (m : ST D A) : ST Session A := λ s,
  let '(r, d) := m (current s) in (r, MkSession (committed s) d (depth s)).

Definition commit : ST Session unit := λ s,
  (Ok tt, MkSession (current s) (current s) (depth s)).

Definition rollback : ST Session unit := λ s,
  (Ok tt, MkSession (committed s) (committed s) (depth s)).

(** [UnitOfWork.transaction]: [_depth] is restored on every exit. *)
Definition transaction {A} (body : ST Session A) : ST Session A := λ s,
  let d := depth s in
  let s1 := MkSession (committed s) (current s) (S d) in
  if decide (d = 0%nat) then
    match body s1 with
    | (Ok a, s2) => let s3 := (commit s2).2 in
                    (Ok a, MkSession (committed s3) (current s3) d)
    | (Err e, s2) => let s3 := (rollback s2).2 in
                     (Err e, MkSession (committed s3) (current s3) d)
    end
  else
    match body s1 with
    | (Ok a, s2) => (Ok a, MkSession (committed s2) (current s2) d)
    | (Err e, s2) => (Err e, MkSession (committed s2) (current s) d)
    end.

(** The attributes an instance of the class [UnitOfWork] has. *)
Definition uow_attributes : list string :=
  ["session"; "commit"; "rollback"; "_depth"; "transaction"].

(** [uow.depth]: Python attribute access on the handle. *)
Definition uow_depth_attr (s : Session) : result nat :=
  if decide ("depth" ∈ uow_attributes) then Ok (depth s) else Err AttributeError.

(** ** The plain reading *)

(** A SAVEPOINT: released on a clean exit, rolled back on an exception. *)
Definition begin_nested {A} (m : ST D A) : ST D A := λ d,
  match m d with
  | (Ok a, d') => (Ok a, d')
  | (Err e, _) => (Err e, d)
  end.

(** [body] acts like [m] inside an open transaction. *)
Definition refines {A} (body : ST Session A) (m : ST D A) : Prop :=
  ∀ s, (0 < depth s)%nat →
    body s = (let '(r, d) := m (current s) in
              (r, MkSession (committed s) d (depth s))).

Lemma refines_execute {A} (m : ST D A) : refines (execute m) m.
Proof. intros s _. unfold execute. by destruct (m (current s)). Qed.

Lemma refines_ret {A} (a : A) : refines (mret a) (mret a).
Proof. by intros []. Qed.

Lemma refines_raise {A} e : refines (A:=A) (raise e) (raise e).
Proof. by intros []. Qed.

Lemma refines_bind {A B} body m (f : A → ST Session B) (g : A → ST D B) :
  refines body m → (∀ a, refines (f a) (g a)) → refines (body ≫= f) (m ≫= g).
Proof.
  intros Hb Hf s Hs. unfold mbind, ST_bind. rewrite (Hb s Hs).
  destruct (m (current s)) as [[a|e] d]; [|done]. by rewrite Hf.
Qed.

Lemma refines_try {A} body (m : ST D A) h k :
  refines body m → (∀ e, refines (h e) (k e)) →
  refines (try_except body h) (try_except m k).
Proof.
  intros Hb Hh s Hs. unfold try_except. rewrite (Hb s Hs).
  destruct (m (current s)) as [[a|e] d]; [done|]. by rewrite Hh.
Qed.

Lemma refines_transaction {A} body (m : ST D A) :
  refines body m → refines (transaction body) (begin_nested m).
Proof.
  intros Hb s Hs. unfold transaction, begin_nested.
  rewrite decide_False by lia. rewrite Hb by (simpl; lia). simpl.
  by destruct (m (current s)) as [[a|e] d].
Qed.
End Session.
Arguments Session D : clear implicits.

#[export] Hint Resolve refines_execute refines_ret refines_raise refines_bind
  refines_try refines_transaction : shop.

(** A whole use-case: one transaction on the committed database. *)
Definition atomically {D A} (m : ST D A) : ST D A := begin_nested m.

Lemma atomically_err {D A} (m : ST D A) d e d' : atomically m d = (Err e, d') → d' = d.
Proof. unfold atomically, begin_nested. destruct (m d) as [[a|e'] d1]; congruence. Qed.

(** A session with no open work. *)
Definition idle {D} (d : D) : Session D := MkSession d d 0.

(** C25: the outermost [transaction] is all-or-nothing whatever the body nests
    inside it: the use-case [m] either commits everything it wrote, or - on any
    exception, cancellation included - leaves the committed database as it
    found it; and the handle is idle again (depth restored) on both exits. *)
Theorem transaction_atomic {D A} (body : ST (Session D) A) (m : ST D A) (d : D)
    (Href : refines body m) :
  transaction body (idle d) =
    (let '(r, d') := atomically m d in (r, idle d')).
Proof.
  unfold transaction, idle, atomically, begin_nested.
  rewrite decide_True by done. rewrite Href by (simpl; lia). simpl.
  by destruct (m d) as [[a|e] d'].
Qed.

(** a nested block never commits: run inside an open transaction, a
    [transaction] of any body that acts like a plain computation leaves what
    other sessions see untouched, and undoes its own writes when it raises. *)
Theorem nested_transaction_is_savepoint {D A} (body : ST (Session D) A) (m : ST D A)
    (s : Session D) (Href : refines body m) (Hopen : (0 < depth s)%nat) :
  committed (transaction body s).2 = committed s ∧
  depth (transaction body s).2 = depth s ∧
  (∀ e, (transaction body s).1 = Err e → current (transaction body s).2 = current s).
Proof.
  rewrite (refines_transaction body m Href s Hopen). unfold begin_nested.
  by destruct (m (current s)) as [[a|e] d].
Qed.

(** The use-case of the witnesses: write, then a nested block that fails and
    is caught, then write again. *)
Definition sample_body : ST (Session nat) unit :=
  execute (modify (λ n, n + 1)%nat) ;;
  try_except (transaction (execute (modify (λ n, n + 10)%nat) ;; raise RuntimeError))
             (λ _, mret tt) ;;
  execute (modify (λ n, n + 100)%nat).

Definition sample_spec : ST nat unit :=
  modify (λ n, n + 1)%nat ;;
  try_except (begin_nested (modify (λ n, n + 10)%nat ;; raise RuntimeError))
             (λ _, mret tt) ;;
  modify (λ n, n + 100)%nat.

Lemma sample_refines : refines sample_body sample_spec.
Proof. unfold sample_body, sample_spec. eauto 10 with shop. Qed.

Lemma transaction_atomic_witness :
  transaction sample_body (idle 5%nat) = (Ok tt, idle 106%nat).
Proof.
  rewrite (transaction_atomic sample_body sample_spec 5%nat sample_refines).
  reflexivity.
Defined.

Lemma nested_transaction_is_savepoint_witness :
  committed (transaction sample_body (MkSession 1%nat 5%nat 1)).2 = 1%nat.
Proof.
  exact (proj1 (nested_transaction_is_savepoint sample_body sample_spec
    (MkSession 1%nat 5%nat 1) sample_refines ltac:(simpl; lia))).
Defined.
