(* ===== verification/Inventory.v ===== *)
(** * Inventory: stock rows, reservations and the oversell guard

    The tables of the [inventory] schema (src/inventory/adapters/db/models.py)
    with their CHECK, UNIQUE and FOREIGN KEY constraints, and the statements and
    methods of [InventoryRepository]
    (src/inventory/adapters/db/repository.py), one definition per method.  A
    repository method is a computation in [ST InvDB]: it flushes but never
    decides the transaction boundary.

    Identifiers minted by [uuid.uuid4] are numbers drawn from a counter (fresh
    by construction), timestamps are integers, [Integer] columns are kept at
    the width PostgreSQL gives them (int4: a write outside it raises
    [DataError]).  Rows locked by another transaction, which the reaper's claim
    skips ([SKIP LOCKED]), are an argument of the claim. *)

From stdpp Require Import sorting.
From S2P Require Import Prelude Errors UnitOfWork.

(** ** Data *)

Inductive ReservationStatus := HELD | RELEASED | COMMITTED.

#[export] Instance ReservationStatus_eq_dec : EqDecision ReservationStatus.
Proof. solve_decision. Defined.

(** One row of [inventory.inventory], keyed by its SKU. *)
Record Inventory := MkInventory { on_hand : Z; reserved : Z; version : Z }.

(** One row of [inventory.reservations]. *)
Record Reservation := MkReservation {
  res_id : N;
  res_sku : string;
  res_qty : Z;
  res_order_id : N;
  res_status : ReservationStatus;
  res_expires_at : Z
}.

#[export] Instance Inventory_eq_dec : EqDecision Inventory.
Proof. solve_decision. Defined.
#[export] Instance Reservation_eq_dec : EqDecision Reservation.
Proof. solve_decision. Defined.

(** Rows of [inventory.outbox] (src/inventory/application/outbox.py). *)
Inductive StockEvent :=
  | StockReserved (sku : string) (order_id : N) (quantity : Z)
  | StockReleased (sku : string) (order_id : N) (quantity : Z).

Record InvDB := MkInvDB {
  stock : gmap string Inventory;
  reservations : list Reservation;
  inv_outbox : list StockEvent;
  next_reservation : N
}.

Definition set_stock (st : gmap string Inventory) (d : InvDB) : InvDB :=
  MkInvDB st (reservations d) (inv_outbox d) (next_reservation d).
Definition set_reservations (rs : list Reservation) (d : InvDB) : InvDB :=
  MkInvDB (stock d) rs (inv_outbox d) (next_reservation d).
Definition outbox_add (e : StockEvent) : ST InvDB unit :=
  modify (λ d, MkInvDB (stock d) (reservations d) (inv_outbox d ++ [e]) (next_reservation d)).

Definition set_status (st : ReservationStatus) (r : Reservation) : Reservation :=
  MkReservation (res_id r) (res_sku r) (res_qty r) (res_order_id r) st (res_expires_at r).

(** [stock_reserved_outbox] / [stock_released_outbox]: the two [OutboxFactory]s. *)
Definition stock_reserved_outbox (sku : string) (order_id : N) (quantity : Z) : StockEvent :=
  StockReserved sku order_id quantity.
Definition stock_released_outbox (sku : string) (order_id : N) (quantity : Z) : StockEvent :=
  StockReleased sku order_id quantity.

(** ** Column types and constraints *)

(** The CHECK constraints of the [Inventory] model. *)
Definition stock_check (row : Inventory) : Prop :=
  0 ≤ on_hand row ∧ 0 ≤ reserved row ∧ reserved row ≤ on_hand row.

Definition stock_int4 (row : Inventory) : Prop :=
  int4 (on_hand row) ∧ int4 (reserved row) ∧ int4 (version row).

#[export] Instance stock_check_dec row : Decision (stock_check row).
Proof. unfold stock_check. apply _. Defined.
#[export] Instance stock_int4_dec row : Decision (stock_int4 row).
Proof. unfold stock_int4. apply _. Defined.

(** Storing a row: out-of-range values are a [DataError], a violated CHECK an
    [IntegrityError]. *)
Definition write_stock (sku : string) (row : Inventory) : ST InvDB unit := λ d,
  if decide (stock_int4 row) then
    if decide (stock_check row) then (Ok tt, set_stock (<[sku := row]> (stock d)) d)
    else (Err (IntegrityError CHECK_VIOLATION), d)
  else (Err DataError, d).

(** [UPDATE inventory SET ... WHERE sku = :sku AND guard]: the row count. *)
Definition update_stock (sku : string) (guard : Inventory → Prop)
    `{∀ row, Decision (guard row)} (f : Inventory → Inventory) : ST InvDB Z := λ d,
  match stock d !! sku with
  | Some row =>
      if decide (guard row) then (write_stock sku (f row) ;; mret 1) d else (Ok 0, d)
  | None => (Ok 0, d)
  end.

(** ** The statements *)

(** [_DECREMENT_SQL] via [try_reserve_decrement]: the atomic compare-and-swap. *)
Definition try_reserve_decrement (sku : string) (qty : Z) : ST InvDB Z :=
  update_stock sku (λ row, qty ≤ on_hand row - reserved row)
    (λ row, MkInventory (on_hand row) (reserved row + qty) (version row + 1)).

(** [_UNRESERVE_SQL] *)
Definition unreserve_sql (sku : string) (qty : Z) : ST InvDB Z :=
  update_stock sku (λ row, qty ≤ reserved row)
    (λ row, MkInventory (on_hand row) (reserved row - qty) (version row + 1)).

(** [_CONSUME_SQL] *)
Definition consume_sql (sku : string) (qty : Z) : ST InvDB Z :=
  update_stock sku (λ row, qty ≤ reserved row ∧ qty ≤ on_hand row)
    (λ row, MkInventory (on_hand row - qty) (reserved row - qty) (version row + 1)).

(** [_RESTOCK_SQL] *)
Definition restock_sql (sku : string) (qty : Z) : ST InvDB Z :=
  update_stock sku (λ _, True)
    (λ row, MkInventory (on_hand row + qty) (reserved row) (version row + 1)).

(** [_require_one] *)
Definition require_one (sql : ST InvDB Z) (what : string) : ST InvDB unit :=
  rowcount ← sql;
  if decide (rowcount = 1) then mret tt else raise (StockMutationError what).

(** [UPDATE reservations SET status = :st WHERE id = ANY(:ids)]: the statements
    [_MARK_COMMITTED_BATCH_SQL] and [_MARK_RELEASED_BATCH_SQL]. *)
Definition mark_batch (st : ReservationStatus) (ids : list N) : ST InvDB unit :=
  modify (λ d, set_reservations
    ((λ r, if decide (res_id r ∈ ids) then set_status st r else r) <$> reservations d) d).

(** [_ACTIVE_STATUSES] *)
Definition active (r : Reservation) : Prop := res_status r = HELD ∨ res_status r = COMMITTED.
#[export] Instance active_dec r : Decision (active r).
Proof. unfold active. apply _. Defined.

(** The flush of one fresh [Reservation]: CHECK, then the partial UNIQUE index
    over the active statuses, then the FOREIGN KEY to the stock row. *)
Definition insert_reservation (sku : string) (qty : Z) (order_id : N) (expires_at : Z)
    : ST InvDB Reservation := λ d,
  if decide (int4 qty) then
    if decide (0 < qty) then
      if decide (Exists (λ r, res_order_id r = order_id ∧ res_sku r = sku ∧ active r) (reservations d))
      then (Err (IntegrityError UNIQUE_VIOLATION), d)
      else match stock d !! sku with
           | None => (Err (IntegrityError FOREIGN_KEY_VIOLATION), d)
           | Some _ =>
               let r := MkReservation (next_reservation d) sku qty order_id HELD expires_at in
               (Ok r, MkInvDB (stock d) (reservations d ++ [r]) (inv_outbox d) (next_reservation d + 1))
           end
    else (Err (IntegrityError CHECK_VIOLATION), d)
  else (Err DataError, d).

(** ** Reads *)

Definition get_by_sku (sku : string) : ST InvDB (option Inventory) := λ d, (Ok (stock d !! sku), d).

(** [get_many_by_skus]: rows for the SKUs that have one. *)
Definition get_many_by_skus (skus : list string) : ST InvDB (gmap string Inventory) := λ d,
  if decide (skus = []) then (Ok ∅, d)
  else (Ok (filter (λ kr, kr.1 ∈ skus) (stock d)), d).

(** [upsert_stock] / [_UPSERT_SQL]: insert a fresh row, or re-point [on_hand]
    while the live holds fit under it; [None] when the guard refused. *)
Definition upsert_stock (sku : string) (new_on_hand : Z) : ST InvDB (option Inventory) := λ d,
  match stock d !! sku with
  | None =>
      let row := MkInventory new_on_hand 0 1 in
      (write_stock sku row ;; mret (Some row)) d
  | Some row =>
      if decide (reserved row ≤ new_on_hand) then
        let row' := MkInventory new_on_hand (reserved row)
          (if decide (on_hand row = new_on_hand) then version row else version row + 1) in
        (write_stock sku row' ;; mret (Some row')) d
      else (Ok None, d)
  end.

(** ** Placing holds *)

(** Python's [sorted(lines, key=lambda line: line[0])]. *)
Fixpoint insert_by_sku (x : string * Z) (l : list (string * Z)) : list (string * Z) :=
  match l with
  | [] => [x]
  | y :: l' => if String.leb x.1 y.1 then x :: y :: l' else y :: insert_by_sku x l'
  end.
Fixpoint sort_by_sku (l : list (string * Z)) : list (string * Z) :=
  match l with
  | [] => []
  | x :: l' => insert_by_sku x (sort_by_sku l')
  end.

(** [StockRejection]: the line whose stock refused the batch. *)
Record StockRejection := MkRejection { rej_sku : string; rej_qty : Z }.

(** [_active_map]: this order's non-released reservations for [skus]; a later
    row with the same SKU overwrites an earlier one, as in the dict. *)
Definition active_map (order_id : N) (skus : list string) : ST InvDB (gmap string Reservation) := λ d,
  (Ok (foldl (λ m r, <[res_sku r := r]> m) ∅
        (filter (λ r, res_order_id r = order_id ∧ res_sku r ∈ skus ∧ active r) (reservations d))), d).

(** The lines of one attempt, in order.  [inr rej] is the early return on a
    missing stock row. *)
Fixpoint reserve_lines (existing : gmap string Reservation) (order_id : N) (expires_at : Z)
    (lines : list (string * Z)) (placed : list Reservation)
    : ST InvDB (list Reservation + StockRejection) :=
  match lines with
  | [] => mret (inl placed)
  | (sku, qty) :: rest =>
      match existing !! sku with
      | Some cur =>
          if decide (res_qty cur = qty)
          then reserve_lines existing order_id expires_at rest (placed ++ [cur])
          else raise (AttemptConflict sku (res_qty cur) qty)
      | None => λ d,
          match insert_reservation sku qty order_id expires_at d with
          | (Err (IntegrityError FOREIGN_KEY_VIOLATION), d') => (Ok (inr (MkRejection sku qty)), d')
          | (Err (IntegrityError CHECK_VIOLATION), d') => (Err (InvalidReservationError sku), d')
          | (Err (IntegrityError UNIQUE_VIOLATION), d') => (Err (AttemptRaced sku), d')
          | (Err e, d') => (Err e, d')
          | (Ok reservation, d') =>
              (rowcount ← try_reserve_decrement sku qty;
               if decide (rowcount = 0) then raise (AttemptRejection sku qty)
               else outbox_add (stock_reserved_outbox sku order_id qty) ;;
                    reserve_lines existing order_id expires_at rest (placed ++ [reservation])) d'
          end
      end
  end.

Section Reserve.
(** SQLAlchemy's answer to "what does leaving a [begin_nested()] block
    normally do after a flush inside it failed?": [begin_nested] flushes
    pending objects before it opens its SAVEPOINT, so the failing flush runs
    in the enclosing attempt block and unwinds it ([true]); [false] would be a
    library in which the earlier lines of the attempt survive. *)
Variable flush_failure_unwinds : bool.

(** The attempt's own SAVEPOINT around its lines. *)
Definition attempt_block (ordered : list (string * Z)) (order_id : N) (expires_at : Z)
    (existing : gmap string Reservation) : ST InvDB (list Reservation + StockRejection) := λ d,
  match reserve_lines existing order_id expires_at ordered [] d with
  | (Ok (inl rows), d') => (Ok (inl rows), d')
  | (Ok (inr rej), d') => (Ok (inr rej), if flush_failure_unwinds then d else d')
  | (Err e, _) => (Err e, d)
  end.

(** [_reserve_attempt]: the first attempt inserts blind, the second one knows
    every conflicting row's fate. *)
Definition reserve_attempt (ordered : list (string * Z)) (order_id : N) (expires_at : Z)
    (attempt : nat) : ST InvDB (list Reservation + StockRejection) :=
  match attempt with
  | O => attempt_block ordered order_id expires_at ∅
  | S _ => active_map order_id ordered.*1 ≫= attempt_block ordered order_id expires_at
  end.

(** What [reserve_many] makes of an attempt that raised something other than
    [_AttemptRaced]. *)
Definition attempt_error (e : exn) : ST InvDB (list Reservation + StockRejection) :=
  match e with
  | AttemptRejection sku qty => mret (inr (MkRejection sku qty))
  | AttemptConflict sku held_qty qty => raise (ReservationConflictError sku held_qty qty)
  | e => raise e
  end.

(** [reserve_many]: SKU-sorted, two attempts, then contention. *)
Definition repo_reserve_many (lines : list (string * Z)) (order_id : N) (expires_at : Z)
    : ST InvDB (list Reservation + StockRejection) :=
  if decide (lines = []) then mret (inl [])
  else
    let ordered := sort_by_sku lines in
    let try_once attempt (raced : string → ST InvDB (list Reservation + StockRejection)) :=
      try_except (reserve_attempt ordered order_id expires_at attempt)
        (λ e, match e with AttemptRaced sku => raced sku | e => attempt_error e end) in
    try_once 0%nat (λ _, try_once 1%nat (λ sku, raise (ReservationContendedError sku))).

(** [reserve]: the one-line case. *)
Definition repo_reserve (sku : string) (qty : Z) (order_id : N) (expires_at : Z)
    : ST InvDB (option Reservation) :=
  r ← repo_reserve_many [(sku, qty)] order_id expires_at;
  match r with
  | inr _ => mret None
  | inl rows => mret (head rows)
  end.
End Reserve.

(** ** Ending holds *)

(** The guarded single-row flip ([_MARK_RELEASED_SQL] / [_MARK_COMMITTED_SQL]):
    the row it returned, if it was still [held]. *)
Definition mark_one (st : ReservationStatus) (id : N) : ST InvDB (option Reservation) := λ d,
  match head (filter (λ r, res_id r = id ∧ res_status r = HELD) (reservations d)) with
  | None => (Ok None, d)
  | Some r => (mark_batch st [id] ;; mret (Some r)) d
  end.

Definition release (reservation_id : N) : ST InvDB bool :=
  row ← mark_one RELEASED reservation_id;
  match row with
  | None => mret false
  | Some r =>
      require_one (unreserve_sql (res_sku r) (res_qty r)) "release unreserve" ;;
      outbox_add (stock_released_outbox (res_sku r) (res_order_id r) (res_qty r)) ;;
      mret true
  end.

Definition commit_reservation (reservation_id : N) : ST InvDB bool :=
  row ← mark_one COMMITTED reservation_id;
  match row with
  | None => mret false
  | Some r =>
      require_one (consume_sql (res_sku r) (res_qty r)) "commit consume" ;;
      mret true
  end.

(** The shape the batch methods share: mutate the stock of every claimed row,
    announce it where the method does, flip the rows. *)
Definition settle_rows (mutate : string → Z → ST InvDB Z) (announce : bool)
    (st : ReservationStatus) (what : string) (rows : list Reservation) : ST InvDB unit :=
  for_each rows (λ r,
    require_one (mutate (res_sku r) (res_qty r)) what ;;
    (if announce then outbox_add (stock_released_outbox (res_sku r) (res_order_id r) (res_qty r))
     else mret tt)) ;;
  mark_batch st (res_id <$> rows).

(** [_CLAIM_ORDER_SQL] / [_CLAIM_ORDER_COMMITTED_SQL] *)
Definition claim_order (order_id : N) (st : ReservationStatus) (d : InvDB) : list Reservation :=
  filter (λ r, res_order_id r = order_id ∧ res_status r = st) (reservations d).

(** [ORDER BY expires_at] *)
Definition expires_le (r1 r2 : Reservation) : Prop := res_expires_at r1 ≤ res_expires_at r2.
#[export] Instance expires_le_dec : RelDecision expires_le.
Proof. intros r1 r2. unfold expires_le. apply _. Defined.

(** [_CLAIM_EXPIRED_SQL], with the rows other transactions hold locked. *)
Definition claim_expired (now : Z) (batch : nat) (locked : N → bool) (d : InvDB) : list Reservation :=
  take batch (merge_sort expires_le
    (filter (λ r, res_status r = HELD ∧ res_expires_at r ≤ now ∧ locked (res_id r) = false)
      (reservations d))).

Definition release_expired (now : Z) (batch_size : nat) (locked : N → bool) : ST InvDB nat := λ d,
  match claim_expired now batch_size locked d with
  | [] => (Ok 0%nat, d)
  | rows => (settle_rows unreserve_sql true RELEASED "reaper unreserve" rows ;; mret (length rows)) d
  end.

Definition release_for_order (order_id : N) : ST InvDB nat := λ d,
  match claim_order order_id HELD d with
  | [] => (Ok 0%nat, d)
  | rows => (settle_rows unreserve_sql true RELEASED "order release unreserve" rows ;; mret (length rows)) d
  end.

Definition restock_for_order (order_id : N) : ST InvDB nat := λ d,
  match claim_order order_id COMMITTED d with
  | [] => (Ok 0%nat, d)
  | rows => (settle_rows restock_sql true RELEASED "order restock" rows ;; mret (length rows)) d
  end.

(** [commit_for_order]: all-or-nothing against [expected]; the answer is the
    order's committed total after the call. *)
Definition commit_for_order (order_id : N) (expected : nat) : ST InvDB nat := λ d,
  let rows := claim_order order_id HELD d in
  let already_committed := length (claim_order order_id COMMITTED d) in
  match rows with
  | [] => (Ok already_committed, d)
  | _ =>
      if decide (already_committed + length rows < expected)%nat then (Ok already_committed, d)
      else (settle_rows consume_sql false COMMITTED "order commit consume" rows ;;
            mret (already_committed + length rows)%nat) d
  end.
