(* ===== verification/InventoryInv.v ===== *)
(** * Inventory: the stock accounting invariant

    [InvOK] ties the counters of every stock row to the reservations table:
    [reserved] is exactly the quantity currently held, never more than
    [on_hand], and an order holds a line at most once.  Every repository
    method preserves it (in its own transaction), and under it the guarded
    stock mutations of the release/commit paths cannot fail. *)

From stdpp Require Import sorting.
From S2P Require Import Prelude Errors UnitOfWork Inventory.

(** ** Quantities *)

(** Units of [sku] in reservations of status [st]. *)
Definition qty_in (st : ReservationStatus) (sku : string) (rs : list Reservation) : Z :=
  sumZ (λ r, if decide (res_sku r = sku ∧ res_status r = st) then res_qty r else 0) rs.

(** Units of [sku] over a list of rows, whatever their status. *)
Definition qty_of (sku : string) (rs : list Reservation) : Z :=
  sumZ (λ r, if decide (res_sku r = sku) then res_qty r else 0) rs.

Definition line_key (r : Reservation) : N * string := (res_order_id r, res_sku r).

Record InvOK (d : InvDB) : Prop := {
  ok_rows : ∀ sku row, stock d !! sku = Some row → stock_check row ∧ stock_int4 row;
  ok_reserved : ∀ sku row, stock d !! sku = Some row →
    reserved row = qty_in HELD sku (reservations d);
  ok_fk : ∀ r, r ∈ reservations d → is_Some (stock d !! res_sku r);
  ok_qty : ∀ r, r ∈ reservations d → 0 < res_qty r ≤ int4_max;
  ok_ids : NoDup (res_id <$> reservations d);
  ok_fresh : ∀ r, r ∈ reservations d → (res_id r < next_reservation d)%N;
  ok_unique : NoDup (line_key <$> filter active (reservations d))
}.

Lemma qty_in_app st sku l1 l2 : qty_in st sku (l1 ++ l2) = qty_in st sku l1 + qty_in st sku l2.
Proof. apply sumZ_app. Qed.

Lemma qty_in_absent st sku l : (∀ r, r ∈ l → res_sku r ≠ sku) → qty_in st sku l = 0.
Proof.
  intros Hne. unfold qty_in. induction l as [|r l IH]; simpl; [done|].
  rewrite decide_False by (intros []; eapply Hne; [left|done]). rewrite IH; [lia|set_solver].
Qed.

Lemma qty_of_nonneg sku rows : (∀ r, r ∈ rows → 0 < res_qty r) → 0 ≤ qty_of sku rows.
Proof.
  intros Hq. apply sumZ_nonneg. intros r Hr. specialize (Hq r Hr). case_decide; lia.
Qed.

Lemma qty_of_absent sku rows : (∀ r, r ∈ rows → res_sku r ≠ sku) → qty_of sku rows = 0.
Proof.
  induction rows as [|r rows IH]; intros Hne; [done|].
  unfold qty_of. simpl. rewrite decide_False by set_solver.
  rewrite Z.add_0_l. apply IH. set_solver.
Qed.

Lemma NoDup_res_ids l : NoDup (res_id <$> l) → NoDup l.
Proof. apply NoDup_fmap_1. Qed.

(** ** What a batch of rows looks like: distinct rows of the table *)

Record batch_of (st : ReservationStatus) (rows : list Reservation) (d : InvDB) : Prop := {
  batch_nodup : NoDup rows;
  batch_in : ∀ r, r ∈ rows → r ∈ reservations d;
  batch_status : ∀ r, r ∈ rows → res_status r = st
}.

Lemma claim_order_batch d oid st : InvOK d → batch_of st (claim_order oid st d) d.
Proof.
  intros HI. unfold claim_order. constructor.
  - apply NoDup_filter, NoDup_res_ids, HI.
  - intros r. rewrite list_elem_of_filter. naive_solver.
  - intros r. rewrite list_elem_of_filter. naive_solver.
Qed.

Lemma claim_expired_batch d now n lk : InvOK d → batch_of HELD (claim_expired now n lk d) d.
Proof.
  intros HI. unfold claim_expired.
  set (l := filter _ (reservations d)).
  assert (merge_sort expires_le l ≡ₚ l) as Hp by apply merge_sort_Permutation.
  assert (∀ r, r ∈ take n (merge_sort expires_le l) → r ∈ l) as Hin.
  { intros r Hr. rewrite <- Hp. by eapply subseteq_take. }
  constructor.
  - eapply sublist_NoDup; [|apply sublist_take]. rewrite Hp. apply NoDup_filter, NoDup_res_ids, HI.
  - intros r Hr%Hin. apply list_elem_of_filter in Hr. naive_solver.
  - intros r Hr%Hin. apply list_elem_of_filter in Hr. naive_solver.
Qed.

Lemma mark_one_batch d id r :
  InvOK d → head (filter (λ r, res_id r = id ∧ res_status r = HELD) (reservations d)) = Some r →
  batch_of HELD [r] d ∧ res_id r = id.
Proof.
  intros HI Hh. apply head_Some_elem_of, list_elem_of_filter in Hh as [[Hid Hst] Hin].
  split; [|done]. constructor.
  - apply NoDup_singleton. - set_solver. - set_solver.
Qed.

(** Marking by id touches exactly the rows of the batch. *)
Definition mark (st : ReservationStatus) (rows : list Reservation) (r : Reservation) : Reservation :=
  if decide (r ∈ rows) then set_status st r else r.

Lemma mark_in st rows r : r ∈ rows → mark st rows r = set_status st r.
Proof. unfold mark. intros. by rewrite decide_True. Qed.
Lemma mark_out st rows r : r ∉ rows → mark st rows r = r.
Proof. unfold mark. intros. by rewrite decide_False. Qed.

Lemma mark_by_id d st0 st rows r :
  InvOK d → batch_of st0 rows d → r ∈ reservations d →
  (if decide (res_id r ∈ res_id <$> rows) then set_status st r else r) = mark st rows r.
Proof.
  intros HI HB Hr. unfold mark.
  destruct (decide (r ∈ rows)) as [Hin|Hnin].
  - rewrite decide_True; [done|]. apply list_elem_of_fmap. eauto.
  - rewrite decide_False; [done|]. intros (r' & Heq & Hr')%list_elem_of_fmap. apply Hnin.
    assert (r = r') as ->; [|done].
    eapply (NoDup_fmap_inj res_id (reservations d)); eauto; [apply HI|by eapply batch_in].
Qed.

Lemma mark_fields st rows r :
  res_id (mark st rows r) = res_id r ∧ res_sku (mark st rows r) = res_sku r ∧
  res_qty (mark st rows r) = res_qty r ∧ res_order_id (mark st rows r) = res_order_id r ∧
  line_key (mark st rows r) = line_key r ∧ res_expires_at (mark st rows r) = res_expires_at r.
Proof. unfold mark. by case_decide. Qed.

(** The batch, as a filter of the table. *)
Lemma batch_perm d st0 rows :
  InvOK d → batch_of st0 rows d → rows ≡ₚ filter (λ r, r ∈ rows) (reservations d).
Proof.
  intros HI HB. apply NoDup_Permutation.
  - apply HB. - apply NoDup_filter, NoDup_res_ids, HI.
  - intros r. rewrite list_elem_of_filter. split; [|naive_solver].
    intros Hr. split; [done|]. by eapply batch_in.
Qed.

(** How marking a batch moves the quantities per status. *)
Lemma qty_in_mark d st0 st rows s sku :
  InvOK d → batch_of st0 rows d →
  qty_in s sku (mark st rows <$> reservations d) =
    qty_in s sku (reservations d)
    - (if decide (s = st0) then qty_of sku rows else 0)
    + (if decide (s = st) then qty_of sku rows else 0).
Proof.
  intros HI HB.
  assert (qty_of sku rows = sumZ (λ r, if decide (r ∈ rows) then
      (if decide (res_sku r = sku) then res_qty r else 0) else 0) (reservations d)) as Hq.
  { unfold qty_of. rewrite (batch_perm d st0 rows HI HB) at 1. by rewrite sumZ_filter_split. }
  rewrite Hq. clear Hq. unfold qty_in. rewrite sumZ_fmap.
  pose proof (batch_status _ _ _ HB) as Hst.
  induction (reservations d) as [|r l IH]; simpl; [repeat case_decide; lia|].
  assert (∀ r, r ∈ rows → res_status r = st0) as Hr by done. specialize (Hr r).
  rewrite IH. unfold mark, set_status.
  repeat (case_decide; simpl in *; try lia); try (exfalso; naive_solver congruence); naive_solver lia.
Qed.

Lemma active_keys_sublist (f : Reservation → Reservation) l :
  (∀ r, r ∈ l → line_key (f r) = line_key r ∧ (active (f r) → active r)) →
  sublist (line_key <$> filter active (f <$> l)) (line_key <$> filter active l).
Proof.
  induction l as [|r l IH]; intros Hf; [done|]. rewrite fmap_cons, !filter_cons.
  destruct (Hf r ltac:(set_solver)) as [Hk Ha].
  assert (sublist (line_key <$> filter active (f <$> l)) (line_key <$> filter active l)) as IH'
    by (apply IH; set_solver).
  destruct (decide (active (f r))).
  - rewrite decide_True by auto. rewrite !fmap_cons, Hk. by constructor.
  - destruct (decide (active r)); [by constructor|done].
Qed.

(** ** The stock mutations *)

(** [mutate sku qty] moves [a * qty] units of [on_hand] and [b * qty] of
    [reserved] when [guard] lets it. *)
Definition moved (a b qty n : Z) (row : Inventory) : Inventory :=
  MkInventory (on_hand row + a * qty) (reserved row + b * qty) (version row + n).

Class StockMove (mutate : string → Z → ST InvDB Z) (a b : Z) := {
  move_guard : Inventory → Z → Prop;
  move_guard_dec row q : Decision (move_guard row q);
  move_spec : ∀ sku q d, mutate sku q d =
    match stock d !! sku with
    | Some row => if decide (move_guard row q)
                  then (write_stock sku (moved a b q 1 row) ;; mret 1) d else (Ok 0, d)
    | None => (Ok 0, d)
    end;
  (** the guard is no stronger than what the CHECK constraints demand *)
  move_guard_ok : ∀ row q total, 0 < q ≤ total → stock_check row →
    stock_check (moved a b total 0 row) → move_guard row q
}.
#[export] Existing Instance move_guard_dec.

Ltac solve_move_spec :=
  intros sku q d; unfold try_reserve_decrement, unreserve_sql, consume_sql, restock_sql, update_stock;
  destruct (stock d !! sku); [|done]; unfold moved;
  repeat case_decide; try done; try tauto; do 3 f_equal; lia.

#[export] Instance decrement_move : StockMove try_reserve_decrement 0 1.
Proof.
  apply (Build_StockMove _ _ _ (λ row q, q ≤ on_hand row - reserved row)
    (λ row q, decide (q ≤ on_hand row - reserved row))); [solve_move_spec|].
  unfold stock_check, moved. simpl. lia.
Defined.
#[export] Instance unreserve_move : StockMove unreserve_sql 0 (-1).
Proof.
  apply (Build_StockMove _ _ _ (λ row q, q ≤ reserved row)
    (λ row q, decide (q ≤ reserved row))); [solve_move_spec|].
  unfold stock_check, moved. simpl. lia.
Defined.
#[export] Instance consume_move : StockMove consume_sql (-1) (-1).
Proof.
  apply (Build_StockMove _ _ _ (λ row q, q ≤ reserved row ∧ q ≤ on_hand row)
    (λ row q, decide (q ≤ reserved row ∧ q ≤ on_hand row))); [solve_move_spec|].
  unfold stock_check, moved. simpl. lia.
Defined.
#[export] Instance restock_move : StockMove restock_sql 1 0.
Proof.
  apply (Build_StockMove _ _ _ (λ row q, True)
    (λ row q, decide (True))); [solve_move_spec|].
  done.
Defined.

Lemma move_inv mutate a b `{!StockMove mutate a b} sku q d n d' :
  mutate sku q d = (Ok n, d') →
  (n = 0 ∧ d' = d) ∨
  (n = 1 ∧ ∃ row, stock d !! sku = Some row ∧ stock_check (moved a b q 1 row) ∧
     stock_int4 (moved a b q 1 row) ∧ d' = set_stock (<[sku := moved a b q 1 row]> (stock d)) d).
Proof.
  rewrite move_spec. intros H. destruct (stock d !! sku) as [row|] eqn:E; [|naive_solver].
  case_decide; [|naive_solver]. unfold write_stock in H. st_simp.
  case_decide; [|by simplify_eq/=]. case_decide; [|by simplify_eq/=]. simplify_eq/=.
  right. split; [done|]. by exists row.
Qed.

Lemma move_ok mutate a b `{!StockMove mutate a b} sku q d row :
  stock d !! sku = Some row → move_guard row q →
  stock_check (moved a b q 1 row) → stock_int4 (moved a b q 1 row) →
  mutate sku q d = (Ok 1, set_stock (<[sku := moved a b q 1 row]> (stock d)) d).
Proof.
  intros Hs Hg Hc Hi. rewrite move_spec, Hs, decide_True by done.
  unfold mbind, ST_bind, write_stock. by rewrite !decide_True by done.
Qed.

(** ** The settle loop *)

(** The stock after the rows of a batch were mutated one by one. *)
Definition stock_moved (a b : Z) (rows : list Reservation) (st st' : gmap string Inventory) : Prop :=
  ∀ sku, match st !! sku, st' !! sku with
         | Some row, Some row' =>
             on_hand row' = on_hand row + a * qty_of sku rows ∧
             reserved row' = reserved row + b * qty_of sku rows ∧
             (row = row' ∨ stock_check row' ∧ stock_int4 row')
         | None, None => True
         | _, _ => False
         end.

Definition announced (announce : bool) (rows : list Reservation) : list StockEvent :=
  if announce then (λ r, stock_released_outbox (res_sku r) (res_order_id r) (res_qty r)) <$> rows
  else [].

Lemma stock_moved_cons a b r rows st st' row :
  st !! res_sku r = Some row →
  stock_check (moved a b (res_qty r) 1 row) → stock_int4 (moved a b (res_qty r) 1 row) →
  stock_moved a b rows (<[res_sku r := moved a b (res_qty r) 1 row]> st) st' →
  stock_moved a b (r :: rows) st st'.
Proof.
  intros Hs Hc Hi Hm sku. specialize (Hm sku). unfold qty_of in *. simpl.
  destruct (decide (res_sku r = sku)) as [<-|Hne].
  - rewrite lookup_insert_eq in Hm. rewrite Hs.
    destruct (st' !! res_sku r) as [row'|]; [|done]. simpl in Hm.
    destruct Hm as (H1 & H2 & H3). split_and!; [lia|lia|].
    right. destruct H3 as [<-|?]; done.
  - rewrite lookup_insert_ne in Hm by done.
    destruct (st !! sku), (st' !! sku); try done.
Qed.

Definition settle_body (mutate : string → Z → ST InvDB Z) (announce : bool) (what : string)
    (r : Reservation) : ST InvDB unit :=
  require_one (mutate (res_sku r) (res_qty r)) what ;;
  (if announce then outbox_add (stock_released_outbox (res_sku r) (res_order_id r) (res_qty r))
   else mret tt).

Section Settle.
Context (mutate : string → Z → ST InvDB Z) (a b : Z) `{!StockMove mutate a b}.
Context (announce : bool) (what : string).

Lemma settle_body_ok r d row :
  stock d !! res_sku r = Some row → move_guard row (res_qty r) →
  stock_check (moved a b (res_qty r) 1 row) → stock_int4 (moved a b (res_qty r) 1 row) →
  settle_body mutate announce what r d =
    (Ok tt, MkInvDB (<[res_sku r := moved a b (res_qty r) 1 row]> (stock d)) (reservations d)
              (inv_outbox d ++ announced announce [r]) (next_reservation d)).
Proof.
  intros Hs Hg Hc Hi. unfold settle_body, require_one. st_simp.
  rewrite (move_ok mutate a b _ _ _ _ Hs Hg Hc Hi). simpl.
  destruct announce; simpl; [done|]. by rewrite app_nil_r.
Qed.

Lemma settle_body_inv r d d' :
  settle_body mutate announce what r d = (Ok tt, d') →
  ∃ row, stock d !! res_sku r = Some row ∧
    stock_check (moved a b (res_qty r) 1 row) ∧ stock_int4 (moved a b (res_qty r) 1 row) ∧
    d' = MkInvDB (<[res_sku r := moved a b (res_qty r) 1 row]> (stock d)) (reservations d)
           (inv_outbox d ++ announced announce [r]) (next_reservation d).
Proof.
  unfold settle_body, require_one. st_simp. intros H.
  destruct (mutate (res_sku r) (res_qty r) d) as [[n|e] d1] eqn:E; [|done].
  apply (move_inv mutate a b) in E as [[-> ->]|(-> & row & Hs & Hc & Hi & ->)]; [done|].
  exists row. split_and!; [done..|]. unfold outbox_add in H. st_simp.
  destruct announce; simplify_eq/=; [done|]. by rewrite app_nil_r.
Qed.

(** What a loop that went through did. *)
Lemma settle_loop_inv rows : ∀ d d',
  for_each rows (settle_body mutate announce what) d = (Ok tt, d') →
  reservations d' = reservations d ∧ next_reservation d' = next_reservation d ∧
  inv_outbox d' = inv_outbox d ++ announced announce rows ∧
  stock_moved a b rows (stock d) (stock d').
Proof.
  induction rows as [|r rows IH]; intros d d' H.
  - simpl in H. st_simp. simplify_eq. split_and!; [done..| |].
    + destruct announce; by rewrite app_nil_r.
    + intros sku. unfold qty_of. simpl. destruct (stock d' !! sku); [|done]. split_and!; lia || by left.
  - simpl in H. unfold mbind, ST_bind in H.
    destruct (settle_body _ _ _ r d) as [[[]|e] d1] eqn:E; [|done].
    apply settle_body_inv in E as (row & Hs & Hc & Hi & ->).
    apply IH in H as (H1 & H2 & H3 & H4). simpl in *. split_and!; [done..| |].
    + rewrite H3. destruct announce; simpl; by rewrite <- ?app_assoc, ?app_nil_r.
    + by eapply stock_moved_cons.
Qed.

(** When every row can take its whole share, the loop goes through. *)
Lemma settle_loop_ok rows : ∀ d,
  (∀ r, r ∈ rows → 0 < res_qty r ∧ is_Some (stock d !! res_sku r)) →
  (∀ sku row, stock d !! sku = Some row →
     stock_check row ∧ int4 (on_hand row) ∧ int4 (reserved row) ∧ 0 ≤ version row ∧
     version row + Z.of_nat (length rows) ≤ int4_max ∧
     stock_check (moved a b (qty_of sku rows) 0 row) ∧
     int4 (on_hand row + a * qty_of sku rows)) →
  -1 ≤ a ≤ 1 → -1 ≤ b ≤ 1 →
  ∃ d', for_each rows (settle_body mutate announce what) d = (Ok tt, d').
Proof.
  induction rows as [|r rows IH]; intros d Hrows Hst Ha Hb; [by eexists|].
  destruct (Hrows r ltac:(set_solver)) as [Hq [row Hs]].
  assert (0 ≤ qty_of (res_sku r) rows) as Hnn.
  { apply qty_of_nonneg. intros r' Hr'. apply Hrows. set_solver. }
  assert (qty_of (res_sku r) (r :: rows) = res_qty r + qty_of (res_sku r) rows) as Hcons.
  { unfold qty_of. simpl. by rewrite decide_True. }
  destruct (Hst _ _ Hs) as (Hc & Hi1 & Hi2 & Hv0 & Hv & Hc' & Hi').
  rewrite Hcons in Hc', Hi'. rewrite length_cons in Hv.
  assert (move_guard row (res_qty r)) as Hg by (eapply move_guard_ok; eauto; lia).
  assert (stock_check (moved a b (res_qty r) 1 row) ∧ stock_int4 (moved a b (res_qty r) 1 row))
    as [Hc1 Hi3].
  { unfold stock_check, stock_int4, moved, int4, int4_max in *. simpl in *.
    assert (a = -1 ∨ a = 0 ∨ a = 1) as Ha3 by lia.
    assert (b = -1 ∨ b = 0 ∨ b = 1) as Hb3 by lia.
    destruct Ha3 as [Ea|[Ea|Ea]], Hb3 as [Eb|[Eb|Eb]]; rewrite ?Ea, ?Eb in *; lia. }
  simpl. unfold mbind, ST_bind. rewrite (settle_body_ok r d row) by done.
  apply IH; [| |done..]; simpl.
  - intros r' Hr'. destruct (Hrows r' ltac:(set_solver)) as [? [x Hx]]. split; [done|].
    destruct (decide (res_sku r = res_sku r')) as [->|]; simplify_map_eq; eauto.
  - intros sku row' Hrow'. destruct (decide (res_sku r = sku)) as [<-|Hne].
    + rewrite lookup_insert_eq in Hrow'. simplify_eq.
      unfold stock_check, stock_int4, moved, int4, int4_max in *. simpl in *. lia.
    + rewrite lookup_insert_ne in Hrow' by done.
      destruct (Hst _ _ Hrow') as (? & ? & ? & ? & Hv' & Hc2 & Hi4). rewrite length_cons in Hv'.
      unfold qty_of in Hc2, Hi4. simpl in Hc2, Hi4. rewrite decide_False in Hc2, Hi4 by done.
      rewrite Z.add_0_l in Hc2, Hi4. split_and!; try done; lia.
Qed.
End Settle.

(** ** Settling a batch keeps the books *)

Record settled (a b : Z) (announce : bool) (st : ReservationStatus) (rows : list Reservation)
    (d d' : InvDB) : Prop := {
  settled_rows : reservations d' = mark st rows <$> reservations d;
  settled_next : next_reservation d' = next_reservation d;
  settled_outbox : inv_outbox d' = inv_outbox d ++ announced announce rows;
  settled_stock : stock_moved a b rows (stock d) (stock d')
}.

Lemma settle_rows_unfold mutate announce st what rows d :
  settle_rows mutate announce st what rows d =
  (for_each rows (settle_body mutate announce what) ;; mark_batch st (res_id <$> rows)) d.
Proof. done. Qed.

Lemma mark_batch_marks d st0 st rows rs :
  InvOK d → batch_of st0 rows d → rs = reservations d →
  (λ r, if decide (res_id r ∈ res_id <$> rows) then set_status st r else r) <$> rs = mark st rows <$> rs.
Proof.
  intros HI HB ->. apply list_fmap_ext. intros i r Hr.
  eapply mark_by_id; eauto using list_elem_of_lookup_2.
Qed.

Lemma settle_rows_inv mutate a b `{!StockMove mutate a b} announce st0 st what rows d d' r :
  InvOK d → batch_of st0 rows d →
  settle_rows mutate announce st what rows d = (Ok r, d') → settled a b announce st rows d d'.
Proof.
  intros HI HB. rewrite settle_rows_unfold. unfold mbind, ST_bind.
  destruct (for_each _ _ d) as [[[]|e] d1] eqn:E; [|done]. intros H.
  apply (settle_loop_inv mutate a b) in E as (H1 & H2 & H3 & H4).
  unfold mark_batch, modify in H. simplify_eq/=.
  constructor; simpl; [|done..]. rewrite <- H1 at 1.
  eapply (mark_batch_marks d); eauto.
Qed.

Lemma settle_rows_ok mutate a b `{!StockMove mutate a b} announce st0 st what rows d :
  InvOK d → batch_of st0 rows d → -1 ≤ a ≤ 1 → -1 ≤ b ≤ 1 →
  (∀ sku row, stock d !! sku = Some row →
     0 ≤ version row ∧ version row + Z.of_nat (length rows) ≤ int4_max ∧
     stock_check (moved a b (qty_of sku rows) 0 row) ∧ int4 (on_hand row + a * qty_of sku rows)) →
  ∃ d', settle_rows mutate announce st what rows d = (Ok tt, d') ∧ settled a b announce st rows d d'.
Proof.
  intros HI HB Ha Hb Hrow.
  destruct (settle_loop_ok mutate a b announce what rows d) as [d1 E]; [| |done..|].
  - intros r Hr%(batch_in _ _ _ HB). split; [by apply (ok_qty d HI)|by eapply ok_fk].
  - intros sku row Hs. destruct (ok_rows d HI _ _ Hs) as [? (?&?&?)].
    destruct (Hrow _ _ Hs) as (?&?&?&?). split_and!; done.
  - eexists. assert (∀ d', settle_rows mutate announce st what rows d = (Ok tt, d') →
      settle_rows mutate announce st what rows d = (Ok tt, d') ∧ settled a b announce st rows d d') as Hs.
    { intros d' Hd'. split; [done|]. by eapply settle_rows_inv. }
    apply Hs. rewrite settle_rows_unfold. unfold mbind, ST_bind. rewrite E. done.
Qed.

Lemma settled_lookup a b announce st rows d d' sku row' :
  settled a b announce st rows d d' → stock d' !! sku = Some row' →
  ∃ row, stock d !! sku = Some row ∧
    on_hand row' = on_hand row + a * qty_of sku rows ∧
    reserved row' = reserved row + b * qty_of sku rows ∧
    (row = row' ∨ stock_check row' ∧ stock_int4 row').
Proof.
  intros HS Hr. pose proof (settled_stock _ _ _ _ _ _ _ HS sku) as Hm. rewrite Hr in Hm.
  destruct (stock d !! sku) as [row|]; [|done]. eauto.
Qed.

(** Statuses only move forward: out of [held] into a terminal one, or from
    [committed] to [released] (the restock). *)
Definition settles_to (st0 st : ReservationStatus) : Prop :=
  st ≠ HELD ∧ (st = RELEASED ∨ st0 = HELD).

Lemma settled_InvOK a b announce st0 st rows d d' :
  InvOK d → batch_of st0 rows d → settled a b announce st rows d d' →
  settles_to st0 st → b = (if decide (st0 = HELD) then -1 else 0) → InvOK d'.
Proof.
  intros HI HB HS [Hst Hact] ->.
  pose proof (settled_rows _ _ _ _ _ _ _ HS) as Hrs.
  assert (∀ r', r' ∈ reservations d' → ∃ r, r ∈ reservations d ∧ r' = mark st rows r) as Hin.
  { intros r'. rewrite Hrs. intros (r & -> & Hr)%list_elem_of_fmap. eauto. }
  constructor.
  - intros sku row' Hr. eapply settled_lookup in Hr as (row & Hs & _ & _ & [->|?]); eauto.
    by eapply ok_rows.
  - intros sku row' Hr. eapply settled_lookup in Hr as (row & Hs & _ & Hres & _); eauto.
    rewrite Hrs, (qty_in_mark d st0 st) by done. rewrite Hres, (ok_reserved d HI _ _ Hs).
    destruct (decide (HELD = st)); [congruence|].
    destruct (decide (st0 = HELD)), (decide (HELD = st0)); try congruence; lia.
  - intros r' (r & Hr & ->)%Hin. destruct (mark_fields st rows r) as (_ & -> & _).
    destruct (ok_fk d HI r Hr) as [row Hs].
    pose proof (settled_stock _ _ _ _ _ _ _ HS (res_sku r)) as Hm. rewrite Hs in Hm.
    destruct (stock d' !! res_sku r); [by eexists|done].
  - intros r' (r & Hr & ->)%Hin. destruct (mark_fields st rows r) as (_ & _ & -> & _).
    by eapply ok_qty.
  - rewrite Hrs, <- list_fmap_compose.
    erewrite list_fmap_ext; [apply (ok_ids d HI)|]. intros i r _. apply mark_fields.
  - intros r' (r & Hr & ->)%Hin. destruct (mark_fields st rows r) as (-> & _).
    rewrite (settled_next _ _ _ _ _ _ _ HS). by eapply ok_fresh.
  - rewrite Hrs. eapply sublist_NoDup; [apply (ok_unique d HI)|]. apply active_keys_sublist.
    intros r Hr. split; [apply mark_fields|]. unfold mark. destruct (decide (r ∈ rows)) as [Hd|Hd]; [|tauto].
    intros Hac. pose proof (batch_status _ _ _ HB r Hd). unfold active, set_status in *.
    destruct Hact as [->| ->]; simpl in *; [by destruct Hac|by left].
Qed.

(** ** Conservation *)

(** Units of a SKU that exist: on the shelf, or sold (committed). *)
Definition units (sku : string) (d : InvDB) : option Z :=
  (λ row, on_hand row + qty_in COMMITTED sku (reservations d)) <$> stock d !! sku.

Lemma settled_units a b announce st0 st rows d d' sku :
  InvOK d → batch_of st0 rows d → settled a b announce st rows d d' →
  a = (if decide (COMMITTED = st0) then 1 else 0) - (if decide (COMMITTED = st) then 1 else 0) →
  units sku d' = units sku d.
Proof.
  intros HI HB HS ->. unfold units.
  pose proof (settled_stock _ _ _ _ _ _ _ HS sku) as Hm.
  destruct (stock d !! sku) as [row|], (stock d' !! sku) as [row'|]; try done; simpl.
  destruct Hm as (Hoh & _). rewrite Hoh, (settled_rows _ _ _ _ _ _ _ HS), (qty_in_mark d st0 st) by done.
  f_equal. repeat case_decide; lia.
Qed.
