(* ===== verification/InventoryHolds.v ===== *)
(** * Inventory: placing holds

    The proofs about [reserve_many]: what one attempt places, that the batch is
    all-or-nothing, that a replay deducts nothing twice and that, for distinct
    SKUs, the second attempt always decides. *)

From stdpp Require Import sorting.
From S2P Require Import Prelude Errors UnitOfWork Inventory InventoryInv.

(** ** Sorting the lines *)

Lemma insert_by_sku_perm x l : insert_by_sku x l ≡ₚ x :: l.
Proof.
  induction l as [|y l IH]; simpl; [done|]. destruct (String.leb x.1 y.1); [done|].
  rewrite IH. constructor.
Qed.

Lemma sort_by_sku_perm l : sort_by_sku l ≡ₚ l.
Proof. induction l as [|x l IH]; simpl; [done|]. by rewrite insert_by_sku_perm, IH. Qed.

Definition sku_le (x y : string * Z) : Prop := String.leb x.1 y.1 = true.

Lemma insert_by_sku_sorted x l : Sorted sku_le l → Sorted sku_le (insert_by_sku x l).
Proof.
  induction l as [|y l IH]; intros Hs; simpl; [by repeat constructor|].
  destruct (String.leb x.1 y.1) eqn:E; [by constructor; [|constructor]|].
  assert (sku_le y x) as Hyx.
  { unfold sku_le. destruct (String.leb_total x.1 y.1) as [H|H]; congruence. }
  inversion_clear Hs. constructor; [by apply IH|].
  destruct l as [|z l]; simpl in *; [by constructor|].
  inversion_clear H0. destruct (String.leb x.1 z.1); by constructor.
Qed.

Lemma sort_by_sku_sorted l : Sorted sku_le (sort_by_sku l).
Proof. induction l; simpl; [constructor|by apply insert_by_sku_sorted]. Qed.

(** ** Rows of the active index *)

Lemma active_unique d r1 r2 :
  InvOK d → r1 ∈ reservations d → r2 ∈ reservations d → active r1 → active r2 →
  line_key r1 = line_key r2 → r1 = r2.
Proof.
  intros HI H1 H2 A1 A2. apply (NoDup_fmap_inj line_key _ _ _ (ok_unique d HI));
    by apply list_elem_of_filter.
Qed.

(** [existing] lists active reservations of this order, under their SKU. *)
Definition existing_ok (oid : N) (existing : gmap string Reservation) (d : InvDB) : Prop :=
  ∀ sku cur, existing !! sku = Some cur →
    cur ∈ reservations d ∧ active cur ∧ line_key cur = (oid, sku).

Lemma fold_rows_lookup (l : list Reservation) : ∀ (m : gmap string Reservation) sku cur,
  foldl (λ m r, <[res_sku r := r]> m) m l !! sku = Some cur →
  (cur ∈ l ∧ res_sku cur = sku) ∨ m !! sku = Some cur.
Proof.
  induction l as [|r l IH]; intros m sku cur H; simpl in H; [by right|].
  apply IH in H as [[? ?]|H]; [left; set_solver|].
  destruct (decide (res_sku r = sku)) as [<-|]; simplify_map_eq; [left; set_solver|by right].
Qed.

Lemma fold_rows_some (l : list Reservation) : ∀ (m : gmap string Reservation) sku,
  (∃ r, r ∈ l ∧ res_sku r = sku) ∨ is_Some (m !! sku) →
  is_Some (foldl (λ m r, <[res_sku r := r]> m) m l !! sku).
Proof.
  induction l as [|r l IH]; intros m sku H; simpl; [set_solver|]. apply IH.
  destruct (decide (res_sku r = sku)) as [<-|]; [right; simplify_map_eq; eauto|].
  destruct H as [(r' & Hr' & <-)|H].
  - left. exists r'. set_solver.
  - right. by simplify_map_eq.
Qed.

Lemma active_map_ok oid skus d :
  ∃ m, active_map oid skus d = (Ok m, d) ∧ existing_ok oid m d ∧
    (∀ r, r ∈ reservations d → active r → res_order_id r = oid → res_sku r ∈ skus →
          is_Some (m !! res_sku r)).
Proof.
  eexists. split; [reflexivity|]. split.
  - intros sku cur Hc. apply fold_rows_lookup in Hc as [[Hin <-]|?]; [|done].
    apply list_elem_of_filter in Hin as [(<- & _ & ?) ?]. done.
  - intros r Hr Ha <- Hs. apply fold_rows_some. left. exists r. split; [|done].
    by apply list_elem_of_filter.
Qed.

(** ** What a (partial) attempt placed *)

Record placed_holds (oid : N) (expires_at : Z) (new : list Reservation) (d d' : InvDB) : Prop := {
  ph_rows : reservations d' = reservations d ++ new;
  ph_new : ∀ r, r ∈ new → res_order_id r = oid ∧ res_status r = HELD ∧ res_expires_at r = expires_at;
  ph_outbox : inv_outbox d' = inv_outbox d ++
    ((λ r, stock_reserved_outbox (res_sku r) (res_order_id r) (res_qty r)) <$> new);
  ph_stock : stock_moved 0 1 new (stock d) (stock d');
  ph_free : ∀ r row, r ∈ new → stock d !! res_sku r = Some row → res_qty r ≤ on_hand row - reserved row;
  ph_ok : InvOK d'
}.

Lemma placed_nil oid exp d : InvOK d → placed_holds oid exp [] d d.
Proof.
  intros HI. constructor; try set_solver.
  - by rewrite app_nil_r.
  - by rewrite app_nil_r.
  - intros sku. unfold qty_of. simpl. destruct (stock d !! sku); [|done]. split_and!; [lia|lia|by left].
Qed.

Lemma placed_units oid exp new d d' sku :
  placed_holds oid exp new d d' → units sku d' = units sku d.
Proof.
  intros HP. unfold units. pose proof (ph_stock _ _ _ _ _ HP sku) as Hm.
  destruct (stock d !! sku) as [row|], (stock d' !! sku) as [row'|]; try done; simpl. f_equal.
  destruct Hm as (-> & _). rewrite (ph_rows _ _ _ _ _ HP), qty_in_app.
  assert (qty_in COMMITTED sku new = 0) as ->; [|lia].
  pose proof (ph_new _ _ _ _ _ HP) as Hn. clear -Hn. unfold qty_in.
  induction new as [|r new IH]; simpl; [done|].
  rewrite decide_False by (intros []; destruct (Hn r ltac:(set_solver)) as (_&?&_); congruence).
  rewrite IH; [done|set_solver].
Qed.

(** One fresh line: INSERT, then the compare-and-swap that succeeded. *)
Lemma place_line sku qty oid exp d r d1 n d2 :
  InvOK d → insert_reservation sku qty oid exp d = (Ok r, d1) →
  try_reserve_decrement sku qty d1 = (Ok n, d2) → n ≠ 0 →
  ∃ row, stock d !! sku = Some row ∧ qty ≤ on_hand row - reserved row ∧
    r = MkReservation (next_reservation d) sku qty oid HELD exp ∧
    d2 = MkInvDB (<[sku := moved 0 1 qty 1 row]> (stock d)) (reservations d ++ [r])
           (inv_outbox d) (next_reservation d + 1) ∧
    stock_check (moved 0 1 qty 1 row) ∧ stock_int4 (moved 0 1 qty 1 row) ∧ InvOK d2.
Proof.
  intros HI Hins Hdec Hn. unfold insert_reservation in Hins.
  destruct (decide (int4 qty)) as [Hi4|]; [|done]. destruct (decide (0 < qty)) as [Hq|]; [|done].
  destruct (decide (Exists _ _)) as [|Hnex]; [done|].
  destruct (stock d !! sku) as [row|] eqn:Hs; [|done]. simplify_eq.
  apply (move_inv try_reserve_decrement 0 1) in Hdec as [[??]|(-> & row' & Hs' & Hc & Hi & ->)]; [done|].
  simpl in Hs'. rewrite Hs in Hs'. simplify_eq. exists row'. split_and!; try done.
  { unfold stock_check, moved in Hc. simpl in Hc. lia. }
  set (r := MkReservation _ _ _ _ _ _).
  constructor; simpl.
  - intros sku' row. destruct (decide (sku = sku')) as [<-|]; intros ?; simplify_map_eq; [done|].
    by eapply ok_rows.
  - intros sku' row Hr. rewrite qty_in_app.
    destruct (decide (sku = sku')) as [<-|Hne]; simplify_map_eq.
    + rewrite <- (ok_reserved d HI _ _ Hs). unfold qty_in. simpl. rewrite decide_True by done. lia.
    + rewrite <- (ok_reserved d HI _ _ Hr). unfold qty_in. simpl.
      rewrite decide_False by (intros []; congruence). lia.
  - intros r' [Hr'|Hr']%elem_of_app.
    + destruct (ok_fk d HI _ Hr') as [x Hx].
      destruct (decide (sku = res_sku r')) as [->|]; simplify_map_eq; eauto.
    + apply list_elem_of_singleton in Hr' as ->. simpl. simplify_map_eq. eauto.
  - intros r' [Hr'|Hr']%elem_of_app; [by eapply ok_qty|].
    apply list_elem_of_singleton in Hr' as ->. simpl. unfold int4 in Hi4. lia.
  - rewrite fmap_app. simpl. apply NoDup_app. split_and!; [apply HI| |apply NoDup_singleton].
    intros x (r' & -> & Hr')%list_elem_of_fmap Hx. apply list_elem_of_singleton in Hx.
    pose proof (ok_fresh d HI _ Hr'). lia.
  - intros r' [Hr'|Hr']%elem_of_app.
    + pose proof (ok_fresh d HI _ Hr'). lia.
    + apply list_elem_of_singleton in Hr' as ->. simpl. lia.
  - rewrite filter_app, fmap_app. rewrite filter_cons_True by (by left). simpl.
    apply NoDup_app. split_and!; [apply HI| |apply NoDup_singleton].
    intros k (r' & -> & [Ha Hr']%list_elem_of_filter)%list_elem_of_fmap Hk.
    apply list_elem_of_singleton in Hk. apply Hnex, Exists_exists. exists r'.
    split; [done|]. unfold line_key in Hk. simplify_eq/=. done.
Qed.

(** The line is held for the order at the asked quantity by row [r]. *)
Definition line_held (oid : N) (d : InvDB) (line : string * Z) (r : Reservation) : Prop :=
  r ∈ reservations d ∧ active r ∧ line_key r = (oid, line.1) ∧ res_qty r = line.2.

Lemma line_held_mono oid d d' new line r :
  reservations d' = reservations d ++ new → line_held oid d line r → line_held oid d' line r.
Proof. intros Hr (H1 & H2). split; [|done]. rewrite Hr. set_solver. Qed.

(** The fresh line followed by whatever the rest of the attempt placed. *)
Lemma placed_cons oid exp sku qty new d d2 d' row :
  let r := MkReservation (next_reservation d) sku qty oid HELD exp in
  stock d !! sku = Some row → qty ≤ on_hand row - reserved row →
  stock_check (moved 0 1 qty 1 row) → stock_int4 (moved 0 1 qty 1 row) → InvOK d → 0 < qty →
  d2 = MkInvDB (<[sku := moved 0 1 qty 1 row]> (stock d)) (reservations d ++ [r])
         (inv_outbox d ++ [stock_reserved_outbox sku oid qty]) (next_reservation d + 1) →
  placed_holds oid exp new d2 d' → placed_holds oid exp (r :: new) d d'.
Proof.
  intros r Hs Hfree Hc Hi HI Hq -> HP. constructor.
  - rewrite (ph_rows _ _ _ _ _ HP). simpl. by rewrite <- app_assoc.
  - intros r' [->|Hr']%elem_of_cons; [done|]. by eapply ph_new.
  - rewrite (ph_outbox _ _ _ _ _ HP). simpl. by rewrite <- app_assoc.
  - eapply (stock_moved_cons 0 1 r); eauto. by apply HP.
  - intros r' row' [->|Hr']%elem_of_cons Hrow'; [simpl in *; congruence|].
    pose proof (ph_free _ _ _ _ _ HP r') as Hf. simpl in Hf.
    destruct (decide (sku = res_sku r')) as [->|Hne].
    + specialize (Hf (moved 0 1 qty 1 row) Hr' ltac:(by simplify_map_eq)). simpl in Hf.
      simplify_eq. lia.
    + apply Hf; [done|]. by simplify_map_eq.
  - by apply HP.
Qed.

Lemma outbox_InvOK e d : InvOK d → InvOK (outbox_add e d).2.
Proof. intros [? ? ? ? ? ? ?]. by constructor. Qed.

Lemma existing_ok_mono oid existing d d' new :
  reservations d' = reservations d ++ new → existing_ok oid existing d → existing_ok oid existing d'.
Proof.
  intros Hr He sku cur Hc. destruct (He _ _ Hc) as (H1 & H2). split; [|done].
  rewrite Hr. set_solver.
Qed.

(** The insert that succeeded had a positive quantity. *)
Lemma insert_qty_pos sku qty oid exp d r d1 :
  insert_reservation sku qty oid exp d = (Ok r, d1) → 0 < qty.
Proof. unfold insert_reservation. repeat case_decide; by intros ?; simplify_eq. Qed.

Lemma insert_err sku qty oid exp d e d1 :
  insert_reservation sku qty oid exp d = (Err e, d1) →
  d1 = d ∧ ((e = IntegrityError FOREIGN_KEY_VIOLATION ∧ stock d !! sku = None) ∨
    (e = IntegrityError UNIQUE_VIOLATION ∧
      ∃ r, r ∈ reservations d ∧ res_order_id r = oid ∧ res_sku r = sku ∧ active r) ∨
    e = IntegrityError CHECK_VIOLATION ∨ e = DataError).
Proof.
  unfold insert_reservation. repeat case_decide; intros ?; simplify_eq; eauto 10.
  - apply Exists_exists in H1 as (r & ? & ? & ? & ?). eauto 15.
  - destruct (stock d !! sku); simplify_eq; eauto 10.
Qed.

(** The compare-and-swap itself only fails on a constraint. *)
Lemma decrement_err sku qty d e d' :
  try_reserve_decrement sku qty d = (Err e, d') → e = IntegrityError CHECK_VIOLATION ∨ e = DataError.
Proof.
  rewrite move_spec. intros H. destruct (stock d !! sku); [|done].
  case_decide; [|done]. unfold write_stock in H. st_simp.
  case_decide; [case_decide|]; simplify_eq/=; auto.
Qed.

(** What the lines of an attempt did, when it returned. *)
Lemma reserve_lines_inv existing oid exp lines : ∀ placed d res d',
  InvOK d → existing_ok oid existing d →
  reserve_lines existing oid exp lines placed d = (Ok res, d') →
  ∃ new, placed_holds oid exp new d d' ∧
    (∀ r, r ∈ new → (res_sku r, res_qty r) ∈ lines) ∧
    match res with
    | inl rows => ∃ more, rows = placed ++ more ∧ Forall2 (line_held oid d') lines more
    | inr rej => (rej_sku rej, rej_qty rej) ∈ lines ∧ stock d' !! rej_sku rej = None
    end.
Proof.
  induction lines as [|[sku qty] rest IH]; intros placed d res d' HI He H; simpl in H.
  { st_simp. simplify_eq. exists []. split_and!; [by apply placed_nil|set_solver|].
    exists []. by rewrite app_nil_r. }
  destruct (existing !! sku) as [cur|] eqn:Hcur.
  - case_decide as Hq; [|done].
    destruct (IH _ _ _ _ HI He H) as (new & HP & Hsub & Hres). exists new.
    split_and!; [done|set_solver|]. destruct res as [rows|rej]; [|set_solver].
    destruct Hres as (more & -> & Hf). exists (cur :: more). rewrite <- app_assoc.
    split; [done|]. constructor; [|done]. destruct (He _ _ Hcur) as (? & ? & ?).
    eapply line_held_mono; [apply HP|]. by split_and!.
  - destruct (insert_reservation sku qty oid exp d) as [[r|e] d1] eqn:Hins.
    + unfold mbind, ST_bind in H.
      destruct (try_reserve_decrement sku qty d1) as [[n|e] d2] eqn:Hdec; [|done].
      case_decide; [done|]. pose proof (insert_qty_pos _ _ _ _ _ _ _ Hins) as Hpos.
      destruct (place_line _ _ _ _ _ _ _ _ _ HI Hins Hdec ltac:(done))
        as (row & Hs & Hfree & -> & -> & Hc & Hi & HI2).
      apply (outbox_InvOK (stock_reserved_outbox sku oid qty)) in HI2. simpl in H.
      unfold outbox_add, modify in *. simpl in HI2. simpl in H.
      destruct (IH _ _ _ _ HI2 ltac:(by eapply existing_ok_mono) H) as (new & HP & Hsub & Hres).
      eexists (_ :: new). split_and!; [by eapply placed_cons| |].
      * intros r' [->|Hr']%elem_of_cons; simpl; set_solver.
      * destruct res as [rows|rej]; [|set_solver]. destruct Hres as (more & -> & Hf).
        eexists (_ :: more). rewrite <- app_assoc. split; [done|]. constructor; [|done].
        split; [|split; [by left|done]]. rewrite (ph_rows _ _ _ _ _ HP). simpl. set_solver.
    + apply insert_err in Hins as [-> [[-> Hs]|[[-> _]|[->| ->]]]]; simplify_eq/=.
      exists []. split_and!; [by apply placed_nil|set_solver|simpl; set_solver|done].
Qed.

(** ** The whole batch *)

(** The contract of [reserve_many], outcome by outcome: the batch is held
    exactly as asked; or a line's stock refused it; or it raised, and nothing
    changed. *)
Definition reserve_post (unwinds : bool) (lines : list (string * Z)) (oid : N) (exp : Z)
    (d : InvDB) (res : result (list Reservation + StockRejection)) (d' : InvDB) : Prop :=
  match res with
  | Ok (inl rows) =>
      Forall2 (line_held oid d') (sort_by_sku lines) rows ∧
      ∃ new, placed_holds oid exp new d d' ∧ ∀ r, r ∈ new → (res_sku r, res_qty r) ∈ lines
  | Ok (inr rej) =>
      (rej_sku rej, rej_qty rej) ∈ lines ∧ (unwinds = true → d' = d) ∧
      ∃ new, placed_holds oid exp new d d' ∧ ∀ r, r ∈ new → (res_sku r, res_qty r) ∈ lines
  | Err _ => d' = d
  end.

Lemma in_sorted (lines : list (string * Z)) x : x ∈ sort_by_sku lines ↔ x ∈ lines.
Proof. by rewrite sort_by_sku_perm. Qed.

Section ReserveMany.
Context (unwinds : bool).

Lemma attempt_block_post lines oid exp existing d res d' :
  InvOK d → existing_ok oid existing d →
  attempt_block unwinds (sort_by_sku lines) oid exp existing d = (res, d') →
  reserve_post unwinds lines oid exp d res d'.
Proof.
  intros HI He. unfold attempt_block.
  destruct (reserve_lines _ _ _ _ _ d) as [[[rows|rej]|e] d1] eqn:E; intros H; simplify_eq/=; [| |done].
  - destruct (reserve_lines_inv _ _ _ _ _ _ _ _ HI He E) as (new & HP & Hsub & more & -> & Hf).
    split; [done|]. exists new. split; [done|]. intros r Hr. by apply in_sorted, Hsub.
  - destruct (reserve_lines_inv _ _ _ _ _ _ _ _ HI He E) as (new & HP & Hsub & Hrej & _).
    split; [by apply in_sorted|]. destruct unwinds.
    + split; [done|]. exists []. split; [by apply placed_nil|set_solver].
    + split; [done|]. exists new. split; [done|]. intros r Hr. by apply in_sorted, Hsub.
Qed.

Lemma reserve_attempt_post lines oid exp n d res d' :
  InvOK d → reserve_attempt unwinds (sort_by_sku lines) oid exp n d = (res, d') →
  reserve_post unwinds lines oid exp d res d'.
Proof.
  intros HI. destruct n as [|n]; simpl.
  - apply attempt_block_post; [done|]. intros ? ? ?; simplify_map_eq.
  - destruct (active_map_ok oid (sort_by_sku lines).*1 d) as (m & Hm & He & _).
    unfold mbind, ST_bind. rewrite Hm. by apply attempt_block_post.
Qed.

Lemma attempt_error_post lines oid exp n d e d' :
  InvOK d → reserve_attempt unwinds (sort_by_sku lines) oid exp n d = (Err e, d') →
  (∀ sku, e ≠ AttemptRaced sku) →
  (∀ sku qty, e = AttemptRejection sku qty → (sku, qty) ∈ lines) →
  reserve_post unwinds lines oid exp d (attempt_error e d').1 (attempt_error e d').2.
Proof.
  intros HI H Hr Hrej. pose proof (reserve_attempt_post _ _ _ _ _ _ _ HI H) as Hd. simpl in Hd. subst d'.
  destruct e; simpl; try done. split; [by apply Hrej|]. split; [done|].
  exists []. split; [by apply placed_nil|set_solver].
Qed.

(** The exceptions of an attempt name a line of the batch. *)
Lemma reserve_lines_err existing oid exp lines : ∀ placed d e d',
  reserve_lines existing oid exp lines placed d = (Err e, d') →
  (∀ sku qty, e = AttemptRejection sku qty → (sku, qty) ∈ lines) ∧
  (∀ sku, e = AttemptRaced sku → sku ∈ lines.*1).
Proof.
  induction lines as [|[sku qty] rest IH]; intros placed d e d' H; simpl in H; [done|].
  destruct (existing !! sku) as [cur|].
  - case_decide; [|unfold raise in H; simplify_eq; by split]. apply IH in H. set_solver.
  - destruct (insert_reservation sku qty oid exp d) as [[r|e1] d1] eqn:Hins.
    + unfold mbind, ST_bind in H.
      destruct (try_reserve_decrement sku qty d1) as [[n|e2] d2] eqn:Hdec.
      * case_decide; [unfold raise in H; simplify_eq; set_solver|].
        unfold outbox_add, modify in H. simpl in H. apply IH in H. set_solver.
      * apply decrement_err in Hdec as [->| ->]; simplify_eq; by split.
    + apply insert_err in Hins as [-> [[-> ?]|[[-> _]|[->| ->]]]]; simplify_eq/=; set_solver.
Qed.

Lemma reserve_attempt_err lines oid exp n d e d' :
  reserve_attempt unwinds (sort_by_sku lines) oid exp n d = (Err e, d') →
  (∀ sku qty, e = AttemptRejection sku qty → (sku, qty) ∈ lines).
Proof.
  intros H. assert (∃ existing placed d1 d2,
    reserve_lines existing oid exp (sort_by_sku lines) placed d1 = (Err e, d2)) as (?&?&?&?&E).
  { destruct n; simpl in H; [|st_simp]; unfold attempt_block in H;
      destruct (reserve_lines _ _ _ _ _ _) as [[[]|] ?] eqn:?; simplify_eq; eauto. }
  apply reserve_lines_err in E as [E _]. intros sku qty ->. by apply in_sorted, E.
Qed.

(** [reserve_many] meets its contract from every consistent state. *)
Lemma repo_reserve_many_post lines oid exp d res d' :
  InvOK d → repo_reserve_many unwinds lines oid exp d = (res, d') →
  reserve_post unwinds lines oid exp d res d'.
Proof.
  intros HI. unfold repo_reserve_many. case_decide as Hnil.
  { intros ?. st_simp. simplify_eq/=. split; [constructor|]. exists [].
    split; [by apply placed_nil|set_solver]. }
  unfold try_except.
  destruct (reserve_attempt unwinds _ oid exp 0 d) as [[x|e] d1] eqn:E1.
  { intros ?; simplify_eq. by eapply reserve_attempt_post. }
  pose proof (reserve_attempt_post _ _ _ _ _ _ _ HI E1) as Hd1. simpl in Hd1. subst d1.
  assert ((∃ s, e = AttemptRaced s) ∨ ∀ s, e ≠ AttemptRaced s) as [[s ->]|Hnr]
    by (destruct e; eauto).
  - cbn beta iota. destruct (reserve_attempt unwinds _ oid exp 1 d) as [[x|e] d1] eqn:E2.
    { intros ?; simplify_eq. by eapply reserve_attempt_post. }
    pose proof (reserve_attempt_post _ _ _ _ _ _ _ HI E2) as Hd1. simpl in Hd1. subst d1.
    intros H. pose proof (attempt_error_post _ _ _ _ _ _ _ HI E2) as Hp.
    destruct e; try (by unfold attempt_error, raise in *; simplify_eq/=);
      rewrite H in Hp; apply Hp; try done; intros; by eapply reserve_attempt_err.
  - intros H. pose proof (attempt_error_post _ _ _ _ _ _ _ HI E1) as Hp.
    destruct e; try (exfalso; by eapply Hnr);
      rewrite H in Hp; apply Hp; try done; intros; by eapply reserve_attempt_err.
Qed.
End ReserveMany.

(** ** The second attempt decides *)

(** [existing] knows the active row of every line still to come. *)
Definition existing_complete (oid : N) (existing : gmap string Reservation)
    (lines : list (string * Z)) (d : InvDB) : Prop :=
  ∀ r, r ∈ reservations d → active r → res_order_id r = oid → res_sku r ∈ lines.*1 →
    is_Some (existing !! res_sku r).

Lemma reserve_lines_no_race existing oid exp lines : ∀ placed d e d',
  NoDup lines.*1 → existing_complete oid existing lines d →
  reserve_lines existing oid exp lines placed d = (Err e, d') → ∀ sku, e ≠ AttemptRaced sku.
Proof.
  induction lines as [|[sku qty] rest IH]; intros placed d e d' Hnd Hc H; simpl in H; [done|].
  rewrite fmap_cons in Hnd. apply NoDup_cons in Hnd as [Hni Hnd].
  destruct (existing !! sku) as [cur|] eqn:Hcur.
  { case_decide; [|unfold raise in H; by simplify_eq]. eapply IH; eauto.
    intros r ? ? ? ?. apply Hc; try done. set_solver. }
  destruct (insert_reservation sku qty oid exp d) as [[r|e1] d1] eqn:Hins.
  - unfold mbind, ST_bind in H.
    destruct (try_reserve_decrement sku qty d1) as [[n|e2] d2] eqn:Hdec.
    + case_decide; [unfold raise in H; by simplify_eq|].
      unfold outbox_add, modify in H. simpl in H. eapply IH; eauto.
      intros r' Hr' Ha Ho Hs. simpl in Hr'.
      assert (reservations d2 = reservations d ++ [r] ∧ res_sku r = sku) as [Hrs Hsk].
      { apply (move_inv try_reserve_decrement 0 1) in Hdec as [[-> ?]|(-> & ? & ? & ? & ? & ->)]; [done|].
        unfold insert_reservation in Hins. repeat case_decide; simplify_eq/=.
        destruct (stock d !! sku); by simplify_eq/=. }
      rewrite Hrs in Hr'. apply elem_of_app in Hr' as [Hr'|Hr'].
      * apply Hc; try done. set_solver.
      * apply list_elem_of_singleton in Hr' as ->. rewrite Hsk in Hs. by destruct Hni.
    + apply decrement_err in Hdec as [->| ->]; by simplify_eq.
  - apply insert_err in Hins as [-> [[-> ?]|[[-> (r & ? & ? & Hsk & ?)]|[->| ->]]]]; simplify_eq/=; [|done..].
    exfalso. destruct (Hc r) as [? ?]; [done..|set_solver|congruence].
Qed.

Lemma reserve_attempt1_no_race u lines oid exp d e d' :
  NoDup lines.*1 → reserve_attempt u (sort_by_sku lines) oid exp 1 d = (Err e, d') →
  ∀ sku, e ≠ AttemptRaced sku.
Proof.
  intros Hnd H. destruct (active_map_ok oid (sort_by_sku lines).*1 d) as (m & Hm & _ & Hc).
  simpl in H. unfold mbind, ST_bind in H. rewrite Hm in H. unfold attempt_block in H.
  destruct (reserve_lines m oid exp _ [] d) as [[[]|] ?] eqn:E; simplify_eq.
  eapply reserve_lines_no_race; [|done|exact E]. by rewrite sort_by_sku_perm.
Qed.

(** Only [reserve_many] itself reports contention. *)
Lemma reserve_lines_no_contended existing oid exp lines sku0 : ∀ placed d d',
  reserve_lines existing oid exp lines placed d ≠ (Err (ReservationContendedError sku0), d').
Proof.
  induction lines as [|[sku qty] rest IH]; intros placed d d' H; simpl in H; [done|].
  destruct (existing !! sku) as [cur|]; [case_decide; [by eapply IH|done]|].
  destruct (insert_reservation sku qty oid exp d) as [[r|e1] d1] eqn:Hins.
  - unfold mbind, ST_bind in H.
    destruct (try_reserve_decrement sku qty d1) as [[n|e2] d2] eqn:Hdec.
    + case_decide; [done|]. unfold outbox_add, modify in H. simpl in H. by eapply IH.
    + apply decrement_err in Hdec as [->| ->]; by simplify_eq.
  - apply insert_err in Hins as [-> [[-> ?]|[[-> _]|[->| ->]]]]; by simplify_eq/=.
Qed.

(** ** A replay finds its holds *)

Lemma reserve_lines_replay existing oid exp lines : ∀ placed d,
  (∀ line, line ∈ lines → ∃ cur, existing !! line.1 = Some cur ∧ res_qty cur = line.2) →
  ∃ more, reserve_lines existing oid exp lines placed d = (Ok (inl (placed ++ more)), d) ∧
    Forall2 (λ line r, existing !! line.1 = Some r ∧ res_qty r = line.2) lines more.
Proof.
  induction lines as [|[sku qty] rest IH]; intros placed d Hall.
  { exists []. rewrite app_nil_r. by split. }
  destruct (Hall (sku, qty) ltac:(set_solver)) as (cur & Hcur & Hq). simpl in Hcur, Hq.
  destruct (IH (placed ++ [cur]) d ltac:(set_solver)) as (more & Hm & Hf).
  exists (cur :: more). simpl. rewrite Hcur, decide_True, Hm, <- app_assoc by done.
  split; [done|]. by constructor.
Qed.

Lemma insert_duplicate sku qty oid exp d r :
  InvOK d → line_held oid d (sku, qty) r →
  insert_reservation sku qty oid exp d = (Err (IntegrityError UNIQUE_VIOLATION), d).
Proof.
  intros HI (Hin & Ha & Hk & Hq). simpl in *. unfold line_key in Hk. simplify_eq.
  pose proof (ok_qty d HI r Hin) as Hp. unfold insert_reservation.
  rewrite decide_True by (unfold int4, int4_max in *; lia). rewrite decide_True by lia.
  rewrite decide_True; [done|]. apply Exists_exists. eauto.
Qed.

Lemma repo_reserve_many_replay u lines oid exp d :
  InvOK d → lines ≠ [] → (∀ line, line ∈ lines → ∃ r, line_held oid d line r) →
  ∃ rows, repo_reserve_many u lines oid exp d = (Ok (inl rows), d) ∧
    Forall2 (line_held oid d) (sort_by_sku lines) rows.
Proof.
  intros HI Hne Hall. unfold repo_reserve_many. rewrite decide_False by done.
  assert (∀ line, line ∈ sort_by_sku lines → ∃ r, line_held oid d line r) as Hall'
    by (intros line Hl; by apply Hall, in_sorted).
  assert (∃ sku, reserve_attempt u (sort_by_sku lines) oid exp 0 d = (Err (AttemptRaced sku), d)) as [s E1].
  { destruct (sort_by_sku lines) as [|[sku qty] rest] eqn:Es.
    - pose proof (sort_by_sku_perm lines) as Hp. rewrite Es in Hp.
      by apply symmetry, Permutation_nil_r in Hp.
    - destruct (Hall' (sku, qty) ltac:(set_solver)) as [r Hr]. exists sku.
      unfold reserve_attempt, attempt_block. cbn [reserve_lines].
      by rewrite lookup_empty, (insert_duplicate _ _ _ _ _ r). }
  unfold try_except at 1. rewrite E1. cbn beta iota. unfold try_except.
  destruct (active_map_ok oid (sort_by_sku lines).*1 d) as (m & Hm & He & Hc).
  destruct (reserve_lines_replay m oid exp (sort_by_sku lines) [] d) as (more & Hr & Hf).
  { intros line Hl. destruct (Hall' line Hl) as (r & Hin & Ha & Hk & Hq).
    unfold line_key in Hk. injection Hk as Ho Hs.
    destruct (Hc r) as [cur Hcur]; [done..|rewrite Hs; by apply list_elem_of_fmap_2|].
    rewrite <- Hs. exists cur. split; [done|]. destruct (He _ _ Hcur) as (? & ? & Hk).
    rewrite <- Hq. f_equal. eapply (active_unique d); eauto.
    rewrite Hk. unfold line_key. by rewrite Ho. }
  simpl. unfold mbind, ST_bind. rewrite Hm. unfold attempt_block. rewrite Hr. simpl.
  exists more. split; [done|]. eapply Forall2_impl; [exact Hf|].
  intros line r [Hl Hq]. destruct (He _ _ Hl) as (? & ? & Hk). by split_and!.
Qed.
