(* ===== verification/InventoryService.v ===== *)
(** * Inventory: the service and its guarantees

    [InventoryService] (src/inventory/application/service.py): thin policy over
    one repository transaction each, with its counters.  The reaper's sweep
    (src/inventory/adapters/reaper.py) is [release_expired].

    Theorems: the books balance after any sequence of service calls (never
    oversold), units are conserved, a batch hold is all-or-nothing and
    replayable, release/commit/restock act exactly on the order's rows. *)

From stdpp Require Import sorting.
From S2P Require Import Prelude Errors UnitOfWork Inventory InventoryInv InventoryHolds.

(** ** State: the database and the counters *)

Record InvSvc := MkInvSvc {
  inv_db : InvDB;
  oversell_blocked_total : N;
  reservation_conflict_total : N;
  reaper_released_total : N
}.

Definition set_db (d : InvDB) (s : InvSvc) : InvSvc :=
  MkInvSvc d (oversell_blocked_total s) (reservation_conflict_total s) (reaper_released_total s).
Definition inc_oversell (s : InvSvc) : InvSvc :=
  MkInvSvc (inv_db s) (oversell_blocked_total s + 1) (reservation_conflict_total s) (reaper_released_total s).
Definition inc_conflict (s : InvSvc) : InvSvc :=
  MkInvSvc (inv_db s) (oversell_blocked_total s) (reservation_conflict_total s + 1) (reaper_released_total s).
Definition inc_reaped (n : nat) (s : InvSvc) : InvSvc :=
  MkInvSvc (inv_db s) (oversell_blocked_total s) (reservation_conflict_total s)
    (reaper_released_total s + N.of_nat n).

(** [async with self._repo.uow.transaction(): ...] *)
Definition in_tx {A} (m : ST InvDB A) : ST InvSvc A := λ s,
  let '(r, d) := atomically m (inv_db s) in (r, set_db d s).

(** ** The stock upsert *)

(** The repository port's [upsert_stock(sku, on_hand, expected_version)]. *)
Definition upsert_port : Type := string → Z → option Z → ST InvDB (option Inventory).

(** Python's binding of keyword arguments to a method's parameters. *)
Definition bind_keywords {A} (params kwargs : list string) (m : ST InvDB A) : ST InvDB A :=
  if decide (Forall (λ k, k ∈ params) kwargs) then m else raise TypeError.

(** The parameters of [InventoryRepository.upsert_stock] as it is written. *)
Definition upsert_stock_params : list string := ["sku"; "on_hand"].

(** What the service's call [upsert_stock(sku, on_hand, expected_version=...)]
    does on the repository class. *)
Definition repository_upsert : upsert_port := λ sku on_hand _,
  bind_keywords upsert_stock_params ["expected_version"] (upsert_stock sku on_hand).

Section Upsert.
Context (repo_upsert : upsert_port).
(** [ownership]: the wired port's answer per SKU; [None] when not wired. *)
Context (ownership : option (string → option N)).

Definition svc_upsert_stock (sku : string) (new_on_hand : Z) (caller_id : option N)
    (is_admin : bool) (if_match : option Z) : ST InvSvc (option Inventory) :=
  let write : ST InvSvc (option Inventory) :=
    in_tx (row ← repo_upsert sku new_on_hand if_match;
           match row with
           | Some row => mret (Some row)
           | None =>
               cur ← get_by_sku sku;
               match if_match with
               | Some v =>
                   if decide (version <$> cur = Some v)
                   then raise (StockBelowReservedError sku new_on_hand (from_option reserved 0 cur))
                   else raise (PreconditionFailedError sku)
               | None => raise (StockBelowReservedError sku new_on_hand (from_option reserved 0 cur))
               end
           end) in
  match ownership with
  | None => write
  | Some owner_of =>
      match owner_of sku with
      | None => mret None
      | Some owner =>
          if decide (Some owner = caller_id ∨ is_admin = true) then write
          else raise AuthorizationError
      end
  end.
End Upsert.

(** ** The reservation lifecycle *)

(** The validation loop of [reserve_many]. *)
Fixpoint validate_lines (seen : list string) (lines : list (string * Z)) : result unit :=
  match lines with
  | [] => Ok tt
  | (sku, qty) :: rest =>
      if decide (qty ≤ 0) then Err (InvalidReservationError sku)
      else if decide (sku ∈ seen) then Err (InvalidReservationError sku)
      else validate_lines (sku :: seen) rest
  end.

Section Service.
Context (flush_failure_unwinds : bool).

(** [reserve_many] at wall-clock [now] with the configured [ttl]. *)
Definition svc_reserve_many (now ttl : Z) (lines : list (string * Z)) (order_id : N)
    : ST InvSvc (list Reservation) := λ s,
  if decide (lines = []) then (Ok [], s)
  else match validate_lines [] lines with
  | Err e => (Err e, s)
  | Ok _ =>
      match in_tx (repo_reserve_many flush_failure_unwinds lines order_id (now + ttl)) s with
      | (Err (ReservationConflictError sku h q), s') =>
          (Err (ReservationConflictError sku h q), inc_conflict s')
      | (Err e, s') => (Err e, s')
      | (Ok (inr rej), s') =>
          (Err (InsufficientStockError (rej_sku rej) (rej_qty rej)), inc_oversell s')
      | (Ok (inl rows), s') => (Ok rows, s')
      end
  end.

(** [reserve]: one line. *)
Definition svc_reserve (now ttl : Z) (sku : string) (qty : Z) (order_id : N)
    : ST InvSvc Reservation := λ s,
  if decide (qty ≤ 0) then (Err (InvalidReservationError sku), s)
  else match in_tx (repo_reserve flush_failure_unwinds sku qty order_id (now + ttl)) s with
  | (Err (ReservationConflictError sk h q), s') =>
      (Err (ReservationConflictError sk h q), inc_conflict s')
  | (Err e, s') => (Err e, s')
  | (Ok None, s') => (Err (InsufficientStockError sku qty), inc_oversell s')
  | (Ok (Some r), s') => (Ok r, s')
  end.
End Service.

Definition svc_release (id : N) : ST InvSvc bool := in_tx (release id).
Definition svc_commit_reservation (id : N) : ST InvSvc bool := in_tx (commit_reservation id).
Definition svc_release_for_order (oid : N) : ST InvSvc nat := in_tx (release_for_order oid).
Definition svc_restock_for_order (oid : N) : ST InvSvc nat := in_tx (restock_for_order oid).
Definition svc_commit_for_order (oid : N) (expected : nat) : ST InvSvc nat :=
  in_tx (commit_for_order oid expected).

(** [release_expired], the reaper's sweep. *)
Definition svc_release_expired (now : Z) (batch_size : nat) (locked : N → bool) : ST InvSvc nat := λ s,
  match in_tx (release_expired now batch_size locked) s with
  | (Ok n, s') => (Ok n, if decide (n = 0%nat) then s' else inc_reaped n s')
  | (Err e, s') => (Err e, s')
  end.

(** ** Each repository method keeps the books *)

(** [m], when it returns, keeps the books balanced ... *)
Definition tx_ok {A} (m : ST InvDB A) : Prop :=
  ∀ d a d', InvOK d → m d = (Ok a, d') → InvOK d'.
(** ... and conserves the units of every SKU. *)
Definition keeps_books {A} (m : ST InvDB A) : Prop :=
  ∀ d a d', InvOK d → m d = (Ok a, d') → InvOK d' ∧ ∀ sku, units sku d' = units sku d.

Lemma keeps_tx_ok {A} (m : ST InvDB A) : keeps_books m → tx_ok m.
Proof. intros Hm d a d' HI H. by edestruct Hm. Qed.

Lemma atomically_ok {A} (m : ST InvDB A) d : tx_ok m → InvOK d → InvOK (atomically m d).2.
Proof.
  intros Hm HI. unfold atomically, begin_nested.
  destruct (m d) as [[a|e] d'] eqn:E; simpl; [by eapply Hm|done].
Qed.

Lemma atomically_conserves {A} (m : ST InvDB A) d sku :
  keeps_books m → InvOK d → units sku (atomically m d).2 = units sku d.
Proof.
  intros Hm HI. unfold atomically, begin_nested.
  destruct (m d) as [[a|e] d'] eqn:E; simpl; [by eapply Hm|done].
Qed.

(** A settled batch: which way the units went decides the books. *)
Lemma settled_keeps a b announce st0 st rows d d' :
  InvOK d → batch_of st0 rows d → settled a b announce st rows d d' → settles_to st0 st →
  b = (if decide (st0 = HELD) then -1 else 0) →
  a = (if decide (COMMITTED = st0) then 1 else 0) - (if decide (COMMITTED = st) then 1 else 0) →
  InvOK d' ∧ ∀ sku, units sku d' = units sku d.
Proof. intros. split; [by eapply settled_InvOK|]. intros sku. by eapply settled_units. Qed.

(** One row, flipped first and accounted for next ([release], [commit_reservation]). *)
Lemma settle_one_inv mutate a b `{!StockMove mutate a b} announce st what r d d' (x : bool) :
  InvOK d → batch_of HELD [r] d →
  (mark_batch st [res_id r] ;; settle_body mutate announce what r ;; mret x) d = (Ok x, d') →
  settled a b announce st [r] d d'.
Proof.
  intros HI HB H. unfold mark_batch in H. st_simp.
  destruct (settle_body mutate announce what r _) as [[[]|e] d1] eqn:E; [|done].
  apply (settle_body_inv mutate a b) in E as (row & Hs & Hc & Hi & ->). simplify_eq/=.
  constructor; simpl; [|done..|].
  - change [res_id r] with (res_id <$> [r]). by eapply (mark_batch_marks d).
  - eapply stock_moved_cons; eauto. intros sku. unfold qty_of. simpl.
    destruct (_ !! sku); [|done]. split_and!; [lia|lia|by left].
Qed.

Lemma release_settled d id d' :
  InvOK d → release id d = (Ok true, d') →
  ∃ r, batch_of HELD [r] d ∧ res_id r = id ∧ settled 0 (-1) true RELEASED [r] d d'.
Proof.
  intros HI H. unfold release, mark_one in H. st_simp.
  destruct (head _) as [r|] eqn:E; [|by simplify_eq/=].
  apply mark_one_batch in E as [HB Hid]; [|done]. exists r. split_and!; [done..|].
  eapply (settle_one_inv unreserve_sql 0 (-1) true RELEASED "release unreserve" r d d' true HI HB).
  subst id. unfold settle_body. st_simp.
  destruct (require_one _ _ _) as [[[]|] ?]; [|done]. exact H.
Qed.

Lemma release_false d id d' : release id d = (Ok false, d') → d' = d.
Proof.
  unfold release, mark_one. st_simp. intros H.
  destruct (head _) as [r|]; [|by simplify_eq/=].
  st_simp. by destruct (require_one _ _ _) as [[[]|] ?].
Qed.

Lemma commit_reservation_settled d id d' :
  InvOK d → commit_reservation id d = (Ok true, d') →
  ∃ r, batch_of HELD [r] d ∧ res_id r = id ∧ settled (-1) (-1) false COMMITTED [r] d d'.
Proof.
  intros HI H. unfold commit_reservation, mark_one in H. st_simp.
  destruct (head _) as [r|] eqn:E; [|by simplify_eq/=].
  apply mark_one_batch in E as [HB Hid]; [|done]. exists r. split_and!; [done..|].
  eapply (settle_one_inv consume_sql (-1) (-1) false COMMITTED "commit consume" r d d' true HI HB).
  subst id. unfold settle_body. st_simp.
  destruct (require_one _ _ _) as [[[]|] ?]; [|done]. exact H.
Qed.

Lemma commit_reservation_false d id d' : commit_reservation id d = (Ok false, d') → d' = d.
Proof.
  unfold commit_reservation, mark_one. st_simp. intros H.
  destruct (head _) as [r|]; [|by simplify_eq/=].
  st_simp. by destruct (require_one _ _ _) as [[[]|] ?].
Qed.

(** The batch methods: an empty claim changes nothing, another settles it. *)
Lemma settle_then_ret mutate a b `{!StockMove mutate a b} announce st0 st what rows (n x : nat) d d' :
  InvOK d → batch_of st0 rows d →
  (settle_rows mutate announce st what rows ;; mret n) d = (Ok x, d') →
  x = n ∧ settled a b announce st rows d d'.
Proof.
  intros HI HB. unfold mbind, ST_bind.
  destruct (settle_rows _ _ _ _ _ d) as [[[]|] d1] eqn:E; [|done].
  unfold mret, ST_ret. intros ?; simplify_eq. split; [done|]. by eapply settle_rows_inv.
Qed.

Lemma settled_nil a b announce st d : settled a b announce st [] d d.
Proof.
  constructor; [|done| |].
  - rewrite <- (list_fmap_id (reservations d)) at 1. apply list_fmap_ext. intros i r _.
    unfold mark. by rewrite decide_False by set_solver.
  - destruct announce; simpl; by rewrite app_nil_r.
  - intros sku. unfold qty_of. simpl. destruct (stock d !! sku); [|done].
    split_and!; [lia|lia|by left].
Qed.

Lemma release_for_order_settled d oid n d' :
  InvOK d → release_for_order oid d = (Ok n, d') →
  n = length (claim_order oid HELD d) ∧ settled 0 (-1) true RELEASED (claim_order oid HELD d) d d'.
Proof.
  intros HI H. unfold release_for_order in H.
  pose proof (claim_order_batch d oid HELD HI) as HB.
  destruct (claim_order oid HELD d) as [|r rows]; [simplify_eq; split; [done|apply settled_nil]|].
  by eapply (settle_then_ret unreserve_sql 0 (-1)).
Qed.

Lemma restock_for_order_settled d oid n d' :
  InvOK d → restock_for_order oid d = (Ok n, d') →
  n = length (claim_order oid COMMITTED d) ∧
  settled 1 0 true RELEASED (claim_order oid COMMITTED d) d d'.
Proof.
  intros HI H. unfold restock_for_order in H.
  pose proof (claim_order_batch d oid COMMITTED HI) as HB.
  destruct (claim_order oid COMMITTED d) as [|r rows]; [simplify_eq; split; [done|apply settled_nil]|].
  by eapply (settle_then_ret restock_sql 1 0).
Qed.

Lemma release_expired_settled d now k lk n d' :
  InvOK d → release_expired now k lk d = (Ok n, d') →
  n = length (claim_expired now k lk d) ∧
  settled 0 (-1) true RELEASED (claim_expired now k lk d) d d'.
Proof.
  intros HI H. unfold release_expired in H.
  pose proof (claim_expired_batch d now k lk HI) as HB.
  destruct (claim_expired now k lk d) as [|r rows]; [simplify_eq; split; [done|apply settled_nil]|].
  by eapply (settle_then_ret unreserve_sql 0 (-1)).
Qed.

(** [commit_for_order] consumes the whole claim or nothing. *)
Lemma commit_for_order_settled d oid expected n d' :
  InvOK d → commit_for_order oid expected d = (Ok n, d') →
  let held := claim_order oid HELD d in
  let done_ := length (claim_order oid COMMITTED d) in
  (n = done_ ∧ d' = d ∧ (held = [] ∨ (done_ + length held < expected)%nat)) ∨
  (n = (done_ + length held)%nat ∧ (expected ≤ n)%nat ∧ settled (-1) (-1) false COMMITTED held d d').
Proof.
  intros HI H. unfold commit_for_order in H. simpl.
  pose proof (claim_order_batch d oid HELD HI) as HB.
  destruct (claim_order oid HELD d) as [|r rows]; [simplify_eq; left; auto|].
  destruct (decide (_ < expected)%nat) as [Hlt|Hge]; [simplify_eq; left; auto|].
  eapply (settle_then_ret consume_sql (-1) (-1)) in H as [-> HS]; [|done..]. right. split_and!; [done|lia|done].
Qed.

Lemma tx_ok_write d sku row :
  InvOK d → reserved row = qty_in HELD sku (reservations d) →
  ∀ a d', write_stock sku row d = (Ok a, d') → InvOK d'.
Proof.
  intros HI Hres a d' H. unfold write_stock in H.
  case_decide; [|done]. case_decide; [|done]. simplify_eq. constructor; simpl; try apply HI.
  - intros sku' row'. destruct (decide (sku = sku')) as [<-|]; intros ?; simplify_map_eq; [done|].
    by eapply ok_rows.
  - intros sku' row'. destruct (decide (sku = sku')) as [<-|]; intros ?; simplify_map_eq; [done|].
    by eapply ok_reserved.
  - intros r Hr. destruct (ok_fk d HI r Hr) as [x Hx].
    destruct (decide (sku = res_sku r)) as [->|]; simplify_map_eq; eauto.
Qed.

Lemma no_stock_no_holds d sku : InvOK d → stock d !! sku = None → qty_in HELD sku (reservations d) = 0.
Proof.
  intros HI Hs. apply qty_in_absent. intros r Hr Heq.
  destruct (ok_fk d HI r Hr) as [x Hx]. congruence.
Qed.

Lemma upsert_stock_ok sku oh : tx_ok (upsert_stock sku oh).
Proof.
  intros d a d' HI H. unfold upsert_stock in H. destruct (stock d !! sku) as [row|] eqn:Hs.
  - case_decide; [|by simplify_eq]. unfold mbind, ST_bind in H.
    destruct (write_stock _ _ d) as [[[]|] d1] eqn:E; [|done]. unfold mret, ST_ret in H. simplify_eq.
    eapply tx_ok_write; [done| |exact E]. simpl. by apply ok_reserved.
  - unfold mbind, ST_bind in H. destruct (write_stock _ _ d) as [[[]|] d1] eqn:E; [|done].
    unfold mret, ST_ret in H. simplify_eq. eapply tx_ok_write; [done| |exact E]. simpl. by rewrite no_stock_no_holds.
Qed.

(** The settles that free holds, consume them or restock them. *)
Lemma settles_release : settles_to HELD RELEASED.
Proof. split; [done|by left]. Qed.
Lemma settles_commit : settles_to HELD COMMITTED.
Proof. split; [done|by right]. Qed.
Lemma settles_restock : settles_to COMMITTED RELEASED.
Proof. split; [done|by left]. Qed.
#[export] Hint Resolve settles_release settles_commit settles_restock : shop.

Lemma release_keeps id : keeps_books (release id).
Proof.
  intros d [] d' HI H; [|apply release_false in H as ->; done].
  apply release_settled in H as (r & HB & _ & HS); [|done].
  by eapply settled_keeps; eauto with shop.
Qed.

Lemma commit_reservation_keeps id : keeps_books (commit_reservation id).
Proof.
  intros d [] d' HI H; [|apply commit_reservation_false in H as ->; done].
  apply commit_reservation_settled in H as (r & HB & _ & HS); [|done].
  by eapply settled_keeps; eauto with shop.
Qed.

Lemma release_for_order_keeps oid : keeps_books (release_for_order oid).
Proof.
  intros d n d' HI [_ HS]%release_for_order_settled; [|done].
  by eapply settled_keeps; eauto using claim_order_batch with shop.
Qed.

Lemma restock_for_order_keeps oid : keeps_books (restock_for_order oid).
Proof.
  intros d n d' HI [_ HS]%restock_for_order_settled; [|done].
  by eapply settled_keeps; eauto using claim_order_batch with shop.
Qed.

Lemma release_expired_keeps now k lk : keeps_books (release_expired now k lk).
Proof.
  intros d n d' HI [_ HS]%release_expired_settled; [|done].
  by eapply settled_keeps; eauto using claim_expired_batch with shop.
Qed.

Lemma commit_for_order_keeps oid k : keeps_books (commit_for_order oid k).
Proof.
  intros d n d' HI [(_ & -> & _)|(_ & _ & HS)]%commit_for_order_settled; [done| |done].
  by eapply settled_keeps; eauto using claim_order_batch with shop.
Qed.

Lemma reserve_many_keeps u lines oid exp : keeps_books (repo_reserve_many u lines oid exp).
Proof.
  intros d a d' HI H%repo_reserve_many_post; [|done]. simpl in H.
  assert (∃ new, placed_holds oid exp new d d') as [new HP].
  { destruct a as [rows|rej]; destruct H as [? H]; [|destruct H as [_ H]]; naive_solver. }
  split; [apply HP|]. intros sku. by eapply placed_units.
Qed.

Lemma reserve_keeps u sku qty oid exp : keeps_books (repo_reserve u sku qty oid exp).
Proof.
  intros d a d' HI H. unfold repo_reserve, mbind, ST_bind in H.
  destruct (repo_reserve_many _ _ _ _ d) as [[x|] d1] eqn:E; [|done].
  apply reserve_many_keeps in E; [|done].
  destruct x; unfold mret, ST_ret in H; by simplify_eq.
Qed.

#[export] Hint Resolve release_keeps commit_reservation_keeps release_for_order_keeps
  restock_for_order_keeps release_expired_keeps commit_for_order_keeps reserve_many_keeps
  reserve_keeps keeps_tx_ok upsert_stock_ok : shop.

(** ** Any sequence of calls *)

Inductive inv_call :=
  | CUpsert (ownership : option (string → option N)) (sku : string) (oh : Z)
      (caller : option N) (admin : bool) (if_match : option Z)
  | CRepoUpsert (sku : string) (oh : Z)
  | CReserve (now ttl : Z) (sku : string) (qty : Z) (oid : N)
  | CReserveMany (now ttl : Z) (lines : list (string * Z)) (oid : N)
  | CRelease (id : N)
  | CCommitReservation (id : N)
  | CReleaseForOrder (oid : N)
  | CRestockForOrder (oid : N)
  | CCommitForOrder (oid : N) (expected : nat)
  | CReleaseExpired (now : Z) (batch : nat) (locked : N → bool).

Definition run_call (u : bool) (c : inv_call) (s : InvSvc) : InvSvc :=
  match c with
  | CUpsert own sku oh caller admin v =>
      (svc_upsert_stock repository_upsert own sku oh caller admin v s).2
  | CRepoUpsert sku oh => (in_tx (upsert_stock sku oh) s).2
  | CReserve now ttl sku qty oid => (svc_reserve u now ttl sku qty oid s).2
  | CReserveMany now ttl lines oid => (svc_reserve_many u now ttl lines oid s).2
  | CRelease id => (svc_release id s).2
  | CCommitReservation id => (svc_commit_reservation id s).2
  | CReleaseForOrder oid => (svc_release_for_order oid s).2
  | CRestockForOrder oid => (svc_restock_for_order oid s).2
  | CCommitForOrder oid k => (svc_commit_for_order oid k s).2
  | CReleaseExpired now k lk => (svc_release_expired now k lk s).2
  end.

Definition run_calls (u : bool) (cs : list inv_call) (s : InvSvc) : InvSvc :=
  foldl (λ s c, run_call u c s) s cs.

Lemma in_tx_db {A} (m : ST InvDB A) s : inv_db (in_tx m s).2 = (atomically m (inv_db s)).2.
Proof. unfold in_tx. by destruct (atomically m (inv_db s)). Qed.

(** What the service shells do to the database is one repository transaction. *)
(** A use-case that returned ran its transaction to the end. *)
Lemma in_tx_Ok {A} (m : ST InvDB A) s a s' :
  in_tx m s = (Ok a, s') → m (inv_db s) = (Ok a, inv_db s') ∧ s' = set_db (inv_db s') s.
Proof.
  unfold in_tx, atomically, begin_nested. destruct (m (inv_db s)) as [[x|e] d]; intros; by simplify_eq/=.
Qed.

Lemma svc_reserve_many_db u now ttl lines oid s :
  inv_db (svc_reserve_many u now ttl lines oid s).2 = inv_db s ∨
  inv_db (svc_reserve_many u now ttl lines oid s).2 =
    (atomically (repo_reserve_many u lines oid (now + ttl)) (inv_db s)).2.
Proof.
  unfold svc_reserve_many. case_decide; [by left|].
  destruct (validate_lines [] lines); [|by left]. right. rewrite <- in_tx_db.
  destruct (in_tx _ s) as [[[rows|rej]|e] s'] eqn:E; [done..|]. by destruct e.
Qed.

Lemma svc_reserve_db u now ttl sku qty oid s :
  inv_db (svc_reserve u now ttl sku qty oid s).2 = inv_db s ∨
  inv_db (svc_reserve u now ttl sku qty oid s).2 =
    (atomically (repo_reserve u sku qty oid (now + ttl)) (inv_db s)).2.
Proof.
  unfold svc_reserve. case_decide; [by left|]. right. rewrite <- in_tx_db.
  destruct (in_tx _ s) as [[[row|]|e] s'] eqn:E; [done..|]. by destruct e.
Qed.

Lemma svc_release_expired_db now k lk s :
  inv_db (svc_release_expired now k lk s).2 = (atomically (release_expired now k lk) (inv_db s)).2.
Proof.
  unfold svc_release_expired. rewrite <- in_tx_db.
  destruct (in_tx _ s) as [[n|e] s'] eqn:E; simpl; [|done]. by case_decide.
Qed.

(** The call the service makes binds a keyword the repository does not take. *)
Lemma repository_upsert_raises sku oh v d : repository_upsert sku oh v d = (Err TypeError, d).
Proof.
  unfold repository_upsert, bind_keywords, upsert_stock_params. rewrite decide_False; [done|].
  rewrite Forall_singleton. set_solver.
Qed.

Lemma svc_upsert_db own sku oh caller admin v s :
  inv_db (svc_upsert_stock repository_upsert own sku oh caller admin v s).2 = inv_db s.
Proof.
  unfold svc_upsert_stock.
  destruct own as [own|]; [destruct (own sku); [case_decide|]|]; try done;
    rewrite in_tx_db; unfold atomically, begin_nested, mbind, ST_bind;
    by rewrite repository_upsert_raises.
Qed.

Lemma run_call_ok u c s : InvOK (inv_db s) → InvOK (inv_db (run_call u c s)).
Proof.
  intros HI. destruct c; simpl; unfold svc_release, svc_commit_reservation, svc_release_for_order,
    svc_restock_for_order, svc_commit_for_order;
    rewrite ?svc_upsert_db, ?svc_release_expired_db, ?in_tx_db;
    try done; try (apply atomically_ok; eauto with shop; fail).
  - destruct (svc_reserve_db u now ttl sku qty oid s) as [-> | ->]; [done|].
    apply atomically_ok; eauto with shop.
  - destruct (svc_reserve_many_db u now ttl lines oid s) as [-> | ->]; [done|].
    apply atomically_ok; eauto with shop.
Qed.

Lemma run_calls_ok u cs s : InvOK (inv_db s) → InvOK (inv_db (run_calls u cs s)).
Proof.
  unfold run_calls. revert s. induction cs; intros s HI; simpl; auto using run_call_ok.
Qed.

(** Is the call the merchant's stock declaration (the only one that may change
    how many units exist)? *)
Definition declares_stock (c : inv_call) : bool :=
  match c with CRepoUpsert _ _ => true | _ => false end.

Lemma run_call_units u c s sku :
  InvOK (inv_db s) → declares_stock c = false → units sku (inv_db (run_call u c s)) = units sku (inv_db s).
Proof.
  intros HI Hc. destruct c; simpl in *; unfold svc_release, svc_commit_reservation, svc_release_for_order,
    svc_restock_for_order, svc_commit_for_order;
    rewrite ?svc_upsert_db, ?svc_release_expired_db, ?in_tx_db;
    try done; try (apply atomically_conserves; eauto with shop; fail).
  - destruct (svc_reserve_db u now ttl sku0 qty oid s) as [-> | ->]; [done|].
    apply atomically_conserves; eauto with shop.
  - destruct (svc_reserve_many_db u now ttl lines oid s) as [-> | ->]; [done|].
    apply atomically_conserves; eauto with shop.
Qed.

(** * The guarantees *)

(** The books balance after any sequence of inventory calls - holds, batch
    holds, releases, commits, restocks, reaper sweeps, stock declarations, in
    any order and with any arguments, failing ones included: the units reserved
    on a stock row are exactly the units held by live reservations, and never
    exceed what is on hand. Nothing is ever oversold. *)
Theorem never_oversold (u : bool) (cs : list inv_call) (s : InvSvc) (sku : string) (row : Inventory)
    (HI : InvOK (inv_db s)) (Hrow : stock (inv_db (run_calls u cs s)) !! sku = Some row) :
  0 ≤ reserved row ≤ on_hand row ∧
  reserved row = qty_in HELD sku (reservations (inv_db (run_calls u cs s))).
Proof.
  pose proof (run_calls_ok u cs s HI) as HI'.
  destruct (ok_rows _ HI' _ _ Hrow) as [(?&?&?) _]. split; [lia|]. by apply ok_reserved.
Qed.

(** Units are neither created nor lost: whatever the reservation lifecycle
    does (hold, release, expire, commit, restock - in any order, failing calls
    included), the units on the shelf plus the units sold stay the same; only a
    stock declaration changes them. *)
Theorem units_conserved (u : bool) (cs : list inv_call) (s : InvSvc) (sku : string)
    (HI : InvOK (inv_db s)) (Hcs : Forall (λ c, declares_stock c = false) cs) :
  units sku (inv_db (run_calls u cs s)) = units sku (inv_db s).
Proof.
  unfold run_calls. revert s HI. induction Hcs as [|c cs Hc Hcs IH]; intros s HI; simpl; [done|].
  rewrite IH by by apply run_call_ok. by apply run_call_units.
Qed.

(** [reserve_many] is all-or-nothing. A batch that returns holds every line
    for the order at the asked quantity (one live reservation per line, in SKU
    order), having taken the stock of exactly the fresh ones; a batch that
    raises - refused stock, unknown SKU, conflicting or invalid line - leaves
    the database as it was. (That a failed flush unwinds the attempt's
    savepoint is SQLAlchemy's documented behaviour, the [true] argument.) *)
Theorem reserve_many_all_or_nothing (now ttl : Z) (lines : list (string * Z)) (oid : N)
    (s s' : InvSvc) (r : result (list Reservation)) (HI : InvOK (inv_db s))
    (Hrun : svc_reserve_many true now ttl lines oid s = (r, s')) :
  match r with
  | Ok rows => Forall2 (line_held oid (inv_db s')) (sort_by_sku lines) rows ∧
      ∃ new, placed_holds oid (now + ttl) new (inv_db s) (inv_db s')
  | Err _ => inv_db s' = inv_db s
  end.
Proof.
  unfold svc_reserve_many in Hrun. case_decide as Hnil.
  { simplify_eq/=. split; [constructor|]. exists []. by apply placed_nil. }
  destruct (validate_lines [] lines); [|by simplify_eq].
  unfold in_tx, atomically, begin_nested in Hrun.
  destruct (repo_reserve_many true lines oid (now + ttl) (inv_db s)) as [res d'] eqn:E.
  apply repo_reserve_many_post in E; [|done].
  destruct res as [[rows|rej]|e]; simpl in *.
  - simplify_eq/=. destruct E as [Hf (new & HP & _)]. eauto.
  - simplify_eq/=. by apply E.
  - destruct e; by simplify_eq/=.
Qed.

(** a batch replay is idempotent at any stock level: when every line is
    already held (or already paid for) by this order at the same quantity,
    [reserve_many] returns those rows and changes nothing - no second
    deduction, no second event. *)
Theorem reserve_many_idempotent (u : bool) (now ttl : Z) (lines : list (string * Z)) (oid : N)
    (s : InvSvc) (HI : InvOK (inv_db s)) (Hval : validate_lines [] lines = Ok tt)
    (Hheld : ∀ line, line ∈ lines → ∃ r, line_held oid (inv_db s) line r) :
  ∃ rows, svc_reserve_many u now ttl lines oid s = (Ok rows, s) ∧
    Forall2 (line_held oid (inv_db s)) (sort_by_sku lines) rows.
Proof.
  unfold svc_reserve_many. case_decide as Hnil; [subst; by exists []|]. rewrite Hval.
  destruct (repo_reserve_many_replay u lines oid (now + ttl) (inv_db s)) as (rows & Hr & Hf); [done..|].
  exists rows. split; [|done]. unfold in_tx, atomically, begin_nested. rewrite Hr. by destruct s.
Qed.

Lemma validate_lines_nodup lines : ∀ seen,
  validate_lines seen lines = Ok tt → NoDup lines.*1 ∧ (∀ x, x ∈ lines.*1 → x ∉ seen).
Proof.
  induction lines as [|[sku qty] rest IH]; intros seen H; simpl in *; [split; [constructor|set_solver]|].
  case_decide; [done|]. case_decide; [done|]. apply IH in H as [Hnd Hns]. split.
  - constructor; [|done]. intros Hin. apply (Hns _ Hin). set_solver.
  - intros x [->|Hx]%elem_of_cons; [done|]. specialize (Hns x Hx). set_solver.
Qed.

(** the two-attempt loop always decides: run alone, [reserve_many] never
    reports contention - the second attempt has seen the fate of every
    conflicting row, so a batch the service accepts (distinct SKUs) either
    holds, is refused for stock, or contradicts an existing hold. *)
Theorem reserve_many_decides (u : bool) (now ttl : Z) (lines : list (string * Z)) (oid : N)
    (s : InvSvc) (sku : string) :
  (svc_reserve_many u now ttl lines oid s).1 ≠ Err (ReservationContendedError sku).
Proof.
  unfold svc_reserve_many. case_decide as Hnil; [done|].
  destruct (validate_lines [] lines) as [[]|e] eqn:Hv.
  2: { simpl. intros ?; simplify_eq. clear -Hv. revert Hv. generalize ([] : list string).
       induction lines as [|[x q] l IH]; simpl; intros seen H; [done|]. repeat case_decide; naive_solver. }
  apply validate_lines_nodup in Hv as [Hnd _].
  assert (∀ sku, (repo_reserve_many u lines oid (now + ttl) (inv_db s)).1 ≠
                 Err (ReservationContendedError sku)) as H.
  { clear sku. intros sku. unfold repo_reserve_many. rewrite decide_False by done. unfold try_except.
    destruct (reserve_attempt u _ oid _ 0 _) as [[x|e] d1] eqn:E1; [done|].
    assert (∀ n d e d', reserve_attempt u (sort_by_sku lines) oid (now + ttl) n d = (Err e, d') →
      (∀ s, e ≠ AttemptRaced s) → (attempt_error e d').1 ≠ Err (ReservationContendedError sku)) as Hne.
    { intros n d e' d' E _. destruct e'; simpl; try done. intros ?; simplify_eq.
      destruct n; simpl in E; [|st_simp]; unfold attempt_block in E;
        destruct (reserve_lines _ _ _ _ _ _) as [[[]|] ?] eqn:E2; simplify_eq;
        by eapply reserve_lines_no_contended in E2. }
    destruct e; try (by eapply Hne). cbn beta iota.
    destruct (reserve_attempt u _ oid _ 1 _) as [[x|e] d2] eqn:E2; [done|].
    destruct e; try (by eapply Hne). exfalso. by eapply reserve_attempt1_no_race. }
  unfold in_tx, atomically, begin_nested. specialize (H sku).
  destruct (repo_reserve_many _ _ _ _ _) as [[[rows|rej]|e] d'] eqn:E; simpl in *; [done..|].
  assert (e ≠ ReservationContendedError sku) by congruence. destruct e; simpl; congruence.
Qed.

(** ** Claims after a settle *)

Lemma claim_after_mark oid st st' rows d d' a b ann :
  settled a b ann st rows d d' → st ≠ st' →
  (∀ r, r ∈ claim_order oid st' d → r ∈ rows) → claim_order oid st' d' = [].
Proof.
  intros HS Hne Hall. unfold claim_order. rewrite (settled_rows _ _ _ _ _ _ _ HS).
  apply filter_none. intros r' Hr' [Ho Hst].
  apply list_elem_of_fmap in Hr' as (r & -> & Hr). unfold mark in *. case_decide as Hin; [by simpl in *|].
  apply Hin, Hall, list_elem_of_filter. done.
Qed.

Lemma claim_other oid st st0 st' rows d d' a b ann :
  settled a b ann st rows d d' → batch_of st0 rows d → st' ≠ st → st' ≠ st0 →
  claim_order oid st' d' = claim_order oid st' d.
Proof.
  intros HS HB H1 H2. unfold claim_order. rewrite (settled_rows _ _ _ _ _ _ _ HS).
  pose proof (batch_status _ _ _ HB) as Hst. induction (reservations d) as [|r l IH]; [done|].
  rewrite fmap_cons, !filter_cons, IH.
  destruct (decide (r ∈ rows)) as [Hin|]; [|by rewrite mark_out]. specialize (Hst r Hin).
  rewrite mark_in, !decide_False;
    [done|intros []; congruence|intros []; by simplify_eq/=|done].
Qed.

(** Committing a whole claim adds it to the order's committed rows. *)
Lemma committed_after_mark oid rows d d' a b ann :
  InvOK d → rows = claim_order oid HELD d → settled a b ann COMMITTED rows d d' →
  length (claim_order oid COMMITTED d') = (length (claim_order oid COMMITTED d) + length rows)%nat.
Proof.
  intros HI Hrows HS. pose proof (claim_order_batch d oid HELD HI) as HB. rewrite <- Hrows in HB.
  rewrite (batch_perm d HELD rows HI HB).
  assert (∀ r, r ∈ rows → res_order_id r = oid ∧ res_status r = HELD) as Hr.
  { intros r. rewrite Hrows. unfold claim_order. rewrite list_elem_of_filter. naive_solver. }
  unfold claim_order. rewrite (settled_rows _ _ _ _ _ _ _ HS). clear -Hr.
  induction (reservations d) as [|r l IH]; [done|]. rewrite fmap_cons, !filter_cons.
  destruct (decide (r ∈ rows)) as [Hin|Hnin]; [rewrite mark_in by done|rewrite mark_out by done].
  - destruct (Hr r Hin) as [Ho Hs]. rewrite decide_True by done.
    rewrite (decide_False (P := res_order_id r = oid ∧ res_status r = COMMITTED)) by (intros []; congruence).
    simpl. rewrite IH. lia.
  - case_decide; simpl; rewrite IH; lia.
Qed.

(** After a full commit the committed rows carry the quantities once held. *)
Lemma committed_rows_qty oid d d1 a b ann sku :
  InvOK d → claim_order oid COMMITTED d = [] →
  settled a b ann COMMITTED (claim_order oid HELD d) d d1 →
  qty_of sku (claim_order oid COMMITTED d1) = qty_of sku (claim_order oid HELD d).
Proof.
  intros HI Hnone HS. unfold claim_order at 1. rewrite (settled_rows _ _ _ _ _ _ _ HS).
  set (rows := claim_order oid HELD d) in *.
  assert (∀ r, r ∈ reservations d → r ∈ rows ↔ res_order_id r = oid ∧ res_status r = HELD) as Hin.
  { intros r Hr. unfold rows, claim_order. rewrite list_elem_of_filter. tauto. }
  assert (∀ r, r ∈ reservations d → ¬ (res_order_id r = oid ∧ res_status r = COMMITTED)) as Hno.
  { intros r Hr HP. assert (r ∈ claim_order oid COMMITTED d) as H by (by apply list_elem_of_filter).
    rewrite Hnone in H. set_solver. }
  assert (rows = filter (λ r, res_order_id r = oid ∧ res_status r = HELD) (reservations d)) as Hrows by done.
  clearbody rows. rewrite Hrows at 2. clear Hrows HS. unfold qty_of.
  induction (reservations d) as [|r l IH]; [done|]. rewrite fmap_cons, !filter_cons.
  specialize (IH ltac:(set_solver) ltac:(set_solver)).
  pose proof (Hin r ltac:(set_solver)) as Hr. pose proof (Hno r ltac:(set_solver)) as Hn.
  destruct (decide (r ∈ rows)) as [H|H]; [rewrite mark_in by done|rewrite mark_out by done].
  - apply Hr in H as [? ?]. rewrite !decide_True by done. simpl. by rewrite IH.
  - rewrite decide_False by done. rewrite decide_False by tauto. done.
Qed.

(** Room left in the version counters for [n] more writes. *)
Definition version_room (n : nat) (d : InvDB) : Prop :=
  ∀ sku row, stock d !! sku = Some row → 0 ≤ version row ∧ version row + Z.of_nat n ≤ int4_max.

(** The held rows of a batch fit under every counter they come off. *)
Lemma held_batch_fits d rows sku row :
  InvOK d → batch_of HELD rows d → stock d !! sku = Some row → 0 ≤ qty_of sku rows ≤ reserved row.
Proof.
  intros HI HB Hs. split.
  { apply qty_of_nonneg. intros r Hr. apply (ok_qty d HI). by eapply batch_in. }
  rewrite (ok_reserved d HI _ _ Hs). unfold qty_of, qty_in.
  rewrite (batch_perm d HELD rows HI HB), sumZ_filter_split at 1.
  pose proof (batch_status _ _ _ HB) as Hst. pose proof (ok_qty d HI) as Hq.
  induction (reservations d) as [|r l IH]; simpl; [done|].
  specialize (IH ltac:(set_solver)). specialize (Hq r ltac:(set_solver)). specialize (Hst r).
  repeat case_decide; naive_solver lia.
Qed.

(** On balanced books a release runs to its end. *)
Lemma release_order_runs (oid : N) (d : InvDB) (HI : InvOK d)
    (Hroom : version_room (length (claim_order oid HELD d)) d) :
  ∃ d', atomically (release_for_order oid) d = (Ok (length (claim_order oid HELD d)), d') ∧
    InvOK d' ∧ claim_order oid HELD d' = [] ∧
    claim_order oid COMMITTED d' = claim_order oid COMMITTED d ∧
    stock_moved 0 (-1) (claim_order oid HELD d) (stock d) (stock d').
Proof.
  set (rows := claim_order oid HELD d) in *.
  pose proof (claim_order_batch d oid HELD HI) as HB. fold rows in HB.
  destruct (settle_rows_ok unreserve_sql 0 (-1) true HELD RELEASED "order release unreserve" rows d)
    as (d' & Hd' & HS); [done|done|lia|lia| |].
  { intros sku row Hs. destruct (Hroom _ _ Hs). destruct (ok_rows d HI _ _ Hs) as [Hc Hi].
    pose proof (held_batch_fits d rows sku row HI HB Hs).
    unfold stock_check, stock_int4, moved in *; simpl; split_and!; try lia. unfold int4 in *. lia. }
  assert (release_for_order oid d = (Ok (length rows), match rows with [] => d | _ => d' end)) as Hrel.
  { unfold release_for_order. fold rows. destruct rows; [done|]. unfold mbind, ST_bind. by rewrite Hd'. }
  exists (match rows with [] => d | _ => d' end). unfold atomically, begin_nested. rewrite Hrel.
  split; [done|]. assert (settled 0 (-1) true RELEASED rows d (match rows with [] => d | _ => d' end)) as HS'.
  { destruct rows; [apply settled_nil|done]. }
  split_and!.
  - by eapply settled_InvOK; eauto with shop.
  - by eapply claim_after_mark.
  - by eapply claim_other.
  - by apply HS'.
Qed.

(** compensation cannot fail halfway: on balanced books [release_for_order]
    always goes through (no [StockMutationError]), gives back exactly the
    order's held units, leaves none of its holds standing and does not touch
    what the order already paid for. *)
Theorem release_for_order_total (oid : N) (d : InvDB) (HI : InvOK d)
    (Hroom : version_room (length (claim_order oid HELD d)) d) :
  ∃ d', atomically (release_for_order oid) d = (Ok (length (claim_order oid HELD d)), d') ∧
    InvOK d' ∧ claim_order oid HELD d' = [] ∧
    claim_order oid COMMITTED d' = claim_order oid COMMITTED d ∧
    stock_moved 0 (-1) (claim_order oid HELD d) (stock d) (stock d').
Proof. by apply release_order_runs. Qed.

(** a replayed release finds nothing: calling [release_for_order] again
    returns 0 and changes neither stock nor outbox. *)
Theorem release_for_order_idempotent (oid : N) (s : InvSvc) (n : nat) (s' : InvSvc)
    (HI : InvOK (inv_db s)) (Hrel : svc_release_for_order oid s = (Ok n, s')) :
  svc_release_for_order oid s' = (Ok 0%nat, s').
Proof.
  apply in_tx_Ok in Hrel as [Hrel _].
  apply release_for_order_settled in Hrel as [_ HS]; [|done].
  unfold svc_release_for_order, in_tx, atomically, begin_nested, release_for_order.
  destruct s' as [d' ???]. simpl in *.
  by rewrite (claim_after_mark oid RELEASED HELD _ _ _ _ _ _ HS).
Qed.

(** A commit that met [expected] left every hold of the order committed. *)
Lemma commit_for_order_full oid expected d n d' :
  InvOK d → commit_for_order oid expected d = (Ok n, d') → (expected ≤ n)%nat →
  n = length (claim_order oid COMMITTED d') ∧ claim_order oid HELD d' = [].
Proof.
  intros HI Hc Hle.
  pose proof (commit_for_order_settled d oid expected n d' HI Hc) as [(Hn & -> & Hh)|(Hn & Hge & HS)].
  - destruct Hh as [Hh|Hh]; [done|lia].
  - rewrite (committed_after_mark oid _ d d' _ _ _ HI eq_refl HS). split; [done|].
    by eapply claim_after_mark.
Qed.

(** [commit_for_order] is all-or-nothing and answers with the end state: it
    returns how many of the order's reservations are committed after the call;
    if that falls short of [expected] it consumed nothing, otherwise no hold of
    the order is left and every one of them is committed. *)
Theorem commit_for_order_all_or_nothing (oid : N) (expected : nat) (s : InvSvc) (n : nat) (s' : InvSvc)
    (HI : InvOK (inv_db s)) (Hsvc : svc_commit_for_order oid expected s = (Ok n, s')) :
  n = length (claim_order oid COMMITTED (inv_db s')) ∧
  ((n < expected)%nat → inv_db s' = inv_db s) ∧
  ((expected ≤ n)%nat → claim_order oid HELD (inv_db s') = []).
Proof.
  apply in_tx_Ok in Hsvc as [Hc _]. revert HI Hc.
  generalize (inv_db s) (inv_db s'). intros d d' HI Hc.
  pose proof (commit_for_order_full oid expected d n d' HI Hc) as Hfull.
  split_and!; [|intros Hlt|intros Hge; by apply Hfull].
  - pose proof (commit_for_order_settled d oid expected n d' HI Hc) as [(Hn & -> & _)|(_ & Hge & _)];
      [done|by apply Hfull].
  - pose proof (commit_for_order_settled d oid expected n d' HI Hc) as [(_ & -> & _)|(_ & Hge & _)];
      [done|lia].
Qed.

(** restocking undoes a commit: after an order with no earlier sale is
    committed and then restocked, every shelf count is what it was, and the
    order owns nothing any more. *)
Theorem commit_then_restock (oid : N) (expected n m : nat) (s s1 s2 : InvSvc) (sku : string)
    (row row2 : Inventory) (HI : InvOK (inv_db s)) (Hnone : claim_order oid COMMITTED (inv_db s) = [])
    (Hsvc : svc_commit_for_order oid expected s = (Ok n, s1)) (Hfull : (expected ≤ n)%nat)
    (Hsvc2 : svc_restock_for_order oid s1 = (Ok m, s2))
    (Hrow : stock (inv_db s) !! sku = Some row) (Hrow2 : stock (inv_db s2) !! sku = Some row2) :
  m = n ∧ on_hand row2 = on_hand row ∧
  claim_order oid HELD (inv_db s2) = [] ∧ claim_order oid COMMITTED (inv_db s2) = [].
Proof.
  apply in_tx_Ok in Hsvc as [Hc _]. apply in_tx_Ok in Hsvc2 as [Hr _].
  revert HI Hnone Hc Hr Hrow Hrow2.
  generalize (inv_db s) (inv_db s1) (inv_db s2). intros d d1 d2 HI Hnone Hc Hr Hrow Hrow2.
  pose proof (commit_for_order_keeps oid expected d n d1 HI Hc) as [HI1 Hu1].
  pose proof (restock_for_order_keeps oid d1 m d2 HI1 Hr) as [HI2 Hu2].
  destruct (commit_for_order_full oid expected d n d1 HI Hc Hfull) as (Hn & Hh).
  apply restock_for_order_settled in Hr as [Hm HS]; [|done].
  assert (claim_order oid COMMITTED d2 = []) as Hc2 by by eapply claim_after_mark.
  assert (claim_order oid HELD d2 = []) as Hh2.
  { erewrite claim_other; [exact Hh|exact HS|by apply claim_order_batch|done|done]. }
  split_and!; [congruence| |done|done].
  assert (units sku d2 = units sku d) as Hu by by rewrite Hu2, Hu1.
  unfold units in Hu. rewrite Hrow, Hrow2 in Hu. simpl in Hu.
  assert (qty_in COMMITTED sku (reservations d2) = qty_in COMMITTED sku (reservations d)); [|injection Hu; lia].
  apply commit_for_order_settled in Hc as [(-> & -> & _)|(_ & _ & HS1)]; [| |done].
  - rewrite (settled_rows _ _ _ _ _ _ _ HS), (qty_in_mark d COMMITTED RELEASED)
      by (done || by apply claim_order_batch). rewrite Hnone. unfold qty_of. simpl. lia.
  - rewrite (settled_rows _ _ _ _ _ _ _ HS), (qty_in_mark d1 COMMITTED RELEASED)
      by (done || by apply claim_order_batch).
    rewrite (settled_rows _ _ _ _ _ _ _ HS1), (qty_in_mark d HELD COMMITTED)
      by (done || by apply claim_order_batch). simpl.
    assert (qty_of sku (claim_order oid COMMITTED d1) = qty_of sku (claim_order oid HELD d)) as ->; [|lia].
    by eapply committed_rows_qty.
Qed.

(** C26: as the classes are written, no stock declaration can succeed: the
    service passes [expected_version=] to a repository method that has no such
    parameter, so every upsert that passes the ownership gate ends in
    [TypeError], whatever the stock, and changes nothing. *)
Theorem upsert_stock_always_raises (ownership : option (string → option N)) (sku : string) (oh : Z)
    (caller : option N) (admin : bool) (if_match : option Z) (s : InvSvc)
    (Hgate : match ownership with
             | None => True
             | Some owner_of => ∃ o, owner_of sku = Some o ∧ (Some o = caller ∨ admin = true)
             end) :
  svc_upsert_stock repository_upsert ownership sku oh caller admin if_match s = (Err TypeError, s).
Proof.
  assert (∀ k, in_tx (repository_upsert sku oh if_match ≫= k : ST InvDB (option Inventory)) s
               = (Err TypeError, s)) as Htx.
  { intros k. unfold in_tx, atomically, begin_nested, mbind, ST_bind.
    rewrite repository_upsert_raises. by destruct s. }
  unfold svc_upsert_stock. destruct ownership as [own|]; [|apply Htx].
  destruct Hgate as (o & -> & Ho). rewrite decide_True by done. apply Htx.
Qed.

(** ** Concrete runs *)

Definition empty_db : InvDB := MkInvDB ∅ [] [] 0.
Definition empty_svc : InvSvc := MkInvSvc empty_db 0 0 0.

Lemma empty_ok : InvOK (inv_db empty_svc).
Proof. constructor; simpl; try constructor; intros; set_solver. Qed.

(** Two SKUs are stocked, an order holds a line of each. *)
Definition sample_calls : list inv_call :=
  [CRepoUpsert "a" 5; CRepoUpsert "b" 2; CReserveMany 0 100 [("b", 2); ("a", 3)] 7].
Definition sample_svc : InvSvc := run_calls true sample_calls empty_svc.

Lemma sample_ok : InvOK (inv_db sample_svc).
Proof. apply run_calls_ok, empty_ok. Qed.

Lemma never_oversold_witness : 0 ≤ 3 ≤ 5 ∧ 3 = qty_in HELD "a" (reservations (inv_db sample_svc)).
Proof.
  exact (never_oversold true sample_calls empty_svc "a" (MkInventory 5 3 2) empty_ok eq_refl).
Defined.

Definition sale_calls : list inv_call :=
  [CCommitForOrder 7 2; CReserve 10 100 "a" 1 8; CReleaseExpired 200 10 (λ _, false); CRestockForOrder 7].

Lemma units_conserved_witness : units "a" (inv_db (run_calls true sale_calls sample_svc)) = Some 5.
Proof.
  rewrite (units_conserved true sale_calls sample_svc "a" sample_ok); [reflexivity|].
  repeat constructor.
Defined.

Lemma reserve_many_all_or_nothing_witness :
  inv_db (svc_reserve_many true 0 100 [("a", 1); ("zz", 1)] 8 sample_svc).2 = inv_db sample_svc.
Proof.
  exact (reserve_many_all_or_nothing 0 100 [("a", 1); ("zz", 1)] 8 sample_svc
    (svc_reserve_many true 0 100 [("a", 1); ("zz", 1)] 8 sample_svc).2
    (Err (InsufficientStockError "zz" 1)) sample_ok eq_refl).
Defined.

Lemma reserve_many_idempotent_witness :
  ∃ rows, svc_reserve_many true 50 100 [("b", 2); ("a", 3)] 7 sample_svc = (Ok rows, sample_svc) ∧
    Forall2 (line_held 7 (inv_db sample_svc)) [("a", 3); ("b", 2)] rows.
Proof.
  apply (reserve_many_idempotent true 50 100 [("b", 2); ("a", 3)] 7 sample_svc sample_ok eq_refl).
  intros line [->|[->|[]%not_elem_of_nil]%elem_of_cons]%elem_of_cons.
  - exists (MkReservation 1 "b" 2 7 HELD 100). split; [|split; [by left|done]].
    apply (bool_decide_unpack _). vm_compute. exact I.
  - exists (MkReservation 0 "a" 3 7 HELD 100). split; [|split; [by left|done]].
    apply (bool_decide_unpack _). vm_compute. exact I.
Defined.

Lemma release_for_order_total_witness :
  ∃ d', atomically (release_for_order 7) (inv_db sample_svc) = (Ok 2%nat, d') ∧
    InvOK d' ∧ claim_order 7 HELD d' = [] ∧ claim_order 7 COMMITTED d' = [] ∧
    stock_moved 0 (-1) (claim_order 7 HELD (inv_db sample_svc)) (stock (inv_db sample_svc)) (stock d').
Proof.
  apply (release_for_order_total 7 (inv_db sample_svc) sample_ok).
  apply (bool_decide_unpack (map_Forall (λ _ row, 0 ≤ version row ∧ version row + 2 ≤ int4_max)
    (stock (inv_db sample_svc)))). vm_compute. exact I.
Defined.

Definition released_svc : InvSvc := (svc_release_for_order 7 sample_svc).2.

Lemma release_for_order_idempotent_witness :
  svc_release_for_order 7 released_svc = (Ok 0%nat, released_svc).
Proof.
  apply (release_for_order_idempotent 7 sample_svc 2 released_svc sample_ok).
  vm_compute. reflexivity.
Defined.

Lemma commit_for_order_all_or_nothing_witness :
  inv_db (svc_commit_for_order 7 3 sample_svc).2 = inv_db sample_svc.
Proof.
  destruct (commit_for_order_all_or_nothing 7 3 sample_svc 0
    (svc_commit_for_order 7 3 sample_svc).2 sample_ok ltac:(vm_compute; reflexivity)) as (_ & H & _).
  apply H. lia.
Defined.

Definition sold_svc : InvSvc := (svc_commit_for_order 7 2 sample_svc).2.
Definition restocked_svc : InvSvc := (svc_restock_for_order 7 sold_svc).2.

Lemma commit_then_restock_witness :
  2%nat = 2%nat ∧ 5 = 5 ∧ claim_order 7 HELD (inv_db restocked_svc) = [] ∧
  claim_order 7 COMMITTED (inv_db restocked_svc) = [].
Proof.
  apply (commit_then_restock 7 2 2 2 sample_svc sold_svc restocked_svc "a"
    (MkInventory 5 3 2) (MkInventory 5 0 4) sample_ok); [..|lia| | |]; vm_compute; reflexivity.
Defined.

Lemma upsert_stock_always_raises_witness :
  svc_upsert_stock repository_upsert (Some (λ _, Some 1%N)) "a" 9 (Some 1%N) false None sample_svc
    = (Err TypeError, sample_svc).
Proof. apply upsert_stock_always_raises. exists 1%N. split; [reflexivity|left; reflexivity]. Defined.
