(* ===== verification/Text.v ===== *)
(** * Text: the string operations the modelled code uses

    A Python [str] is a [string] read as a sequence of code points below 256.
    [hex_fixed] is a fixed-width lower-case hexadecimal rendering, [uuid_str] is
    [str(uuid.UUID)], [contains] is [a in b], [lower_str] is [str.lower],
    [int_str] is [str(int)], [python_int] is [int(str)]. *)

From Stdlib Require Import Ascii String.
From S2P Require Import Prelude.
Local Open Scope N_scope.

(** ** Hexadecimal *)

Definition hex_digit (d : N) : ascii :=
  ascii_of_N (if decide (d < 10) then 48 + d else 87 + d).

(** The last [width] hexadecimal digits of [x], most significant first. *)
Fixpoint hex_fixed (width : nat) (x : N) : string :=
  match width with
  | O => ""
  | S w => (hex_fixed w (x / 16) ++ String (hex_digit (x mod 16)) "")%string
  end.

(** [str(uuid)]: 8-4-4-4-12. *)
Definition uuid_str (u : N) : string :=
  (hex_fixed 8 (u / 2 ^ 96) ++ "-" ++ hex_fixed 4 (u / 2 ^ 80) ++ "-" ++ hex_fixed 4 (u / 2 ^ 64)
   ++ "-" ++ hex_fixed 4 (u / 2 ^ 48) ++ "-" ++ hex_fixed 12 u)%string.

#[global] Arguments uuid_str : simpl never.

(** A 128-bit identifier. *)
Definition is_uuid (u : N) : Prop := u < 2 ^ 128.
#[export] Instance is_uuid_dec u : Decision (is_uuid u).
Proof. unfold is_uuid. apply _. Defined.

Lemma str_cons_app c (a b : string) : (String c a ++ b = String c (a ++ b))%string.
Proof. done. Qed.

Lemma str_length_app (a b : string) :
  String.length (a ++ b) = (String.length a + String.length b)%nat.
Proof. induction a as [|x a IH]; [done|]. rewrite str_cons_app. simpl. by rewrite IH. Qed.

Lemma str_app_inj (a b c d : string) :
  String.length a = String.length c → (a ++ b = c ++ d)%string → a = c ∧ b = d.
Proof.
  revert c. induction a as [|x a IH]; intros [|y c] Hl H; try done.
  rewrite !str_cons_app in H. simplify_eq/=. by destruct (IH c) as [-> ->].
Qed.

Lemma str_app_inj_r (a b c : string) : (a ++ b = a ++ c)%string → b = c.
Proof. intros H. by eapply str_app_inj. Qed.

Lemma hex_fixed_length w x : String.length (hex_fixed w x) = w.
Proof. revert x. induction w as [|w IH]; intros x; simpl; [done|]. rewrite str_length_app, IH. simpl. lia. Qed.

Lemma hex_digit_inj a b : a < 16 → b < 16 → hex_digit a = hex_digit b → a = b.
Proof.
  unfold hex_digit. intros Ha Hb H. apply (f_equal N_of_ascii) in H.
  rewrite !N_ascii_embedding in H by (repeat case_decide; lia).
  repeat case_decide; lia.
Qed.

(** Equal renderings, equal numbers modulo the width. *)
Lemma hex_fixed_inj w x y :
  hex_fixed w x = hex_fixed w y → x mod 16 ^ N.of_nat w = y mod 16 ^ N.of_nat w.
Proof.
  revert x y. induction w as [|w IH]; intros x y H; [by rewrite !N.mod_1_r|]. simpl in H.
  apply str_app_inj in H as [H1 H2]; [|by rewrite !hex_fixed_length].
  apply IH in H1. injection H2 as H2.
  apply hex_digit_inj in H2; [|by apply N.mod_lt..].
  rewrite Nat2N.inj_succ, N.pow_succ_r by lia.
  rewrite !N.Div0.mod_mul_r. by rewrite H1, H2.
Qed.

Lemma uuid_str_length u : String.length (uuid_str u) = 36%nat.
Proof. unfold uuid_str. by rewrite !str_length_app, !hex_fixed_length. Qed.

(** A chunk of [x] known above [lo] and, as [n] digits, above [hi]. *)
Lemma chunk_join x y k n :
  (x / 2 ^ (k + 4 * n)) = (y / 2 ^ (k + 4 * n)) →
  (x / 2 ^ k) mod 16 ^ n = (y / 2 ^ k) mod 16 ^ n → x / 2 ^ k = y / 2 ^ k.
Proof.
  intros H1 H2. assert (16 ^ n = 2 ^ (4 * n)) as E by (rewrite N.pow_mul_r; done).
  rewrite N.pow_add_r, <- E, <- !N.Div0.div_div in H1.
  rewrite (N.div_mod' (x / 2 ^ k) (16 ^ n)), (N.div_mod' (y / 2 ^ k) (16 ^ n)). by rewrite H1, H2.
Qed.

Lemma uuid_str_inj u v : is_uuid u → is_uuid v → uuid_str u = uuid_str v → u = v.
Proof.
  unfold is_uuid, uuid_str. intros Hu Hv H.
  repeat match goal with
  | H : (hex_fixed _ _ ++ _)%string = (hex_fixed _ _ ++ _)%string |- _ =>
      apply str_app_inj in H as [?%hex_fixed_inj H]; [|by rewrite !hex_fixed_length]
  | H : ("-" ++ _)%string = ("-" ++ _)%string |- _ => apply str_app_inj_r in H
  end.
  apply hex_fixed_inj in H.
  change (N.of_nat 8) with 8 in *. change (N.of_nat 4) with 4 in *. change (N.of_nat 12) with 12 in *.
  assert (u / 2 ^ 128 = v / 2 ^ 128) as E by by rewrite !N.div_small.
  apply (chunk_join u v 96 8) in E; [|done].
  apply (chunk_join u v 80 4) in E; [|done].
  apply (chunk_join u v 64 4) in E; [|done].
  apply (chunk_join u v 48 4) in E; [|done].
  rewrite <- (N.div_1_r u), <- (N.div_1_r v). change 1 with (2 ^ 0).
  apply (chunk_join u v 0 12); [done|]. change (2 ^ 0) with 1. by rewrite !N.div_1_r.
Qed.

(** ** Case folding and substrings *)

Definition lower_ascii (c : ascii) : ascii :=
  let n := N_of_ascii c in
  if decide ((65 ≤ n ∧ n ≤ 90) ∨ (192 ≤ n ∧ n ≤ 222 ∧ n ≠ 215)) then ascii_of_N (n + 32) else c.

Fixpoint lower_str (s : string) : string :=
  match s with
  | EmptyString => EmptyString
  | String c s' => String (lower_ascii c) (lower_str s')
  end.

(** [a in b] *)
Definition contains (a b : string) : bool :=
  match String.index 0 a b with Some _ => true | None => false end.

(** [s.replace(c, "")] for a one-character [c]. *)
Fixpoint remove_char (c : ascii) (s : string) : string :=
  match s with
  | EmptyString => EmptyString
  | String x s' => if ascii_dec x c then remove_char c s' else String x (remove_char c s')
  end.

Definition is_digit (c : ascii) : bool := (48 <=? N_of_ascii c) && (N_of_ascii c <=? 57).

Fixpoint all_digits (s : string) : bool :=
  match s with
  | EmptyString => true
  | String c s' => is_digit c && all_digits s'
  end.

(** ** Decimal integers *)

Definition digit_str (d : N) : string := String (ascii_of_N (48 + d)) "".

Fixpoint dec_fuel (fuel : nat) (n : N) : string :=
  match fuel with
  | O => ""
  | S f => if decide (n < 10) then digit_str n
           else (dec_fuel f (n / 10) ++ digit_str (n mod 10))%string
  end.

(** [str(n)]: [N.size_nat n + 1] digits are enough, a decimal digit holds more than a bit. *)
Definition nat_str (n : N) : string := dec_fuel (S (N.size_nat n)) n.

Definition int_str (z : Z) : string :=
  if decide (z < 0)%Z then String "-" (nat_str (Z.to_N (- z))) else nat_str (Z.to_N z).

Fixpoint digits_value (acc : N) (s : string) : option N :=
  match s with
  | EmptyString => Some acc
  | String c s' => if is_digit c then digits_value (acc * 10 + (N_of_ascii c - 48)) s' else None
  end.

(** The digits of an integer literal: single underscores between digits are dropped. *)
Fixpoint strip_underscores (prev_digit : bool) (s : string) : option string :=
  match s with
  | EmptyString => if prev_digit then Some EmptyString else None
  | String c s' =>
      if is_digit c then String c <$> strip_underscores true s'
      else if ascii_dec c "_" then (if prev_digit then strip_underscores false s' else None)
      else None
  end.

Definition is_space (c : ascii) : bool :=
  let n := N_of_ascii c in ((9 <=? n) && (n <=? 13)) || ((28 <=? n) && (n <=? 32)) || (n =? 133) || (n =? 160).

Fixpoint lstrip (s : string) : string :=
  match s with
  | String c s' => if is_space c then lstrip s' else s
  | EmptyString => EmptyString
  end.

Fixpoint str_rev_app (s acc : string) : string :=
  match s with
  | EmptyString => acc
  | String c s' => str_rev_app s' (String c acc)
  end.
Definition str_rev (s : string) : string := str_rev_app s "".
Definition strip (s : string) : string := str_rev (lstrip (str_rev (lstrip s))).

(** [int(s)]: [None] is the [ValueError]. *)
Definition python_int (s : string) : option Z :=
  let unsigned s := match strip_underscores false s with
                    | Some ds => digits_value 0 ds
                    | None => None
                    end in
  match strip s with
  | String "-" s' => (λ n, - Z.of_N n)%Z <$> unsigned s'
  | String "+" s' => Z.of_N <$> unsigned s'
  | s' => Z.of_N <$> unsigned s'
  end.

(** ** Decimal round trips *)

Lemma str_app_nil_r (s : string) : (s ++ "" = s)%string.
Proof. induction s as [|c s IH]; [done|]. rewrite str_cons_app. by rewrite IH. Qed.

Lemma str_app_assoc (a b c : string) : (a ++ (b ++ c) = (a ++ b) ++ c)%string.
Proof. induction a as [|x a IH]; [done|]. rewrite !str_cons_app. by rewrite IH. Qed.

Lemma is_digit_48 d : d < 10 → is_digit (ascii_of_N (48 + d)) = true.
Proof.
  intros Hd. unfold is_digit. rewrite N_ascii_embedding by lia.
  apply andb_true_intro. split; apply N.leb_le; lia.
Qed.

Lemma digits_value_app acc a b :
  digits_value acc (a ++ b) = digits_value acc a ≫= λ v, digits_value v b.
Proof.
  revert acc. induction a as [|c a IH]; intros acc; [done|]. rewrite str_cons_app. simpl.
  destruct (is_digit c); [apply IH|done].
Qed.

Lemma digits_value_digit acc d : d < 10 → digits_value acc (digit_str d) = Some (acc * 10 + d).
Proof. intros Hd. unfold digit_str. simpl digits_value. rewrite is_digit_48, N_ascii_embedding by lia. f_equal. lia. Qed.

Lemma all_digits_app a b : all_digits (a ++ b) = all_digits a && all_digits b.
Proof.
  induction a as [|c a IH]; [done|]. rewrite str_cons_app. simpl. rewrite IH. by rewrite andb_assoc.
Qed.

Lemma dec_fuel_digits f n : all_digits (dec_fuel f n) = true.
Proof.
  revert n. induction f as [|f IH]; intros n; [done|]. simpl. case_decide as Hn.
  - unfold digit_str. simpl all_digits. by rewrite is_digit_48.
  - rewrite all_digits_app, IH. unfold digit_str. simpl all_digits. rewrite is_digit_48; [done|].
    by apply N.mod_lt.
Qed.

Lemma dec_fuel_value f n : n < 10 ^ N.of_nat f → digits_value 0 (dec_fuel f n) = Some n.
Proof.
  revert n. induction f as [|f IH]; intros n Hn.
  - simpl in *. f_equal. change (10 ^ 0) with 1 in Hn. lia.
  - rewrite Nat2N.inj_succ, N.pow_succ_r' in Hn. simpl dec_fuel. case_decide as H10.
    + rewrite digits_value_digit by done. f_equal.
    + rewrite digits_value_app, IH by (apply N.Div0.div_lt_upper_bound; lia). cbn [mbind option_bind].
      change (digits_value (n / 10) (digit_str (n mod 10)) = Some n).
      rewrite digits_value_digit by (by apply N.mod_lt). f_equal. pose proof (N.div_mod' n 10). lia.
Qed.

Lemma size_nat_gt p : N.pos p < 2 ^ N.of_nat (Pos.size_nat p).
Proof.
  induction p as [p IH|p IH|]; simpl Pos.size_nat; rewrite ?Nat2N.inj_succ, ?N.pow_succ_r'; lia.
Qed.

Lemma nat_str_fuel n : n < 10 ^ N.of_nat (S (N.size_nat n)).
Proof.
  apply N.lt_le_trans with (2 ^ N.of_nat (S (N.size_nat n))); [|apply N.pow_le_mono_l; lia].
  rewrite Nat2N.inj_succ, N.pow_succ_r'. destruct n as [|p]; [done|]. pose proof (size_nat_gt p). simpl N.size_nat. lia.
Qed.

Lemma nat_str_value n : digits_value 0 (nat_str n) = Some n.
Proof. apply dec_fuel_value, nat_str_fuel. Qed.

Lemma nat_str_digits n : all_digits (nat_str n) = true.
Proof. apply dec_fuel_digits. Qed.

Lemma nat_str_nonempty n : nat_str n ≠ EmptyString.
Proof.
  unfold nat_str. simpl. case_decide; [done|]. intros E. apply (f_equal String.length) in E.
  rewrite str_length_app in E. simpl in E. lia.
Qed.

Lemma strip_underscores_digits s b :
  all_digits s = true → (b = true ∨ s ≠ EmptyString) → strip_underscores b s = Some s.
Proof.
  revert b. induction s as [|c s IH]; intros b Hs Hb; simpl in *.
  - destruct Hb as [->|]; done.
  - apply andb_true_iff in Hs as [Hc Hs]. rewrite Hc, IH by auto. done.
Qed.

(** No white space anywhere. *)
Fixpoint no_space (s : string) : bool :=
  match s with
  | EmptyString => true
  | String c s' => negb (is_space c) && no_space s'
  end.

Lemma is_digit_no_space c : is_digit c = true → is_space c = false.
Proof.
  unfold is_digit, is_space. intros [H1%N.leb_le H2%N.leb_le]%andb_true_iff. set (n := N_of_ascii c) in *.
  repeat match goal with |- context [N.leb ?a ?b] => destruct (N.leb_spec a b) end;
    repeat match goal with |- context [N.eqb ?a ?b] => destruct (N.eqb_spec a b) end; simpl; try done; lia.
Qed.

Lemma digits_no_space s : all_digits s = true → no_space s = true.
Proof.
  induction s as [|c s IH]; simpl; [done|]. intros [Hc Hs]%andb_true_iff.
  by rewrite (is_digit_no_space c Hc), IH.
Qed.

Lemma str_rev_app_spec s a : str_rev_app s a = (str_rev s ++ a)%string.
Proof.
  unfold str_rev. revert a. induction s as [|c s IH]; intros a; simpl; [done|].
  rewrite (IH (String c a)), (IH (String c "")). by rewrite <- str_app_assoc.
Qed.

Lemma str_rev_cons c s : str_rev (String c s) = (str_rev s ++ String c "")%string.
Proof. unfold str_rev at 1. simpl. apply str_rev_app_spec. Qed.

Lemma str_rev_app_distr a b : str_rev (a ++ b) = (str_rev b ++ str_rev a)%string.
Proof.
  induction a as [|c a IH]; [by rewrite str_app_nil_r|].
  rewrite str_cons_app, !str_rev_cons, IH. by rewrite str_app_assoc.
Qed.

Lemma str_rev_involutive s : str_rev (str_rev s) = s.
Proof. induction s as [|c s IH]; [done|]. rewrite str_rev_cons, str_rev_app_distr, IH. done. Qed.

Lemma no_space_app a b : no_space (a ++ b) = no_space a && no_space b.
Proof. induction a as [|c a IH]; [done|]. rewrite str_cons_app. simpl. rewrite IH. by rewrite andb_assoc. Qed.

Lemma no_space_rev s : no_space s = true → no_space (str_rev s) = true.
Proof.
  induction s as [|c s IH]; [done|]. simpl. intros [Hc Hs]%andb_true_iff.
  rewrite str_rev_cons, no_space_app, IH by done. simpl. by rewrite Hc.
Qed.

Lemma lstrip_no_space s : no_space s = true → lstrip s = s.
Proof. destruct s as [|c s]; [done|]. simpl. intros [Hc _]%andb_true_iff. by destruct (is_space c). Qed.

Lemma strip_no_space s : no_space s = true → strip s = s.
Proof.
  intros Hs. unfold strip. rewrite (lstrip_no_space s Hs), lstrip_no_space by by apply no_space_rev.
  apply str_rev_involutive.
Qed.

(** The unsigned part of an integer literal. *)
Lemma unsigned_nat_str n :
  match strip_underscores false (nat_str n) with Some ds => digits_value 0 ds | None => None end = Some n.
Proof.
  rewrite strip_underscores_digits; [apply nat_str_value|apply nat_str_digits|right; apply nat_str_nonempty].
Qed.

(** [int(str(z)) == z] *)
Lemma python_int_str z : python_int (int_str z) = Some z.
Proof.
  unfold python_int, int_str. case_decide as Hz.
  - rewrite strip_no_space.
    + rewrite unsigned_nat_str. simpl. f_equal. lia.
    + simpl. apply digits_no_space, nat_str_digits.
  - rewrite strip_no_space by apply digits_no_space, nat_str_digits.
    pose proof (nat_str_digits (Z.to_N z)) as Hd. pose proof (unsigned_nat_str (Z.to_N z)) as Hu.
    destruct (nat_str (Z.to_N z)) as [|c s] eqn:E; [by destruct (nat_str_nonempty (Z.to_N z))|].
    simpl in Hd. apply andb_true_iff in Hd as [Hd _].
    assert (Z.of_N <$> Some (Z.to_N z) = Some z) as Hr by (simpl; f_equal; lia).
    rewrite <- Hr, <- Hu. by destruct c as [[] [] [] [] [] [] [] []].
Qed.

(** ** Prices *)

(** [str(price)] of a [Numeric(12, 2)] value of [c] cents. *)
Definition price_digits (n : N) : string :=
  (nat_str (n / 100) ++ "." ++ digit_str (n / 10 mod 10) ++ digit_str (n mod 10))%string.
Definition price_str (c : Z) : string :=
  if decide (c < 0)%Z then String "-" (price_digits (Z.to_N (- c))) else price_digits (Z.to_N c).

(** The text before and after the first point. *)
Fixpoint split_point (s : string) : string * option string :=
  match s with
  | EmptyString => (EmptyString, None)
  | String c s' => if ascii_dec c "." then (EmptyString, Some s')
                   else let '(a, b) := split_point s' in (String c a, b)
  end.

(** [Decimal(s)] in cents, for plain literals of at most two places; [None] is
    [InvalidOperation]. *)
Definition decimal_digits (s : string) : option N :=
  let '(whole, frac) := split_point s in
  match digits_value 0 whole, frac with
  | Some w, None => if decide (whole = EmptyString) then None else Some (w * 100)
  | Some w, Some EmptyString => if decide (whole = EmptyString) then None else Some (w * 100)
  | Some w, Some (String a EmptyString) => (λ f, w * 100 + f * 10) <$> digits_value 0 (String a EmptyString)
  | Some w, Some (String a (String b EmptyString)) =>
      (λ f, w * 100 + f) <$> digits_value 0 (String a (String b EmptyString))
  | _, _ => None
  end.
Definition decimal_cents (s : string) : option Z :=
  match s with
  | String "-" s' => (λ n, - Z.of_N n)%Z <$> decimal_digits s'
  | _ => Z.of_N <$> decimal_digits s
  end.

Lemma split_point_digits s t : all_digits s = true → split_point (s ++ "." ++ t) = (s, Some t).
Proof.
  induction s as [|c s IH]; intros Hs; [done|]. rewrite str_cons_app. simpl in *.
  apply andb_true_iff in Hs as [Hc Hs]. destruct (ascii_dec c ".") as [->|_]; [done|].
  change (String "." t) with ("." ++ t)%string. by rewrite IH.
Qed.

Lemma decimal_digits_price n : decimal_digits (price_digits n) = Some n.
Proof.
  unfold decimal_digits, price_digits. rewrite split_point_digits by apply nat_str_digits.
  rewrite nat_str_value.
  assert (digits_value 0 (digit_str (n / 10 mod 10) ++ digit_str (n mod 10)) =
          Some ((0 * 10 + n / 10 mod 10) * 10 + n mod 10)) as E.
  { rewrite digits_value_app, digits_value_digit by (by apply N.mod_lt). cbn [mbind option_bind].
    by apply digits_value_digit, N.mod_lt. }
  revert E. unfold digit_str. rewrite !str_cons_app. change (EmptyString ++ ?x)%string with x. intros E.
  cbn beta iota. rewrite E. simpl. f_equal.
  pose proof (N.div_mod' n 10). pose proof (N.div_mod' (n / 10) 10).
  assert (n / 100 = n / 10 / 10) as -> by by rewrite N.Div0.div_div. lia.
Qed.

(** A price survives its trip through a cart line's text. *)
Lemma decimal_cents_price c : decimal_cents (price_str c) = Some c.
Proof.
  unfold price_str. case_decide.
  - simpl. rewrite decimal_digits_price. simpl. f_equal. lia.
  - assert (Z.of_N <$> decimal_digits (price_digits (Z.to_N c)) = Some c) as <-.
    { rewrite decimal_digits_price. simpl. f_equal. lia. }
    pose proof (nat_str_digits (Z.to_N c / 100)) as Hd. pose proof (nat_str_nonempty (Z.to_N c / 100)) as Hne.
    unfold decimal_cents, price_digits. destruct (nat_str (Z.to_N c / 100)) as [|x s]; [done|]. clear Hne.
    simpl in Hd. apply andb_true_iff in Hd as [Hd _]. rewrite str_cons_app.
    by destruct x as [[] [] [] [] [] [] [] []].
Qed.

Example python_int_plain : python_int " 12_000 " = Some 12000%Z.
Proof. reflexivity. Qed.
Example python_int_bad : python_int "1__2" = None.
Proof. reflexivity. Qed.
Example uuid_str_example :
  uuid_str 0x1234567890abcdef1234567890abcdef = "12345678-90ab-cdef-1234-567890abcdef".
Proof. vm_compute. reflexivity. Qed.
