(* ===== verification/Parse.v ===== *)
(** * Parse: the text parsers of the standard library the code relies on

    [int(s, 16)], [uuid.UUID(s)], [str.split], [str.rsplit], [str.strip(chars)]
    and [str.replace] on code points below 256, with the round trip of
    [uuid.UUID] over [str(uuid)].  Used by the object keys of the image pipeline
    and by the pagination cursors. *)

From Stdlib Require Import Ascii String.
From S2P Require Import Prelude Text.
Local Open Scope N_scope.

(** ** Hexadecimal integers *)

Definition hex_char (c : ascii) : option N :=
  let n := N_of_ascii c in
  if decide (48 ≤ n ∧ n ≤ 57) then Some (n - 48)
  else if decide (97 ≤ n ∧ n ≤ 102) then Some (n - 87)
  else if decide (65 ≤ n ∧ n ≤ 70) then Some (n - 55)
  else None.

(** Digits with single underscores between them; [prev] says whether an
    underscore may come next, [acc] is the value so far. *)
Fixpoint hex_digits (prev : bool) (acc : N) (s : string) : option N :=
  match s with
  | EmptyString => if prev then Some acc else None
  | String c s' =>
      match hex_char c with
      | Some d => hex_digits true (acc * 16 + d) s'
      | None => if ascii_dec c "_" then (if prev then hex_digits false acc s' else None) else None
      end
  end.

(** After the sign: an optional [0x], which an underscore may follow. *)
Definition hex_unsigned (s : string) : option N :=
  match s with
  | String "0" (String ("x" | "X") rest) =>
      match rest with
      | String "_" rest' => hex_digits false 0 rest'
      | _ => hex_digits false 0 rest
      end
  | _ => hex_digits false 0 s
  end.

(** [int(s, 16)]; [None] is the [ValueError]. *)
Definition python_int16 (s : string) : option Z :=
  match strip s with
  | String "-" s' => (λ n, - Z.of_N n)%Z <$> hex_unsigned s'
  | String "+" s' => Z.of_N <$> hex_unsigned s'
  | s' => Z.of_N <$> hex_unsigned s'
  end.

(** ** Searching and splitting *)

(** [s.replace(pat, EmptyString)] for a non-empty [pat]: occurrences from the left, not overlapping. *)
Fixpoint remove_from (pat : string) (skip : nat) (s : string) : string :=
  match s with
  | EmptyString => EmptyString
  | String c s' =>
      match skip with
      | S k => remove_from pat k s'
      | O => if String.prefix pat s then remove_from pat (String.length pat - 1) s'
             else String c (remove_from pat 0 s')
      end
  end.
Definition remove_sub (pat s : string) : string := remove_from pat 0 s.

(** [s.lstrip(chars)] and [s.strip(chars)] *)
Fixpoint lstrip_chars (p : ascii → bool) (s : string) : string :=
  match s with
  | String c s' => if p c then lstrip_chars p s' else s
  | EmptyString => EmptyString
  end.
Definition strip_chars (p : ascii → bool) (s : string) : string :=
  str_rev (lstrip_chars p (str_rev (lstrip_chars p s))).

(** [s.split(c)] *)
Fixpoint split_on (c : ascii) (s : string) : list string :=
  match s with
  | EmptyString => [EmptyString]
  | String x s' =>
      if ascii_dec x c then EmptyString :: split_on c s'
      else match split_on c s' with
           | part :: rest => String x part :: rest
           | [] => [String x EmptyString]
           end
  end.

(** [s.rsplit(c, 1)[0]]: what is before the last [c]. *)
Fixpoint before_last (c : ascii) (s : string) : option string :=
  match s with
  | EmptyString => None
  | String x s' =>
      match before_last c s' with
      | Some p => Some (String x p)
      | None => if ascii_dec x c then Some EmptyString else None
      end
  end.
Definition rsplit_head (c : ascii) (s : string) : string := default s (before_last c s).

(** [s.endswith(suffix)] and [s.removesuffix(suffix)] *)
Definition ends_with (suffix s : string) : bool := String.prefix (str_rev suffix) (str_rev s).
Definition remove_suffix (suffix s : string) : string :=
  if ends_with suffix s then String.substring 0 (String.length s - String.length suffix) s else s.

(** ** [uuid.UUID(s)] *)

Definition brace (c : ascii) : bool := bool_decide (c = "{"%char ∨ c = "}"%char).

Definition uuid_parse (s : string) : option N :=
  let hex := remove_char "-" (strip_chars brace (remove_sub "uuid:" (remove_sub "urn:" s))) in
  if decide (String.length hex = 32%nat) then
    match python_int16 hex with
    | Some z => if decide (0 ≤ z < 2 ^ 128)%Z then Some (Z.to_N z) else None
    | None => None
    end
  else None.

(** ** Texts of hexadecimal digits *)

Fixpoint all_chars (p : ascii → bool) (s : string) : bool :=
  match s with
  | EmptyString => true
  | String c s' => p c && all_chars p s'
  end.
(** The characters a filter keeps, as [re.sub] and [str.replace] with nothing leave them. *)
Fixpoint keep_chars (p : ascii → bool) (s : string) : string :=
  match s with
  | EmptyString => EmptyString
  | String c s' => if p c then String c (keep_chars p s') else keep_chars p s'
  end.

Lemma keep_chars_all p s : all_chars p (keep_chars p s) = true.
Proof. induction s as [|c s IH]; simpl; [done|]. destruct (p c) eqn:Hc; simpl; [by rewrite Hc|done]. Qed.
Lemma keep_chars_id p s : all_chars p s = true → keep_chars p s = s.
Proof. induction s as [|c s IH]; simpl; [done|]. intros [-> Hs]%andb_true_iff. by rewrite IH. Qed.

Lemma all_chars_app p a b : all_chars p (a ++ b) = all_chars p a && all_chars p b.
Proof. induction a as [|c a IH]; [done|]. rewrite str_cons_app. simpl. by rewrite IH, andb_assoc. Qed.

Lemma all_chars_mono (p q : ascii → bool) s :
  (∀ c, p c = true → q c = true) → all_chars p s = true → all_chars q s = true.
Proof.
  intros Hpq. induction s as [|c s IH]; [done|]. simpl. rewrite !andb_true_iff. intros [??]. auto.
Qed.

(** The digits [hex_fixed] prints: lower case. *)
Definition lower_hex (c : ascii) : bool :=
  let n := N_of_ascii c in bool_decide ((48 ≤ n ∧ n ≤ 57) ∨ (97 ≤ n ∧ n ≤ 102)).

Lemma hex_digit_char d : d < 16 → lower_hex (hex_digit d) = true ∧ hex_char (hex_digit d) = Some d.
Proof.
  intros Hd. assert (d ∈ [0;1;2;3;4;5;6;7;8;9;10;11;12;13;14;15]) as Hin.
  { assert (d = N.of_nat (N.to_nat d)) as -> by lia. assert (N.to_nat d < 16)%nat as H by lia.
    revert H. generalize (N.to_nat d). intros k Hk. do 16 (destruct k as [|k]; [set_solver|]). lia. }
  by repeat (apply elem_of_cons in Hin as [->|Hin]; [vm_compute; done|]); apply elem_of_nil in Hin.
Qed.

Lemma hex_fixed_chars w x : all_chars lower_hex (hex_fixed w x) = true.
Proof.
  revert x. induction w as [|w IH]; intros x; simpl; [done|]. rewrite all_chars_app, IH. simpl.
  destruct (hex_digit_char (x mod 16)) as [-> _]; [by apply N.mod_lt|done].
Qed.

Lemma hex_digits_app prev acc a b v :
  all_chars lower_hex a = true → hex_digits prev acc a = Some v → a ≠ EmptyString →
  hex_digits prev acc (a ++ b) = hex_digits true v b.
Proof.
  revert prev acc. induction a as [|c a IH]; intros prev acc Ha Hv Hne; [done|].
  rewrite str_cons_app. simpl in *. apply andb_true_iff in Ha as [Hc Ha].
  destruct (hex_char c) as [d|] eqn:E.
  - destruct a as [|c' a']; [simpl in Hv; by simplify_eq|]. by apply IH.
  - exfalso. unfold lower_hex, hex_char in *. apply bool_decide_eq_true in Hc. repeat case_decide; first [done|lia].
Qed.

(** Reading back [hex_fixed]. *)
Lemma hex_fixed_value w x acc prev :
  (w ≠ 0)%nat →
  hex_digits prev acc (hex_fixed w x) = Some (acc * 16 ^ N.of_nat w + x mod 16 ^ N.of_nat w).
Proof.
  revert x acc prev. induction w as [|w IH]; intros x acc prev Hw; [done|]. simpl hex_fixed.
  destruct (hex_digit_char (x mod 16)) as [_ Hd]; [by apply N.mod_lt|].
  destruct (decide (w = 0)%nat) as [->|Hw0].
  - simpl. by rewrite Hd.
  - erewrite hex_digits_app; [|apply hex_fixed_chars|by apply IH|].
    + simpl. rewrite Hd. f_equal. rewrite Nat2N.inj_succ, N.pow_succ_r by lia.
      rewrite (N.Div0.mod_mul_r x 16 (16 ^ N.of_nat w)). lia.
    + intros E. pose proof (hex_fixed_length w (x / 16)) as Hl. rewrite E in Hl. simpl in Hl. lia.
Qed.

(** ** What the cleaning steps leave alone *)

Lemma remove_sub_absent c rest s :
  all_chars (λ x, negb (bool_decide (x = c))) s = true → remove_sub (String c rest) s = s.
Proof.
  unfold remove_sub. induction s as [|x s IH]; [done|].
  cbn -[String.prefix]. intros [Hx Hs]%andb_true_iff.
  apply negb_true_iff, bool_decide_eq_false in Hx. cbn [String.prefix].
  destruct (ascii_dec c x) as [->|_]; [done|]. f_equal. by apply IH.
Qed.

Lemma lstrip_chars_none p s : all_chars (λ c, negb (p c)) s = true → lstrip_chars p s = s.
Proof. destruct s as [|c s]; [done|]. simpl. intros [Hc _]%andb_true_iff. by apply negb_true_iff in Hc as ->. Qed.

Lemma all_chars_rev p s : all_chars p s = true → all_chars p (str_rev s) = true.
Proof.
  induction s as [|c s IH]; [done|]. simpl. intros [Hc Hs]%andb_true_iff.
  rewrite str_rev_cons, all_chars_app, IH by done. simpl. by rewrite Hc.
Qed.

Lemma strip_chars_none p s : all_chars (λ c, negb (p c)) s = true → strip_chars p s = s.
Proof.
  intros H. unfold strip_chars. rewrite (lstrip_chars_none p s H).
  rewrite lstrip_chars_none by by apply all_chars_rev. apply str_rev_involutive.
Qed.

Lemma remove_char_app c a b : remove_char c (a ++ b) = (remove_char c a ++ remove_char c b)%string.
Proof.
  induction a as [|x a IH]; [done|]. rewrite str_cons_app. simpl. destruct (ascii_dec x c); [done|].
  by rewrite IH, str_cons_app.
Qed.

Lemma remove_char_none c s :
  all_chars (λ x, negb (bool_decide (x = c))) s = true → remove_char c s = s.
Proof.
  induction s as [|x s IH]; [done|]. simpl. intros [Hx Hs]%andb_true_iff.
  apply negb_true_iff, bool_decide_eq_false in Hx. destruct (ascii_dec x c); [done|]. by rewrite IH.
Qed.

Ltac char_cases c := destruct c as [[] [] [] [] [] [] [] []]; try done.

Lemma lower_hex_not c x : lower_hex c = false → lower_hex x = true → negb (bool_decide (x = c)) = true.
Proof. intros Hc Hx. apply negb_true_iff, bool_decide_eq_false. intros ->. congruence. Qed.

(** The sixteen-by-two digits of a uuid in one text. *)
Lemma hex_join w1 w2 x :
  (hex_fixed w1 (x / 16 ^ N.of_nat w2) ++ hex_fixed w2 x)%string = hex_fixed (w1 + w2) x.
Proof.
  revert x. induction w2 as [|w2 IH]; intros x.
  - simpl. rewrite N.div_1_r, Nat.add_0_r. by rewrite str_app_nil_r.
  - rewrite Nat.add_succ_r. simpl hex_fixed. rewrite <- IH, str_app_assoc. do 2 f_equal.
    rewrite Nat2N.inj_succ, N.pow_succ_r by lia. by rewrite N.Div0.div_div.
Qed.

Lemma str_app_nil_l s : (EmptyString ++ s)%string = s.
Proof. done. Qed.

Lemma uuid_str_hex u : remove_char "-" (uuid_str u) = hex_fixed 32 u.
Proof.
  assert (∀ w x, remove_char "-" (hex_fixed w x) = hex_fixed w x) as Hh.
  { intros w x. apply remove_char_none. eapply all_chars_mono; [|apply hex_fixed_chars].
    intros c. by apply lower_hex_not. }
  unfold uuid_str. rewrite !remove_char_app, !Hh. change (remove_char "-" "-") with EmptyString.
  rewrite !(str_app_nil_l _).
  assert (2 ^ 48 = 16 ^ N.of_nat 12) as -> by done. rewrite (hex_join 4 12 u).
  assert (2 ^ 64 = 16 ^ N.of_nat (4 + 12)) as -> by done. rewrite (hex_join 4 (4 + 12) u).
  assert (2 ^ 80 = 16 ^ N.of_nat (4 + (4 + 12))) as -> by done. rewrite (hex_join 4 _ u).
  assert (2 ^ 96 = 16 ^ N.of_nat (4 + (4 + (4 + 12)))) as -> by done. by rewrite (hex_join 8 _ u).
Qed.

Definition uuid_char (c : ascii) : bool := lower_hex c || bool_decide (c = "-"%char).

Lemma uuid_str_chars u : all_chars uuid_char (uuid_str u) = true.
Proof.
  assert (∀ w x, all_chars uuid_char (hex_fixed w x) = true) as Hh.
  { intros w x. eapply all_chars_mono; [|apply hex_fixed_chars]. intros c Hc. unfold uuid_char. by rewrite Hc. }
  unfold uuid_str. by rewrite !all_chars_app, !Hh.
Qed.

Lemma python_int16_hex w x : (w ≠ 0)%nat → python_int16 (hex_fixed w x) = Some (Z.of_N (x mod 16 ^ N.of_nat w)).
Proof.
  intros Hw. pose proof (hex_fixed_chars w x) as Hc. pose proof (hex_fixed_value w x 0 false Hw) as Hv.
  unfold python_int16. rewrite strip_no_space.
  - assert (hex_unsigned (hex_fixed w x) = Some (x mod 16 ^ N.of_nat w)) as Hu.
    { unfold hex_unsigned. destruct (hex_fixed w x) as [|a s]; [done|].
      destruct s as [|b s]; [by char_cases a|]. simpl in Hc.
      apply andb_true_iff in Hc as [_ [Hb _]%andb_true_iff]. by char_cases a; char_cases b. }
    destruct (hex_fixed w x) as [|a s]; [done|]. simpl in Hc. apply andb_true_iff in Hc as [Ha _].
    char_cases a; cbv beta iota; by rewrite Hu.
  - clear Hv. induction (hex_fixed w x) as [|a s IH]; [done|]. simpl in *. apply andb_true_iff in Hc as [Ha Hs].
    rewrite IH by done. by char_cases a.
Qed.

(** [uuid.UUID(str(u)) == u] *)
Lemma uuid_parse_str u : is_uuid u → uuid_parse (uuid_str u) = Some u.
Proof.
  intros Hu. unfold uuid_parse.
  assert (∀ c : ascii, uuid_char c = false → all_chars (λ x, negb (bool_decide (x = c))) (uuid_str u) = true) as Hn.
  { intros c Hc. eapply all_chars_mono; [|apply uuid_str_chars].
    intros x Hx. apply negb_true_iff, bool_decide_eq_false. intros ->. congruence. }
  rewrite (remove_sub_absent "u" "rn:" (uuid_str u)) by by apply Hn.
  rewrite (remove_sub_absent "u" "uid:" (uuid_str u)) by by apply Hn.
  rewrite strip_chars_none; [|eapply all_chars_mono; [|apply uuid_str_chars]; intros x Hx; by char_cases x].
  rewrite uuid_str_hex. rewrite decide_True by apply hex_fixed_length.
  rewrite python_int16_hex by done. unfold is_uuid in Hu. change (16 ^ N.of_nat 32) with (2 ^ 128).
  rewrite N.mod_small by done. rewrite decide_True by lia. by rewrite N2Z.id.
Qed.
