(* ===== verification/Url.v ===== *)
(** * Url: [urllib.parse.urlsplit] and [urlunsplit], and the re-hosting of uploads

    What src/catalog/adapters/s3_images.py ([presign_upload]) and the validator
    [_validate_presign_public_base_url] of src/shared/config/setting.py use of the
    standard library, and the proof that a presigned upload keeps its target when
    its origin is replaced by a configured one. *)

From Stdlib Require Import Ascii String.
From S2P Require Import Prelude Errors Text Parse.

Record SplitResult := MkSplit {
  us_scheme : string; us_netloc : string; us_path : string; us_query : string; us_fragment : string
}.

(** The longest prefix of characters that satisfy [p], and the rest. *)
Fixpoint span_str (p : ascii → bool) (s : string) : string * string :=
  match s with
  | EmptyString => (EmptyString, EmptyString)
  | String c r => if p c then let '(a, b) := span_str p r in (String c a, b) else (EmptyString, s)
  end.
Definition str_tail (s : string) : string := match s with EmptyString => EmptyString | String _ r => r end.

Definition is_char (x c : ascii) : bool := bool_decide (c = x).
(** [_WHATWG_C0_CONTROL_OR_SPACE], and what is left of [_UNSAFE_URL_BYTES_TO_REMOVE] *)
Definition c0_or_space (c : ascii) : bool := bool_decide (N_of_ascii c ≤ 32)%N.
Definition url_safe (c : ascii) : bool := negb (bool_decide (N_of_ascii c ∈ [9; 10; 13])%N).
Definition ascii_alpha (c : ascii) : bool :=
  bool_decide ((65 ≤ N_of_ascii c ≤ 90) ∨ (97 ≤ N_of_ascii c ≤ 122))%N.
Definition scheme_char (c : ascii) : bool :=
  ascii_alpha c || is_digit c || is_char "+" c || is_char "-" c || is_char "." c.
Definition netloc_char (c : ascii) : bool := negb (is_char "/" c || is_char "?" c || is_char "#" c).

Section Urlsplit.
(** The checks on bracketed and on non-ASCII host names. *)
Context (netloc_ok : string → bool).

Definition split_scheme (url : string) : string * string :=
  match span_str (λ c, negb (is_char ":" c)) url with
  | (String c s, String _ rest) =>
      if ascii_alpha c && all_chars scheme_char (String c s) then (lower_str (String c s), rest) else (EmptyString, url)
  | _ => (EmptyString, url)
  end.
Definition split_netloc (url : string) : string * string :=
  match url with
  | String "/" (String "/" rest) => span_str netloc_char rest
  | _ => (EmptyString, url)
  end.
Definition split_once (x : ascii) (url : string) : string * string :=
  let '(a, b) := span_str (λ c, negb (is_char x c)) url in (a, str_tail b).

(** [urlsplit]; [None] is its [ValueError] *)
Definition urlsplit (url : string) : option SplitResult :=
  let url := keep_chars url_safe (lstrip_chars c0_or_space url) in
  let '(scheme, url) := split_scheme url in
  let '(netloc, url) := split_netloc url in
  let '(url, fragment) := split_once "#" url in
  let '(path, query) := split_once "?" url in
  if netloc_ok netloc then Some (MkSplit scheme netloc path query fragment) else None.

Definition rooted (path : string) : string :=
  match path with EmptyString => EmptyString | String "/" _ => path | _ => ("/" +:+ path)%string end.
Definition marked (mark : string) (s : string) : string :=
  match s with EmptyString => EmptyString | _ => (mark +:+ s)%string end.

(** [urlunsplit] of a URL with a network location *)
Definition urlunsplit (r : SplitResult) : string :=
  ((if decide (us_scheme r = "") then "" else us_scheme r +:+ ":") +:+ "//" +:+ us_netloc r +:+ rooted (us_path r)
   +:+ marked "?" (us_query r) +:+ marked "#" (us_fragment r))%string.

(** [_validate_presign_public_base_url]: an absolute http(s) origin, nothing else. *)
Definition origin_ok (base : string) : bool :=
  match urlsplit base with
  | Some p =>
      bool_decide (us_scheme p = "http"%string ∨ us_scheme p = "https"%string) &&
      negb (bool_decide (us_netloc p = ""%string)) &&
      bool_decide (us_path p = ""%string ∨ us_path p = "/"%string) &&
      bool_decide (us_query p = ""%string) && bool_decide (us_fragment p = ""%string)
  | None => false
  end.

(** The re-hosting in [presign_upload]. *)
Definition rehost (base : option string) (url : string) : option string :=
  match base with
  | None => Some url
  | Some b =>
      generated ← urlsplit url;
      origin ← urlsplit b;
      Some (urlunsplit (MkSplit (us_scheme origin) (us_netloc origin) (us_path generated) (us_query generated) (us_fragment generated)))
  end.

(** ** Pieces *)

Lemma span_str_spec p s : let '(a, b) := span_str p s in
  s = (a +:+ b)%string ∧ all_chars p a = true ∧ match b with EmptyString => True | String c _ => p c = false end.
Proof.
  induction s as [|c s IH]; simpl; [done|]. destruct (p c) eqn:Hc; [|by simpl].
  destruct (span_str p s) as [a b]. destruct IH as (-> & Ha & Hb). simpl. by rewrite Hc.
Qed.

Lemma span_str_app p a b :
  all_chars p a = true → match b with EmptyString => True | String c _ => p c = false end → span_str p (a +:+ b) = (a, b).
Proof.
  intros Ha Hb. induction a as [|c a IH]; simpl in *.
  - destruct b as [|c b]; [done|]. simpl. by rewrite Hb.
  - apply andb_true_iff in Ha as [Hc Ha]. rewrite Hc. by rewrite IH.
Qed.

Lemma lower_url_safe s : all_chars scheme_char s = true → all_chars url_safe (lower_str s) = true.
Proof.
  induction s as [|c s IH]; simpl; [done|]. intros [Hc Hs]%andb_true_iff. rewrite IH by done.
  rewrite andb_true_r. revert Hc. destruct c as [[] [] [] [] [] [] [] []]; vm_compute; congruence.
Qed.

(** What every split satisfies. *)
Definition split_wf (r : SplitResult) : Prop :=
  all_chars url_safe (us_scheme r) = true ∧
  all_chars url_safe (us_netloc r) = true ∧ all_chars netloc_char (us_netloc r) = true ∧
  all_chars url_safe (us_path r) = true ∧ all_chars (λ c, negb (is_char "?" c)) (us_path r) = true ∧
  all_chars (λ c, negb (is_char "#" c)) (us_path r) = true ∧
  all_chars url_safe (us_query r) = true ∧ all_chars (λ c, negb (is_char "#" c)) (us_query r) = true ∧
  all_chars url_safe (us_fragment r) = true ∧ netloc_ok (us_netloc r) = true.

Lemma split_scheme_safe url : all_chars url_safe url = true →
  all_chars url_safe (split_scheme url).1 = true ∧ all_chars url_safe (split_scheme url).2 = true.
Proof.
  intros Hu. unfold split_scheme. pose proof (span_str_spec (λ c, negb (is_char ":" c)) url) as Hs.
  destruct (span_str _ url) as [[|c s] [|c' r]]; try done. destruct Hs as (-> & _ & _).
  destruct (ascii_alpha c && _) eqn:Hc; [|done]. apply andb_true_iff in Hc as [_ Hc]. cbn [fst snd].
  split; [by apply (lower_url_safe (String c s))|]. rewrite all_chars_app in Hu. apply andb_true_iff in Hu as [_ Hu].
  simpl in Hu. by apply andb_true_iff in Hu as [_ ?].
Qed.

Lemma split_netloc_safe url : all_chars url_safe url = true →
  all_chars url_safe (split_netloc url).1 = true ∧ all_chars netloc_char (split_netloc url).1 = true ∧
  all_chars url_safe (split_netloc url).2 = true.
Proof.
  intros Hu. unfold split_netloc.
  destruct url as [|c [|c' rest]]; try done; try (repeat case_match; by simplify_eq).
  destruct (decide (c = "/"%char)) as [->|]; [|repeat case_match; by simplify_eq].
  destruct (decide (c' = "/"%char)) as [->|]; [|repeat case_match; by simplify_eq].
  pose proof (span_str_spec netloc_char rest) as Hs. destruct (span_str _ rest) as [a b]. destruct Hs as (-> & Ha & _).
  cbn [all_chars] in Hu. apply andb_true_iff in Hu as [_ Hu]. apply andb_true_iff in Hu as [_ Hu].
  rewrite all_chars_app in Hu. by apply andb_true_iff in Hu as [? ?].
Qed.

Lemma split_once_safe p x url : all_chars p url = true →
  all_chars p (split_once x url).1 = true ∧ all_chars p (split_once x url).2 = true ∧
  all_chars (λ c, negb (is_char x c)) (split_once x url).1 = true.
Proof.
  intros Hu. unfold split_once. pose proof (span_str_spec (λ c, negb (is_char x c)) url) as Hs.
  destruct (span_str _ url) as [a b]. destruct Hs as (-> & Ha & _). rewrite all_chars_app in Hu.
  apply andb_true_iff in Hu as [Hpa Hpb]. split_and!; [done| |done].
  destruct b as [|c b]; [done|]. simpl in Hpb |- *. by apply andb_true_iff in Hpb as [_ ?].
Qed.

Lemma urlsplit_wf url r : urlsplit url = Some r → split_wf r.
Proof.
  unfold urlsplit. pose proof (keep_chars_all url_safe (lstrip_chars c0_or_space url)) as H0.
  destruct (split_scheme_safe _ H0) as [H1 H2]. destruct (split_scheme _) as [scheme u1].
  destruct (split_netloc_safe _ H2) as (H3 & H4 & H5). destruct (split_netloc _) as [netloc u2].
  destruct (split_once_safe _ "#" _ H5) as (H6 & H7 & H8). simpl in *. destruct (split_once "#" u2) as [u3 fragment]; simpl in *.
  destruct (split_once_safe _ "?" _ H6) as (H9 & H10 & H11). destruct (split_once_safe _ "?" _ H8) as (H12 & H13 & _).
  destruct (split_once "?" u3) as [path query]; simpl in *. destruct (netloc_ok netloc) eqn:Hn; [|done].
  intros [= <-]. by repeat split.
Qed.

(** ** Splitting what was put together *)

Lemma split_once_marked x a b :
  all_chars (λ c, negb (is_char x c)) a = true → split_once x (a +:+ marked (String x EmptyString) b) = (a, b).
Proof.
  intros Ha. unfold split_once, marked.
  rewrite (span_str_app _ a (match b with EmptyString => _ | _ => _ end)); [by destruct b|done|].
  destruct b; simpl; [done|]. unfold is_char. by rewrite bool_decide_true.
Qed.

Lemma split_netloc_joined netloc rest :
  all_chars netloc_char netloc = true → match rest with EmptyString => True | String c _ => netloc_char c = false end →
  split_netloc ("//" +:+ netloc +:+ rest) = (netloc, rest).
Proof. intros Hn Hr. exact (span_str_app _ _ _ Hn Hr). Qed.

Lemma rooted_id path : match path with String c _ => c = "/"%char | EmptyString => True end → rooted path = path.
Proof. by destruct path as [|c path]; [|intros ->]. Qed.

Definition http_scheme (s : string) : Prop := s = "http"%string ∨ s = "https"%string.

Lemma split_scheme_http s rest : http_scheme s → split_scheme (s +:+ ":" +:+ rest) = (s, rest).
Proof. by intros [-> | ->]. Qed.

(** A well-formed split of an http(s) URL is read back from its text. *)
Lemma urlsplit_urlunsplit r :
  split_wf r → http_scheme (us_scheme r) →
  match us_path r with String c _ => c = "/"%char | EmptyString => True end →
  urlsplit (urlunsplit r) = Some r.
Proof.
  destruct r as [scheme netloc path query fragment]. intros (_ & Hn1 & Hn2 & Hp1 & Hp2 & Hp3 & Hq1 & Hq2 & Hf & Hok) Hs Hp.
  simpl in *. unfold urlsplit, urlunsplit; cbn [us_scheme us_netloc us_path us_query us_fragment].
  rewrite rooted_id by done. rewrite decide_False by by destruct Hs as [-> | ->].
  set (tail := (netloc +:+ path +:+ marked "?" query +:+ marked "#" fragment)%string).
  assert (all_chars url_safe tail = true) as Htail.
  { unfold tail, marked. rewrite !all_chars_app, Hn1, Hp1. destruct query, fragment; simpl in *; rewrite ?Hq1, ?Hf; done. }
  assert (keep_chars url_safe (lstrip_chars c0_or_space ((scheme +:+ ":") +:+ "//" +:+ tail))
          = (scheme +:+ ":" +:+ "//" +:+ tail)%string) as ->.
  { rewrite <- str_app_assoc. destruct Hs as [-> | ->]; apply keep_chars_id; exact Htail. }
  rewrite split_scheme_http by done. unfold tail. rewrite split_netloc_joined; [|done|].
  - rewrite str_app_assoc. rewrite split_once_marked.
    + rewrite split_once_marked by done. by rewrite Hok.
    + rewrite all_chars_app, Hp3. unfold marked. destruct query; [done|]. simpl in *. by rewrite Hq2.
  - destruct path as [|c path]; [|by rewrite Hp]. unfold marked. by destruct query, fragment.
Qed.

(** The path of a URL with a network location is empty or rooted. *)
Lemma urlsplit_rooted url r : urlsplit url = Some r → us_netloc r ≠ ""%string →
  match us_path r with String c _ => c = "/"%char | EmptyString => True end.
Proof.
  unfold urlsplit. destruct (split_scheme _) as [scheme u]. unfold split_netloc.
  destruct (match u with String "/" (String "/" rest) => _ | _ => _ end) as [netloc u2] eqn:Hu.
  destruct (split_once "#" u2) as [u3 fragment] eqn:H3. destruct (split_once "?" u3) as [path query] eqn:H4.
  destruct (netloc_ok netloc); [|done]. intros [= <-] Hne. simpl in *.
  assert (∃ rest, span_str netloc_char rest = (netloc, u2)) as [rest Hr].
  { destruct u as [|c [|c' rest]]; simplify_eq; try done; [repeat case_match; by simplify_eq|].
    destruct (decide (c = "/"%char)) as [->|]; [|repeat case_match; by simplify_eq].
    destruct (decide (c' = "/"%char)) as [->|]; [|repeat case_match; by simplify_eq]. eauto. }
  pose proof (span_str_spec netloc_char rest) as Hs. rewrite Hr in Hs. destruct Hs as (_ & _ & Hu2).
  destruct u2 as [|c u2]; [injection H3 as <- <-; by injection H4 as <- <-|].
  unfold netloc_char in Hu2. apply negb_false_iff in Hu2.
  unfold split_once in H3, H4. simpl in H3. destruct (is_char "#" c) eqn:Hc; simpl in H3.
  { injection H3 as <- <-. by injection H4 as <- <-. }
  destruct (span_str _ u2) as [a b]. injection H3 as <- <-. simpl in H4.
  destruct (is_char "?" c) eqn:Hc'; simpl in H4; [by injection H4 as <- <-|].
  destruct (span_str _ a) as [a' b']. injection H4 as <- <-.
  rewrite !orb_false_r in Hu2. by apply bool_decide_eq_true in Hu2.
Qed.

(** With a public base the settings accept, a presigned upload is re-hosted
    exactly: the ticket's URL has the configured scheme and host and, character for
    character, the path, query and fragment S3 generated; without a base it is S3's. *)
Theorem rehosted_uploads_keep_their_target (base : option string) (url : string) (g : SplitResult)
    (Hbase : match base with Some b => origin_ok b = true | None => True end)
    (Hurl : urlsplit url = Some g) (Hhost : us_netloc g ≠ ""%string) :
  match base with
  | None => rehost base url = Some url
  | Some b => ∃ o url', urlsplit b = Some o ∧ rehost base url = Some url' ∧ http_scheme (us_scheme o) ∧ us_netloc o ≠ ""%string ∧
      urlsplit url' = Some (MkSplit (us_scheme o) (us_netloc o) (us_path g) (us_query g) (us_fragment g))
  end.
Proof.
  destruct base as [b|]; [|done]. unfold origin_ok in Hbase. unfold rehost. rewrite Hurl.
  destruct (urlsplit b) as [o|] eqn:Ho; [|done]. exists o.
  rewrite !andb_true_iff, negb_true_iff, !bool_decide_eq_true, bool_decide_eq_false in Hbase.
  destruct Hbase as ((((Hs & Hn) & _) & _) & _). eexists. split_and!; try done.
  destruct (urlsplit_wf _ _ Hurl) as (? & ? & ? & ? & ? & ? & ? & ? & ? & ?).
  destruct (urlsplit_wf _ _ Ho) as (? & ? & ? & ? & ? & ? & ? & ? & ? & ?).
  apply urlsplit_urlunsplit; [by repeat split|done|]. exact (urlsplit_rooted url g Hurl Hhost).
Qed.
End Urlsplit.

Lemma rehosted_uploads_keep_their_target_witness :
  let ok := λ _ : string, true in
  let url := "http://localstack:4566/ecommerce-uploads?x=1"%string in
  let base := "http://localhost:4566"%string in
  rehost ok (Some base) url = Some "http://localhost:4566/ecommerce-uploads?x=1"%string ∧
  ∃ o url', urlsplit ok base = Some o ∧ rehost ok (Some base) url = Some url' ∧ http_scheme (us_scheme o) ∧ us_netloc o ≠ ""%string ∧
    urlsplit ok url' = Some (MkSplit (us_scheme o) (us_netloc o) "/ecommerce-uploads" "x=1" "").
Proof.
  split; [vm_compute; reflexivity|].
  refine (rehosted_uploads_keep_their_target (λ _, true) (Some "http://localhost:4566"%string)
            "http://localstack:4566/ecommerce-uploads?x=1" (MkSplit "http" "localstack:4566" "/ecommerce-uploads" "x=1" "") _ _ _).
  - vm_compute. reflexivity.
  - vm_compute. reflexivity.
  - simpl. discriminate.
Defined.
