(* ===== verification/AppConfig.v ===== *)
(** * AppConfig: the settings and what start-up refuses

    src/shared/config/setting.py: every field of [AppSettings] with its bounds, the
    field validator of the topic namespace and the model validators in their order.
    Reading the values out of the environment is pydantic-settings; the model starts
    from values of the declared types.  Doubles are rationals, the infinities and NaN. *)

From Stdlib Require Import Ascii String QArith.
From S2P Require Import Prelude Errors Text Parse Url.

Inductive Environment := local_env | dev | staging | prod.
Inductive Algorithm := RS256.
Inductive Transport := smtp | ses.
#[export] Instance Environment_eq_dec : EqDecision Environment.
Proof. solve_decision. Defined.

Inductive pyfloat := Finite (q : Q) | PosInf | NegInf | NaN.

(** ** The fields *)

Record AppSettings := MkAppSettings {
  app_name : string;
  environment : Environment;
  debug : bool;
  log_level : string;
  verbose_error_details : bool;
  database_url : string;
  db_pool_size : Z;
  db_max_overflow : Z;
  db_worker_pool_size : Z;
  db_worker_max_overflow : Z;
  db_pool_pre_ping : bool;
  valkey_url : string;
  product_cache_enabled : bool;
  product_cache_ttl_seconds : Z;
  product_cache_ttl_jitter_seconds : Z;
  product_cache_lock_ttl_seconds : Z;
  product_cache_negative_ttl_seconds : Z;
  product_cache_max_fill_wait_seconds : pyfloat;
  catalog_cache_queue_url : option string;
  seed_demo_data : bool;
  keycloak_issuer : option string;
  keycloak_realm : string;
  keycloak_audience : string;
  keycloak_jwks_url : option string;
  jwks_timeout_seconds : pyfloat;
  jwks_min_refresh_interval_seconds : pyfloat;
  jwt_algorithm : Algorithm;
  keycloak_server_url : option string;
  keycloak_admin_client_id : option string;
  keycloak_admin_client_secret : option string;
  api_v1_prefix : string;
  readiness_probe_timeout_seconds : pyfloat;
  cors_allow_origins : list string;
  trusted_proxies : list string;
  rate_limit_enabled : bool;
  rate_limit_checkout_capacity : Z;
  rate_limit_checkout_refill : Z;
  rate_limit_checkout_refill_seconds : Z;
  rate_limit_write_capacity : Z;
  rate_limit_write_refill : Z;
  rate_limit_write_refill_seconds : Z;
  rate_limit_upload_capacity : Z;
  rate_limit_upload_refill : Z;
  rate_limit_upload_refill_seconds : Z;
  enable_reviews : bool;
  payment_stub_fail_token_substring : string;
  payment_stub_pending_token_substring : string;
  payment_stub_pending_settle_seconds : Z;
  payment_webhook_secret : option string;
  payment_webhook_tolerance_seconds : Z;
  payment_reconciliation_grace_seconds : Z;
  payment_reconciliation_poll_interval_seconds : pyfloat;
  payment_reconciliation_batch_size : Z;
  payment_reconciliation_max_age_seconds : Z;
  s3_bucket : option string;
  s3_region : string;
  s3_endpoint_url : option string;
  s3_public_base_url : option string;
  s3_presign_public_base_url : option string;
  image_max_upload_bytes : Z;
  image_max_dimension : Z;
  image_max_source_pixels : Z;
  image_upload_ttl_seconds : Z;
  image_queue_url : option string;
  image_visibility_timeout_seconds : Z;
  image_upload_retention_days : Z;
  image_upload_reaper_grace_seconds : Z;
  bus_endpoint_url : option string;
  bus_region : string;
  bus_topic_prefix : string;
  bus_topic_arn_prefix : option string;
  relay_batch_size : Z;
  relay_publish_concurrency : Z;
  relay_poll_interval_seconds : pyfloat;
  outbox_lag_poll_seconds : pyfloat;
  consumer_max_messages : Z;
  consumer_wait_time_seconds : Z;
  consumer_dedup_ttl_seconds : Z;
  consumer_lease_ttl_seconds : Z;
  cart_max_items : Z;
  cart_max_qty_per_line : Z;
  cart_ttl_seconds : Z;
  cart_queue_url : option string;
  notifications_queue_url : option string;
  notifications_transport : Transport;
  notification_smtp_host : option string;
  notification_smtp_port : Z;
  notification_from_address : string;
  notification_email_theme_dir : string;
  notification_region : string;
  reservation_ttl_seconds : Z;
  reservation_reaper_poll_interval_seconds : pyfloat;
  reservation_reaper_batch_size : Z;
  checkout_saga_step_timeout_seconds : Z;
  checkout_saga_overall_timeout_seconds : Z;
  checkout_saga_recovery_batch_size : Z;
  checkout_saga_recovery_poll_interval_seconds : pyfloat;
  checkout_idempotency_ttl_seconds : Z;
  outbox_retention_days : Z;
  reservation_retention_days : Z;
  saga_log_retention_days : Z;
  retention_prune_poll_interval_seconds : pyfloat;
  retention_prune_batch_size : Z;
  resilience_max_attempts : Z;
  resilience_retry_base_delay_seconds : pyfloat;
  resilience_retry_max_delay_seconds : pyfloat;
  resilience_breaker_failure_threshold : Z;
  resilience_breaker_reset_seconds : pyfloat;
  resilience_dependency_max_concurrent : Z;
  resilience_permit_ttl_seconds : pyfloat;
  shutdown_drain_timeout_seconds : pyfloat;
  worker_metrics_port : option Z;
  metrics_pushgateway_url : option string
}.

(** The declared defaults; [database_url] has none. *)
Definition default_settings (dsn : string) : AppSettings := {|
  app_name := "scalable-ecommerce-backend"%string;
  environment := local_env;
  debug := false;
  log_level := "INFO"%string;
  verbose_error_details := false;
  database_url := dsn;
  db_pool_size := 5;
  db_max_overflow := 10;
  db_worker_pool_size := 2;
  db_worker_max_overflow := 0;
  db_pool_pre_ping := true;
  valkey_url := "redis://localhost:6379/0"%string;
  product_cache_enabled := true;
  product_cache_ttl_seconds := 300;
  product_cache_ttl_jitter_seconds := 60;
  product_cache_lock_ttl_seconds := 5;
  product_cache_negative_ttl_seconds := 10;
  product_cache_max_fill_wait_seconds := Finite (2 # 1);
  catalog_cache_queue_url := None;
  seed_demo_data := true;
  keycloak_issuer := None;
  keycloak_realm := "ecommerce"%string;
  keycloak_audience := "ecommerce-api"%string;
  keycloak_jwks_url := None;
  jwks_timeout_seconds := Finite (3 # 1);
  jwks_min_refresh_interval_seconds := Finite (10 # 1);
  jwt_algorithm := RS256;
  keycloak_server_url := None;
  keycloak_admin_client_id := None;
  keycloak_admin_client_secret := None;
  api_v1_prefix := "/v1"%string;
  readiness_probe_timeout_seconds := Finite (2 # 1);
  cors_allow_origins := [];
  trusted_proxies := ["127.0.0.1"%string; "10.0.0.0/8"%string; "172.16.0.0/12"%string; "192.168.0.0/16"%string];
  rate_limit_enabled := true;
  rate_limit_checkout_capacity := 30;
  rate_limit_checkout_refill := 30;
  rate_limit_checkout_refill_seconds := 60;
  rate_limit_write_capacity := 120;
  rate_limit_write_refill := 120;
  rate_limit_write_refill_seconds := 60;
  rate_limit_upload_capacity := 30;
  rate_limit_upload_refill := 30;
  rate_limit_upload_refill_seconds := 60;
  enable_reviews := false;
  payment_stub_fail_token_substring := "decline"%string;
  payment_stub_pending_token_substring := ""%string;
  payment_stub_pending_settle_seconds := 5;
  payment_webhook_secret := None;
  payment_webhook_tolerance_seconds := 300;
  payment_reconciliation_grace_seconds := 30;
  payment_reconciliation_poll_interval_seconds := Finite (60 # 1);
  payment_reconciliation_batch_size := 50;
  payment_reconciliation_max_age_seconds := 604800;
  s3_bucket := None;
  s3_region := "us-east-1"%string;
  s3_endpoint_url := None;
  s3_public_base_url := None;
  s3_presign_public_base_url := None;
  image_max_upload_bytes := 5242880;
  image_max_dimension := 2048;
  image_max_source_pixels := 40000000;
  image_upload_ttl_seconds := 300;
  image_queue_url := None;
  image_visibility_timeout_seconds := 300;
  image_upload_retention_days := 7;
  image_upload_reaper_grace_seconds := 900;
  bus_endpoint_url := None;
  bus_region := "us-east-1"%string;
  bus_topic_prefix := "ecommerce-"%string;
  bus_topic_arn_prefix := None;
  relay_batch_size := 100;
  relay_publish_concurrency := 10;
  relay_poll_interval_seconds := Finite (1 # 1);
  outbox_lag_poll_seconds := Finite (15 # 1);
  consumer_max_messages := 10;
  consumer_wait_time_seconds := 10;
  consumer_dedup_ttl_seconds := 86400;
  consumer_lease_ttl_seconds := 60;
  cart_max_items := 50;
  cart_max_qty_per_line := 10;
  cart_ttl_seconds := 2592000;
  cart_queue_url := None;
  notifications_queue_url := None;
  notifications_transport := smtp;
  notification_smtp_host := None;
  notification_smtp_port := 1025;
  notification_from_address := "no-reply@ecommerce.local"%string;
  notification_email_theme_dir := ""%string;
  notification_region := "us-east-1"%string;
  reservation_ttl_seconds := 900;
  reservation_reaper_poll_interval_seconds := Finite (10 # 1);
  reservation_reaper_batch_size := 100;
  checkout_saga_step_timeout_seconds := 30;
  checkout_saga_overall_timeout_seconds := 50;
  checkout_saga_recovery_batch_size := 50;
  checkout_saga_recovery_poll_interval_seconds := Finite (10 # 1);
  checkout_idempotency_ttl_seconds := 86400;
  outbox_retention_days := 7;
  reservation_retention_days := 90;
  saga_log_retention_days := 90;
  retention_prune_poll_interval_seconds := Finite (3600 # 1);
  retention_prune_batch_size := 1000;
  resilience_max_attempts := 3;
  resilience_retry_base_delay_seconds := Finite (1 # 5);
  resilience_retry_max_delay_seconds := Finite (2 # 1);
  resilience_breaker_failure_threshold := 5;
  resilience_breaker_reset_seconds := Finite (30 # 1);
  resilience_dependency_max_concurrent := 64;
  resilience_permit_ttl_seconds := Finite (240 # 1);
  shutdown_drain_timeout_seconds := Finite (10 # 1);
  worker_metrics_port := None;
  metrics_pushgateway_url := None
|}.

Definition set_topic_arn_prefix (p : option string) (s : AppSettings) : AppSettings := {|
  app_name := app_name s;
  environment := environment s;
  debug := debug s;
  log_level := log_level s;
  verbose_error_details := verbose_error_details s;
  database_url := database_url s;
  db_pool_size := db_pool_size s;
  db_max_overflow := db_max_overflow s;
  db_worker_pool_size := db_worker_pool_size s;
  db_worker_max_overflow := db_worker_max_overflow s;
  db_pool_pre_ping := db_pool_pre_ping s;
  valkey_url := valkey_url s;
  product_cache_enabled := product_cache_enabled s;
  product_cache_ttl_seconds := product_cache_ttl_seconds s;
  product_cache_ttl_jitter_seconds := product_cache_ttl_jitter_seconds s;
  product_cache_lock_ttl_seconds := product_cache_lock_ttl_seconds s;
  product_cache_negative_ttl_seconds := product_cache_negative_ttl_seconds s;
  product_cache_max_fill_wait_seconds := product_cache_max_fill_wait_seconds s;
  catalog_cache_queue_url := catalog_cache_queue_url s;
  seed_demo_data := seed_demo_data s;
  keycloak_issuer := keycloak_issuer s;
  keycloak_realm := keycloak_realm s;
  keycloak_audience := keycloak_audience s;
  keycloak_jwks_url := keycloak_jwks_url s;
  jwks_timeout_seconds := jwks_timeout_seconds s;
  jwks_min_refresh_interval_seconds := jwks_min_refresh_interval_seconds s;
  jwt_algorithm := jwt_algorithm s;
  keycloak_server_url := keycloak_server_url s;
  keycloak_admin_client_id := keycloak_admin_client_id s;
  keycloak_admin_client_secret := keycloak_admin_client_secret s;
  api_v1_prefix := api_v1_prefix s;
  readiness_probe_timeout_seconds := readiness_probe_timeout_seconds s;
  cors_allow_origins := cors_allow_origins s;
  trusted_proxies := trusted_proxies s;
  rate_limit_enabled := rate_limit_enabled s;
  rate_limit_checkout_capacity := rate_limit_checkout_capacity s;
  rate_limit_checkout_refill := rate_limit_checkout_refill s;
  rate_limit_checkout_refill_seconds := rate_limit_checkout_refill_seconds s;
  rate_limit_write_capacity := rate_limit_write_capacity s;
  rate_limit_write_refill := rate_limit_write_refill s;
  rate_limit_write_refill_seconds := rate_limit_write_refill_seconds s;
  rate_limit_upload_capacity := rate_limit_upload_capacity s;
  rate_limit_upload_refill := rate_limit_upload_refill s;
  rate_limit_upload_refill_seconds := rate_limit_upload_refill_seconds s;
  enable_reviews := enable_reviews s;
  payment_stub_fail_token_substring := payment_stub_fail_token_substring s;
  payment_stub_pending_token_substring := payment_stub_pending_token_substring s;
  payment_stub_pending_settle_seconds := payment_stub_pending_settle_seconds s;
  payment_webhook_secret := payment_webhook_secret s;
  payment_webhook_tolerance_seconds := payment_webhook_tolerance_seconds s;
  payment_reconciliation_grace_seconds := payment_reconciliation_grace_seconds s;
  payment_reconciliation_poll_interval_seconds := payment_reconciliation_poll_interval_seconds s;
  payment_reconciliation_batch_size := payment_reconciliation_batch_size s;
  payment_reconciliation_max_age_seconds := payment_reconciliation_max_age_seconds s;
  s3_bucket := s3_bucket s;
  s3_region := s3_region s;
  s3_endpoint_url := s3_endpoint_url s;
  s3_public_base_url := s3_public_base_url s;
  s3_presign_public_base_url := s3_presign_public_base_url s;
  image_max_upload_bytes := image_max_upload_bytes s;
  image_max_dimension := image_max_dimension s;
  image_max_source_pixels := image_max_source_pixels s;
  image_upload_ttl_seconds := image_upload_ttl_seconds s;
  image_queue_url := image_queue_url s;
  image_visibility_timeout_seconds := image_visibility_timeout_seconds s;
  image_upload_retention_days := image_upload_retention_days s;
  image_upload_reaper_grace_seconds := image_upload_reaper_grace_seconds s;
  bus_endpoint_url := bus_endpoint_url s;
  bus_region := bus_region s;
  bus_topic_prefix := bus_topic_prefix s;
  bus_topic_arn_prefix := p;
  relay_batch_size := relay_batch_size s;
  relay_publish_concurrency := relay_publish_concurrency s;
  relay_poll_interval_seconds := relay_poll_interval_seconds s;
  outbox_lag_poll_seconds := outbox_lag_poll_seconds s;
  consumer_max_messages := consumer_max_messages s;
  consumer_wait_time_seconds := consumer_wait_time_seconds s;
  consumer_dedup_ttl_seconds := consumer_dedup_ttl_seconds s;
  consumer_lease_ttl_seconds := consumer_lease_ttl_seconds s;
  cart_max_items := cart_max_items s;
  cart_max_qty_per_line := cart_max_qty_per_line s;
  cart_ttl_seconds := cart_ttl_seconds s;
  cart_queue_url := cart_queue_url s;
  notifications_queue_url := notifications_queue_url s;
  notifications_transport := notifications_transport s;
  notification_smtp_host := notification_smtp_host s;
  notification_smtp_port := notification_smtp_port s;
  notification_from_address := notification_from_address s;
  notification_email_theme_dir := notification_email_theme_dir s;
  notification_region := notification_region s;
  reservation_ttl_seconds := reservation_ttl_seconds s;
  reservation_reaper_poll_interval_seconds := reservation_reaper_poll_interval_seconds s;
  reservation_reaper_batch_size := reservation_reaper_batch_size s;
  checkout_saga_step_timeout_seconds := checkout_saga_step_timeout_seconds s;
  checkout_saga_overall_timeout_seconds := checkout_saga_overall_timeout_seconds s;
  checkout_saga_recovery_batch_size := checkout_saga_recovery_batch_size s;
  checkout_saga_recovery_poll_interval_seconds := checkout_saga_recovery_poll_interval_seconds s;
  checkout_idempotency_ttl_seconds := checkout_idempotency_ttl_seconds s;
  outbox_retention_days := outbox_retention_days s;
  reservation_retention_days := reservation_retention_days s;
  saga_log_retention_days := saga_log_retention_days s;
  retention_prune_poll_interval_seconds := retention_prune_poll_interval_seconds s;
  retention_prune_batch_size := retention_prune_batch_size s;
  resilience_max_attempts := resilience_max_attempts s;
  resilience_retry_base_delay_seconds := resilience_retry_base_delay_seconds s;
  resilience_retry_max_delay_seconds := resilience_retry_max_delay_seconds s;
  resilience_breaker_failure_threshold := resilience_breaker_failure_threshold s;
  resilience_breaker_reset_seconds := resilience_breaker_reset_seconds s;
  resilience_dependency_max_concurrent := resilience_dependency_max_concurrent s;
  resilience_permit_ttl_seconds := resilience_permit_ttl_seconds s;
  shutdown_drain_timeout_seconds := shutdown_drain_timeout_seconds s;
  worker_metrics_port := worker_metrics_port s;
  metrics_pushgateway_url := metrics_pushgateway_url s
|}.

(** ** Field constraints *)

Definition positive (z : Z) : bool := bool_decide (0 < z).
(** [gt=0] and [ge=0] of a float: every comparison with NaN is false. *)
Definition float_gt0 (f : pyfloat) : bool :=
  match f with Finite q => negb (Qle_bool q 0) | PosInf => true | NegInf | NaN => false end.
Definition float_ge0 (f : pyfloat) : bool :=
  match f with Finite q => Qle_bool 0 q | PosInf => true | NegInf | NaN => false end.

(** [_validate_topic_arn_prefix]; the outer [None] is its [ValueError]. *)
Definition topic_arn_prefix (value : option string) : option (option string) :=
  match value with
  | None => Some None
  | Some v =>
      if decide (strip v = ""%string) then Some None
      else
        let prefix := if ends_with ":" (strip v) then strip v else (strip v +:+ ":")%string in
        match split_on ":" prefix with
        | [arn; _; service; region; account; _] =>
            if decide (arn = "arn"%string ∧ service = "sns"%string ∧ region ≠ ""%string ∧ account ≠ ""%string)
            then Some (Some prefix) else None
        | _ => None
        end
  end.

Definition truthy (v : option string) : bool := match v with Some (String _ _) => true | _ => false end.

(** [image_public_base_url] *)
Definition image_public_base_url (s : AppSettings) : option string :=
  if truthy (s3_public_base_url s) then s3_public_base_url s
  else match s3_endpoint_url s, s3_bucket s with
  | Some (String _ _ as endpoint), Some (String _ _ as bucket) => Some (endpoint +:+ "/" +:+ bucket)%string
  | _, _ => None
  end.

Section Validation.
(** pydantic's [PostgresDsn], and the host checks of [urlsplit]. *)
Context (postgres_dsn netloc_ok : string → bool).

(** Every constrained field, in the order of declaration, with its verdict. *)

(** Database, cache, authentication, HTTP and rate limits. *)
Definition api_checks (s : AppSettings) : list (string * bool) := [
  ("database_url"%string, postgres_dsn (database_url s));
  ("product_cache_ttl_seconds"%string, positive (product_cache_ttl_seconds s));
  ("product_cache_ttl_jitter_seconds"%string, bool_decide (0 ≤ product_cache_ttl_jitter_seconds s));
  ("product_cache_lock_ttl_seconds"%string, positive (product_cache_lock_ttl_seconds s));
  ("product_cache_negative_ttl_seconds"%string, positive (product_cache_negative_ttl_seconds s));
  ("product_cache_max_fill_wait_seconds"%string, float_gt0 (product_cache_max_fill_wait_seconds s));
  ("jwks_timeout_seconds"%string, float_gt0 (jwks_timeout_seconds s));
  ("jwks_min_refresh_interval_seconds"%string, float_ge0 (jwks_min_refresh_interval_seconds s));
  ("readiness_probe_timeout_seconds"%string, float_gt0 (readiness_probe_timeout_seconds s));
  ("rate_limit_checkout_capacity"%string, positive (rate_limit_checkout_capacity s));
  ("rate_limit_checkout_refill"%string, positive (rate_limit_checkout_refill s));
  ("rate_limit_checkout_refill_seconds"%string, positive (rate_limit_checkout_refill_seconds s));
  ("rate_limit_write_capacity"%string, positive (rate_limit_write_capacity s));
  ("rate_limit_write_refill"%string, positive (rate_limit_write_refill s));
  ("rate_limit_write_refill_seconds"%string, positive (rate_limit_write_refill_seconds s));
  ("rate_limit_upload_capacity"%string, positive (rate_limit_upload_capacity s));
  ("rate_limit_upload_refill"%string, positive (rate_limit_upload_refill s));
  ("rate_limit_upload_refill_seconds"%string, positive (rate_limit_upload_refill_seconds s))
].
(** Payments and images. *)
Definition payment_image_checks (s : AppSettings) : list (string * bool) := [
  ("payment_stub_pending_settle_seconds"%string, positive (payment_stub_pending_settle_seconds s));
  ("payment_webhook_tolerance_seconds"%string, positive (payment_webhook_tolerance_seconds s));
  ("payment_reconciliation_grace_seconds"%string, positive (payment_reconciliation_grace_seconds s));
  ("payment_reconciliation_poll_interval_seconds"%string, float_gt0 (payment_reconciliation_poll_interval_seconds s));
  ("payment_reconciliation_batch_size"%string, positive (payment_reconciliation_batch_size s));
  ("payment_reconciliation_max_age_seconds"%string, positive (payment_reconciliation_max_age_seconds s));
  ("image_max_upload_bytes"%string, positive (image_max_upload_bytes s));
  ("image_max_dimension"%string, positive (image_max_dimension s));
  ("image_max_source_pixels"%string, positive (image_max_source_pixels s));
  ("image_upload_ttl_seconds"%string, positive (image_upload_ttl_seconds s));
  ("image_visibility_timeout_seconds"%string, positive (image_visibility_timeout_seconds s));
  ("image_upload_retention_days"%string, positive (image_upload_retention_days s));
  ("image_upload_reaper_grace_seconds"%string, positive (image_upload_reaper_grace_seconds s))
].
(** The bus, the cart and notifications. *)
Definition bus_cart_checks (s : AppSettings) : list (string * bool) := [
  ("bus_topic_arn_prefix"%string, bool_decide (is_Some (topic_arn_prefix (bus_topic_arn_prefix s))));
  ("relay_batch_size"%string, positive (relay_batch_size s));
  ("relay_publish_concurrency"%string, positive (relay_publish_concurrency s));
  ("relay_poll_interval_seconds"%string, float_gt0 (relay_poll_interval_seconds s));
  ("outbox_lag_poll_seconds"%string, float_gt0 (outbox_lag_poll_seconds s));
  ("consumer_max_messages"%string, bool_decide (1 ≤ consumer_max_messages s ∧ consumer_max_messages s ≤ 10));
  ("consumer_wait_time_seconds"%string, bool_decide (0 ≤ consumer_wait_time_seconds s ∧ consumer_wait_time_seconds s ≤ 20));
  ("consumer_dedup_ttl_seconds"%string, positive (consumer_dedup_ttl_seconds s));
  ("consumer_lease_ttl_seconds"%string, positive (consumer_lease_ttl_seconds s));
  ("cart_max_items"%string, positive (cart_max_items s));
  ("cart_max_qty_per_line"%string, positive (cart_max_qty_per_line s));
  ("cart_ttl_seconds"%string, positive (cart_ttl_seconds s));
  ("notification_smtp_port"%string, positive (notification_smtp_port s))
].
(** Reservations, checkout, retention, resilience and metrics. *)
Definition saga_resilience_checks (s : AppSettings) : list (string * bool) := [
  ("reservation_ttl_seconds"%string, positive (reservation_ttl_seconds s));
  ("reservation_reaper_poll_interval_seconds"%string, float_gt0 (reservation_reaper_poll_interval_seconds s));
  ("reservation_reaper_batch_size"%string, positive (reservation_reaper_batch_size s));
  ("checkout_saga_step_timeout_seconds"%string, positive (checkout_saga_step_timeout_seconds s));
  ("checkout_saga_overall_timeout_seconds"%string, positive (checkout_saga_overall_timeout_seconds s));
  ("checkout_saga_recovery_batch_size"%string, positive (checkout_saga_recovery_batch_size s));
  ("checkout_saga_recovery_poll_interval_seconds"%string, float_gt0 (checkout_saga_recovery_poll_interval_seconds s));
  ("checkout_idempotency_ttl_seconds"%string, positive (checkout_idempotency_ttl_seconds s));
  ("outbox_retention_days"%string, positive (outbox_retention_days s));
  ("reservation_retention_days"%string, positive (reservation_retention_days s));
  ("saga_log_retention_days"%string, positive (saga_log_retention_days s));
  ("retention_prune_poll_interval_seconds"%string, float_gt0 (retention_prune_poll_interval_seconds s));
  ("retention_prune_batch_size"%string, positive (retention_prune_batch_size s));
  ("resilience_max_attempts"%string, bool_decide (1 ≤ resilience_max_attempts s ∧ resilience_max_attempts s ≤ 6));
  ("resilience_retry_base_delay_seconds"%string, float_gt0 (resilience_retry_base_delay_seconds s));
  ("resilience_retry_max_delay_seconds"%string, float_gt0 (resilience_retry_max_delay_seconds s));
  ("resilience_breaker_failure_threshold"%string, bool_decide (1 ≤ resilience_breaker_failure_threshold s));
  ("resilience_breaker_reset_seconds"%string, float_gt0 (resilience_breaker_reset_seconds s));
  ("resilience_dependency_max_concurrent"%string, bool_decide (1 ≤ resilience_dependency_max_concurrent s));
  ("resilience_permit_ttl_seconds"%string, float_gt0 (resilience_permit_ttl_seconds s));
  ("shutdown_drain_timeout_seconds"%string, float_gt0 (shutdown_drain_timeout_seconds s));
  ("worker_metrics_port"%string, match worker_metrics_port s with Some p => bool_decide (0 < p ≤ 65535) | None => true end)
].

Definition field_checks (s : AppSettings) : list (string * bool) :=
  api_checks s ++ payment_image_checks s ++ bus_cart_checks s ++ saga_resilience_checks s.

(** ** Model validators *)

Definition presign_public_base_url_valid (s : AppSettings) : bool :=
  match s3_presign_public_base_url s with Some b => origin_ok netloc_ok b | None => true end.
Definition public_image_base_in_cloud (s : AppSettings) : bool :=
  negb (truthy (s3_bucket s) && bool_decide (s3_endpoint_url s = None) && negb (truthy (s3_public_base_url s))).
Definition reaper_grace_above_visibility_timeout (s : AppSettings) : bool :=
  bool_decide (image_visibility_timeout_seconds s < image_upload_reaper_grace_seconds s).
Definition saga_step_timeout_below_reservation_ttl (s : AppSettings) : bool :=
  bool_decide (checkout_saga_step_timeout_seconds s < reservation_ttl_seconds s).
Definition saga_overall_timeout_below_reservation_ttl (s : AppSettings) : bool :=
  bool_decide (checkout_saga_overall_timeout_seconds s < reservation_ttl_seconds s) &&
  bool_decide (checkout_saga_step_timeout_seconds s < checkout_saga_overall_timeout_seconds s).
Definition in_dev (s : AppSettings) : bool := bool_decide (environment s = local_env ∨ environment s = dev).
Definition no_verbose_errors_outside_dev (s : AppSettings) : bool := in_dev s || negb (verbose_error_details s).
Definition no_pending_trigger_outside_dev (s : AppSettings) : bool :=
  in_dev s || bool_decide (payment_stub_pending_token_substring s = ""%string).
(** [days <= payment_reconciliation_max_age_seconds / 86400] refuses. *)
Definition beyond_window (s : AppSettings) (days : Z) : bool :=
  negb (Qle_bool (inject_Z days) (inject_Z (payment_reconciliation_max_age_seconds s) / 86400)).
Definition retention_beyond_reconciliation_window (s : AppSettings) : bool :=
  beyond_window s (reservation_retention_days s) && beyond_window s (saga_log_retention_days s).
Definition reconciliation_max_age_above_grace (s : AppSettings) : bool :=
  bool_decide (payment_reconciliation_grace_seconds s < payment_reconciliation_max_age_seconds s).

Definition model_validators : list (string * (AppSettings → bool)) := [
  ("_validate_presign_public_base_url"%string, presign_public_base_url_valid);
  ("_require_public_image_base_in_cloud"%string, public_image_base_in_cloud);
  ("_require_reaper_grace_above_visibility_timeout"%string, reaper_grace_above_visibility_timeout);
  ("_require_saga_step_timeout_below_reservation_ttl"%string, saga_step_timeout_below_reservation_ttl);
  ("_require_saga_overall_timeout_below_reservation_ttl"%string, saga_overall_timeout_below_reservation_ttl);
  ("_refuse_verbose_errors_outside_dev"%string, no_verbose_errors_outside_dev);
  ("_refuse_pending_trigger_outside_dev"%string, no_pending_trigger_outside_dev);
  ("_require_retention_beyond_reconciliation_window"%string, retention_beyond_reconciliation_window);
  ("_require_reconciliation_max_age_above_grace"%string, reconciliation_max_age_above_grace)
].

(** ** [AppSettings(...)] *)

Inductive Validated := Accepted (s : AppSettings) | Refused (errors : list string).

(** All field errors are reported together; the model validators run on valid fields,
    and the first that raises is the error. *)
Definition validate (raw : AppSettings) : Validated :=
  match (filter (λ c, c.2 = false) (field_checks raw)).*1 with
  | [] =>
      let s := set_topic_arn_prefix (default None (topic_arn_prefix (bus_topic_arn_prefix raw))) raw in
      match filter (λ c : string * (AppSettings → bool), c.2 s = false) model_validators with
      | [] => Accepted s
      | (name, _) :: _ => Refused [name]
      end
  | errors => Refused errors
  end.
End Validation.
