(* ===== verification/Sha256.v ===== *)
(** * Sha256: the digests the code takes from [hashlib] and [hmac]

    [sha256] over bytes, [hexdigest], [hmac_sha256] and [str.encode] for the
    code points below 256, plus the canonical JSON of a one-field object that
    [body_hash_for] (src/orders/application/checkout_saga.py) digests.  Words are
    integers modulo [2^32].  The standard's test vectors are checked at the end. *)

From Stdlib Require Import Ascii String.
From S2P Require Import Prelude Text.

Definition byte_list : Type := list Z.

Definition w32 (z : Z) : Z := Z.land z 4294967295.
Definition add32 (a b : Z) : Z := w32 (a + b).
Definition rotr (n x : Z) : Z := Z.lor (Z.shiftr x n) (w32 (Z.shiftl x (32 - n))).
Definition not32 (x : Z) : Z := Z.lxor x 4294967295.

Definition ch (x y z : Z) : Z := Z.lxor (Z.land x y) (Z.land (not32 x) z).
Definition maj (x y z : Z) : Z := Z.lxor (Z.lxor (Z.land x y) (Z.land x z)) (Z.land y z).
Definition big_sigma0 (x : Z) : Z := Z.lxor (Z.lxor (rotr 2 x) (rotr 13 x)) (rotr 22 x).
Definition big_sigma1 (x : Z) : Z := Z.lxor (Z.lxor (rotr 6 x) (rotr 11 x)) (rotr 25 x).
Definition small_sigma0 (x : Z) : Z := Z.lxor (Z.lxor (rotr 7 x) (rotr 18 x)) (Z.shiftr x 3).
Definition small_sigma1 (x : Z) : Z := Z.lxor (Z.lxor (rotr 17 x) (rotr 19 x)) (Z.shiftr x 10).

(** The constants as FIPS 180-4 defines them: the first 32 bits of the
    fractional parts of the cube roots of the first 64 primes (round constants)
    and of the square roots of the first 8 (initial state). *)
Definition is_prime (n : Z) : bool :=
  forallb (λ d, negb (n mod Z.of_nat d =? 0)) (seq 2 (Z.to_nat n - 2)).

Definition primes (below : nat) : list Z :=
  List.filter is_prime (Z.of_nat <$> seq 2 (below - 2)).

(** The integer cube root, bit by bit from bit [n - 1] down. *)
Fixpoint cube_root (n : nat) (root z : Z) : Z :=
  match n with
  | O => root
  | S k =>
      let next := root + Z.shiftl 1 (Z.of_nat k) in
      cube_root k (if next * next * next <=? z then next else root) z
  end.

Definition round_constants : list Z :=
  Eval vm_compute in (λ p, w32 (cube_root 36 0 (Z.shiftl p 96))) <$> primes 312.

Definition initial_state : list Z :=
  Eval vm_compute in (λ p, w32 (Z.sqrt (Z.shiftl p 64))) <$> primes 20.

(** ** Padding and parsing *)

Definition be_bytes (n : nat) (z : Z) : byte_list :=
  (λ i, Z.land (Z.shiftr z (8 * Z.of_nat (n - 1 - i))) 255) <$> seq 0 n.

Definition pad (m : byte_list) : byte_list :=
  let len := Z.of_nat (length m) in
  m ++ [128] ++ replicate (Z.to_nat ((55 - len) mod 64)) 0 ++ be_bytes 8 (8 * len).

Fixpoint words (m : byte_list) : list Z :=
  match m with
  | a :: b :: c :: d :: rest =>
      (Z.shiftl a 24 + Z.shiftl b 16 + Z.shiftl c 8 + d) :: words rest
  | _ => []
  end.

(** The message schedule, extended word by word (newest first). *)
Fixpoint extend (n : nat) (rev_w : list Z) : list Z :=
  match n with
  | O => rev_w
  | S n' =>
      let at_ i := nth i rev_w 0 in
      let w := add32 (add32 (small_sigma1 (at_ 1%nat)) (at_ 6%nat))
                     (add32 (small_sigma0 (at_ 14%nat)) (at_ 15%nat)) in
      extend n' (w :: rev_w)
  end.
Definition schedule (block : list Z) : list Z := rev (extend 48 (rev block)).

(** ** Compression *)

Definition sha_round (s : list Z) (kw : Z * Z) : list Z :=
  match s with
  | [a; b; c; d; e; f; g; h] =>
      let t1 := add32 (add32 (add32 h (big_sigma1 e)) (add32 (ch e f g) kw.1)) kw.2 in
      let t2 := add32 (big_sigma0 a) (maj a b c) in
      [add32 t1 t2; a; b; c; add32 d t1; e; f; g]
  | _ => s
  end.

Definition compress (s : list Z) (block : list Z) : list Z :=
  zip_with add32 s (foldl sha_round s (zip round_constants (schedule block))).

Fixpoint blocks (fuel : nat) (ws : list Z) : list (list Z) :=
  match fuel with
  | O => []
  | S f => match ws with [] => [] | _ => take 16 ws :: blocks f (drop 16 ws) end
  end.

(** One block per word is fuel enough: no word is lost. *)
Lemma blocks_concat fuel ws : (length ws ≤ fuel)%nat → concat (blocks fuel ws) = ws.
Proof.
  revert ws. induction fuel as [|f IH]; intros [|w ws] Hf; simpl in *; try done; [lia|].
  rewrite IH; [by rewrite take_drop|]. rewrite length_drop. lia.
Qed.

(** [hashlib.sha256(m).digest()] *)
Definition sha256 (m : byte_list) : byte_list :=
  let ws := words (pad m) in
  foldl compress initial_state (blocks (length ws) ws) ≫= be_bytes 4.

Definition hexdigest (m : byte_list) : string :=
  foldr (λ b s, (hex_fixed 2 (Z.to_N b) +:+ s)%string) "" m.

(** [hmac.new(key, m, hashlib.sha256).digest()] *)
Definition hmac_sha256 (key m : byte_list) : byte_list :=
  let k0 := if decide (64 < length key)%nat then sha256 key else key in
  let k := k0 ++ replicate (64 - length k0) 0 in
  sha256 ((Z.lxor 0x5c <$> k) ++ sha256 ((Z.lxor 0x36 <$> k) ++ m)).

(** ** Text to bytes *)

(** [s.encode()]: UTF-8 of code points below 256. *)
Fixpoint encode (s : string) : byte_list :=
  match s with
  | EmptyString => []
  | String c s' =>
      let n := Z.of_N (N_of_ascii c) in
      (if decide (n < 128) then [n] else [192 + Z.shiftr n 6; 128 + Z.land n 63]) ++ encode s'
  end.

(** The bytes of a [bytes] object kept as a [string]. *)
Fixpoint raw_bytes (s : string) : byte_list :=
  match s with
  | EmptyString => []
  | String c s' => Z.of_N (N_of_ascii c) :: raw_bytes s'
  end.

(** [json.dumps]'s escape of one character ([ensure_ascii=True]). *)
Definition json_escape_char (c : ascii) : string :=
  match N_of_ascii c with
  | 34%N => String "\" (String c "")
  | 92%N => String "\" (String c "")
  | 8%N => "\b"
  | 9%N => "\t"
  | 10%N => "\n"
  | 12%N => "\f"
  | 13%N => "\r"
  | n => if decide (32 ≤ n ∧ n ≤ 126)%N then String c "" else ("\u00" +:+ hex_fixed 2 n)%string
  end.

Fixpoint json_escape (s : string) : string :=
  match s with
  | EmptyString => EmptyString
  | String c s' => (json_escape_char c +:+ json_escape s')%string
  end.

(** A double quote. *)
Definition quote : string := String (ascii_of_N 34) "".

(** [json.dumps({field: value}, separators=(",", ":"), sort_keys=True)] *)
Definition json_one_field (field value : string) : string :=
  ("{" +:+ quote +:+ json_escape field +:+ quote +:+ ":" +:+ quote +:+ json_escape value +:+ quote +:+ "}")%string.

(** ** Lengths *)

Lemma sha_round_length s kw : length (sha_round s kw) = length s.
Proof. unfold sha_round. repeat case_goal; done. Qed.

Lemma sha_rounds_length kws s : length (foldl sha_round s kws) = length s.
Proof. revert s. induction kws as [|kw kws IH]; intros s; simpl; [done|]. by rewrite IH, sha_round_length. Qed.

Lemma compress_length s block : length (compress s block) = length s.
Proof. unfold compress. rewrite length_zip_with, sha_rounds_length. lia. Qed.

Lemma compress_all_length bs s : length (foldl compress s bs) = length s.
Proof. revert s. induction bs as [|b bs IH]; intros s; simpl; [done|]. by rewrite IH, compress_length. Qed.

Lemma be_bytes_all n ws : length (ws ≫= be_bytes n) = (n * length ws)%nat.
Proof.
  induction ws as [|w ws IH]; [simpl; lia|].
  change ((w :: ws) ≫= be_bytes n) with (be_bytes n w ++ (ws ≫= be_bytes n)).
  rewrite length_app, IH. unfold be_bytes. rewrite length_fmap, length_seq. simpl. lia.
Qed.

(** A digest is 32 bytes, its text 64 characters. *)
Lemma sha256_length m : length (sha256 m) = 32%nat.
Proof. unfold sha256. by rewrite be_bytes_all, compress_all_length. Qed.

Lemma hexdigest_length m : String.length (hexdigest m) = (2 * length m)%nat.
Proof.
  unfold hexdigest. induction m as [|b m IH]; [done|]. cbn [foldr].
  rewrite str_length_app, IH, hex_fixed_length. simpl. lia.
Qed.

(** ** Injectivity *)

Definition encode_char (c : ascii) : byte_list :=
  let n := Z.of_N (N_of_ascii c) in
  if decide (n < 128) then [n] else [192 + Z.shiftr n 6; 128 + Z.land n 63].

Lemma encode_char_inj c1 c2 r1 r2 :
  encode_char c1 ++ r1 = encode_char c2 ++ r2 → c1 = c2 ∧ r1 = r2.
Proof.
  unfold encode_char. set (n1 := Z.of_N (N_of_ascii c1)). set (n2 := Z.of_N (N_of_ascii c2)).
  assert (n1 = n2 → c1 = c2) as Hc.
  { unfold n1, n2. intros H%N2Z.inj. rewrite <- (ascii_N_embedding c1), <- (ascii_N_embedding c2). by rewrite H. }
  assert (0 ≤ Z.shiftr n1 6 ∧ 0 ≤ Z.shiftr n2 6) as [? ?] by (rewrite !Z.shiftr_nonneg; unfold n1, n2; lia).
  clearbody n1 n2. repeat case_decide; simpl; intros [=]; try lia.
  - split; [by apply Hc|done].
  - assert (Z.shiftr n1 6 = Z.shiftr n2 6) as E1 by lia. assert (Z.land n1 63 = Z.land n2 63) as E2 by lia.
    split; [|done]. apply Hc. change 63 with (Z.ones 6) in E2. rewrite !Z.land_ones in E2 by lia.
    rewrite !Z.shiftr_div_pow2 in E1 by lia.
    rewrite (Z.div_mod n1 (2 ^ 6)), (Z.div_mod n2 (2 ^ 6)) by lia. by rewrite E1, E2.
Qed.

Lemma encode_inj s1 s2 : encode s1 = encode s2 → s1 = s2.
Proof.
  assert (∀ c s, encode (String c s) = encode_char c ++ encode s) as He by done.
  assert (∀ c r, encode_char c ++ r ≠ []) as Hne by (intros c r; unfold encode_char; by case_decide).
  revert s2. induction s1 as [|c s1 IH]; intros [|c2 s2]; rewrite ?He; intros H; [done|..].
  - by destruct (Hne c2 (encode s2)).
  - by destruct (Hne c (encode s1)).
  - apply encode_char_inj in H as [-> H]. by rewrite (IH _ H).
Qed.

(** The first character an escaped text stands for, and the rest. *)
Definition hex_value (c : ascii) : N :=
  let n := N_of_ascii c in if decide (n < 58)%N then n - 48 else n - 87.

Definition unescape_one (s : string) : option (ascii * string) :=
  match s with
  | String "\" (String "u" (String _ (String _ (String a (String b rest))))) =>
      Some (ascii_of_N (hex_value a * 16 + hex_value b), rest)
  | String "\" (String c rest) =>
      Some (match c with
            | "b"%char => ascii_of_N 8
            | "t"%char => ascii_of_N 9
            | "n"%char => ascii_of_N 10
            | "f"%char => ascii_of_N 12
            | "r"%char => ascii_of_N 13
            | c => c
            end, rest)
  | String c rest => Some (c, rest)
  | EmptyString => None
  end.

Lemma unescape_escape c r : unescape_one (json_escape_char c +:+ r)%string = Some (c, r).
Proof. by destruct c as [[] [] [] [] [] [] [] []]. Qed.

(** Different texts have different JSON. *)
Lemma json_escape_inj s1 s2 : json_escape s1 = json_escape s2 → s1 = s2.
Proof.
  revert s2. induction s1 as [|c s1 IH]; intros [|c2 s2] H; simpl in H; [done|..].
  - by pose proof (unescape_escape c2 (json_escape s2)) as E; rewrite <- H in E.
  - by pose proof (unescape_escape c (json_escape s1)) as E; rewrite H in E.
  - pose proof (unescape_escape c (json_escape s1)) as E. rewrite H, unescape_escape in E. simplify_eq.
    f_equal. by apply IH.
Qed.

#[global] Arguments sha256 : simpl never.
#[global] Arguments hmac_sha256 : simpl never.
#[global] Arguments hexdigest : simpl never.

(** ** Test vectors *)

Example sha256_empty :
  hexdigest (sha256 []) = "e3b0c44298fc1c149afbf4c8996fb92427ae41e4649b934ca495991b7852b855".
Proof. vm_compute. reflexivity. Qed.

Example sha256_abc :
  hexdigest (sha256 (encode "abc")) = "ba7816bf8f01cfea414140de5dae2223b00361a396177a9cb410ff61f20015ad".
Proof. vm_compute. reflexivity. Qed.

Example sha256_two_blocks :
  hexdigest (sha256 (encode "abcdbcdecdefdefgefghfghighijhijkijkljklmklmnlmnomnopnopq")) =
  "248d6a61d20638b8e5c026930c3e6039a33ce45964ff2167f6ecedd419db06c1".
Proof. vm_compute. reflexivity. Qed.

Example hmac_rfc4231_2 :
  hexdigest (hmac_sha256 (encode "Jefe") (encode "what do ya want for nothing?")) =
  "5bdcc146bf60754e6a042426089575c75a003f089d2739839dec58b964ec3843".
Proof. vm_compute. reflexivity. Qed.

Lemma sha256_length_example : length (sha256 (encode "abc")) = 32%nat.
Proof. vm_compute. reflexivity. Qed.
