(* ===== verification/Blake2b.v ===== *)
(** * Blake2b: the digest behind the advisory-lock keys

    [hashlib.blake2b(m, digest_size=8)] over bytes (RFC 7693, no key) and
    [_lock_key] (src/identity/adapters/db/repository.py).  Words are integers
    modulo [2^64]. *)

From Stdlib Require Import Ascii String.
From S2P Require Import Prelude Text Sha256.

Definition w64 (z : Z) : Z := Z.land z 18446744073709551615.
Definition add64 (a b : Z) : Z := w64 (a + b).
Definition rotr64 (n x : Z) : Z := Z.lor (Z.shiftr x n) (w64 (Z.shiftl x (64 - n))).

(** The fractional parts of the square roots of the first eight primes. *)
Definition blake_iv : list Z := Eval vm_compute in (λ p, w64 (Z.sqrt (Z.shiftl p 128))) <$> primes 20.

Definition sigma : list (list nat) :=
  [[0; 1; 2; 3; 4; 5; 6; 7; 8; 9; 10; 11; 12; 13; 14; 15];
   [14; 10; 4; 8; 9; 15; 13; 6; 1; 12; 0; 2; 11; 7; 5; 3];
   [11; 8; 12; 0; 5; 2; 15; 13; 10; 14; 3; 6; 7; 1; 9; 4];
   [7; 9; 3; 1; 13; 12; 11; 14; 2; 6; 5; 10; 4; 0; 15; 8];
   [9; 0; 5; 7; 2; 4; 10; 15; 14; 1; 11; 12; 6; 8; 3; 13];
   [2; 12; 6; 10; 0; 11; 8; 3; 4; 13; 7; 5; 15; 14; 1; 9];
   [12; 5; 1; 15; 14; 13; 4; 10; 0; 7; 6; 3; 9; 2; 8; 11];
   [13; 11; 7; 14; 12; 1; 3; 9; 5; 0; 15; 4; 8; 6; 2; 10];
   [6; 15; 14; 9; 11; 3; 0; 8; 12; 2; 13; 7; 1; 4; 10; 5];
   [10; 2; 8; 4; 7; 6; 1; 5; 15; 11; 9; 14; 3; 12; 13; 0]]%nat.

(** The mixing function on positions [a b c d]. *)
Definition mix (a b c d : nat) (x y : Z) (v : list Z) : list Z :=
  let at_ i (l : list Z) := nth i l 0 in
  let v := <[a := add64 (add64 (at_ a v) (at_ b v)) x]> v in
  let v := <[d := rotr64 32 (Z.lxor (at_ d v) (at_ a v))]> v in
  let v := <[c := add64 (at_ c v) (at_ d v)]> v in
  let v := <[b := rotr64 24 (Z.lxor (at_ b v) (at_ c v))]> v in
  let v := <[a := add64 (add64 (at_ a v) (at_ b v)) y]> v in
  let v := <[d := rotr64 16 (Z.lxor (at_ d v) (at_ a v))]> v in
  let v := <[c := add64 (at_ c v) (at_ d v)]> v in
  <[b := rotr64 63 (Z.lxor (at_ b v) (at_ c v))]> v.

Definition blake_round (m : list Z) (v : list Z) (s : list nat) : list Z :=
  let w i := nth (nth i s 0%nat) m 0 in
  let v := mix 0 4 8 12 (w 0%nat) (w 1%nat) v in
  let v := mix 1 5 9 13 (w 2%nat) (w 3%nat) v in
  let v := mix 2 6 10 14 (w 4%nat) (w 5%nat) v in
  let v := mix 3 7 11 15 (w 6%nat) (w 7%nat) v in
  let v := mix 0 5 10 15 (w 8%nat) (w 9%nat) v in
  let v := mix 1 6 11 12 (w 10%nat) (w 11%nat) v in
  let v := mix 2 7 8 13 (w 12%nat) (w 13%nat) v in
  mix 3 4 9 14 (w 14%nat) (w 15%nat) v.

(** One block: [t] bytes so far, [last] for the final one. *)
Definition blake_compress (h m : list Z) (t : Z) (last : bool) : list Z :=
  let v := h ++ blake_iv in
  let v := <[12%nat := Z.lxor (nth 12 v 0) (w64 t)]> v in
  let v := <[13%nat := Z.lxor (nth 13 v 0) (w64 (Z.shiftr t 64))]> v in
  let v := if last then <[14%nat := w64 (Z.lnot (nth 14 v 0))]> v else v in
  let v := foldl (blake_round m) v (sigma ++ take 2 sigma) in
  zip_with Z.lxor h (zip_with Z.lxor (take 8 v) (drop 8 v)).

(** Little-endian words of a block padded with zeros to 128 bytes. *)
Definition le_word (bs : byte_list) : Z := foldr (λ b acc, b + 256 * acc) 0 bs.
Definition block_words (bs : byte_list) : list Z :=
  let padded := bs ++ replicate (128 - length bs) 0 in
  (λ i, le_word (take 8 (drop (8 * i) padded))) <$> seq 0 16.

(** All blocks, the last one (empty only for the empty message) flagged. *)
Fixpoint blake_blocks (fuel : nat) (h : list Z) (t : Z) (m : byte_list) : list Z :=
  match fuel with
  | O => h
  | S f =>
      if decide (length m ≤ 128)%nat then blake_compress h (block_words m) (t + Z.of_nat (length m)) true
      else blake_blocks f (blake_compress h (block_words (take 128 m)) (t + 128) false) (t + 128) (drop 128 m)
  end.

Definition le_bytes (n : nat) (z : Z) : byte_list := (λ i, Z.land (Z.shiftr z (8 * Z.of_nat i)) 255) <$> seq 0 n.

(** [hashlib.blake2b(m, digest_size=8).digest()] *)
Definition blake2b_8 (m : byte_list) : byte_list :=
  let h := <[0%nat := Z.lxor (nth 0 blake_iv 0) 0x01010008]> blake_iv in
  take 8 (blake_blocks (S (length m)) h 0 m ≫= le_bytes 8).

(** [int.from_bytes(..., "big", signed=True)] *)
Definition signed_be (bs : byte_list) : Z :=
  let z := foldl (λ acc b, acc * 256 + b) 0 bs in
  let n := 8 * Z.of_nat (length bs) in
  if decide (2 ^ (n - 1) ≤ z) then z - 2 ^ n else z.

(** [_lock_key] *)
Definition lock_key (oidc_sub : string) : Z := signed_be (blake2b_8 (encode oidc_sub)).

(** ** Digests of [hashlib] *)

Example blake2b_abc : blake2b_8 (encode "abc") = [216; 187; 20; 216; 51; 213; 149; 89].
Proof. vm_compute. reflexivity. Qed.
Example lock_key_uuid : lock_key "3f2504e0-4f89-11d3-9a0c-0305e82c3301" = (-1143596433686175828).
Proof. vm_compute. reflexivity. Qed.
Example lock_key_long : lock_key (String.concat "" (replicate 30 "0123456789")) = (-7387507142505900815).
Proof. vm_compute. reflexivity. Qed.

#[global] Arguments lock_key : simpl never.
