(* ===== verification/Base64.v ===== *)
(** * Base64: the codecs of [base64] and [json] that a page cursor goes through

    [base64.urlsafe_b64encode], [base64.urlsafe_b64decode] with CPython's lenient
    reader (characters outside the alphabet are skipped, a complete padding ends
    the text), and the text [json.dumps] gives to a list of strings with the
    reader of exactly such lists.  Bytes are kept as characters. *)

From Stdlib Require Import Ascii String.
From S2P Require Import Prelude Text Parse Sha256.

Local Open Scope N_scope.

(** ** The alphabet *)

Definition b64_char (d : N) : ascii :=
  if decide (d < 26) then ascii_of_N (65 + d)
  else if decide (d < 52) then ascii_of_N (71 + d)
  else if decide (d < 62) then ascii_of_N (d - 4)
  else if decide (d = 62) then "-"%char else "_"%char.

(** The table of [a2b_base64] after the translation of the url-safe characters. *)
Definition b64_value (c : ascii) : option N :=
  let n := N_of_ascii c in
  if decide (65 ≤ n ∧ n ≤ 90) then Some (n - 65)
  else if decide (97 ≤ n ∧ n ≤ 122) then Some (n - 71)
  else if decide (48 ≤ n ∧ n ≤ 57) then Some (n + 4)
  else if decide (c = "-"%char ∨ c = "+"%char) then Some 62
  else if decide (c = "_"%char ∨ c = "/"%char) then Some 63
  else None.

(** ** Encoding *)

Definition b64_quad (a b c : N) : string :=
  String (b64_char (a / 4)) (String (b64_char (a mod 4 * 16 + b / 16))
    (String (b64_char (b mod 16 * 4 + c / 64)) (String (b64_char (c mod 64)) EmptyString))).

Fixpoint b64_encode (s : string) : string :=
  match s with
  | EmptyString => EmptyString
  | String a EmptyString =>
      let a := N_of_ascii a in
      String (b64_char (a / 4)) (String (b64_char (a mod 4 * 16)) "==")
  | String a (String b EmptyString) =>
      let a := N_of_ascii a in let b := N_of_ascii b in
      String (b64_char (a / 4)) (String (b64_char (a mod 4 * 16 + b / 16)) (String (b64_char (b mod 16 * 4)) "="))
  | String a (String b (String c rest)) =>
      (b64_quad (N_of_ascii a) (N_of_ascii b) (N_of_ascii c) +:+ b64_encode rest)%string
  end.

(** ** Decoding *)

(** The loop of [a2b_base64]: [quad] characters of the group have been read,
    [pads] paddings seen since, [left] is what the last character left over. *)
Fixpoint a2b (quad pads left : N) (s : string) : option string :=
  match s with
  | EmptyString => if decide (quad = 0) then Some EmptyString else None
  | String "=" rest =>
      if decide (2 ≤ quad) then
        if decide (4 ≤ quad + (pads + 1)) then Some EmptyString else a2b quad (pads + 1) left rest
      else a2b quad pads left rest
  | String c rest =>
      match b64_value c with
      | None => a2b quad pads left rest
      | Some v =>
          match quad with
          | 0 => a2b 1 0 v rest
          | 1 => String (ascii_of_N (left * 4 + v / 16)) <$> a2b 2 0 (v mod 16) rest
          | 2 => String (ascii_of_N (left * 16 + v / 4)) <$> a2b 3 0 (v mod 4) rest
          | _ => String (ascii_of_N (left * 64 + v)) <$> a2b 0 0 0 rest
          end
      end
  end.

(** [base64.urlsafe_b64decode]; [None] is [binascii.Error]. *)
Definition b64_decode (s : string) : option string := a2b 0 0 0 s.

(** ** The round trip *)

Lemma below_64 (P : N → Prop) : Forall P (N.of_nat <$> seq 0 64) → ∀ d, d < 64 → P d.
Proof.
  rewrite Forall_fmap, Forall_forall. intros HP d Hd. rewrite <- (N2Nat.id d). apply HP, elem_of_seq. lia.
Qed.

Lemma b64_value_char d : d < 64 → b64_value (b64_char d) = Some d.
Proof. revert d. apply below_64. repeat constructor. Qed.

Lemma b64_char_not_pad d : d < 64 → b64_char d ≠ "="%char.
Proof. revert d. apply below_64. repeat constructor; discriminate. Qed.

Lemma a2b_char quad pads left d rest :
  d < 64 →
  a2b quad pads left (String (b64_char d) rest) =
    match quad with
    | 0 => a2b 1 0 d rest
    | 1 => String (ascii_of_N (left * 4 + d / 16)) <$> a2b 2 0 (d mod 16) rest
    | 2 => String (ascii_of_N (left * 16 + d / 4)) <$> a2b 3 0 (d mod 4) rest
    | _ => String (ascii_of_N (left * 64 + d)) <$> a2b 0 0 0 rest
    end.
Proof.
  intros Hd. pose proof (b64_char_not_pad d Hd) as Hp. pose proof (b64_value_char d Hd) as Hv.
  revert Hp Hv. generalize (b64_char d). intros c Hp Hv.
  transitivity (match b64_value c with
      | None => a2b quad pads left rest
      | Some v =>
          match quad with
          | 0 => a2b 1 0 v rest
          | 1 => String (ascii_of_N (left * 4 + v / 16)) <$> a2b 2 0 (v mod 16) rest
          | 2 => String (ascii_of_N (left * 16 + v / 4)) <$> a2b 3 0 (v mod 4) rest
          | _ => String (ascii_of_N (left * 64 + v)) <$> a2b 0 0 0 rest
          end
      end); [|by rewrite Hv].
  by destruct c as [[] [] [] [] [] [] [] []].
Qed.

Lemma byte_bound (c : ascii) : N_of_ascii c < 256.
Proof. apply N_ascii_bounded. Qed.

Lemma b64_digits_ok (a b c : ascii) :
  let x := N_of_ascii a in let y := N_of_ascii b in let z := N_of_ascii c in
  x / 4 < 64 ∧ x mod 4 * 16 + y / 16 < 64 ∧ y mod 16 * 4 + z / 64 < 64 ∧ z mod 64 < 64 ∧ x mod 4 * 16 < 64 ∧ y mod 16 * 4 < 64.
Proof.
  intros x y z. pose proof (byte_bound a : x < 256). pose proof (byte_bound b : y < 256). pose proof (byte_bound c : z < 256).
  clearbody x y z. zify. Z.to_euclidean_division_equations. lia.
Qed.

Lemma glue a b n : b < n → (a * n + b) / n = a ∧ (a * n + b) mod n = b.
Proof.
  intros Hb. split.
  - rewrite N.div_add_l by lia. rewrite N.div_small by done. lia.
  - rewrite N.add_comm, N.Div0.mod_add. by apply N.mod_small.
Qed.

Lemma split_at x n : x / n * n + x mod n = x.
Proof. rewrite (N.Div0.div_mod x n) at 3. lia. Qed.

Lemma regroup (x y z : N) :
  x < 256 → y < 256 → z < 256 →
  x / 4 * 4 + (x mod 4 * 16 + y / 16) / 16 = x ∧
  (x mod 4 * 16 + y / 16) mod 16 * 16 + (y mod 16 * 4 + z / 64) / 4 = y ∧
  (y mod 16 * 4 + z / 64) mod 4 * 64 + z mod 64 = z ∧
  x / 4 * 4 + x mod 4 * 16 / 16 = x ∧
  (x mod 4 * 16 + y / 16) mod 16 * 16 + y mod 16 * 4 / 4 = y.
Proof.
  intros Hx Hy Hz.
  destruct (glue (x mod 4) (y / 16) 16) as [-> ->]; [by apply N.Div0.div_lt_upper_bound|].
  destruct (glue (y mod 16) (z / 64) 4) as [-> ->]; [by apply N.Div0.div_lt_upper_bound|].
  rewrite !N.div_mul by done. by rewrite !split_at.
Qed.

Lemma string_ind3 (P : string → Prop) :
  P EmptyString → (∀ a, P (String a EmptyString)) → (∀ a b, P (String a (String b EmptyString))) →
  (∀ a b c s, P s → P (String a (String b (String c s)))) → ∀ s, P s.
Proof. intros H0 H1 H2 H3. fix IH 1. intros [|a [|b [|c s]]]; [apply H0|apply H1|apply H2|apply H3, IH]. Qed.

Lemma b64_roundtrip s : b64_decode (b64_encode s) = Some s.
Proof.
  unfold b64_decode. induction s as [|a|a b|a b c s IH] using string_ind3; [done|..].
  - destruct (b64_digits_ok a a a) as (H1 & _ & _ & _ & H2 & _).
    destruct (regroup _ _ _ (byte_bound a) (byte_bound a) (byte_bound a)) as (_ & _ & _ & E & _).
    cbn [b64_encode]. rewrite !a2b_char by done. cbn. by rewrite E, ascii_N_embedding.
  - destruct (b64_digits_ok a b b) as (H1 & H2 & _ & _ & _ & H3).
    destruct (regroup _ _ _ (byte_bound a) (byte_bound b) (byte_bound b)) as (E1 & _ & _ & _ & E2).
    cbn [b64_encode]. rewrite !a2b_char by done. cbn. by rewrite E1, E2, !ascii_N_embedding.
  - destruct (b64_digits_ok a b c) as (H1 & H2 & H3 & H4 & _).
    destruct (regroup _ _ _ (byte_bound a) (byte_bound b) (byte_bound c)) as (E1 & E2 & E3 & _).
    cbn [b64_encode]. unfold b64_quad. rewrite !str_cons_app, str_app_nil_l.
    rewrite !a2b_char by done. rewrite E1, E2, E3, !ascii_N_embedding. by rewrite IH.
Qed.

(** ** Lists of strings in JSON *)

Definition json_string (s : string) : string := (quote +:+ json_escape s +:+ quote)%string.

(** [json.dumps([a, b])] *)
Definition json_dumps_pair (a b : string) : string := ("[" +:+ json_string a +:+ ", " +:+ json_string b +:+ "]")%string.

(** [json.loads] seen through what a cursor needs of it: whether the text is a
    JSON list, and then the [str()] of its items. *)
Class JsonLists := {
  json_items : string → option (list string);
  json_items_dumps a b : json_items (json_dumps_pair a b) = Some [a; b]
}.

(** The body of a string literal up to its closing quote, and the rest. *)
Fixpoint scan_string (fuel : nat) (s : string) : option (string * string) :=
  match fuel with
  | O => None
  | S f =>
      match s with
      | EmptyString => None
      | String c rest =>
          if decide (c = ascii_of_N 34) then Some (EmptyString, rest)
          else '(x, rest') ← unescape_one s; '(t, rest'') ← scan_string f rest'; Some (String x t, rest'')
      end
  end.

Definition scan_literal (s : string) : option (string * string) :=
  match s with
  | String c rest => if decide (c = ascii_of_N 34) then scan_string (S (String.length rest)) rest else None
  | EmptyString => None
  end.

(** The reader of two-element lists of string literals. *)
Definition scan_pair (s : string) : option (list string) :=
  match s with
  | String "[" rest =>
      '(a, rest1) ← scan_literal rest;
      match rest1 with
      | String "," (String " " rest2) =>
          '(b, rest3) ← scan_literal rest2;
          if decide (rest3 = "]"%string) then Some [a; b] else None
      | _ => None
      end
  | _ => None
  end.

Lemma escape_first c : ∃ x r, json_escape_char c = String x r ∧ x ≠ ascii_of_N 34.
Proof. destruct c as [[] [] [] [] [] [] [] []]; vm_compute; eexists _, _; split; try reflexivity; discriminate. Qed.

Lemma escape_length s : (String.length s ≤ String.length (json_escape s))%nat.
Proof.
  induction s as [|c s IH]; [done|]. simpl. rewrite str_length_app.
  destruct (escape_first c) as (x & r & -> & _). simpl. lia.
Qed.

Lemma scan_string_escape f s rest :
  (String.length s < f)%nat → scan_string f (json_escape s +:+ quote +:+ rest)%string = Some (s, rest).
Proof.
  revert f. induction s as [|c s IH]; intros [|f] Hf; try (simpl in Hf; lia).
  - done.
  - simpl json_escape. rewrite <- str_app_assoc.
    pose proof (unescape_escape c (json_escape s +:+ quote +:+ rest)%string) as Hu.
    destruct (escape_first c) as (x & r & E & Hx). rewrite E, str_cons_app in *. cbn [scan_string].
    rewrite decide_False by done. rewrite Hu. simpl. rewrite IH; [done|]. simpl in Hf. lia.
Qed.

Lemma scan_literal_json s rest : scan_literal (json_string s +:+ rest)%string = Some (s, rest).
Proof.
  transitivity (scan_literal (String (ascii_of_N 34) (json_escape s +:+ quote +:+ rest)))%string.
  { unfold json_string. rewrite (str_app_assoc (json_escape s)). done. }
  unfold scan_literal. rewrite decide_True by done. apply scan_string_escape.
  rewrite !str_length_app. pose proof (escape_length s). lia.
Qed.

Lemma scan_pair_dumps a b : scan_pair (json_dumps_pair a b) = Some [a; b].
Proof.
  unfold json_dumps_pair. rewrite str_cons_app, str_app_nil_l. unfold scan_pair. rewrite scan_literal_json.
  rewrite !str_cons_app, str_app_nil_l. unfold mbind, option_bind. by rewrite scan_literal_json.
Qed.

#[export] Instance pair_lists : JsonLists := {| json_items := scan_pair; json_items_dumps := scan_pair_dumps |}.
