(* ===== verification/Json.v ===== *)
(** * Json: JSON texts as Python's [json] writes and reads them

    [json] is what [json.loads] builds; [dumps] is [json.dumps] with its default
    separators and [ensure_ascii]; [loads] is the reader: white space, literals,
    numbers, string literals with their escapes, arrays and objects, whose later
    duplicate keys win.  A text is the list of its characters below 256; an escape
    of a larger code point is refused.  Integers of more than 4300 digits are
    refused, as CPython does.  [loads_dumps] is the round trip. *)

From Stdlib Require Import Ascii String.
From S2P Require Import Prelude Text Parse Sha256 Base64.

Inductive json :=
  | JNull
  | JBool (b : bool)
  | JInt (z : Z)
  | JFloat (text : string)
  | JString (s : string)
  | JArray (items : list json)
  | JObject (fields : list (string * json)).

(** The induction principle that reaches into arrays and objects. *)
Section JsonInd.
Context (P : json → Prop).
Context (Hnull : P JNull) (Hbool : ∀ b, P (JBool b)) (Hint : ∀ z, P (JInt z)) (Hfloat : ∀ t, P (JFloat t)).
Context (Hstring : ∀ s, P (JString s)).
Context (Harray : ∀ items, Forall P items → P (JArray items)).
Context (Hobject : ∀ fields, Forall (λ kv, P kv.2) fields → P (JObject fields)).

Fixpoint json_nested_ind (j : json) : P j :=
  match j with
  | JNull => Hnull
  | JBool b => Hbool b
  | JInt z => Hint z
  | JFloat t => Hfloat t
  | JString s => Hstring s
  | JArray items =>
      Harray items ((fix all (l : list json) : Forall P l :=
        match l with
        | [] => Forall_nil_2 P
        | x :: l' => Forall_cons_2 P x l' (json_nested_ind x) (all l')
        end) items)
  | JObject fields =>
      Hobject fields ((fix all (l : list (string * json)) : Forall (λ kv, P kv.2) l :=
        match l with
        | [] => Forall_nil_2 _
        | x :: l' => Forall_cons_2 (λ kv, P kv.2) x l' (json_nested_ind x.2) (all l')
        end) fields)
  end.
End JsonInd.

(** ** Dictionaries *)

(** [d.get(key)], on a dict without duplicate keys. *)
Fixpoint dict_get (key : string) (fields : list (string * json)) : option json :=
  match fields with
  | [] => None
  | (k, v) :: rest => if decide (k = key) then Some v else dict_get key rest
  end.

(** [d[key] = v]: a present key keeps its place. *)
Fixpoint dict_set (key : string) (v : json) (fields : list (string * json)) : list (string * json) :=
  match fields with
  | [] => [(key, v)]
  | (k, w) :: rest => if decide (k = key) then (k, v) :: rest else (k, w) :: dict_set key v rest
  end.

(** ** Writing *)

Fixpoint join (sep : string) (l : list string) : string :=
  match l with
  | [] => ""
  | [x] => x
  | x :: rest => (x +:+ sep +:+ join sep rest)%string
  end.

Fixpoint dumps (j : json) : string :=
  match j with
  | JNull => "null"
  | JBool true => "true"
  | JBool false => "false"
  | JInt z => int_str z
  | JFloat t => t
  | JString s => json_string s
  | JArray items => ("[" +:+ join ", " (dumps <$> items) +:+ "]")%string
  | JObject fields =>
      ("{" +:+ join ", " ((λ kv, json_string kv.1 +:+ ": " +:+ dumps kv.2)%string <$> fields) +:+ "}")%string
  end.

(** ** Reading *)

Definition json_ws (c : ascii) : bool :=
  bool_decide (c = " "%char ∨ c = ascii_of_N 9 ∨ c = ascii_of_N 10 ∨ c = ascii_of_N 13).

Fixpoint skip_ws (s : string) : string :=
  match s with
  | String c rest => if json_ws c then skip_ws rest else s
  | EmptyString => s
  end.

(** The character a backslash and [c] stand for. *)
Definition simple_escape (c : ascii) : option ascii :=
  match c with
  | "b"%char => Some (ascii_of_N 8)
  | "t"%char => Some (ascii_of_N 9)
  | "n"%char => Some (ascii_of_N 10)
  | "f"%char => Some (ascii_of_N 12)
  | "r"%char => Some (ascii_of_N 13)
  | c => if decide (c = ascii_of_N 34 ∨ c = "\"%char ∨ c = "/"%char) then Some c else None
  end.

(** The code point of four hexadecimal digits, when the model has it. *)
Definition hex4 (a b c d : ascii) : option ascii :=
  a ← hex_char a; b ← hex_char b; c ← hex_char c; d ← hex_char d;
  let n := (((a * 16 + b) * 16 + c) * 16 + d)%N in
  if decide (n < 256)%N then Some (ascii_of_N n) else None.

(** One character of a string literal that is not its closing quote. *)
Definition scan_char (s : string) : option (ascii * string) :=
  match s with
  | String "\" (String "u" rest) =>
      match rest with
      | String a (String b (String c (String d rest'))) => x ← hex4 a b c d; Some (x, rest')
      | _ => None
      end
  | String "\" (String c rest) => x ← simple_escape c; Some (x, rest)
  | String "\" EmptyString => None
  | String c rest => if decide (N_of_ascii c < 32)%N then None else Some (c, rest)
  | EmptyString => None
  end.

(** [scanstring]: the literal after its opening quote, and the rest. *)
Fixpoint scanstring (fuel : nat) (s : string) : option (string * string) :=
  match fuel, s with
  | S f, String c rest =>
      if decide (c = ascii_of_N 34) then Some (EmptyString, rest)
      else '(x, rest') ← scan_char s; '(t, rest'') ← scanstring f rest'; Some (String x t, rest'')
  | _, _ => None
  end.

(** The longest prefix of digits, and the rest. *)
Fixpoint span_digits (s : string) : string * string :=
  match s with
  | String c rest => if is_digit c then let '(ds, r) := span_digits rest in (String c ds, r) else (EmptyString, s)
  | EmptyString => (EmptyString, EmptyString)
  end.

(** The fraction and the exponent of a number, when they are there. *)
Definition scan_fraction (s : string) : string * string :=
  match s with
  | String "." rest =>
      match span_digits rest with (EmptyString, _) => (EmptyString, s) | (ds, r) => (String "." ds, r) end
  | _ => (EmptyString, s)
  end.

Definition scan_exponent (s : string) : string * string :=
  match s with
  | String e rest =>
      if decide (e = "e"%char ∨ e = "E"%char) then
        let '(sign, rest') := match rest with
                              | String "+" r => ("+"%string, r)
                              | String "-" r => ("-"%string, r)
                              | r => (EmptyString, r)
                              end in
        match span_digits rest' with
        | (EmptyString, _) => (EmptyString, s)
        | (ds, r) => ((String e sign +:+ ds)%string, r)
        end
      else (EmptyString, s)
  | EmptyString => (EmptyString, s)
  end.

(** [sys.get_int_max_str_digits()] *)
Definition MAX_DIGITS : nat := 4300.

Definition integer_part (s : string) : option (string * string) :=
  match s with
  | String "0" rest => Some ("0"%string, rest)
  | _ => match span_digits s with (EmptyString, _) => None | x => Some x end
  end.

Definition scan_number (s : string) : option (json * string) :=
  let '(sign, body) := match s with String "-" r => ("-"%string, r) | r => (EmptyString, r) end in
  '(ds, r1) ← integer_part body;
  let '(frac, r2) := scan_fraction r1 in
  let '(expo, r3) := scan_exponent r2 in
  if decide (frac = EmptyString ∧ expo = EmptyString) then
    n ← digits_value 0 ds;
    if decide (String.length ds ≤ MAX_DIGITS)%nat then
      Some (JInt (if decide (sign = EmptyString) then Z.of_N n else - Z.of_N n), r3)
    else None
  else Some (JFloat (sign +:+ ds +:+ frac +:+ expo)%string, r3).

(** The literals. *)
Definition scan_word (s : string) : option (json * string) :=
  match s with
  | String "n" (String "u" (String "l" (String "l" r))) => Some (JNull, r)
  | String "t" (String "r" (String "u" (String "e" r))) => Some (JBool true, r)
  | String "f" (String "a" (String "l" (String "s" (String "e" r)))) => Some (JBool false, r)
  | String "N" (String "a" (String "N" r)) => Some (JFloat "NaN", r)
  | _ => if String.prefix "Infinity" s then Some (JFloat "Infinity", substring 8 (String.length s - 8) s)
         else if String.prefix "-Infinity" s then Some (JFloat "-Infinity", substring 9 (String.length s - 9) s)
         else scan_number s
  end.

(** A dict from the pairs as they were read. *)
Definition dict_of (pairs : list (string * json)) : list (string * json) :=
  foldl (λ d kv, dict_set kv.1 kv.2 d) [] pairs.

(** [scan_once], [JSONArray] after its bracket and [JSONObject] after its brace. *)
Fixpoint scan_value (fuel : nat) (s : string) {struct fuel} : option (json * string) :=
  match fuel with
  | O => None
  | S f =>
      match s with
      | EmptyString => None
      | String c rest =>
          if decide (c = ascii_of_N 34) then
            '(t, r) ← scanstring (S (String.length rest)) rest; Some (JString t, r)
          else if decide (c = "["%char) then
            match skip_ws rest with
            | String "]" r => Some (JArray [], r)
            | r => '(items, r') ← scan_items f r; Some (JArray items, r')
            end
          else if decide (c = "{"%char) then
            match skip_ws rest with
            | String "}" r => Some (JObject [], r)
            | r => '(pairs, r') ← scan_pairs f r; Some (JObject (dict_of pairs), r')
            end
          else scan_word s
      end
  end
with scan_items (fuel : nat) (s : string) {struct fuel} : option (list json * string) :=
  match fuel with
  | O => None
  | S f =>
      '(x, r) ← scan_value f s;
      match skip_ws r with
      | String "]" r' => Some ([x], r')
      | String "," r' => '(items, r'') ← scan_items f (skip_ws r'); Some (x :: items, r'')
      | _ => None
      end
  end
with scan_pairs (fuel : nat) (s : string) {struct fuel} : option (list (string * json) * string) :=
  match fuel with
  | O => None
  | S f =>
      match s with
      | EmptyString => None
      | String c rest =>
          if decide (c = ascii_of_N 34) then
            '(k, r) ← scanstring (S (String.length rest)) rest;
            match skip_ws r with
            | String ":" r1 =>
                '(x, r2) ← scan_value f (skip_ws r1);
                match skip_ws r2 with
                | String "}" r' => Some ([(k, x)], r')
                | String "," r' => '(pairs, r'') ← scan_pairs f (skip_ws r'); Some ((k, x) :: pairs, r'')
                | _ => None
                end
            | _ => None
            end
          else None
      end
  end.

(** [json.loads] *)
Definition loads (s : string) : option json :=
  '(j, r) ← scan_value (S (2 * String.length s)) (skip_ws s);
  if decide (skip_ws r = EmptyString) then Some j else None.

(** [bytes.decode()]: UTF-8, for code points below 256. *)
Fixpoint utf8_decode (s : string) : option string :=
  match s with
  | EmptyString => Some EmptyString
  | String c rest =>
      let n := N_of_ascii c in
      if decide (n < 128)%N then t ← utf8_decode rest; Some (String c t)
      else match rest with
      | String c2 rest' =>
          let n2 := N_of_ascii c2 in
          if decide (194 ≤ n ∧ n ≤ 195 ∧ 128 ≤ n2 ∧ n2 < 192)%N
          then t ← utf8_decode rest'; Some (String (ascii_of_N ((n - 192) * 64 + (n2 - 128))) t)
          else None
      | EmptyString => None
      end
  end.

(** ** The round trip *)

(** What [dumps] writes and [loads] reads back: no floats, no duplicate keys. *)
Fixpoint json_ok (j : json) : bool :=
  match j with
  | JFloat _ => false
  | JInt z => bool_decide (String.length (nat_str (Z.abs_N z)) ≤ MAX_DIGITS)%nat
  | JArray items => forallb json_ok items
  | JObject fields => forallb (λ kv, json_ok kv.2) fields && bool_decide (NoDup fields.*1)
  | _ => true
  end.

(** Fuel for the reader. *)
Fixpoint weight (j : json) : nat :=
  match j with
  | JArray items => S (sum_list_with (λ x, S (weight x)) items)
  | JObject fields => S (sum_list_with (λ kv, S (weight kv.2)) fields)
  | _ => 1
  end.

Lemma scan_char_escape c r : scan_char (json_escape_char c +:+ r)%string = Some (c, r).
Proof. by destruct c as [[] [] [] [] [] [] [] []]. Qed.

Lemma scanstring_escape f s rest :
  (String.length s < f)%nat → scanstring f (json_escape s +:+ quote +:+ rest)%string = Some (s, rest).
Proof.
  revert f. induction s as [|c s IH]; intros [|f] Hf; try (simpl in Hf; lia).
  - done.
  - simpl json_escape. rewrite <- str_app_assoc.
    pose proof (scan_char_escape c (json_escape s +:+ quote +:+ rest)%string) as Hu.
    destruct (escape_first c) as (x & r & E & Hx). rewrite E, str_cons_app in *. cbn [scanstring].
    rewrite decide_False by done. rewrite Hu. simpl. rewrite IH; [done|]. simpl in Hf. lia.
Qed.

(** A literal, after its opening quote. *)
Lemma scanstring_json s rest :
  ∃ r, (json_string s +:+ rest)%string = String (ascii_of_N 34) r ∧
    scanstring (S (String.length r)) r = Some (s, rest).
Proof.
  exists (json_escape s +:+ quote +:+ rest)%string. split.
  - unfold json_string. by rewrite <- !str_app_assoc.
  - apply scanstring_escape. rewrite !str_length_app. pose proof (escape_length s). lia.
Qed.

(** Texts after which a number ends. *)
Definition delimited (s : string) : bool :=
  match s with
  | EmptyString => true
  | String c _ => negb (is_digit c) && bool_decide (c ≠ "."%char ∧ c ≠ "e"%char ∧ c ≠ "E"%char)
  end.

Lemma span_digits_app ds rest :
  all_digits ds = true → delimited rest = true → span_digits (ds +:+ rest)%string = (ds, rest).
Proof.
  intros Hd Hr. induction ds as [|c ds IH]; simpl in *.
  - destruct rest as [|c rest]; [done|]. simpl in *. by destruct (is_digit c).
  - apply andb_prop in Hd as [Hc Hd]. rewrite Hc, IH by done. done.
Qed.

Lemma delimited_no_fraction s : delimited s = true → scan_fraction s = (EmptyString, s) ∧ scan_exponent s = (EmptyString, s).
Proof.
  destruct s as [|c s]; [done|]. intros [_ Hc%bool_decide_eq_true]%andb_prop. destruct Hc as (H1 & H2 & H3).
  unfold scan_exponent. rewrite decide_False by tauto. split; [|done].
  destruct c as [[] [] [] [] [] [] [] []]; done.
Qed.

(** No leading zero. *)
Lemma dec_fuel_head f n c s :
  (0 < n)%N → (n < 10 ^ N.of_nat f)%N → dec_fuel f n = String c s → c ≠ "0"%char.
Proof.
  revert n c s. induction f as [|f IH]; intros n c s Hn Hf; [simpl in *; lia|]. cbn [dec_fuel].
  case_decide as H10.
  - intros [= <- _]. intros E. apply (f_equal N_of_ascii) in E. rewrite N_ascii_embedding in E by lia. simpl in E. lia.
  - assert (0 < n / 10)%N as Hd. { apply N.div_str_pos. lia. }
    rewrite Nat2N.inj_succ, N.pow_succ_r' in Hf.
    assert (n / 10 < 10 ^ N.of_nat f)%N as Hlt by (apply N.Div0.div_lt_upper_bound; lia).
    destruct (dec_fuel f (n / 10)) as [|c' s'] eqn:E.
    { destruct f; simpl in *; [lia|]. case_decide; [done|]. by destruct (dec_fuel f (n / 10 / 10)). }
    intros [= <- _]. by eapply IH.
Qed.

Lemma integer_part_str n rest :
  delimited rest = true → integer_part (nat_str n +:+ rest)%string = Some (nat_str n, rest).
Proof.
  intros Hr. destruct (decide (n = 0%N)) as [->|Hn]; [done|].
  pose proof (span_digits_app (nat_str n) rest (nat_str_digits n) Hr) as Hs.
  destruct (nat_str n) as [|c s] eqn:E; [by destruct (nat_str_nonempty n)|].
  assert (c ≠ "0"%char) as Hc by (eapply (dec_fuel_head _ n); [lia|apply nat_str_fuel|exact E]).
  rewrite str_cons_app in *. unfold integer_part. destruct c as [[] [] [] [] [] [] [] []]; try done; by rewrite Hs.
Qed.

Lemma nat_str_head n : ∃ c s, nat_str n = String c s ∧ is_digit c = true.
Proof.
  pose proof (nat_str_digits n) as Hd. destruct (nat_str n) as [|c s] eqn:E; [by destruct (nat_str_nonempty n)|].
  exists c, s. split; [done|]. simpl in Hd. by apply andb_prop in Hd as [? _].
Qed.

Lemma scan_word_digit c s : is_digit c = true → scan_word (String c s) = scan_number (String c s).
Proof. intros Hc. destruct c as [[] [] [] [] [] [] [] []]; try discriminate Hc; reflexivity. Qed.

Lemma scan_word_negative c s : is_digit c = true → scan_word (String "-" (String c s)) = scan_number (String "-" (String c s)).
Proof. intros Hc. destruct c as [[] [] [] [] [] [] [] []]; try discriminate Hc; reflexivity. Qed.

Lemma scan_number_digit c s : is_digit c = true →
  scan_number (String c s) =
    ('(ds, r1) ← integer_part (String c s);
     let '(frac, r2) := scan_fraction r1 in
     let '(expo, r3) := scan_exponent r2 in
     if decide (frac = EmptyString ∧ expo = EmptyString) then
       n ← digits_value 0 ds;
       if decide (String.length ds ≤ MAX_DIGITS)%nat then Some (JInt (Z.of_N n), r3) else None
     else Some (JFloat (ds +:+ frac +:+ expo)%string, r3)).
Proof. intros Hc. destruct c as [[] [] [] [] [] [] [] []]; try discriminate Hc; reflexivity. Qed.

(** An integer is read back. *)
Lemma scan_word_int z rest :
  json_ok (JInt z) = true → delimited rest = true → scan_word (int_str z +:+ rest)%string = Some (JInt z, rest).
Proof.
  simpl. intros Hl%bool_decide_eq_true Hr. destruct (delimited_no_fraction _ Hr) as [Hf He].
  unfold int_str. case_decide as Hz.
  - destruct (nat_str_head (Z.to_N (- z))) as (c & s & E & Hc). rewrite E, !str_cons_app.
    rewrite scan_word_negative by done. unfold scan_number. rewrite <- str_cons_app, <- E, integer_part_str by done. simpl.
    rewrite Hf, He. simpl. rewrite nat_str_value. simpl.
    replace (Z.to_N (- z)) with (Z.abs_N z) in * by lia. rewrite decide_True by done. do 3 f_equal. lia.
  - destruct (nat_str_head (Z.to_N z)) as (c & s & E & Hc). rewrite E, str_cons_app.
    rewrite scan_word_digit, scan_number_digit by done. rewrite <- str_cons_app, <- E, integer_part_str by done. simpl.
    rewrite Hf, He. simpl. rewrite nat_str_value. simpl.
    replace (Z.to_N z) with (Z.abs_N z) in * by lia. rewrite decide_True by done. do 3 f_equal. lia.
Qed.

(** The first character of a value: not white space, not a closing bracket. *)
Definition opens (c : ascii) : bool :=
  negb (json_ws c) && bool_decide (c ≠ "]"%char ∧ c ≠ "}"%char).

Lemma dumps_head j : json_ok j = true → ∃ c s, dumps j = String c s ∧ opens c = true.
Proof.
  destruct j as [|[]|z|t|s|l|l]; intros Hj; try discriminate Hj; try (by eexists _, _).
  simpl. unfold int_str. case_decide; [by eexists _, _|]. destruct (nat_str_head (Z.to_N z)) as (c & s & -> & Hc).
  exists c, s. split; [done|]. destruct c as [[] [] [] [] [] [] [] []]; try discriminate; done.
Qed.

Lemma skip_ws_opens c s : opens c = true → skip_ws (String c s) = String c s.
Proof. intros [Hc _]%andb_prop. simpl. by destruct (json_ws c). Qed.

(** A separator or a closing bracket after a value. *)
Lemma after_value (c : ascii) s : c = ","%char ∨ c = "]"%char ∨ c = "}"%char → delimited (String c s) = true ∧ skip_ws (String c s) = String c s.
Proof. by intros [->|[->| ->]]. Qed.

Lemma join_cons (x y : string) l : join ", " (x :: y :: l) = (x +:+ ", " +:+ join ", " (y :: l))%string.
Proof. done. Qed.

Lemma join_head c s l : ∃ s', join ", " (String c s :: l) = String c s'.
Proof. destruct l; by eexists. Qed.

(** Values that are read back. *)
Definition read_back (j : json) : Prop :=
  ∀ fuel rest, (weight j ≤ fuel)%nat → delimited rest = true → scan_value fuel (dumps j +:+ rest)%string = Some (j, rest).

(** After a comma and a space comes the next item. *)
Lemma skip_separator c s : opens c = true → skip_ws (String " " (String c s)) = String c s.
Proof. intros Hc. change (skip_ws (String " " (String c s))) with (skip_ws (String c s)). by apply skip_ws_opens. Qed.

Lemma items_text_head x l rest : json_ok x = true →
  ∃ c s, (join ", " (dumps x :: l) +:+ rest)%string = String c s ∧ opens c = true.
Proof.
  intros Hx. destruct (dumps_head x Hx) as (c & s & -> & Hc). destruct (join_head c s l) as [s' ->].
  exists c, (s' +:+ rest)%string. done.
Qed.

Lemma scan_items_ok items fuel rest :
  items ≠ [] → Forall read_back items → forallb json_ok items = true →
  (sum_list_with (λ x, S (weight x)) items ≤ fuel)%nat →
  scan_items fuel (join ", " (dumps <$> items) +:+ "]" +:+ rest)%string = Some (items, rest).
Proof.
  revert fuel. induction items as [|x items IH]; intros [|f] Hne Hb Hok Hf; [done|done|simpl in Hf; lia|].
  apply Forall_cons in Hb as [Hx Hb]. simpl in Hok. apply andb_prop in Hok as [Hxo Hok]. simpl in Hf.
  cbn [scan_items]. destruct items as [|y items].
  - simpl join. rewrite Hx by (lia || done). done.
  - rewrite !fmap_cons, join_cons, <- !str_app_assoc, Hx by (lia || done). cbn [mbind option_bind].
    specialize (IH f ltac:(done) Hb Hok ltac:(lia)). rewrite fmap_cons in IH.
    destruct (items_text_head y (dumps <$> items) ("]" +:+ rest)%string) as (c & s & Ec & Hc);
      [simpl in Hok; by apply andb_prop in Hok as [? _]|].
    rewrite Ec in *. change (", " +:+ String c s)%string with (String "," (String " " (String c s))).
    destruct (after_value "," (String " " (String c s))) as [_ ->]; [by left|].
    rewrite skip_separator by done. by rewrite IH.
Qed.

(** The text of a field. *)
Definition field_text (kv : string * json) : string := (json_string kv.1 +:+ ": " +:+ dumps kv.2)%string.

Lemma fields_text_head x l rest :
  ∃ s, (join ", " (field_text x :: l) +:+ rest)%string = String (ascii_of_N 34) s.
Proof.
  assert (∃ s, field_text x = String (ascii_of_N 34) s) as [s ->].
  { unfold field_text. destruct (scanstring_json x.1 (": " +:+ dumps x.2)%string) as (r & -> & _). by exists r. }
  destruct (join_head (ascii_of_N 34) s l) as [s' ->]. by exists (s' +:+ rest)%string.
Qed.

Lemma scan_pairs_ok fields fuel rest :
  fields ≠ [] → Forall (λ kv, read_back kv.2) fields → forallb (λ kv, json_ok kv.2) fields = true →
  (sum_list_with (λ kv, S (weight kv.2)) fields ≤ fuel)%nat →
  scan_pairs fuel (join ", " (field_text <$> fields) +:+ "}" +:+ rest)%string = Some (fields, rest).
Proof.
  revert fuel. induction fields as [|[k x] fields IH]; intros [|f] Hne Hb Hok Hf; [done|done|simpl in Hf; lia|].
  apply Forall_cons in Hb as [Hx Hb]. simpl in Hok, Hx. apply andb_prop in Hok as [Hxo Hok]. simpl in Hf.
  assert (∀ tail, delimited tail = true → scan_pairs (S f) (field_text (k, x) +:+ tail)%string =
    match skip_ws tail with
    | String "}" r' => Some ([(k, x)], r')
    | String "," r' => '(pairs, r'') ← scan_pairs f (skip_ws r'); Some ((k, x) :: pairs, r'')
    | _ => None
    end) as Hstep.
  { intros tail Ht. unfold field_text. simpl fst. rewrite <- !str_app_assoc.
    destruct (scanstring_json k (": " +:+ dumps (k, x).2 +:+ tail)%string) as (r & -> & Hr).
    cbn [scan_pairs]. rewrite decide_True by done. rewrite Hr. cbn [mbind option_bind snd].
    destruct (dumps_head x Hxo) as (c & s & Ec & Hc). specialize (Hx f tail ltac:(lia) Ht). rewrite Ec in *.
    change (": " +:+ String c s +:+ tail)%string with (String ":" (String " " (String c (s +:+ tail)%string))).
    change (skip_ws (String ":" (String " " (String c (s +:+ tail)%string)))) with (String ":" (String " " (String c (s +:+ tail)%string))).
    cbv iota beta. rewrite skip_separator by done. rewrite str_cons_app in Hx. rewrite Hx. reflexivity. }
  destruct fields as [|y fields].
  - simpl join. by rewrite Hstep.
  - rewrite !fmap_cons, join_cons, <- !str_app_assoc, Hstep by done.
    specialize (IH f ltac:(done) Hb Hok ltac:(lia)). rewrite fmap_cons in IH.
    destruct (fields_text_head y (field_text <$> fields) ("}" +:+ rest)%string) as (s & Es). rewrite Es in *.
    change (", " +:+ String (ascii_of_N 34) s)%string with (String "," (String " " (String (ascii_of_N 34) s))).
    destruct (after_value "," (String " " (String (ascii_of_N 34) s))) as [_ ->]; [by left|].
    rewrite skip_separator by done. by rewrite IH.
Qed.

(** A dict without duplicate keys is built as it was written. *)
Lemma dict_of_NoDup fields : NoDup fields.*1 → dict_of fields = fields.
Proof.
  unfold dict_of. enough (∀ d, NoDup (d ++ fields).*1 → foldl (λ d kv, dict_set kv.1 kv.2 d) d fields = d ++ fields) as H by apply (H []).
  induction fields as [|[k x] fields IH]; intros d Hnd; [by rewrite app_nil_r|]. simpl.
  assert (k ∉ d.*1) as Hk.
  { rewrite fmap_app in Hnd. apply NoDup_app in Hnd as (_ & Hd & _). intros Hin. eapply Hd; [exact Hin|]. by left. }
  assert (dict_set k x d = d ++ [(k, x)]) as ->.
  { clear -Hk. induction d as [|[k' y] d IH]; [done|]. simpl in *. apply not_elem_of_cons in Hk as [Hne Hk].
    rewrite decide_False by done. by rewrite IH. }
  rewrite IH; rewrite <- app_assoc; done.
Qed.

Lemma dumps_read_back j : json_ok j = true → read_back j.
Proof.
  induction j as [|b|z|t|s|items IH|fields IH] using json_nested_ind; intros Hj [|f] rest Hf Hr; try (simpl in Hf; lia);
    try discriminate Hj.
  - done.
  - by destruct b.
  - cbn [scan_value dumps]. pose proof (scan_word_int z rest Hj Hr) as Hw.
    destruct (dumps_head (JInt z) Hj) as (c & s & Ec & _). simpl in Ec. rewrite Ec, str_cons_app in *.
    assert (is_digit c = true ∨ c = "-"%char) as Hc.
    { unfold int_str in Ec. case_decide; [right; by simplify_eq|]. destruct (nat_str_head (Z.to_N z)) as (c' & s' & E & ?).
      rewrite E in Ec. left. by simplify_eq. }
    rewrite !decide_False; [exact Hw|..]; intros ->; by destruct Hc.
  - cbn [scan_value dumps]. destruct (scanstring_json s rest) as (r & -> & Hs). rewrite decide_True by done. by rewrite Hs.
  - simpl in Hj, Hf. destruct items as [|x items]; [done|].
    assert (Forall read_back (x :: items)) as Hb.
    { clear Hf. revert Hj. induction IH as [|y l Hy _ IHl]; [constructor|]. simpl. intros [? ?]%andb_prop. constructor; auto. }
    pose proof (scan_items_ok (x :: items) f rest ltac:(done) Hb Hj ltac:(lia)) as Hs.
    destruct (items_text_head x (dumps <$> items) ("]" +:+ rest)%string) as (c & s & Ec & Hc); [by apply andb_prop in Hj as [? _]|].
    cbn [dumps]. rewrite fmap_cons in *. rewrite <- !str_app_assoc, Ec in *.
    change ("[" +:+ String c s)%string with (String "[" (String c s)). cbn [scan_value].
    rewrite decide_False by done. rewrite decide_True by done. rewrite skip_ws_opens by done.
    destruct c as [[] [] [] [] [] [] [] []]; try discriminate Hc; by rewrite Hs.
  - simpl in Hj, Hf. apply andb_prop in Hj as [Hj Hnd%bool_decide_eq_true]. destruct fields as [|x fields]; [done|].
    assert (Forall (λ kv, read_back kv.2) (x :: fields)) as Hb.
    { clear Hf Hnd. revert Hj. induction IH as [|y l Hy _ IHl]; [constructor|]. simpl. intros [? ?]%andb_prop. constructor; auto. }
    pose proof (scan_pairs_ok (x :: fields) f rest ltac:(done) Hb Hj ltac:(lia)) as Hs.
    destruct (fields_text_head x (field_text <$> fields) ("}" +:+ rest)%string) as (s & Es).
    cbn [dumps]. change (λ kv, (json_string kv.1 +:+ ": " +:+ dumps kv.2)%string) with field_text.
    rewrite fmap_cons in *. rewrite <- !str_app_assoc, Es in *.
    change ("{" +:+ String (ascii_of_N 34) s)%string with (String "{" (String (ascii_of_N 34) s)). cbn [scan_value].
    rewrite !decide_False by done. rewrite decide_True by done. rewrite skip_ws_opens by done.
    transitivity ('(pairs, r') ← scan_pairs f (String (ascii_of_N 34) s); Some (JObject (dict_of pairs), r')); [reflexivity|].
    rewrite Hs. cbn [mbind option_bind]. by rewrite dict_of_NoDup.
Qed.

Lemma join_length sep l :
  (sum_list_with String.length l + String.length sep * pred (length l) ≤ String.length (join sep l))%nat.
Proof.
  induction l as [|x [|y l] IH]; [simpl; lia|simpl; lia|].
  change (join sep (x :: y :: l)) with (x +:+ sep +:+ join sep (y :: l))%string. rewrite !str_length_app. simpl in *. lia.
Qed.

(** The reader's fuel is enough. *)
Lemma weight_length j : json_ok j = true → (weight j ≤ 2 * String.length (dumps j))%nat.
Proof.
  induction j as [|b|z|t|s|items IH|fields IH] using json_nested_ind; intros Hj; try discriminate Hj.
  - simpl. lia.
  - destruct b; simpl; lia.
  - destruct (dumps_head (JInt z) Hj) as (c & s & -> & _). simpl. lia.
  - simpl. unfold json_string. rewrite !str_length_app. simpl. lia.
  - simpl in Hj. cbn [weight dumps]. rewrite !str_length_app. pose proof (join_length ", " (dumps <$> items)) as Hl.
    assert (sum_list_with (λ x, S (weight x)) items ≤ length items + 2 * sum_list_with String.length (dumps <$> items))%nat as Hw.
    { clear Hl. revert Hj. induction IH as [|x l Hx _ IHl]; [done|]. rewrite fmap_cons; cbn [sum_list_with length forallb]. intros [? ?]%andb_prop.
      specialize (Hx ltac:(done)). specialize (IHl ltac:(done)). lia. }
    rewrite length_fmap in Hl. simpl in *. lia.
  - simpl in Hj. apply andb_prop in Hj as [Hj _]. cbn [weight dumps]. rewrite !str_length_app.
    change (λ kv, (json_string kv.1 +:+ ": " +:+ dumps kv.2)%string) with field_text.
    pose proof (join_length ", " (field_text <$> fields)) as Hl.
    assert (sum_list_with (λ kv, S (weight kv.2)) fields ≤ length fields + 2 * sum_list_with String.length (field_text <$> fields))%nat as Hw.
    { clear Hl. revert Hj. induction IH as [|x l Hx _ IHl]; [done|]. rewrite fmap_cons; cbn [sum_list_with length forallb]. intros [? ?]%andb_prop.
      specialize (Hx ltac:(done)). specialize (IHl ltac:(done)). unfold field_text at 1. rewrite !str_length_app. lia. }
    rewrite length_fmap in Hl. simpl in *. lia.
Qed.

(** [json.loads(json.dumps(j)) == j] *)
Lemma loads_dumps j : json_ok j = true → loads (dumps j) = Some j.
Proof.
  intros Hj. unfold loads. destruct (dumps_head j Hj) as (c & s & Ec & Hc).
  assert (skip_ws (dumps j) = dumps j) as -> by (rewrite Ec; by apply skip_ws_opens).
  pose proof (dumps_read_back j Hj (S (2 * String.length (dumps j))) EmptyString) as Hr. rewrite str_app_nil_r in Hr.
  rewrite Hr; [done| |done]. pose proof (weight_length j Hj). lia.
Qed.

(** What [dumps] writes is ASCII. *)
Definition ascii7 (c : ascii) : bool := bool_decide (N_of_ascii c < 128)%N.

Lemma utf8_decode_ascii s : all_chars ascii7 s = true → utf8_decode s = Some s.
Proof.
  induction s as [|c s IH]; [done|]. simpl. intros [Hc%bool_decide_eq_true Hs]%andb_prop.
  rewrite decide_True by done. by rewrite (IH Hs).
Qed.

Lemma json_string_ascii s : all_chars ascii7 (json_string s) = true.
Proof.
  unfold json_string. rewrite !all_chars_app. simpl.
  enough (all_chars ascii7 (json_escape s) = true) as -> by done.
  induction s as [|c s IH]; [done|]. simpl. rewrite all_chars_app, IH, andb_true_r.
  by destruct c as [[] [] [] [] [] [] [] []].
Qed.

Lemma digits_ascii s : all_digits s = true → all_chars ascii7 s = true.
Proof.
  induction s as [|c s IH]; [done|]. simpl. intros [Hc Hs]%andb_prop. rewrite (IH Hs), andb_true_r.
  destruct c as [[] [] [] [] [] [] [] []]; try discriminate Hc; reflexivity.
Qed.

Lemma join_ascii l : Forall (λ x, all_chars ascii7 x = true) l → all_chars ascii7 (join ", " l) = true.
Proof.
  intros Hl. induction Hl as [|x [|y l] Hx Hl IH]; [done|done|]. rewrite join_cons, !all_chars_app, Hx. simpl in *. by rewrite IH.
Qed.

Lemma dumps_ascii j : json_ok j = true → all_chars ascii7 (dumps j) = true.
Proof.
  induction j as [|b|z|t|s|items IH|fields IH] using json_nested_ind; intros Hj; try discriminate Hj.
  - done.
  - by destruct b.
  - simpl. unfold int_str. case_decide; [simpl|]; apply digits_ascii, nat_str_digits.
  - apply json_string_ascii.
  - simpl in Hj. cbn [dumps]. rewrite !all_chars_app. simpl. rewrite join_ascii; [done|].
    revert Hj. induction IH as [|x l Hx _ IHl]; [constructor|]. simpl. intros [? ?]%andb_prop. constructor; auto.
  - simpl in Hj. apply andb_prop in Hj as [Hj _]. cbn [dumps]. rewrite !all_chars_app. simpl. rewrite join_ascii; [done|].
    revert Hj. induction IH as [|x l Hx _ IHl]; [constructor|]. simpl. intros [? ?]%andb_prop. constructor; [|by auto].
    rewrite !all_chars_app, json_string_ascii. simpl. by auto.
Qed.

(** ** Small integers *)

Lemma dec_fuel_length f n : (String.length (dec_fuel f n) ≤ f)%nat.
Proof.
  revert n. induction f as [|f IH]; intros n; [done|]. cbn [dec_fuel]. case_decide; [simpl; lia|].
  rewrite str_length_app. specialize (IH (n / 10)%N). simpl. lia.
Qed.

(** Integers below [2^31] have few digits. *)
Lemma small_digits z : 0 ≤ z < 2147483648 → json_ok (JInt z) = true.
Proof.
  intros Hz. apply bool_decide_eq_true. unfold nat_str. etrans; [apply dec_fuel_length|].
  assert (33 ≤ MAX_DIGITS)%nat as Hmax by (apply Nat.leb_le; vm_compute; reflexivity).
  enough (N.size_nat (Z.abs_N z) ≤ 32)%nat as Hsz by (etrans; [by apply le_n_S|exact Hmax]). clear Hmax.
  assert (Z.abs_N z < 2 ^ 31)%N as Hn by (change (2 ^ 31)%N with (Z.to_N 2147483648); lia). clear Hz.
  revert Hn. generalize (Z.abs_N z). intros [|q] Hn; [simpl; lia|].
  etrans; [apply (Pos.size_nat_monotone q (2 ^ 31)); lia|]. vm_compute. reflexivity.
Qed.
