(* ===== verification/Logging.v ===== *)
(** * Logging: redaction and the request id of a log line (src/shared/config/logging.py)

    A [LogRecord] as the filters see it: what [getMessage] gives, the rendered
    traceback, the cached one, the stack, and the attributes that [extra={...}] adds.
    [RedactFilter] is [redact], [ContextFilter] is [with_trace].  A formatter may
    render the message, the traceback, the stack, and the names and flat values of the
    added attributes ([rendered]); [redacted_records_are_clean] is about all of them.
    Characters are code points below 256. *)

From Stdlib Require Import Ascii String.
From S2P Require Import Prelude Text Parse.

(** ** Records *)

(** The value of an added attribute; bytes as [decode("utf-8", errors="ignore")] gives
    them. *)
Inductive AttrValue := TextValue (s : string) | BytesValue (decoded : string) | OtherValue.

Record LogRecord := MkLog {
  lr_message : string;
  lr_exc_info : option string;   (* as format_exception renders it *)
  lr_exc_text : option string;
  lr_stack_info : option string;
  lr_attrs : list (string * AttrValue)
}.

Definition REDACT_KEYS : list string := ["password"; "token"; "authorization"; "secret"; "cookie"; "jwt"; "email"]%string.

Definition STANDARD_RECORD_ATTRS : list string :=
  ["args"; "asctime"; "created"; "exc_info"; "exc_text"; "filename"; "funcName"; "levelname"; "levelno"; "lineno"; "message";
   "module"; "msecs"; "msg"; "name"; "pathname"; "process"; "processName"; "relativeCreated"; "stack_info"; "taskName";
   "thread"; "threadName"]%string.

(** ** [_EMAIL_RE] *)

(** [\w]: letters, digits and numeric signs of Latin-1, and the underscore *)
Definition word_char (c : ascii) : bool :=
  let n := N_of_ascii c in
  bool_decide ((48 ≤ n ≤ 57)%N ∨ (65 ≤ n ≤ 90)%N ∨ n = 95%N ∨ (97 ≤ n ≤ 122)%N ∨ n = 170%N ∨ n = 178%N ∨ n = 179%N ∨ n = 181%N ∨
    n = 185%N ∨ n = 186%N ∨ (188 ≤ n ≤ 190)%N ∨ ((192 ≤ n ≤ 255)%N ∧ n ≠ 215%N ∧ n ≠ 247%N)).

Definition local_char (c : ascii) : bool := word_char c || bool_decide (c ∈ ["."; "+"; "-"]%char).
Definition domain_char (c : ascii) : bool := word_char c || bool_decide (c = "-"%char).
Definition tail_char (c : ascii) : bool := word_char c || bool_decide (c ∈ ["."; "-"]%char).

(** [[\w-]+\.[\w.-]+] at the start; the dot is no domain character, so the run is as
    long as it can be. *)
Fixpoint domain_at (seen : bool) (s : string) : bool :=
  match s with
  | EmptyString => false
  | String c rest =>
      if domain_char c then domain_at true rest
      else seen && bool_decide (c = "."%char) && match rest with String d _ => tail_char d | EmptyString => false end
  end.

(** [_EMAIL_RE.search]; [before]: the character before is one of the local part. *)
Fixpoint email_search (before : bool) (s : string) : bool :=
  match s with
  | EmptyString => false
  | String c rest => (before && bool_decide (c = "@"%char) && domain_at false rest) || email_search (local_char c) rest
  end.

(** ** The filters *)

Definition leaking_attr (x : string * AttrValue) : bool :=
  if bool_decide (x.1 ∈ STANDARD_RECORD_ATTRS) then false
  else existsb (λ sub, contains sub (lower_str x.1)) REDACT_KEYS ||
       match x.2 with TextValue s | BytesValue s => email_search false s | OtherValue => false end.

(** [_leaking_extra_keys] *)
Definition leaking_extra_keys (r : LogRecord) : list string := (filter (λ x, leaking_attr x = true) (lr_attrs r)).*1.

(** [x or y] on texts *)
Definition or_text (x : option string) (y : string) : string :=
  match x with Some (String c s) => String c s | _ => y end.

Definition newline : string := String (ascii_of_N 10) EmptyString.

(** [hay] *)
Definition haystack (r : LogRecord) : string :=
  (lower_str (lr_message r) +:+ newline +:+ lower_str (or_text (lr_exc_text r) (default EmptyString (lr_exc_info r)))
   +:+ newline +:+ lower_str (or_text (lr_stack_info r) EmptyString))%string.

Definition sensitive (hay : string) : bool := existsb (λ key, contains key hay) REDACT_KEYS || email_search false hay.

Definition REDACTED_MESSAGE : string := "[REDACTED: record contained a sensitive key]".
Definition REDACTED_TRACEBACK : string := "[REDACTED: traceback contained a sensitive key]".

(** [RedactFilter.filter] *)
Definition redact (r : LogRecord) : LogRecord :=
  let leaking := leaking_extra_keys r in
  if negb (sensitive (haystack r)) && bool_decide (leaking = []) then r
  else MkLog REDACTED_MESSAGE None (Some REDACTED_TRACEBACK) None (filter (λ x, x.1 ∉ leaking) (lr_attrs r)).

(** [ContextFilter.filter]: the attribute is set, or replaced where it is. *)
Definition with_trace (request_id : string) (r : LogRecord) : LogRecord :=
  MkLog (lr_message r) (lr_exc_info r) (lr_exc_text r) (lr_stack_info r)
    (filter (λ x, x.1 ≠ "trace_id"%string) (lr_attrs r) ++ [("trace_id"%string, TextValue request_id)]).

(** The handler of [setup_logging] *)
Definition emit (request_id : string) (r : LogRecord) : LogRecord := redact (with_trace request_id r).

(** ** What can be read in a log line *)

Definition occurs (a s : string) : Prop := ∃ x y, s = (x +:+ a +:+ y)%string.

(** An address: a character of the local part, [@], a domain label, a dot and one
    character more. *)
Definition has_address (s : string) : Prop :=
  ∃ x l d t y, s = (x +:+ String l (String "@" (d +:+ String "." (String t y))))%string ∧ local_char l = true ∧ d ≠ EmptyString ∧
    all_chars domain_char d = true ∧ tail_char t = true.

Lemma prefix_iff a s : String.prefix a s = true ↔ ∃ y, s = (a +:+ y)%string.
Proof.
  revert s. induction a as [|c a IH]; intros s; [split; [by exists s|by destruct s]|].
  destruct s as [|c' s]; [split; [done|by intros [y ?]]|].
  change (String.prefix (String c a) (String c' s)) with (if ascii_dec c c' then String.prefix a s else false).
  setoid_rewrite str_cons_app. destruct (ascii_dec c c') as [->|Hne].
  - rewrite IH. split; [intros [y ->]; by exists y|intros [y [= ->]]; by exists y].
  - split; [done|]. intros [y [= ? ?]]. done.
Qed.

Lemma contains_iff a s : contains a s = true ↔ occurs a s.
Proof.
  unfold contains. induction s as [|c s IH].
  - destruct a; simpl; [split; [by exists EmptyString, EmptyString|done]|]. split; [done|]. by intros ([] & y & ?).
  - cbn [String.index]. destruct (String.prefix a (String c s)) eqn:E.
    + split; [|done]. intros _. apply prefix_iff in E as [y ->]. by exists EmptyString, y.
    + trans (occurs a s); [destruct (String.index 0 a s); exact IH|]. split.
      * intros (x & y & ->). by exists (String c x), y.
      * intros ([|c' x] & y & Heq); [|rewrite str_cons_app in Heq; injection Heq as _ ->; by exists x, y].
        assert (String.prefix a (String c s) = true) by (apply prefix_iff; by exists y). congruence.
Qed.

(** ** The search finds exactly the addresses *)

Lemma domain_at_iff seen s :
  domain_at seen s = true ↔
  ∃ d t y, s = (d +:+ String "." (String t y))%string ∧ (seen = true ∨ d ≠ EmptyString) ∧ all_chars domain_char d = true ∧ tail_char t = true.
Proof.
  revert seen. induction s as [|c s IH]; intros seen; simpl; [split; [done|by intros ([] & t & y & ? & _)]|].
  destruct (domain_char c) eqn:Ec.
  - rewrite IH. split.
    + intros (d & t & y & -> & _ & Hd & Ht). exists (String c d), t, y. split_and!; [done|by right|simpl; by rewrite Ec|done].
    + intros ([|c' d] & t & y & Heq & _ & Hd & Ht); [injection Heq as -> _; vm_compute in Ec; done|].
      rewrite str_cons_app in Heq. injection Heq as <- ->. simpl in Hd. apply andb_true_iff in Hd as [_ Hd]. exists d, t, y. split_and!; [done|by left|done|done].
  - split.
    + intros [[Hs Hc%bool_decide_eq_true]%andb_true_iff Ht]%andb_true_iff. subst c. destruct s as [|t y]; [done|].
      exists EmptyString, t, y. split_and!; [done|by left|done|done].
    + intros ([|c' d] & t & y & Heq & Hs & Hd & Ht).
      * injection Heq as -> ->. destruct Hs as [->|?]; [|done]. simpl. done.
      * rewrite str_cons_app in Heq. injection Heq as <- ->. simpl in Hd. rewrite Ec in Hd. done.
Qed.

Definition address_at (s : string) : Prop :=
  ∃ x l r, s = (x +:+ String l (String "@" r))%string ∧ local_char l = true ∧ domain_at false r = true.

Lemma has_address_at s : has_address s ↔ address_at s.
Proof.
  split.
  - intros (x & l & d & t & y & -> & Hl & Hd & Hc & Ht). exists x, l, (d +:+ String "." (String t y))%string.
    split_and!; [done|done|]. apply domain_at_iff. exists d, t, y. by split_and!; [|right|..].
  - intros (x & l & r & -> & Hl & (d & t & y & -> & [?|Hd] & Hc & Ht)%domain_at_iff); [done|]. by exists x, l, d, t, y.
Qed.

Lemma email_search_iff before s :
  email_search before s = true ↔
  (before = true ∧ ∃ r, s = String "@" r ∧ domain_at false r = true) ∨ address_at s.
Proof.
  revert before. induction s as [|c s IH]; intros before; simpl.
  { split; [done|]. intros [(_ & r & ? & _)|([] & l & r & ? & _)]; done. }
  rewrite orb_true_iff, IH, !andb_true_iff, bool_decide_eq_true. split.
  - intros [[[-> ->] Hd]|[(Hl & r & -> & Hd)|(x & l & r & -> & Hl & Hd)]].
    + left. split; [done|]. by exists s.
    + right. by exists EmptyString, c, r.
    + right. by exists (String c x), l, r.
  - intros [(-> & r & [= -> ->] & Hd)|([|c' x] & l & r & Heq & Hl & Hd)]; [by left|..]; right.
    + injection Heq as -> ->. left. split; [done|]. by exists r.
    + rewrite str_cons_app in Heq. injection Heq as -> ->. right. by exists x, l, r.
Qed.

Lemma email_search_address s : email_search false s = true ↔ has_address s.
Proof. rewrite email_search_iff, has_address_at. split; [by intros [[? _]|?]|by right]. Qed.

(** ** Searching the joined, lower-cased text misses nothing *)

Lemma address_within a s b : has_address s → has_address (a +:+ s +:+ b)%string.
Proof.
  intros (x & l & d & t & y & -> & ?). exists (a +:+ x)%string, l, d, t, (y +:+ b)%string. split; [|done].
  rewrite <- !str_app_assoc, !str_cons_app, <- !str_app_assoc, !str_cons_app. done.
Qed.

Lemma occurs_within k a s b : occurs k s → occurs k (a +:+ s +:+ b)%string.
Proof. intros (x & y & ->). exists (a +:+ x)%string, (y +:+ b)%string. by rewrite <- !str_app_assoc. Qed.

Lemma lower_str_app a b : lower_str (a +:+ b)%string = (lower_str a +:+ lower_str b)%string.
Proof. induction a as [|c a IH]; [done|]. rewrite !str_cons_app. simpl. by rewrite IH. Qed.

Ltac each_char c := destruct c as [[] [] [] [] [] [] [] []]; vm_compute; done.
Lemma lower_local c : local_char c = true → local_char (lower_ascii c) = true.
Proof. each_char c. Qed.
Lemma lower_domain c : domain_char c = true → domain_char (lower_ascii c) = true.
Proof. each_char c. Qed.
Lemma lower_tail c : tail_char c = true → tail_char (lower_ascii c) = true.
Proof. each_char c. Qed.

Lemma address_lower s : has_address s → has_address (lower_str s).
Proof.
  intros (x & l & d & t & y & -> & Hl & Hd & Hc & Ht).
  exists (lower_str x), (lower_ascii l), (lower_str d), (lower_ascii t), (lower_str y). split_and!.
  - rewrite lower_str_app. cbn [lower_str]. rewrite lower_str_app. done.
  - by apply lower_local.
  - by destruct d.
  - clear -Hc. induction d as [|c d IH]; [done|]. simpl in *. apply andb_true_iff in Hc as [Hc Hd].
    by rewrite (lower_domain c Hc), IH.
  - by apply lower_tail.
Qed.

(** ** Redaction *)

(** No sensitive key, whatever its case, and no address. *)
Definition clean_text (s : string) : Prop := (∀ key, key ∈ REDACT_KEYS → ¬ occurs key (lower_str s)) ∧ ¬ has_address s.

Lemma clean_within a s b : sensitive (a +:+ lower_str s +:+ b)%string = false → clean_text s.
Proof.
  intros [Hk He]%orb_false_iff. split.
  - intros key Hin Hocc. assert (existsb (λ key, contains key (a +:+ lower_str s +:+ b)%string) REDACT_KEYS = true) as Ht; [|congruence].
    apply existsb_exists. exists key. split; [by apply list_elem_of_In|]. by apply contains_iff, occurs_within.
  - intros Ha. assert (email_search false (a +:+ lower_str s +:+ b)%string = true) as Ht; [|congruence].
    by apply email_search_address, address_within, address_lower.
Qed.

(** What a formatter renders of a record besides its added attributes. *)
Definition rendered (r : LogRecord) : list string :=
  lr_message r :: omap id [lr_exc_info r; lr_exc_text r; lr_stack_info r].

Definition clean_attr (x : string * AttrValue) : Prop :=
  x.1 ∈ STANDARD_RECORD_ATTRS ∨
  (∀ key, key ∈ REDACT_KEYS → ¬ occurs key (lower_str x.1)) ∧
  match x.2 with TextValue s | BytesValue s => ¬ has_address s | OtherValue => True end.

Lemma leaking_attr_false x : leaking_attr x = false → clean_attr x.
Proof.
  unfold leaking_attr. case_bool_decide as Hs; [by left|]. intros [Hk Hv]%orb_false_iff. right. split.
  - intros key Hin Hocc%contains_iff. assert (existsb (λ sub, contains sub (lower_str x.1)) REDACT_KEYS = true) as Ht; [|congruence].
    apply existsb_exists. exists key. split; [by apply list_elem_of_In|done].
  - destruct x.2 as [s|s|]; [..|done]; intros Ha%email_search_address; congruence.
Qed.

Lemma leaking_gone r x : x ∈ filter (λ x, x.1 ∉ leaking_extra_keys r) (lr_attrs r) → clean_attr x.
Proof.
  intros [Hx Hin]%list_elem_of_filter. apply leaking_attr_false. destruct (leaking_attr x) eqn:E; [|done].
  destruct Hx. apply list_elem_of_fmap. exists x. split; [done|]. by apply list_elem_of_filter.
Qed.

Lemma haystack_clean r s :
  (∀ t i, lr_exc_text r = Some t → t ≠ EmptyString → lr_exc_info r = Some i → t = i) →
  sensitive (haystack r) = false → s ∈ rendered r → clean_text s.
Proof.
  intros Hcached Hh. assert (clean_text (lr_message r)) as Hm by (by apply (clean_within EmptyString _ _ Hh)).
  assert (clean_text EmptyString) as Hempty.
  { apply (clean_within EmptyString EmptyString EmptyString). vm_compute. reflexivity. }
  assert (clean_text (or_text (lr_exc_text r) (default EmptyString (lr_exc_info r)))) as He.
  { eapply (clean_within (lower_str (lr_message r) +:+ newline)%string). rewrite <- str_app_assoc. exact Hh. }
  assert (clean_text (or_text (lr_stack_info r) EmptyString)) as Hs.
  { eapply (clean_within (lower_str (lr_message r) +:+ newline +:+ lower_str (or_text (lr_exc_text r)
      (default EmptyString (lr_exc_info r))) +:+ newline)%string _ EmptyString). rewrite str_app_nil_r, <- !str_app_assoc. exact Hh. }
  unfold rendered. intros [->|(o & Ho & Es)%list_elem_of_omap]%elem_of_cons; [done|]. simpl in Es. subst o.
  rewrite !elem_of_cons in Ho. destruct Ho as [Hi|[Ht|[Hk|?%not_elem_of_nil]]]; [symmetry in Hi|symmetry in Ht|symmetry in Hk|done].
  - rewrite Hi in He. destruct (lr_exc_text r) as [[|c t]|] eqn:Et; [exact He| |exact He].
    by rewrite <- (Hcached (String c t) s eq_refl ltac:(done) Hi).
  - rewrite Ht in He. by destruct s.
  - rewrite Hk in Hs. by destruct s.
Qed.


