(* ===== verification/Datetime.v ===== *)
(** * Datetime: [str] of a UTC [datetime]

    A timestamp is its number of microseconds since 1970-01-01 UTC, as
    [timestamptz] stores it.  [ord2ymd] is the calendar of CPython's [datetime]
    (proleptic Gregorian ordinals), [datetime_str] is [str(dt)] of an aware UTC
    datetime, and [read_datetime] reads exactly that text back. *)

From Stdlib Require Import Ascii String.
From S2P Require Import Prelude Text Parse.

(** ** The calendar *)

Definition is_leap (y : Z) : bool := bool_decide (y mod 4 = 0 ∧ (y mod 100 ≠ 0 ∨ y mod 400 = 0)).

(** [_DAYS_BEFORE_MONTH] and [_days_before_month] *)
Definition days_before_month (leap : bool) (m : Z) : Z :=
  nth (Z.to_nat (m - 1)) [0; 31; 59; 90; 120; 151; 181; 212; 243; 273; 304; 334] 0 + (if decide (2 < m) then Z.b2z leap else 0).

(** [_days_before_year] *)
Definition days_before_year (y : Z) : Z := (y - 1) * 365 + (y - 1) / 4 - (y - 1) / 100 + (y - 1) / 400.

(** [_ymd2ord] *)
Definition ymd2ord (y m d : Z) : Z := days_before_year y + days_before_month (is_leap y) m + d.

(** The month and day of the [n]-th day (from 0) of a year. *)
Definition month_day (leap : bool) (n : Z) : Z * Z :=
  let m := Z.shiftr (n + 50) 5 in
  let m := if decide (n < days_before_month leap m) then m - 1 else m in
  (m, n - days_before_month leap m + 1).

(** [_ord2ymd] *)
Definition ord2ymd (ord : Z) : Z * Z * Z :=
  let n := ord - 1 in
  let n400 := n / 146097 in let n := n mod 146097 in
  let n100 := n / 36524 in let n := n mod 36524 in
  let n4 := n / 1461 in let n := n mod 1461 in
  let n1 := n / 365 in let n := n mod 365 in
  let y := n400 * 400 + 1 + n100 * 100 + n4 * 4 + n1 in
  if decide (n1 = 4 ∨ n100 = 4) then (y - 1, 12, 31)
  else
    let leap := bool_decide (n1 = 3 ∧ (n4 ≠ 24 ∨ n100 = 3)) in
    let '(m, d) := month_day leap n in (y, m, d).

(** ** Printing *)

(** [%0wd] *)
Fixpoint dec_fixed (w : nat) (x : N) : string :=
  match w with
  | O => EmptyString
  | S w' => (dec_fixed w' (x / 10)%N +:+ digit_str (x mod 10)%N)%string
  end.

Definition dec2 (z : Z) : string := dec_fixed 2 (Z.to_N z).

Definition us_per_day : Z := 86400000000.
Definition epoch_ordinal : Z := 719163.

Definition datetime_str (t : Z) : string :=
  let '(y, m, d) := ord2ymd (t / us_per_day + epoch_ordinal) in
  let us := t mod us_per_day in
  let s := us / 1000000 in
  let frac := us mod 1000000 in
  (dec_fixed 4 (Z.to_N y) +:+ "-" +:+ dec2 m +:+ "-" +:+ dec2 d +:+ " " +:+
   dec2 (s / 3600) +:+ ":" +:+ dec2 (s / 60 mod 60) +:+ ":" +:+ dec2 (s mod 60) +:+
   (if decide (frac = 0) then EmptyString else "." +:+ dec_fixed 6 (Z.to_N frac)) +:+ "+00:00")%string.

(** Years 1 to 9999. *)
Definition datetime_ok (t : Z) : Prop := 0 < t / us_per_day + epoch_ordinal ≤ 3652059.
#[export] Instance datetime_ok_dec t : Decision (datetime_ok t).
Proof. unfold datetime_ok. apply _. Defined.

(** ** Reading *)

(** The number in the first [w] characters, and the rest. *)
Definition read_dec (w : nat) (s : string) : option (Z * string) :=
  let a := String.substring 0 w s in
  if decide (String.length a = w) then
    n ← digits_value 0 a; Some (Z.of_N n, String.substring w (String.length s - w) s)
  else None.

Definition read_char (c : ascii) (s : string) : option string :=
  match s with String x r => if decide (x = c) then Some r else None | EmptyString => None end.

Definition read_datetime (s : string) : option Z :=
  '(y, s) ← read_dec 4 s; s ← read_char "-" s; '(m, s) ← read_dec 2 s; s ← read_char "-" s; '(d, s) ← read_dec 2 s;
  s ← read_char " " s; '(hh, s) ← read_dec 2 s; s ← read_char ":" s; '(mm, s) ← read_dec 2 s; s ← read_char ":" s;
  '(ss, s) ← read_dec 2 s;
  '(us, s) ← match s with
             | String "." s => read_dec 6 s
             | _ => Some (0, s)
             end;
  if decide (s = "+00:00"%string) then
    Some ((ymd2ord y m d - epoch_ordinal) * us_per_day + ((hh * 60 + mm) * 60 + ss) * 1000000 + us)
  else None.

(** ** The calendar round trip *)

Lemma all_below (k : nat) (P : Z → bool) :
  forallb (λ n, P (Z.of_nat n)) (seq 0 k) = true → ∀ n, 0 ≤ n < Z.of_nat k → P n = true.
Proof.
  intros H n Hn. rewrite forallb_forall in H. specialize (H (Z.to_nat n)). rewrite Z2Nat.id in H by lia.
  apply H, in_seq. lia.
Qed.

Definition month_day_good (leap : bool) (n : Z) : bool :=
  let '(m, d) := month_day leap n in
  bool_decide (1 ≤ m ≤ 12 ∧ 1 ≤ d ≤ 31 ∧ days_before_month leap m + d = n + 1).

Lemma month_day_ok leap n :
  0 ≤ n < 365 →
  let '(m, d) := month_day leap n in 1 ≤ m ≤ 12 ∧ 1 ≤ d ≤ 31 ∧ days_before_month leap m + d = n + 1.
Proof.
  intros Hn. assert (month_day_good leap n = true) as H.
  { revert n Hn. apply (all_below 365 (month_day_good leap)). destruct leap; vm_compute; reflexivity. }
  unfold month_day_good in H. destruct (month_day leap n). by apply bool_decide_eq_true in H.
Qed.

Lemma days_before_split a b c d :
  0 ≤ b < 4 → 0 ≤ c < 25 → 0 ≤ d < 4 →
  days_before_year (a * 400 + 1 + b * 100 + c * 4 + d) = a * 146097 + b * 36524 + c * 1461 + d * 365.
Proof.
  intros Hb Hc Hd. unfold days_before_year. replace (a * 400 + 1 + b * 100 + c * 4 + d - 1) with (a * 400 + b * 100 + c * 4 + d) by lia.
  rewrite <- (Z.div_unique_pos (a * 400 + b * 100 + c * 4 + d) 4 (a * 100 + b * 25 + c) d) by lia.
  rewrite <- (Z.div_unique_pos (a * 400 + b * 100 + c * 4 + d) 100 (a * 4 + b) (c * 4 + d)) by lia.
  rewrite <- (Z.div_unique_pos (a * 400 + b * 100 + c * 4 + d) 400 a (b * 100 + c * 4 + d)) by lia. lia.
Qed.

Lemma leap_split a b c d :
  0 ≤ b < 4 → 0 ≤ c < 25 → 0 ≤ d < 4 →
  is_leap (a * 400 + 1 + b * 100 + c * 4 + d) = bool_decide (d = 3 ∧ (c ≠ 24 ∨ b = 3)).
Proof.
  intros Hb Hc Hd. unfold is_leap. apply bool_decide_ext.
  assert ((a * 400 + 1 + b * 100 + c * 4 + d) mod 4 = (1 + d) mod 4) as E4.
  { replace (a * 400 + 1 + b * 100 + c * 4 + d) with (1 + d + (a * 100 + b * 25 + c) * 4) by lia. apply Z_mod_plus_full. }
  assert ((a * 400 + 1 + b * 100 + c * 4 + d) mod 100 = (1 + c * 4 + d) mod 100) as E100.
  { replace (a * 400 + 1 + b * 100 + c * 4 + d) with (1 + c * 4 + d + (a * 4 + b) * 100) by lia. apply Z_mod_plus_full. }
  assert ((a * 400 + 1 + b * 100 + c * 4 + d) mod 400 = (1 + b * 100 + c * 4 + d) mod 400) as E400.
  { replace (a * 400 + 1 + b * 100 + c * 4 + d) with (1 + b * 100 + c * 4 + d + a * 400) by lia. apply Z_mod_plus_full. }
  rewrite E4, E100, E400. clear E4 E100 E400. Z.to_euclidean_division_equations. lia.
Qed.

(** Reading back a date gives its ordinal, with month and day in range. *)
Lemma ord2ymd_ok n :
  let '(y, m, d) := ord2ymd n in ymd2ord y m d = n ∧ 1 ≤ m ≤ 12 ∧ 1 ≤ d ≤ 31.
Proof.
  unfold ord2ymd. set (r0 := n - 1). set (a := r0 / 146097). set (r1 := r0 mod 146097).
  set (b := r1 / 36524). set (r2 := r1 mod 36524). set (c := r2 / 1461). set (r3 := r2 mod 1461).
  set (d := r3 / 365). set (r4 := r3 mod 365).
  assert (r0 = a * 146097 + r1 ∧ 0 ≤ r1 < 146097) as [E0 B1] by (unfold a, r1; Z.to_euclidean_division_equations; lia).
  assert (r1 = b * 36524 + r2 ∧ 0 ≤ r2 < 36524) as [E1 B2] by (unfold b, r2; Z.to_euclidean_division_equations; lia).
  assert (r2 = c * 1461 + r3 ∧ 0 ≤ r3 < 1461) as [E2 B3] by (unfold c, r3; Z.to_euclidean_division_equations; lia).
  assert (r3 = d * 365 + r4 ∧ 0 ≤ r4 < 365) as [E3 B4] by (unfold d, r4; Z.to_euclidean_division_equations; lia).
  clearbody a b c d r1 r2 r3 r4. unfold r0 in E0.
  assert (0 ≤ b ≤ 4 ∧ 0 ≤ c ≤ 24 ∧ 0 ≤ d ≤ 4) as (Hb & Hc & Hd) by lia.
  case_decide as Hlast.
  - (* the last day of a leap year *)
    assert (∃ b' c', a * 400 + 1 + b * 100 + c * 4 + d - 1 = a * 400 + 1 + b' * 100 + c' * 4 + 3 ∧
              0 ≤ b' < 4 ∧ 0 ≤ c' < 25 ∧ (c' ≠ 24 ∨ b' = 3) ∧
              n = a * 146097 + b' * 36524 + c' * 1461 + 3 * 365 + 366) as (b' & c' & -> & Hb' & Hc' & Hl & ->).
    { destruct (decide (b = 4)) as [->|Hb4]; [exists 3, 24; lia|]. exists b, c. lia. }
    unfold ymd2ord. rewrite days_before_split, leap_split by lia. rewrite bool_decide_eq_true_2 by lia.
    change (days_before_month true 12) with 335. lia.
  - assert (b < 4 ∧ d < 4) as [Hb4 Hd4] by lia.
    pose proof (month_day_ok (bool_decide (d = 3 ∧ (c ≠ 24 ∨ b = 3))) r4 B4) as Hmd.
    destruct (month_day _ r4) as [m dd]. destruct Hmd as (Hm & Hdd & Hsum).
    unfold ymd2ord. rewrite days_before_split, leap_split by lia. lia.
Qed.

(** The year of an ordinal in range has four digits. *)
Lemma year_range n :
  0 < n ≤ 3652059 → let '(y, m, d) := ord2ymd n in 1 ≤ y ≤ 9999.
Proof.
  intros Hn. pose proof (ord2ymd_ok n) as H. destruct (ord2ymd n) as [[y m] d]. destruct H as (E & Hm & Hd).
  assert (0 ≤ days_before_month (is_leap y) m ≤ 335) as Hdm.
  { assert (m = 1 ∨ m = 2 ∨ m = 3 ∨ m = 4 ∨ m = 5 ∨ m = 6 ∨ m = 7 ∨ m = 8 ∨ m = 9 ∨ m = 10 ∨ m = 11 ∨ m = 12) as Hc by lia.
    destruct (is_leap y); repeat (destruct Hc as [->|Hc]; [done|]); by subst. }
  unfold ymd2ord, days_before_year in E. Z.to_euclidean_division_equations. lia.
Qed.

(** ** The text round trip *)

Lemma dec_fixed_length w x : String.length (dec_fixed w x) = w.
Proof. revert x. induction w as [|w IH]; intros x; simpl; [done|]. rewrite str_length_app, IH. simpl. lia. Qed.

Lemma dec_fixed_value w x acc :
  digits_value acc (dec_fixed w x) = Some (acc * 10 ^ N.of_nat w + x mod 10 ^ N.of_nat w)%N.
Proof.
  revert x acc. induction w as [|w IH]; intros x acc; simpl dec_fixed.
  - simpl. rewrite N.mod_1_r. f_equal. lia.
  - rewrite digits_value_app, IH. unfold mbind, option_bind. rewrite digits_value_digit by by apply N.mod_lt. f_equal.
    rewrite Nat2N.inj_succ, N.pow_succ_r by lia. rewrite (N.Div0.mod_mul_r x 10 (10 ^ N.of_nat w)). lia.
Qed.

Lemma substring_prefix a b : String.substring 0 (String.length a) (a +:+ b) = a.
Proof. induction a as [|c a IH]; simpl; [by destruct b|]. by rewrite IH. Qed.

Lemma substring_whole s n : (String.length s ≤ n)%nat → String.substring 0 n s = s.
Proof. revert n. induction s as [|c s IH]; intros [|n] Hn; simpl in *; try done; [lia|]. by rewrite IH by lia. Qed.

Lemma substring_suffix a b n : (String.length b ≤ n)%nat → String.substring (String.length a) n (a +:+ b) = b.
Proof. induction a as [|c a IH]; intros Hn; simpl; [by apply substring_whole|]. by apply IH. Qed.

Lemma read_dec_fixed w z rest :
  0 ≤ z < 10 ^ Z.of_nat w → read_dec w (dec_fixed w (Z.to_N z) +:+ rest) = Some (z, rest).
Proof.
  intros Hz. pose proof (dec_fixed_length w (Z.to_N z)) as Hl. pose proof (dec_fixed_value w (Z.to_N z) 0) as Hv.
  revert Hl Hv. generalize (dec_fixed w (Z.to_N z)). intros a Hl Hv. unfold read_dec. subst w.
  rewrite substring_prefix, decide_True by done. rewrite Hv. cbn [mbind option_bind].
  rewrite substring_suffix by (rewrite str_length_app; lia).
  rewrite N.mod_small; [by rewrite N.mul_0_l, N.add_0_l, Z2N.id by lia|].
  apply N2Z.inj_lt. rewrite Z2N.id, N2Z.inj_pow, nat_N_Z by lia. lia.
Qed.

Lemma read_char_cons c s : read_char c (String c s) = Some s.
Proof. unfold read_char. by rewrite decide_True. Qed.

Ltac read_step :=
  first [rewrite read_dec_fixed by assumption|rewrite str_cons_app, str_app_nil_l, read_char_cons]; cbn [mbind option_bind].

(** [datetime_str] is read back exactly. *)
Lemma read_datetime_str t : datetime_ok t → read_datetime (datetime_str t) = Some t.
Proof.
  intros Ht. unfold datetime_str. unfold datetime_ok in Ht.
  pose proof (ord2ymd_ok (t / us_per_day + epoch_ordinal)) as Hymd.
  pose proof (year_range (t / us_per_day + epoch_ordinal) Ht) as Hy.
  destruct (ord2ymd _) as [[y m] d]. destruct Hymd as (E & Hm & Hd).
  pose proof (Z.div_mod t us_per_day ltac:(done)) as Ed. pose proof (Z.mod_pos_bound t us_per_day ltac:(done)) as Hu.
  set (us := t mod us_per_day) in *. set (day := t / us_per_day) in *. clearbody us day. subst t.
  pose proof (Z.div_mod us 1000000 ltac:(done)) as Es. pose proof (Z.mod_pos_bound us 1000000 ltac:(done)) as Hf.
  set (s := us / 1000000) in *. set (frac := us mod 1000000) in *. clearbody s frac. subst us. unfold us_per_day in *.
  assert (0 ≤ s < 86400) as Hs by lia.
  assert (0 ≤ s / 3600 < 24 ∧ 0 ≤ s / 60 mod 60 < 60 ∧ 0 ≤ s mod 60 < 60 ∧ (s / 3600 * 60 + s / 60 mod 60) * 60 + s mod 60 = s)
    as (Hhh & Hmm & Hss & Ehms) by (Z.to_euclidean_division_equations; lia).
  assert (0 ≤ y < 10 ^ Z.of_nat 4) as By by (simpl; lia). assert (0 ≤ m < 10 ^ Z.of_nat 2) as Bm by (simpl; lia).
  assert (0 ≤ d < 10 ^ Z.of_nat 2) as Bd by (simpl; lia). assert (0 ≤ s / 3600 < 10 ^ Z.of_nat 2) as Bh by (simpl; lia).
  assert (0 ≤ s / 60 mod 60 < 10 ^ Z.of_nat 2) as Bmm by (simpl; lia).
  assert (0 ≤ s mod 60 < 10 ^ Z.of_nat 2) as Bs by (simpl; lia). assert (0 ≤ frac < 10 ^ Z.of_nat 6) as Bf by (simpl; lia).
  unfold read_datetime, dec2. do 11 read_step. case_decide as Hz.
  - cbn [mbind option_bind]. rewrite str_app_nil_l. cbn. rewrite E, Ehms. unfold us_per_day. f_equal. lia.
  - rewrite <- str_app_assoc, str_cons_app, str_app_nil_l. read_step. cbn. rewrite E, Ehms. unfold us_per_day. f_equal. lia.
Qed.

Example datetime_str_ex : datetime_str 1709210096000123 = "2024-02-29 12:34:56.000123+00:00"%string.
Proof. vm_compute. reflexivity. Qed.
Example datetime_str_whole : datetime_str 0 = "1970-01-01 00:00:00+00:00"%string.
Proof. vm_compute. reflexivity. Qed.
