(* ===== verification/Keyset.v ===== *)
(** * Keyset: pages over a strict total order, whatever changes between them

    The mathematics of src/shared/db/pagination.py, before any text: the rows past
    a key, in order, one more than the page holds; the page and the key of its
    last row; and a walk that follows the keys while the table changes under it. *)

From Stdlib Require Import Sorting.Sorted.
From stdpp Require Import sorting.
From S2P Require Import Prelude.

Section Keyset.
Context {T K : Type} (key : T → K) (before : relation K).
Context `{!RelDecision before} `{!Transitive before} `{!Irreflexive before} `{!Trichotomy before}.

(** [ORDER BY sort, id] *)
Definition not_after (x y : T) : Prop := ¬ before (key y) (key x).
#[global] Instance not_after_dec : RelDecision not_after.
Proof. intros x y. unfold not_after. apply _. Defined.

(** [WHERE (sort, id) > cursor] *)
Definition past (c : option K) (x : T) : Prop := match c with None => True | Some k => before k (key x) end.
#[global] Instance past_dec c x : Decision (past c x).
Proof. destruct c; simpl; apply _. Defined.

(** The statement: [LIMIT limit + 1]. *)
Definition fetch (limit : nat) (c : option K) (rows : list T) : list T :=
  take (S limit) (merge_sort not_after (filter (past c) rows)).

(** ** Order facts *)

#[global] Instance not_after_trans : Transitive not_after.
Proof.
  unfold not_after. intros x y z Hxy Hyz Hzx.
  destruct (trichotomy before (key y) (key x)) as [?|[E|Hxy']]; [done|rewrite E in Hyz; done|].
  apply Hyz. by etrans.
Qed.

#[global] Instance not_after_total : Total not_after.
Proof.
  unfold not_after. intros x y. destruct (trichotomy before (key x) (key y)) as [H|[E|H]].
  - left. intros H'. apply (irreflexivity before (key x)). by etrans.
  - left. rewrite E. apply (irreflexivity before).
  - right. intros H'. apply (irreflexivity before (key x)). by etrans.
Qed.

Lemma not_after_distinct x y : not_after x y → key x ≠ key y → before (key x) (key y).
Proof. unfold not_after. intros H Hne. by destruct (trichotomy before (key x) (key y)) as [?|[?|?]]. Qed.

Definition sorted (xs : list T) : Prop := StronglySorted before (key <$> xs).

Lemma sorted_of_not_after xs : StronglySorted not_after xs → NoDup (key <$> xs) → sorted xs.
Proof.
  unfold sorted. induction 1 as [|x xs Hs IH Hx]; simpl; [constructor|]. intros [Hn Hd]%NoDup_cons.
  constructor; [by apply IH|]. apply Forall_forall. intros k (y & -> & Hy)%list_elem_of_fmap.
  rewrite Forall_forall in Hx. apply not_after_distinct; [by apply Hx|].
  intros E. apply Hn. rewrite E. by apply list_elem_of_fmap_2.
Qed.

Lemma sorted_app_inv xs ys : sorted (xs ++ ys) → sorted xs ∧ sorted ys ∧ ∀ x y, x ∈ xs → y ∈ ys → before (key x) (key y).
Proof.
  unfold sorted. induction xs as [|x xs IH]; simpl.
  - intros H. split_and!; [constructor|done|]. by intros x y ?%not_elem_of_nil.
  - intros H. apply StronglySorted_inv in H as [Hs Hx]. destruct (IH Hs) as (H1 & H2 & H3).
    rewrite fmap_app, Forall_app in Hx. destruct Hx as [Hx1 Hx2]. split_and!; [by constructor|done|].
    intros a b [->|Ha]%elem_of_cons Hb; [|by apply H3]. rewrite Forall_fmap, Forall_forall in Hx2. by apply Hx2.
Qed.

Lemma sorted_app xs ys :
  sorted xs → sorted ys → (∀ x y, x ∈ xs → y ∈ ys → before (key x) (key y)) → sorted (xs ++ ys).
Proof.
  unfold sorted. induction xs as [|x xs IH]; simpl; intros Hx Hy Hxy; [done|].
  apply StronglySorted_inv in Hx as [Hx Hall]. constructor.
  - apply IH; [done..|]. intros a b Ha Hb. apply Hxy; [by right|done].
  - rewrite fmap_app, Forall_app. split; [done|]. rewrite Forall_fmap, Forall_forall. intros y Hin. apply Hxy; [left|done].
Qed.

Lemma sorted_NoDup xs : sorted xs → NoDup (key <$> xs).
Proof.
  unfold sorted. induction xs as [|x xs IH]; simpl; intros H; [constructor|].
  apply StronglySorted_inv in H as [H Hall]. constructor; [|by apply IH].
  intros Hin. rewrite Forall_forall in Hall. apply (irreflexivity before (key x)). by apply Hall.
Qed.

(** ** One statement *)

(** All the rows past a key, in order. *)
Definition ordered (c : option K) (rows : list T) : list T := merge_sort not_after (filter (past c) rows).

Lemma ordered_elem c rows x : x ∈ ordered c rows ↔ past c x ∧ x ∈ rows.
Proof. unfold ordered. by rewrite merge_sort_Permutation, list_elem_of_filter. Qed.

Lemma ordered_sorted c rows : NoDup (key <$> rows) → sorted (ordered c rows).
Proof.
  intros Hd. apply sorted_of_not_after; [by apply StronglySorted_merge_sort; apply _|].
  unfold ordered. rewrite merge_sort_Permutation. clear -Hd.
  induction rows as [|x rows IH]; [done|]. rewrite fmap_cons, NoDup_cons in Hd. destruct Hd as [Hn Hd].
  rewrite filter_cons. destruct (decide (past c x)); [|by apply IH]. rewrite fmap_cons, NoDup_cons. split; [|by apply IH].
  intros (y & Ey & [_ Hy]%list_elem_of_filter)%list_elem_of_fmap. apply Hn. rewrite Ey. by apply list_elem_of_fmap_2.
Qed.
(** ** A page, and the key that leads on *)

(** [kept] and the key of its last row, if the probe row came back. *)
Definition page_rows (limit : nat) (c : option K) (rows : list T) : list T := take limit (fetch limit c rows).
Definition next_key (limit : nat) (c : option K) (rows : list T) : option K :=
  if decide (limit < length (fetch limit c rows))%nat then key <$> last (page_rows limit c rows) else None.

Lemma page_rows_ordered limit c rows : page_rows limit c rows = take limit (ordered c rows).
Proof. unfold page_rows, fetch. rewrite take_take. f_equal. lia. Qed.

Lemma fetch_more limit c rows : (limit < length (fetch limit c rows) ↔ limit < length (ordered c rows))%nat.
Proof. unfold fetch, ordered. rewrite length_take. lia. Qed.

Lemma page_rows_elem limit c rows x : x ∈ page_rows limit c rows → past c x ∧ x ∈ rows.
Proof. rewrite page_rows_ordered. intros (i & Hi & _)%elem_of_take. by apply ordered_elem, (list_elem_of_lookup_2 _ i). Qed.

Lemma page_rows_sorted limit c rows : NoDup (key <$> rows) → sorted (page_rows limit c rows).
Proof.
  intros Hd. apply (ordered_sorted c) in Hd. rewrite <- (take_drop limit (ordered c rows)) in Hd.
  apply sorted_app_inv in Hd as [Hd _]. by rewrite page_rows_ordered.
Qed.

(** Nothing is left when no key leads on. *)
Lemma last_page limit c rows x :
  next_key limit c rows = None → (1 ≤ limit)%nat → past c x → x ∈ rows → x ∈ page_rows limit c rows.
Proof.
  unfold next_key. intros Hn Hl Hc Hx. rewrite page_rows_ordered in *. case_decide as Hm.
  - rewrite fetch_more in Hm. destruct (last (take limit (ordered c rows))) eqn:El; [done|].
    apply last_None in El. destruct (ordered c rows); [simpl in Hm; lia|]. destruct limit; [lia|done].
  - rewrite fetch_more in Hm. rewrite take_ge by lia. by apply ordered_elem.
Qed.

(** Otherwise the key is that of the last row, and the rest lies past it. *)
Lemma middle_page limit c rows k :
  NoDup (key <$> rows) → next_key limit c rows = Some k →
  length (page_rows limit c rows) = limit ∧
  (∀ x, x ∈ page_rows limit c rows → key x = k ∨ before (key x) k) ∧
  (∃ z, z ∈ page_rows limit c rows ∧ key z = k) ∧
  ∀ x, past c x → x ∈ rows → x ∈ page_rows limit c rows ∨ before k (key x).
Proof.
  intros Hd. unfold next_key. case_decide as Hm; [|done]. rewrite fetch_more in Hm.
  pose proof (ordered_sorted c rows Hd) as Hs. rewrite !page_rows_ordered.
  rewrite <- (take_drop limit (ordered c rows)) in Hs. apply sorted_app_inv in Hs as (Hp & _ & Hpr).
  intros Hk. destruct (last (take limit (ordered c rows))) as [z|] eqn:El; [|done]. simpl in Hk. injection Hk as <-.
  apply last_Some in El as [l' El]. assert (z ∈ take limit (ordered c rows)) as Hz by (rewrite El; apply elem_of_app; right; left).
  split_and!.
  - rewrite length_take. lia.
  - intros x Hx. rewrite El in Hx, Hp. apply sorted_app_inv in Hp as (_ & _ & Hp).
    apply elem_of_app in Hx as [Hx|Hx]; [right; apply Hp; [done|left]|left]. by apply list_elem_of_singleton in Hx as ->.
  - by exists z.
  - intros x Hc Hx. assert (x ∈ ordered c rows) as Hin by by apply ordered_elem.
    rewrite <- (take_drop limit (ordered c rows)), elem_of_app in Hin. destruct Hin as [?|?]; [by left|right]. by apply Hpr.
Qed.

(** ** Walking the pages while the table changes *)

(** One state of the table per request; [true] says the walk came to its end. *)
Fixpoint walk (limit : nat) (c : option K) (states : list (list T)) : list T * bool :=
  match states with
  | [] => ([], false)
  | rows :: rest =>
      match next_key limit c rows with
      | None => (page_rows limit c rows, true)
      | Some k => let '(more, done) := walk limit (Some k) rest in (page_rows limit c rows ++ more, done)
      end
  end.


Lemma walk_ok limit c states :
  (1 ≤ limit)%nat → Forall (λ rows, NoDup (key <$> rows)) states →
  sorted (walk limit c states).1 ∧
  (∀ x, x ∈ (walk limit c states).1 → past c x ∧ ∃ rows, rows ∈ states ∧ x ∈ rows) ∧
  ((walk limit c states).2 = true → ∀ x, past c x → (∀ rows, rows ∈ states → x ∈ rows) → x ∈ (walk limit c states).1).
Proof.
  intros Hl Hd. revert c. induction Hd as [|rows rest Hd _ IH]; intros c; simpl.
  { split_and!; [constructor|by intros x ?%not_elem_of_nil|done]. }
  destruct (next_key limit c rows) as [k|] eqn:En.
  2:{ simpl. split_and!; [by apply page_rows_sorted| |].
      - intros x [? ?]%page_rows_elem. split; [done|]. exists rows. split; [left|done].
      - intros _ x Hc Hx. apply last_page; [done..|]. apply Hx. left. }
  destruct (IH (Some k)) as (Hs & Hin & Hall). destruct (middle_page limit c rows k Hd En) as (_ & Hbelow & (z & Hz & <-) & Hrest).
  destruct (walk limit (Some (key z)) rest) as [more fin]. simpl in *. split_and!.
  - apply sorted_app; [by apply page_rows_sorted|done|]. intros x y Hx Hy. destruct (Hin y Hy) as [Hy' _].
    destruct (Hbelow x Hx) as [->|?]; [done|by etrans].
  - intros x [Hx|Hx]%elem_of_app.
    + apply page_rows_elem in Hx as [? ?]. split; [done|]. exists rows. split; [left|done].
    + destruct (Hin x Hx) as [Hp (rows' & ? & ?)]. split; [|exists rows'; split; [by right|done]].
      apply page_rows_elem in Hz as [Hz _]. destruct c as [k'|]; [|done]. simpl in *. by etrans.
  - intros -> x Hc Hx. apply elem_of_app. destruct (Hrest x Hc) as [?|?]; [apply Hx; left|by left|right].
    apply Hall; [done..|]. intros rows' ?. apply Hx. by right.
Qed.

(** ** A table at rest *)

Lemma sorted_unique xs ys : sorted xs → sorted ys → xs ≡ₚ ys → xs = ys.
Proof.
  revert ys. induction xs as [|x xs IH]; intros [|y ys] Hx Hy Hp.
  - done.
  - by apply Permutation_nil_cons in Hp.
  - symmetry in Hp. by apply Permutation_nil_cons in Hp.
  - assert (x = y) as ->.
    { apply StronglySorted_inv in Hx as [_ Hx]. apply StronglySorted_inv in Hy as [_ Hy].
      rewrite Forall_forall in Hx, Hy.
      assert (x ∈ y :: ys) as [?|Hxy]%elem_of_cons by (rewrite <- Hp; left); [done|].
      assert (y ∈ x :: xs) as [?|Hyx]%elem_of_cons by (rewrite Hp; left); [done|].
      destruct (irreflexivity before (key x)). transitivity (key y);
        [by apply Hx, list_elem_of_fmap_2|by apply Hy, list_elem_of_fmap_2]. }
    f_equal. apply IH; [by apply StronglySorted_inv in Hx as []|by apply StronglySorted_inv in Hy as []|].
    by eapply Permutation_cons_inv.
Qed.

Lemma ordered_past limit c rows k :
  NoDup (key <$> rows) → next_key limit c rows = Some k → ordered (Some k) rows = drop limit (ordered c rows).
Proof.
  intros Hd Hn. destruct (middle_page limit c rows k Hd Hn) as (_ & Hbelow & (z & Hz & <-) & Hrest).
  pose proof (ordered_sorted c rows Hd) as Hs. rewrite <- (take_drop limit (ordered c rows)) in Hs.
  pose proof (sorted_NoDup _ Hs) as Hnd. apply sorted_app_inv in Hs as (Hp & Hr & Hpr).
  rewrite page_rows_ordered in *. apply sorted_unique; [by apply ordered_sorted|done|].
  apply NoDup_Permutation.
  - by eapply NoDup_fmap_1, sorted_NoDup, ordered_sorted.
  - by eapply NoDup_fmap_1, sorted_NoDup.
  - intros x. rewrite ordered_elem. simpl. split.
    + intros [Hzx Hx].
      assert (past c x) as Hc.
      { assert (z ∈ ordered c rows) as [Hzc _]%ordered_elem by (rewrite <- (take_drop limit (ordered c rows)); apply elem_of_app; by left).
        destruct c as [k'|]; [|done]. simpl in *. by etrans. }
      assert (x ∈ ordered c rows) as Hin by by apply ordered_elem.
      rewrite <- (take_drop limit (ordered c rows)), elem_of_app in Hin. destruct Hin as [Hin|?]; [|done].
      destruct (Hbelow x Hin) as [E|?]; [rewrite E in Hzx|]; destruct (irreflexivity before (key z)); [done|by etrans].
    + intros Hx. split; [by apply Hpr|].
      assert (x ∈ ordered c rows) as [_ ?]%ordered_elem by (rewrite <- (take_drop limit (ordered c rows)); apply elem_of_app; by right).
      done.
Qed.

(** On a table at rest the walk ends after at most [length / limit + 1] pages
    with every row in order. *)
Lemma walk_static limit c rows n :
  (1 ≤ limit)%nat → NoDup (key <$> rows) → (length (ordered c rows) < limit * n ∨ (length (ordered c rows) ≤ limit * n ∧ 0 < n))%nat →
  walk limit c (replicate n rows) = (ordered c rows, true).
Proof.
  intros Hl Hd. revert c. induction n as [|n IH]; intros c Hn; [lia|]. cbn [replicate walk].
  destruct (next_key limit c rows) as [k|] eqn:En.
  - assert (limit < length (ordered c rows))%nat as Hlt.
    { unfold next_key in En. case_decide as Hm; [|done]. by rewrite fetch_more in Hm. }
    pose proof (ordered_past limit c rows k Hd En) as Eo. rewrite IH; [|rewrite Eo, length_drop].
    + rewrite Eo, page_rows_ordered, take_drop. done.
    + destruct n; lia.
  - f_equal. rewrite page_rows_ordered, take_ge; [done|]. destruct (decide (length (ordered c rows) ≤ limit)%nat); [done|].
    unfold next_key in En. rewrite decide_True in En by (rewrite fetch_more; lia). rewrite page_rows_ordered in En.
    destruct (last (take limit (ordered c rows))) eqn:El; [done|]. apply last_None in El.
    destruct (ordered c rows); [simpl in *; lia|]. destruct limit; [lia|done].
Qed.
End Keyset.
