(* ===== verification/Pagination.v ===== *)
(** * Pagination: src/shared/db/pagination.py

    The opaque cursor, the whitelist of sort columns, the keyset statement and the
    page.  A sort column carries what the listing needs of its PostgreSQL type: the
    order, the cast of a cursor's text, and which of the parsers of
    [_SORT_VALUE_PARSERS] guards it.  [datetime.fromisoformat] and [Decimal] as
    acceptors, and the casts, are the classes [SortParsers] and [PgCasts]. *)

From Stdlib Require Import Ascii String.
From S2P Require Import Prelude Errors Text Parse Sha256 Base64.
From S2P Require Import Datetime Keyset.

Definition DEFAULT_LIMIT : Z := 20.
Definition MAX_LIMIT : Z := 100.

(** ** [PageParams] *)

Record PageParams := MkParams { pp_limit : Z; pp_sort : string; pp_cursor : option string }.

(** [Field(DEFAULT_LIMIT, ge=1, le=MAX_LIMIT)] *)
Definition page_params (limit : Z) (sort : string) (cursor : option string) : result PageParams :=
  if decide (1 ≤ limit ≤ MAX_LIMIT) then Ok (MkParams limit sort cursor) else Err ValidationError.

Definition descending (p : PageParams) : bool := String.prefix "-" (pp_sort p).
Definition sort_field (p : PageParams) : string :=
  match pp_sort p with
  | String "-" field => field
  | field => field
  end.

(** ** The cursor *)

(** [encode_cursor] *)
Definition encode_cursor (sort_value id_value : string) : string := b64_encode (json_dumps_pair sort_value id_value).

(** What [datetime.fromisoformat] and [Decimal] accept. *)
Class SortParsers := {
  fromisoformat_ok : string → bool;
  decimal_ok : string → bool;
  fromisoformat_str t : datetime_ok t → fromisoformat_ok (datetime_str t) = true;
  decimal_str c : decimal_ok (price_str c) = true
}.

(** [_SORT_VALUE_PARSERS] *)
Definition sort_value_parser `{SortParsers} (kind : string) : option (string → bool) :=
  if decide (kind = "timestamptz"%string) then Some fromisoformat_ok
  else if decide (kind = "numeric"%string) then Some decimal_ok
  else if decide (kind = "uuid"%string) then Some (λ s, bool_decide (is_Some (uuid_parse s)))
  else if decide (kind = "text"%string) then Some (λ _, true)
  else None.

(** [decode_cursor] *)
Definition decode_cursor `{SortParsers} `{JsonLists} (cursor : string) (sort_kind : string) : result (string * string) :=
  match sort_value_parser sort_kind with
  | None => Err KeyError
  | Some accepts =>
      match b64_decode cursor ≫= json_items with
      | Some [sort_value; id_value] =>
          if decide (is_Some (uuid_parse id_value) ∧ accepts sort_value = true) then Ok (sort_value, id_value)
          else Err InvalidCursorError
      | _ => Err InvalidCursorError
      end
  end.

(** ** Sort columns *)

(** The casts of the statement, to the column types. *)
Class PgCasts (numeric : Type) := {
  numeric_before : relation numeric;
  #[global] numeric_dec :: RelDecision numeric_before;
  #[global] numeric_trans :: Transitive numeric_before;
  #[global] numeric_irreflexive :: Irreflexive numeric_before;
  #[global] numeric_trichotomy :: Trichotomy numeric_before;
  of_cents : Z → numeric;
  collated_before : relation string;
  #[global] collated_dec :: RelDecision collated_before;
  #[global] collated_trans :: Transitive collated_before;
  #[global] collated_irreflexive :: Irreflexive collated_before;
  #[global] collated_trichotomy :: Trichotomy collated_before;
  cast_timestamptz : string → option Z;
  cast_numeric : string → option numeric;
  cast_text : string → option string;
  cast_uuid : string → option N;
  cast_timestamptz_str t : datetime_ok t → cast_timestamptz (datetime_str t) = Some t;
  cast_numeric_str c : cast_numeric (price_str c) = Some (of_cents c);
  cast_text_str s : contains (String (ascii_of_N 0) EmptyString) s = false → cast_text s = Some s;
  cast_text_nul s : contains (String (ascii_of_N 0) EmptyString) s = true → cast_text s = None;
  cast_uuid_str u : is_uuid u → cast_uuid (uuid_str u) = Some u
}.

Record SortColumn (T V : Type) := MkColumn {
  sc_before : relation V;
  sc_dec : RelDecision sc_before;
  sc_trans : Transitive sc_before;
  sc_irreflexive : Irreflexive sc_before;
  sc_trichotomy : Trichotomy sc_before;
  sc_kind : string;
  sc_value : T → V;
  sc_text : T → string;
  sc_cast : string → option V
}.
Arguments MkColumn {T V} sc_before {sc_dec sc_trans sc_irreflexive sc_trichotomy} sc_kind sc_value sc_text sc_cast.
Arguments sc_before {T V} s.
Arguments sc_kind {T V} s.
Arguments sc_value {T V} s.
Arguments sc_text {T V} s.
Arguments sc_cast {T V} s.
#[export] Existing Instances sc_dec sc_trans sc_irreflexive sc_trichotomy.

#[export] Instance Z_lt_trichotomy : Trichotomy Z.lt.
Proof. intros x y. unfold strict. destruct (Z.lt_total x y) as [?|[?|?]]; auto. Qed.

Section Columns.
Context {numeric : Type} `{PgCasts numeric} {T : Type}.

Definition timestamptz_column (value : T → Z) : SortColumn T Z :=
  MkColumn Z.lt "timestamptz" value (λ x, datetime_str (value x)) cast_timestamptz.
Definition numeric_column (cents : T → Z) : SortColumn T numeric :=
  MkColumn numeric_before "numeric" (λ x, of_cents (cents x)) (λ x, price_str (cents x)) cast_numeric.
Definition text_column (value : T → string) : SortColumn T string :=
  MkColumn collated_before "text" value value cast_text.
End Columns.

(** [resolve_sort_column] *)
Definition resolve_sort_column {C} (sort_field : string) (sort_map : list (string * C)) : result C :=
  match list_find (λ x, x.1 = sort_field) sort_map with
  | Some (_, (_, col)) => Ok col
  | None => Err (InvalidQueryParamError "sort" sort_field)
  end.

(** [check_filters] *)
Fixpoint check_filters (keys : list string) (allowed : list string) : result unit :=
  match keys with
  | [] => Ok tt
  | key :: rest => if decide (key ∈ allowed) then check_filters rest allowed else Err (InvalidQueryParamError "filter" key)
  end.

(** ** The statement and the page *)

(** [Page] *)
Record Page (T : Type) := MkPage { pg_items : list T; pg_next : option string }.
Arguments MkPage {T} pg_items pg_next.
Arguments pg_items {T} p.
Arguments pg_next {T} p.

(** The row comparison [(sort, id) < (v, i)], and its flip where the sort descends. *)
Section Keys.
Context {V : Type} (lt : relation V) `{!RelDecision lt} `{!Transitive lt} `{!Irreflexive lt} `{!Trichotomy lt}.

Definition row_before (desc : bool) (x y : V * N) : Prop :=
  if desc then lt y.1 x.1 ∨ (x.1 = y.1 ∧ (y.2 < x.2)%N) else lt x.1 y.1 ∨ (x.1 = y.1 ∧ (x.2 < y.2)%N).

Lemma lt_eq_dec (x y : V) : Decision (x = y).
Proof.
  destruct (decide (lt x y)) as [Hl|Hl]; [right; intros ->; by apply (irreflexivity lt y)|].
  destruct (decide (lt y x)) as [Hl'|Hl']; [right; intros ->; by apply (irreflexivity lt y)|].
  left. by destruct (trichotomy lt x y) as [?|[?|?]].
Defined.

#[global] Instance row_before_dec desc : RelDecision (row_before desc).
Proof.
  intros x y. pose proof (lt_eq_dec x.1 y.1) as D. unfold row_before, Decision in *.
  destruct desc; [destruct (decide (lt y.1 x.1)), (decide (y.2 < x.2)%N)|destruct (decide (lt x.1 y.1)), (decide (x.2 < y.2)%N)];
    destruct D; try (left; tauto); right; tauto.
Defined.

#[global] Instance row_before_trans desc : Transitive (row_before desc).
Proof.
  intros [a i] [b j] [c k]. unfold row_before. simpl.
  destruct desc; intros [H1|[-> H1]] [H2|[-> H2]]; first [by left; etrans|by left|right; split; [done|lia]].
Qed.

#[global] Instance row_before_irreflexive desc : Irreflexive (row_before desc).
Proof. intros [a i]. unfold row_before. simpl. destruct desc; intros [H|[_ H]]; first [by apply (irreflexivity lt a)|lia]. Qed.

#[global] Instance row_before_trichotomy desc : Trichotomy (row_before desc).
Proof.
  intros [a i] [b j]. unfold row_before. simpl. destruct (trichotomy lt a b) as [Hl|[->|Hl]].
  - destruct desc; tauto.
  - destruct (N.lt_total i j) as [Hl|[->|Hl]]; destruct desc; tauto.
  - destruct desc; tauto.
Qed.
End Keys.

Section Listing.
Context {numeric : Type} `{SortParsers} `{JsonLists} `{PgCasts numeric} {T V : Type}.
Context (col : SortColumn T V) (id : T → N).

Definition row_key (x : T) : V * N := (sc_value col x, id x).

(** [apply_keyset], and what the statement returns over the rows its [WHERE]
    selects. *)
Definition apply_keyset (p : PageParams) (cursor : option (string * string)) (rows : list T) : result (list T) :=
  c ← match cursor with
      | None => Ok None
      | Some (sort_val, id_val) =>
          match sc_cast col sort_val, cast_uuid id_val with
          | Some v, Some i => Ok (Some (v, i))
          | _, _ => Err DataError
          end
      end;
  Ok (fetch row_key (row_before (sc_before col) (descending p)) (Z.to_nat (pp_limit p)) c rows).

(** [build_page] *)
Definition build_page (items : list T) (p : PageParams) : Page T :=
  let kept := take (Z.to_nat (pp_limit p)) items in
  MkPage kept
    (if decide (Z.to_nat (pp_limit p) < length items)%nat
     then (λ x, encode_cursor (sc_text col x) (uuid_str (id x))) <$> last kept else None).

(** [decode_cursor(params.cursor, kind) if params.cursor else None] *)
Definition cursor_of (p : PageParams) : result (option (string * string)) :=
  match pp_cursor p with
  | Some (String c s) => Some <$> decode_cursor (String c s) (sc_kind col)
  | _ => Ok None
  end.

(** The listing over the rows of its filter. *)
Definition keyset_page (p : PageParams) (rows : list T) : result (Page T) :=
  cursor ← cursor_of p;
  items ← apply_keyset p cursor rows;
  Ok (build_page items p).
End Listing.

(** ** Following the cursors *)

(** A client that asks for page after page, each answered from the state of its
    moment; [true] says the last answer had no cursor. *)
Fixpoint follow {D T} (list_page : PageParams → D → result (Page T)) (p : PageParams) (states : list D)
    : result (list T * bool) :=
  match states with
  | [] => Ok ([], false)
  | d :: rest =>
      page ← list_page p d;
      match pg_next page with
      | None => Ok (pg_items page, true)
      | Some c => '(more, fin) ← follow list_page (MkParams (pp_limit p) (pp_sort p) (Some c)) rest; Ok (pg_items page ++ more, fin)
      end
  end.

Lemma uuid_str_not_empty u : uuid_str u ≠ EmptyString.
Proof. intros E. pose proof (uuid_str_length u) as Hl. rewrite E in Hl. done. Qed.

Lemma encode_cursor_cons a b : ∃ c s, encode_cursor a b = String c s.
Proof.
  unfold encode_cursor, json_dumps_pair, json_string, quote. rewrite !str_cons_app, !str_app_nil_l. cbn.
  destruct (json_escape a +:+ _)%string; eauto.
Qed.

Section Walks.
Context {numeric : Type} `{SortParsers} `{JsonLists} `{PgCasts numeric} {T V : Type}.
Context (col : SortColumn T V) (id : T → N).

(** What a row must be for its cursor to be understood again. *)
Definition row_ok (x : T) : Prop :=
  is_uuid (id x) ∧ sc_cast col (sc_text col x) = Some (sc_value col x) ∧
  ∃ accepts, sort_value_parser (sc_kind col) = Some accepts ∧ accepts (sc_text col x) = true.

(** The cursor of a row is decoded to its own texts. *)
Lemma cursor_roundtrip x :
  row_ok x → decode_cursor (encode_cursor (sc_text col x) (uuid_str (id x))) (sc_kind col) = Ok (sc_text col x, uuid_str (id x)).
Proof.
  intros (Hu & _ & accepts & Ep & Ha). unfold decode_cursor, encode_cursor. rewrite Ep, b64_roundtrip. simpl.
  rewrite json_items_dumps, uuid_parse_str by done. by rewrite decide_True by done.
Qed.

Definition cursor_text (x : T) : string := encode_cursor (sc_text col x) (uuid_str (id x)).
Notation K := (row_key col id).
Notation ahead p := (row_before (sc_before col) (descending p)).

(** A page is the keyset page at the key the cursor stands for. *)
Lemma keyset_page_key p (from : option T) rows :
  (∀ x, from = Some x → row_ok x) → pp_cursor p = cursor_text <$> from →
  let limit := Z.to_nat (pp_limit p) in
  keyset_page col id p rows =
    Ok (MkPage (page_rows K (ahead p) limit (K <$> from) rows)
          (if decide (limit < length (fetch K (ahead p) limit (K <$> from) rows))%nat
           then cursor_text <$> last (page_rows K (ahead p) limit (K <$> from) rows) else None)).
Proof.
  intros Hok Hc limit. unfold keyset_page, cursor_of. rewrite Hc. destruct from as [x|]; [|done]. simpl.
  specialize (Hok x eq_refl). destruct (encode_cursor_cons (sc_text col x) (uuid_str (id x))) as (c & s & E).
  unfold cursor_text at 1. rewrite E, <- E, cursor_roundtrip by done. cbn. unfold apply_keyset.
  destruct Hok as (Hu & -> & _). rewrite cast_uuid_str by done. done.
Qed.

Lemma follow_walk {D} (list_page : PageParams → D → result (Page T)) (rows_of : D → list T) limit sort (from : option T) states :
  (∀ c d, list_page (MkParams limit sort c) d = keyset_page col id (MkParams limit sort c) (rows_of d)) →
  (∀ x, from = Some x → row_ok x) → (∀ d, d ∈ states → Forall row_ok (rows_of d)) →
  follow list_page (MkParams limit sort (cursor_text <$> from)) states =
    Ok (walk K (ahead (MkParams limit sort None)) (Z.to_nat limit) (K <$> from) (rows_of <$> states)).
Proof.
  intros Hp Hfrom Hok. revert from Hfrom. induction states as [|d rest IH]; intros from Hfrom; [done|].
  rewrite fmap_cons. cbn [follow walk]. rewrite Hp, (keyset_page_key _ from) by done. cbv zeta.
  cbn [mbind result_bind pg_next pg_items pp_limit pp_sort].
  change (descending (MkParams limit sort (cursor_text <$> from))) with (descending (MkParams limit sort None)).
  unfold next_key. set (limit' := Z.to_nat limit) in *. set (dir := descending (MkParams limit sort None)) in *.
  destruct (decide (limit' < length (fetch K (row_before (sc_before col) dir) limit' (K <$> from) (rows_of d)))%nat); [|done].
  destruct (last (page_rows K _ limit' _ (rows_of d))) as [z|] eqn:El; [|done].
  cbn [fmap option_fmap option_map]. assert (row_ok z) as Hz.
  { apply last_Some in El as [l0 El]. pose proof (Hok d (list_elem_of_here _ _)) as Hd. rewrite Forall_forall in Hd.
    apply Hd. eapply (page_rows_elem K). rewrite El. apply elem_of_app. right. left. }
  pose proof (IH (λ d' Hd', Hok d' (list_elem_of_further _ _ _ Hd')) (Some z)) as E.
  cbn [fmap option_fmap option_map] in E. rewrite E by (intros ? [= <-]; done).
  cbn [mbind result_bind]. by destruct (walk K _ limit' _ _).
Qed.
End Walks.
