(* ===== verification/Effects.v ===== *)
(** * Effects: asynchronous request code over a shared world

    A coroutine is a [prog]: a tree of atomic blocks.  [Atomic m k] is one
    [await] - one database transaction, one Valkey command or one provider call -
    whose computation [m] acts on the shared world and whose answer, or
    exception, is given to [k]; between two blocks every other coroutine may
    run.  [Tick] is an in-process effect without an [await] (a metrics counter).

    [outcome] is what an [await] may do: run; fail without having acted; act and
    lose its answer (a connection lost after the commit, a cancellation that
    lands late).  A coroutine that is never resumed is a crash.

    [wp] is the rely/guarantee proof rule: from a world [w0], whatever the other
    coroutines did since ([evolves]), every block re-establishes the invariant
    and evolves the world, and the final answer satisfies [Q].  [pool_step] is
    the scheduler and [pool_sound] the theorem that makes [wp] proofs of the
    single coroutines a proof about every interleaving of any number of them. *)

From S2P Require Import Prelude Errors.

(** The faults of the transport under an [await]: the driver, the network, the
    resilience shell and the timers.  Application errors come only from running. *)
Definition transport_fault (e : exn) : bool :=
  match e with
  | OperationalError | TimeoutError | ConnectionError | DependencyUnavailableError
  | CircuitOpenError | DependencyBudgetExhaustedError | CancelledError _ => true
  | _ => false
  end.

Section Prog.
Context {W : Type}.

Inductive prog (A : Type) : Type :=
  | Ret (a : A)
  | Tick (f : W → W) (k : prog A)
  | Atomic (X : Type) (m : ST W X) (k : result X → prog A).
Arguments Ret {A} a.
Arguments Tick {A} f k.
Arguments Atomic {A X} m k.

Fixpoint pbind {A B} (p : prog A) (f : A → prog B) : prog B :=
  match p with
  | Ret a => f a
  | Tick g k => Tick g (pbind k f)
  | Atomic m k => Atomic m (λ r, pbind (k r) f)
  end.

(** The undisturbed run: no other coroutine, no fault. *)
Fixpoint run {A} (p : prog A) (w : W) : A * W :=
  match p with
  | Ret a => (a, w)
  | Tick g k => run k (g w)
  | Atomic m k => let '(r, w') := m w in run (k r) w'
  end.

Lemma run_pbind {A B} (p : prog A) (f : A → prog B) w :
  run (pbind p f) w = (let '(a, w') := run p w in run (f a) w').
Proof.
  revert w. induction p as [a|g k IH|X m k IH]; intros w; simpl; [done|by rewrite IH|].
  destruct (m w) as [r w']. by rewrite IH.
Qed.

(** ** Frames: exceptions and mutable locals *)

Definition frame (L A : Type) : Type := L → prog (result A * L).

#[export] Instance frame_ret L : MRet (frame L) := λ A a l, Ret (Ok a, l).
#[export] Instance frame_bind L : MBind (frame L) := λ A B f p l,
  pbind (p l) (λ rl, match rl with
                     | (Ok a, l') => f a l'
                     | (Err e, l') => Ret (Err e, l')
                     end).

Lemma run_bind {L A B} (p : frame L A) (f : A → frame L B) l w :
  run ((p ≫= f) l) w = match run (p l) w with
                       | (Ok a, l', w') => run (f a l') w'
                       | (Err e, l', w') => (Err e, l', w')
                       end.
Proof. unfold mbind, frame_bind. rewrite run_pbind. by destruct (run (p l) w) as [[[a|e] l'] w']. Qed.

Definition throw {L A} (e : exn) : frame L A := λ l, Ret (Err e, l).
(** The outcome of code without an [await]. *)
Definition of_result {L A} (r : result A) : frame L A := λ l, Ret (r, l).
Definition locals {L} : frame L L := λ l, Ret (Ok l, l).
Definition set_locals {L} (f : L → L) : frame L unit := λ l, Ret (Ok tt, f l).

(** [await op] *)
Definition await {L A} (m : ST W A) : frame L A := λ l, Atomic m (λ r, Ret (r, l)).
(** A counter increment. *)
Definition effect {L} (f : W → W) : frame L unit := λ l, Tick f (Ret (Ok tt, l)).

(** A call of another coroutine function, with a frame of its own. *)
Definition call {L L' A} (l0 : L') (p : frame L' A) : frame L A := λ l,
  pbind (p l0) (λ rl, Ret (rl.1, l)).

(** [try: p except e: h e]; a handler that does not match re-throws. *)
Definition try_catch {L A} (p : frame L A) (h : exn → frame L A) : frame L A := λ l,
  pbind (p l) (λ rl, match rl with
                     | (Ok a, l') => Ret (Ok a, l')
                     | (Err e, l') => h e l'
                     end).

(** [try: p finally: c]: an exception of the clean-up replaces the outcome. *)
Definition try_finally {L A} (p : frame L A) (c : frame L unit) : frame L A := λ l,
  pbind (p l) (λ rl, pbind (c rl.2) (λ rc, match rc with
                                           | (Ok _, l') => Ret (rl.1, l')
                                           | (Err e, l') => Ret (Err e, l')
                                           end)).

(** [async with asyncio.timeout(...)]: the timer's own cancellation leaves the
    block as [TimeoutError]. *)
Definition timeout {L A} (timer : cancel_source) (p : frame L A) : frame L A :=
  try_catch p (λ e, match e with
                    | CancelledError by_ => if decide (by_ = timer) then throw TimeoutError else throw e
                    | e => throw e
                    end).

(** [for x in xs: ...] *)
Fixpoint iterate {L X} (xs : list X) (body : X → frame L unit) : frame L unit :=
  match xs with
  | [] => mret tt
  | x :: xs' => body x ;; iterate xs' body
  end.

(** ** What an [await] may do *)

Inductive outcome {X} (m : ST W X) (w : W) : result X → W → Prop :=
  | ran : outcome m w (m w).1 (m w).2
  | failed_before e : transport_fault e = true → outcome m w (Err e) w
  | answer_lost e : transport_fault e = true → outcome m w (Err e) (m w).2.

(** ** The proof rule *)

Context (Inv : W → Prop) (evolves : W → W → Prop).
Context `{!PreOrder evolves}.

Fixpoint wp {A} (p : prog A) (Q : A → W → Prop) (w0 : W) : Prop :=
  match p with
  | Ret a => Q a w0
  | Tick f k => ∀ w, Inv w → evolves w0 w → Inv (f w) ∧ evolves w (f w) ∧ wp k Q (f w)
  | Atomic m k => ∀ w r w', Inv w → evolves w0 w → outcome m w r w' →
      Inv w' ∧ evolves w w' ∧ wp (k r) Q w'
  end.

Lemma wp_mono {A} (p : prog A) (Q Q' : A → W → Prop) w :
  (∀ a w', evolves w w' → Q a w' → Q' a w') → wp p Q w → wp p Q' w.
Proof.
  revert w. induction p as [a|f k IH|X m k IH]; intros w HQ Hp; simpl in *.
  - by apply HQ.
  - intros w1 HI He. destruct (Hp w1 HI He) as (? & He1 & ?). split_and!; [done..|].
    apply IH; [|done]. intros a w' He'. apply HQ. etrans; [exact He|]. etrans; [exact He1|exact He'].
  - intros w1 r w' HI He Ho. destruct (Hp w1 r w' HI He Ho) as (? & He1 & ?). split_and!; [done..|].
    apply IH; [|done]. intros a w'' He'. apply HQ. etrans; [exact He|]. etrans; [exact He1|exact He'].
Qed.

Lemma wp_pbind {A B} (p : prog A) (f : A → prog B) Q w :
  wp p (λ a, wp (f a) Q) w → wp (pbind p f) Q w.
Proof.
  revert w. induction p as [a|g k IH|X m k IH]; intros w Hp; simpl in *; [done| |].
  - intros w1 HI He. destruct (Hp w1 HI He) as (? & ? & ?). eauto.
  - intros w1 r w' HI He Ho. destruct (Hp w1 r w' HI He Ho) as (? & ? & ?). eauto.
Qed.

(** An undisturbed run is one of the behaviours [wp] covers. *)
Lemma wp_run {A} (p : prog A) Q w :
  wp p Q w → Inv w → let '(a, w') := run p w in Inv w' ∧ evolves w w' ∧ Q a w'.
Proof.
  revert w. induction p as [a|g k IH|X m k IH]; intros w Hp HI; simpl in *.
  - done.
  - destruct (Hp w HI) as (HI' & He & Hk); [done|]. specialize (IH _ Hk HI').
    destruct (run k (g w)) as [a w']. destruct IH as (? & ? & ?). split_and!; [done| |done]. by etrans.
  - destruct (Hp w (m w).1 (m w).2 HI) as (HI' & He & Hk); [done|constructor|].
    destruct (m w) as [r w1]; simpl in *. specialize (IH r _ Hk HI').
    destruct (run (k r) w1) as [a w']. destruct IH as (? & ? & ?). split_and!; [done| |done]. by etrans.
Qed.

(** Frames: a normal and an exceptional post-condition. *)
Definition wpf {L A} (p : frame L A) (l : L) (Q : A → L → W → Prop) (E : exn → L → W → Prop) : W → Prop :=
  wp (p l) (λ rl w, match rl with (Ok a, l') => Q a l' w | (Err e, l') => E e l' w end).

Section Rules.
Context {L A : Type}.
Implicit Types (Q : A → L → W → Prop) (E : exn → L → W → Prop).

Lemma wpf_mono (p : frame L A) l Q Q' E E' w :
  (∀ a l' w', evolves w w' → Q a l' w' → Q' a l' w') →
  (∀ e l' w', evolves w w' → E e l' w' → E' e l' w') →
  wpf p l Q E w → wpf p l Q' E' w.
Proof. intros HQ HE. apply wp_mono. intros [[a|e] l'] w'; eauto. Qed.

Lemma wpf_ret (a : A) l Q E w : Q a l w → wpf (mret a) l Q E w.
Proof. done. Qed.

Lemma wpf_throw (e : exn) l Q E w : E e l w → wpf (throw (A:=A) e) l Q E w.
Proof. done. Qed.

Lemma wpf_bind {B} (p : frame L B) (f : B → frame L A) l Q E w :
  wpf p l (λ b l', wpf (f b) l' Q E) E w → wpf (p ≫= f) l Q E w.
Proof.
  intros Hp. apply wp_pbind. revert Hp. apply wp_mono. intros [[b|e] l'] w' _; done.
Qed.

Lemma wpf_try (p : frame L A) h l Q E w :
  wpf p l Q (λ e l', wpf (h e) l' Q E) w → wpf (try_catch p h) l Q E w.
Proof.
  intros Hp. apply wp_pbind. revert Hp. apply wp_mono. intros [[b|e] l'] w' _; done.
Qed.

Lemma wpf_finally (p : frame L A) c l Q E w :
  wpf p l (λ a l', wpf c l' (λ _, Q a) E) (λ e l', wpf c l' (λ _, E e) E) w →
  wpf (try_finally p c) l Q E w.
Proof.
  intros Hp. apply wp_pbind. revert Hp. apply wp_mono. intros [[a|e] l'] w' _ Hc; simpl;
    apply wp_pbind; revert Hc; apply wp_mono; by intros [[[]|e'] l2] w2 _.
Qed.

Lemma wpf_timeout timer (p : frame L A) l Q E w :
  wpf p l Q (λ e l' w', E (match e with
                          | CancelledError by_ => if decide (by_ = timer) then TimeoutError else e
                          | e => e
                          end) l' w') w → wpf (timeout timer p) l Q E w.
Proof.
  intros Hp. apply wpf_try. revert Hp. apply wpf_mono; [done|].
  intros e l' w' _ HE. destruct e; try exact HE. by case_decide.
Qed.

Lemma wpf_await (m : ST W A) l Q E w0 :
  (∀ w r w', Inv w → evolves w0 w → outcome m w r w' →
     Inv w' ∧ evolves w w' ∧ match r with Ok a => Q a l w' | Err e => E e l w' end) →
  wpf (await m) l Q E w0.
Proof. intros H w r w' HI He Ho. destruct (H w r w' HI He Ho) as (? & ? & ?). split_and!; [done..|]. by destruct r. Qed.

Lemma wpf_call {L'} (l0 : L') (p : frame L' A) l Q E w :
  wpf p l0 (λ a _, Q a l) (λ e _, E e l) w → wpf (call l0 p) l Q E w.
Proof.
  intros Hp. apply wp_pbind. revert Hp. apply wp_mono. intros [[b|e] l'] w' _; done.
Qed.
End Rules.

Lemma wpf_locals {L} (l : L) (Q : L → L → W → Prop) E w : Q l l w → wpf locals l Q E w.
Proof. done. Qed.

Lemma wpf_set_locals {L} f (l : L) (Q : unit → L → W → Prop) E w :
  Q tt (f l) w → wpf (set_locals f) l Q E w.
Proof. done. Qed.

Lemma wpf_effect {L} f (l : L) (Q : unit → L → W → Prop) E w0 :
  (∀ w, Inv w → evolves w0 w → Inv (f w) ∧ evolves w (f w) ∧ Q tt l (f w)) →
  wpf (effect f) l Q E w0.
Proof. done. Qed.

(** A loop whose body keeps a stable fact. *)
Lemma wpf_iterate {L X} (xs : list X) (body : X → frame L unit) (K : W → Prop) l
    (Q : unit → L → W → Prop) E w0 :
  (∀ w w', evolves w w' → K w → K w') →
  K w0 →
  (∀ x l w, x ∈ xs → K w → wpf (body x) l (λ _ _, K) (λ e l' w', E e l' w') w) →
  (∀ l w, K w → Q tt l w) →
  wpf (iterate xs body) l Q E w0.
Proof.
  intros Hst HK Hb HQ. revert l w0 HK. induction xs as [|x xs IH]; intros l w0 HK.
  - by apply HQ.
  - apply wpf_bind. eapply wpf_mono; [| |apply Hb; [set_solver|done]].
    + intros [] l' w' He HK'. apply IH; [|done]. intros y l1 w1 Hy HK1. apply Hb; [set_solver|done].
    + done.
Qed.

(** An [await] whose errors need no care. *)
Lemma wpf_await_ok {L A} (m : ST W A) (l : L) Q E w0 :
  (∀ w, Inv w → evolves w0 w →
     (Inv (m w).2 ∧ evolves w (m w).2) ∧ ∀ a, (m w).1 = Ok a → Q a l (m w).2) →
  (∀ e w, evolves w0 w → E e l w) → wpf (await m) l Q E w0.
Proof.
  intros Hm HE. apply wpf_await. intros w r w' HI He Ho. destruct (Hm w HI He) as [[HI' He'] Hq].
  assert (evolves w0 (m w).2) as He2 by (by etrans).
  destruct Ho as [|e Hf|e Hf]; [|split_and!; auto..]; [|done].
  split_and!; [done..|]. destruct (m w).1 eqn:Er; auto.
Qed.

(** What holds of a normal answer; any exception may happen. *)
Definition wpt {L A} (p : frame L A) (l : L) (P : A → W → Prop) : W → Prop :=
  wpf p l (λ a _ w, P a w) (λ _ _ _, True).

Lemma wpt_bind {L A B} (p : frame L A) (f : A → frame L B) l P Q w :
  wpt p l P w → (∀ a l' w', evolves w w' → P a w' → wpt (f a) l' Q w') → wpt (p ≫= f) l Q w.
Proof. intros Hp Hf. apply wpf_bind. revert Hp. apply wpf_mono; [|done]. intros a l' w' He. by apply Hf. Qed.

Lemma wpt_try {L A} (p : frame L A) h l P w :
  wpt p l P w → (∀ e l' w', evolves w w' → wpt (h e) l' P w') → wpt (try_catch p h) l P w.
Proof. intros Hp Hh. apply wpf_try. revert Hp. apply wpf_mono; [done|]. intros e l' w' He _. by apply Hh. Qed.

Lemma wpt_finally {L A} (p : frame L A) c l (P : A → W → Prop) w :
  (∀ a w w', evolves w w' → P a w → P a w') →
  wpt p l P w → (∀ l' w', evolves w w' → wpt c l' (λ _ _, True) w') → wpt (try_finally p c) l P w.
Proof.
  intros HP Hp Hc. apply wpf_finally. revert Hp. apply wpf_mono.
  - intros a l' w' He Hpa. eapply wpf_mono; [| |by apply Hc]; [|done]. simpl. eauto.
  - intros e l' w' He _. eapply wpf_mono; [| |by apply Hc]; done.
Qed.

Lemma wpt_await {L A} (m : ST W A) (l : L) P w0 :
  (∀ w, Inv w → evolves w0 w →
     (Inv (m w).2 ∧ evolves w (m w).2) ∧ ∀ a, (m w).1 = Ok a → P a (m w).2) → wpt (await m) l P w0.
Proof. intros Hm. by apply wpf_await_ok. Qed.

Lemma wpt_mono {L A} (p : frame L A) l (P P' : A → W → Prop) w :
  (∀ a w', evolves w w' → P a w' → P' a w') → wpt p l P w → wpt p l P' w.
Proof. intros HP. apply wpf_mono; [|done]. intros a _ w'. apply HP. Qed.

(** ** Coroutines that keep the invariant from any state and for any answer *)

Definition Safe {L A} (p : frame L A) : Prop := ∀ l w, wpf p l (λ _ _ _, True) (λ _ _ _, True) w.

Lemma Safe_wpf {L A} (p : frame L A) l (Q : A → L → W → Prop) (E : exn → L → W → Prop) w :
  Safe p → (∀ a l' w', Q a l' w') → (∀ e l' w', E e l' w') → wpf p l Q E w.
Proof. intros Hp HQ HE. eapply wpf_mono; [| |apply Hp]; eauto. Qed.

Lemma Safe_ret {L A} (a : A) : Safe (mret a : frame L A).
Proof. done. Qed.

Lemma Safe_throw {L A} e : Safe (throw e : frame L A).
Proof. done. Qed.

Lemma Safe_of_result {L A} (r : result A) : Safe (of_result r : frame L A).
Proof. intros l w. by destruct r. Qed.

Lemma Safe_locals {L} : Safe (locals : frame L L).
Proof. done. Qed.

Lemma Safe_set_locals {L} (f : L → L) : Safe (set_locals f).
Proof. done. Qed.

Lemma Safe_await {L A} (m : ST W A) :
  (∀ w, Inv w → Inv (m w).2 ∧ evolves w (m w).2) → Safe (await m : frame L A).
Proof. intros Hm l w. apply wpf_await_ok; [|done]. intros w' HI _. split; [by apply Hm|done]. Qed.

Lemma Safe_bind {L A B} (p : frame L A) (f : A → frame L B) : Safe p → (∀ a, Safe (f a)) → Safe (p ≫= f).
Proof. intros Hp Hf l w. apply wpf_bind. apply Safe_wpf; [done|intros; apply Hf|done]. Qed.

Lemma Safe_try {L A} (p : frame L A) h : Safe p → (∀ e, Safe (h e)) → Safe (try_catch p h).
Proof. intros Hp Hh l w. apply wpf_try. apply Safe_wpf; [done|done|intros; apply Hh]. Qed.

Lemma Safe_finally {L A} (p : frame L A) c : Safe p → Safe c → Safe (try_finally p c).
Proof. intros Hp Hc l w. apply wpf_finally. apply Safe_wpf; [done|..]; intros; apply Hc. Qed.

Lemma Safe_call {L L' A} (l0 : L') (p : frame L' A) : Safe p → Safe (call l0 p : frame L A).
Proof. intros Hp l w. apply wpf_call. by apply Safe_wpf. Qed.

Lemma Safe_iterate {L X} (xs : list X) (body : X → frame L unit) : (∀ x, x ∈ xs → Safe (body x)) → Safe (iterate xs body).
Proof.
  intros Hb. induction xs as [|x xs IH]; [apply Safe_ret|]. simpl.
  apply Safe_bind; [apply Hb; set_solver|]. intros _. apply IH. intros y Hy. apply Hb. set_solver.
Qed.

(** ** The scheduler *)

Definition erase {A} (p : prog A) : prog unit := pbind p (λ _, Ret tt).

(** One step of the system: a coroutine does its next block, or a new coroutine
    arrives.  A crash is a coroutine that is not scheduled again. *)
Inductive pool_step (spawnable : prog unit → Prop) : list (prog unit) * W → list (prog unit) * W → Prop :=
  | step_tick ts i f k w :
      ts !! i = Some (Tick f k) →
      pool_step spawnable (ts, w) (<[i := k]> ts, f w)
  | step_atomic ts i X (m : ST W X) k w r w' :
      ts !! i = Some (Atomic m k) → outcome m w r w' →
      pool_step spawnable (ts, w) (<[i := k r]> ts, w')
  | step_spawn ts p w :
      spawnable p → pool_step spawnable (ts, w) (p :: ts, w).

(** A coroutine that is safe from every state of the invariant. *)
Definition safe {A} (p : prog A) : Prop := ∀ w, Inv w → wp p (λ _ _, True) w.

Lemma safe_erase {A} (p : prog A) : safe p → safe (erase p).
Proof. intros Hp w HI. apply wp_pbind. by apply Hp. Qed.

Lemma wp_weaken {A} (p : prog A) (Q : A → W → Prop) w w' :
  (∀ a w1 w2, Q a w1 → evolves w1 w2 → Q a w2) → evolves w w' → wp p Q w → wp p Q w'.
Proof.
  intros HQ He. destruct p as [a|f k|X m k]; simpl; [by eauto| |]; intros Hp.
  - intros w1 HI He1. apply Hp; [done|]. by etrans.
  - intros w1 r w2 HI He1. apply Hp; [done|]. by etrans.
Qed.

Definition pool_ok (s : list (prog unit) * W) : Prop :=
  Inv s.2 ∧ Forall (λ p, wp p (λ _ _, True) s.2) s.1.

Lemma pool_step_ok spawnable s s' :
  (∀ p, spawnable p → safe p) → pool_step spawnable s s' → pool_ok s →
  pool_ok s' ∧ evolves s.2 s'.2.
Proof.
  intros Hsp Hst [HI Hts]. destruct Hst as [ts i f k w Hi|ts i X m k w r w' Hi Ho|ts p w Hp]; simpl in *.
  - pose proof (Forall_lookup_1 _ _ _ _ Hts Hi) as Hw. simpl in Hw.
    destruct (Hw w HI) as (HI' & He & Hk); [done|]. split; [|done]. split; [done|]. simpl.
    apply Forall_insert; [|done]. eapply Forall_impl; [exact Hts|]. intros p. by apply wp_weaken.
  - pose proof (Forall_lookup_1 _ _ _ _ Hts Hi) as Hw. simpl in Hw.
    destruct (Hw w r w' HI) as (HI' & He & Hk); [done..|]. split; [|done]. split; [done|]. simpl.
    apply Forall_insert; [|done]. eapply Forall_impl; [exact Hts|]. intros p. by apply wp_weaken.
  - split; [|done]. split; [done|]. simpl. constructor; [by apply Hsp|done].
Qed.

(** Every interleaving, with any number of coroutines, faults and crashes. *)
Lemma pool_sound spawnable s s' :
  (∀ p, spawnable p → safe p) → rtc (pool_step spawnable) s s' → pool_ok s →
  pool_ok s' ∧ evolves s.2 s'.2.
Proof.
  intros Hsp Hr. induction Hr as [s|s1 s2 s3 H12 _ IH]; intros Hok; [done|].
  destruct (pool_step_ok _ _ _ Hsp H12 Hok) as [Hok2 He].
  destruct (IH Hok2) as [? ?]. split; [done|]. by etrans.
Qed.
(** ** Watching one coroutine *)

(** The pool with one coroutine whose answer is observed. *)
Inductive observed_step {A} (spawnable : prog unit → Prop)
    : prog A * (list (prog unit) * W) → prog A * (list (prog unit) * W) → Prop :=
  | own_tick f k ts w : observed_step spawnable (Tick f k, (ts, w)) (k, (ts, f w))
  | own_atomic X (m : ST W X) k ts w r w' :
      outcome m w r w' → observed_step spawnable (Atomic m k, (ts, w)) (k r, (ts, w'))
  | others p s s' : pool_step spawnable s s' → observed_step spawnable (p, s) (p, s').

Definition observed_ok {A} (Q : A → W → Prop) (x : prog A * (list (prog unit) * W)) : Prop :=
  pool_ok x.2 ∧ wp x.1 Q x.2.2.

Lemma observed_sound {A} (Q : A → W → Prop) spawnable x x' :
  (∀ p, spawnable p → safe p) → (∀ a w w', Q a w → evolves w w' → Q a w') →
  rtc (observed_step spawnable) x x' → observed_ok Q x → observed_ok Q x'.
Proof.
  intros Hsp HQ Hr. induction Hr as [|x1 x2 x3 H12 _ IH]; [done|]. intros [Hok Hp]. apply IH. clear IH.
  destruct H12 as [f k ts w|X m k ts w r w' Ho|p s s' Hs]; simpl in *.
  - destruct Hok as [HI Hts]. destruct (Hp w HI) as (HI' & He & Hk); [done|]. split; [split|]; [done| |done].
    simpl. eapply Forall_impl; [exact Hts|]. intros p. by apply wp_weaken.
  - destruct Hok as [HI Hts]. destruct (Hp w r w' HI) as (HI' & He & Hk); [done..|]. split; [split|]; [done| |done].
    simpl. eapply Forall_impl; [exact Hts|]. intros p. by apply wp_weaken.
  - destruct (pool_step_ok _ _ _ Hsp Hs Hok) as [Hok' He]. split; [done|]. simpl. by eapply wp_weaken.
Qed.

(** Running alone is one way to be observed. *)
Lemma run_observed {A} spawnable (p : prog A) ts w :
  rtc (observed_step spawnable) (p, (ts, w)) (Ret (run p w).1, (ts, (run p w).2)).
Proof.
  revert w. induction p as [a|f k IH|X m k IH]; intros w; simpl; [done|..].
  - eapply rtc_l; [apply own_tick|apply IH].
  - eapply rtc_l; [eapply own_atomic; constructor|]. destruct (m w) as [r w']. apply IH.
Qed.

(** ** Executable schedules *)

(** One undisturbed block of one coroutine. *)
Definition advance (p : prog unit) (w : W) : option (prog unit * W) :=
  match p with
  | Ret _ => None
  | Tick f k => Some (k, f w)
  | Atomic m k => Some (k (m w).1, (m w).2)
  end.

(** A schedule: which coroutine does its next block. *)
Fixpoint run_schedule (sched : list nat) (s : list (prog unit) * W) : option (list (prog unit) * W) :=
  match sched with
  | [] => Some s
  | i :: rest =>
      match s.1 !! i with
      | Some p =>
          match advance p s.2 with
          | Some (p', w') => run_schedule rest (<[i := p']> s.1, w')
          | None => None
          end
      | None => None
      end
  end.

Lemma run_schedule_steps spawnable sched s s' :
  run_schedule sched s = Some s' → rtc (pool_step spawnable) s s'.
Proof.
  revert s. induction sched as [|i rest IH]; intros [ts w] H; simpl in H; [by simplify_eq|].
  destruct (ts !! i) as [p|] eqn:Hi; [|done].
  destruct p as [a|f k|X m k]; simpl in H; [done| |].
  - eapply rtc_l; [by eapply step_tick|]. by apply IH.
  - eapply rtc_l; [eapply step_atomic; [exact Hi|constructor]|]. by apply IH.
Qed.

Lemma spawn_all spawnable ps ts w :
  Forall spawnable ps → rtc (pool_step spawnable) (ts, w) (rev ps ++ ts, w).
Proof.
  revert ts. induction ps as [|p ps IH]; intros ts Hs; [done|].
  apply Forall_cons in Hs as [Hp Hs]. eapply rtc_l; [by apply step_spawn|].
  simpl. rewrite <- app_assoc. by apply IH.
Qed.
End Prog.
Arguments prog W A : clear implicits.
Arguments Ret {W A} a.
Arguments Tick {W A} f k.
Arguments Atomic {W A X} m k.
Arguments frame W L A : clear implicits.

(** ** Driving a coroutine *)

Section Drain.
Context {W : Type}.

(** Up to [fuel] blocks of coroutine [i], nothing else running. *)
Fixpoint drain (fuel i : nat) (s : list (prog W unit) * W) : list (prog W unit) * W :=
  match fuel with
  | O => s
  | S f =>
      match s.1 !! i with
      | Some p => match advance p s.2 with
                  | Some (p', w') => drain f i (<[i := p']> s.1, w')
                  | None => s
                  end
      | None => s
      end
  end.

Lemma drain_steps spawnable fuel i s : rtc (pool_step spawnable) s (drain fuel i s).
Proof.
  revert s. induction fuel as [|f IH]; intros [ts w]; simpl; [done|].
  destruct (ts !! i) as [p|] eqn:Hi; [|done]. destruct p as [a|g k|X m k]; simpl; [done|..].
  - eapply rtc_l; [by eapply step_tick|]. apply IH.
  - eapply rtc_l; [eapply step_atomic; [exact Hi|constructor]|]. apply IH.
Qed.

(** A coroutine arrives and runs up to [fuel] blocks. *)
Definition arrive (p : prog W unit) (fuel : nat) (s : list (prog W unit) * W) : list (prog W unit) * W :=
  drain fuel 0 (p :: s.1, s.2).

Lemma arrive_steps (spawnable : prog W unit → Prop) p fuel s :
  spawnable p → rtc (pool_step spawnable) s (arrive p fuel s).
Proof. intros Hp. destruct s as [ts w]. eapply rtc_l; [by apply step_spawn|]. apply drain_steps. Qed.
End Drain.

(** ** A coroutine over a part of the world *)

Section Zoom.
Context {W D : Type} (l : Lens W D).

Fixpoint pzoom {A} (p : prog D A) : prog W A :=
  match p with
  | Ret a => Ret a
  | Tick f k => Tick (λ w, put l (f (view l w)) w) (pzoom k)
  | Atomic m k => Atomic (zoom l m) (λ r, pzoom (k r))
  end.

Context (IW : W → Prop) (EW : W → W → Prop) (ID : D → Prop) (ED : D → D → Prop).
Context (view_inv : ∀ w, IW w → ID (view l w)) (view_evolves : ∀ w w', EW w w' → ED (view l w) (view l w')).
Context (view_put : ∀ d w, view l (put l d w) = d) (put_view : ∀ w, put l (view l w) w = w).
Context (put_ok : ∀ w d, IW w → ID d → ED (view l w) d → IW (put l d w) ∧ EW w (put l d w)).

Lemma zoom_outcome {X} (m : ST D X) w r w' :
  outcome (zoom l m) w r w' → ∃ d', outcome m (view l w) r d' ∧ w' = put l d' w.
Proof.
  assert ((zoom l m w).1 = (m (view l w)).1 ∧ (zoom l m w).2 = put l (m (view l w)).2 w) as [E1 E2].
  { unfold zoom. by destruct (m (view l w)). }
  destruct 1 as [|e He|e He].
  - exists (m (view l w)).2. split; [|done]. rewrite E1. constructor.
  - exists (view l w). split; [by constructor|by rewrite put_view].
  - exists (m (view l w)).2. split; [by constructor|done].
Qed.

Lemma wp_pzoom {A} (p : prog D A) (Q : A → D → Prop) w0 :
  wp ID ED p Q (view l w0) → wp IW EW (pzoom p) (λ a w, Q a (view l w)) w0.
Proof.
  revert w0. induction p as [a|f k IH|X m k IH]; intros w0 Hp; simpl in *; [done|..].
  - intros w HI He. destruct (Hp (view l w) (view_inv _ HI) (view_evolves _ _ He)) as (HD & HE & Hk).
    destruct (put_ok w _ HI HD HE). split_and!; [done..|]. apply IH. by rewrite view_put.
  - intros w r w' HI He Ho. apply zoom_outcome in Ho as (d' & Ho & ->).
    destruct (Hp (view l w) r d' (view_inv _ HI) (view_evolves _ _ He) Ho) as (HD & HE & Hk).
    destruct (put_ok w _ HI HD HE). split_and!; [done..|]. apply IH. by rewrite view_put.
Qed.
End Zoom.

(** Apply a rule of this file, finding the pre-order it needs. *)
Tactic Notation "rule" uconstr(r) := apply r; [apply _|..].
Tactic Notation "bind_with" uconstr(t) := eapply wpt_bind with (P := t); [apply _|..].
