(* ===== verification/Auth.v ===== *)
(** * Auth: token validation, role gates and the JWKS refresh guard (src/shared/auth)

    [resolve_signing_key] finds the key of a token through PyJWT's JWKS client,
    refreshing at most once per interval; [get_current_user] turns a bearer token
    into a claims-only [Principal]; [require_role] gates on realm roles.  PyJWT is
    a parameter: the header of a token, signature and registered-claim validation,
    and the client with its cache of key ids.  Times are milliseconds of the
    monotonic clock. *)

From Stdlib Require Import Ascii String.
From S2P Require Import Prelude Errors Text Effects Json.

(** ** The principal *)

Record Principal := MkPrincipal { pr_sub : string; pr_email : option string; pr_roles : gset string }.

(** [has_role] and [is_admin] *)
Definition has_role (roles : list string) (p : Principal) : bool := existsb (λ r, bool_decide (r ∈ pr_roles p)) roles.
Definition is_admin (p : Principal) : bool := bool_decide ("admin"%string ∈ pr_roles p).

(** [require_role] *)
Definition require_role (roles : list string) (p : Principal) : result Principal :=
  if has_role roles p then Ok p else Err AuthorizationError.

(** ** Claims *)

(** [isinstance(role, str)] for every item *)
Fixpoint role_names (l : list json) : option (list string) :=
  match l with
  | [] => Some []
  | JString r :: rest => rs ← role_names rest; Some (r :: rs)
  | _ :: _ => None
  end.

(** The claims part of [get_current_user]; a [KeyError] becomes the same 401. *)
Definition principal_of_claims (claims : list (string * json)) : result Principal :=
  match dict_get "sub" claims with
  | Some (JString (String c s)) =>
      email ← match dict_get "email" claims with
              | None | Some JNull => Ok None
              | Some (JString e) => Ok (Some e)
              | Some _ => Err AuthenticationError
              end;
      realm_access ← match dict_get "realm_access" claims with
                     | None => Ok []
                     | Some (JObject d) => Ok d
                     | Some _ => Err AuthenticationError
                     end;
      roles ← match dict_get "roles" realm_access with
              | None => Ok []
              | Some (JArray l) => match role_names l with Some rs => Ok rs | None => Err AuthenticationError end
              | Some _ => Err AuthenticationError
              end;
      Ok (MkPrincipal (String c s) email (list_to_set roles))
  | _ => Err AuthenticationError
  end.

(** ** PyJWT *)

(** What [jwk_set_cache] holds at a moment: no such cache, nothing (or expired), an
    unusable body, or the key ids. *)
Inductive JwkCache := NoCache | NothingCached | UnusableBody | CachedKeys (kids : list (option string)).

Class Pyjwt (C : Type) := {
  SigningKey : Type;
  get_unverified_kid : string → result (option string);
  jwt_decode : string → SigningKey → list string → string → string → list string → result (list (string * json));
  jwk_set_cache : Z → C → JwkCache;
  get_signing_key_from_jwt : Z → string → ST C SigningKey
}.

Section Jwks.
Context {C : Type} `{!Pyjwt C}.

(** [_RefreshGuard]: the lock, the last attempt and whether the provider failed it. *)
Record RefreshGuard := MkGuard { g_locked : bool; last_attempt : Z; last_error : bool }.

(** The process: the shared client, its guard, the clock; and, for the theorems
    only, the instants at which refreshes were started, the latest first. *)
Record JwksWorld := MkJwks {
  jw_client : C;
  jw_guard : option RefreshGuard;
  jw_now : Z;
  jw_refreshes : list Z
}.

Definition set_guard (g : RefreshGuard) (w : JwksWorld) : JwksWorld :=
  MkJwks (jw_client w) (Some g) (jw_now w) (jw_refreshes w).

(** [_cached_kids] *)
Definition cached_kids (now : Z) (c : C) : option (list (option string)) :=
  match jwk_set_cache now c with
  | NoCache => None
  | NothingCached | UnusableBody => Some []
  | CachedKeys kids => Some kids
  end.

(** [_would_fetch] *)
Definition would_fetch (kid : option string) (w : JwksWorld) : bool :=
  match cached_kids (jw_now w) (jw_client w) with
  | None => false
  | Some kids => bool_decide (kid ∉ kids)
  end.

(** The threadpool call of the client. *)
Definition ask_client (token : string) : ST JwksWorld SigningKey := λ w,
  let '(r, c) := get_signing_key_from_jwt (jw_now w) token (jw_client w) in
  (r, MkJwks c (jw_guard w) (jw_now w) (jw_refreshes w)).

(** [_lookup] *)
Definition lookup_key (token : string) : frame JwksWorld unit SigningKey :=
  try_catch (await (ask_client token))
    (λ e, match e with
          | PyJWKClientConnectionError => throw DependencyUnavailableError
          | PyJWKClientError =>
              kids ← await (λ w, (Ok (cached_kids (jw_now w) (jw_client w)), w));
              match kids with
              | Some (_ :: _) => throw PyJWKClientError
              | _ => throw DependencyUnavailableError
              end
          | MalformedKeySet | ValueError | AttributeError | TypeError => throw DependencyUnavailableError
          | e => throw e
          end).

(** [_would_fetch], and the guard made on first use: no [await] in between. *)
Definition check_cache (kid : option string) : ST JwksWorld bool := λ w,
  if would_fetch kid w then
    (Ok true, match jw_guard w with Some _ => w | None => set_guard (MkGuard false 0 false) w end)
  else (Ok false, w).

(** [guard.lock]: waiting is not being scheduled; a waiter that is scheduled while
    the lock is taken was cancelled. *)
Definition acquire_lock : ST JwksWorld unit := λ w,
  match jw_guard w with
  | Some (MkGuard false a e) => (Ok tt, set_guard (MkGuard true a e) w)
  | _ => (Err (CancelledError OutsideCancel), w)
  end.
Definition release_lock : ST JwksWorld unit := λ w,
  match jw_guard w with
  | Some (MkGuard _ a e) => (Ok tt, set_guard (MkGuard false a e) w)
  | None => (Ok tt, w)
  end.

Inductive RefreshDecision := BroughtIn | Throttled (failed : bool) | Refresh.

(** Under the lock, up to the next [await]: look again, throttle, claim the attempt. *)
Definition claim_refresh (min_refresh_interval : Z) (kid : option string) : ST JwksWorld RefreshDecision := λ w,
  if negb (would_fetch kid w) then (Ok BroughtIn, w)
  else match jw_guard w with
  | Some g =>
      if decide (jw_now w - last_attempt g < min_refresh_interval) then (Ok (Throttled (last_error g)), w)
      else (Ok Refresh, MkJwks (jw_client w) (Some (MkGuard (g_locked g) (jw_now w) false)) (jw_now w)
                               (jw_now w :: jw_refreshes w))
  | None => (Err AttributeError, w)
  end.

(** [guard.last_error = exc] *)
Definition remember_failure : ST JwksWorld unit := λ w,
  match jw_guard w with
  | Some g => (Ok tt, set_guard (MkGuard (g_locked g) (last_attempt g) true) w)
  | None => (Ok tt, w)
  end.

(** [resolve_signing_key] *)
Definition resolve_signing_key (min_refresh_interval : Z) (token : string) : frame JwksWorld unit SigningKey :=
  kid ← of_result (get_unverified_kid token);
  fetch ← await (check_cache kid);
  if negb fetch then lookup_key token
  else
    await acquire_lock ;;
    try_finally
      (d ← await (claim_refresh min_refresh_interval kid);
       match d with
       | BroughtIn => lookup_key token
       | Throttled true => throw DependencyUnavailableError
       | Throttled false => throw PyJWKClientError
       | Refresh =>
           try_catch (lookup_key token)
             (λ e, if is_DependencyUnavailable e then await remember_failure ;; throw e else throw e)
       end)
      (await release_lock).

(** ** The dependency *)

Record AuthSettings := MkAuth {
  keycloak_issuer : option string;
  keycloak_audience : string;
  jwt_algorithm : string;
  jwks_min_refresh_interval : Z
}.

(** [get_current_user] *)
Definition get_current_user (st : AuthSettings) (credentials : option string) : frame JwksWorld unit Principal :=
  match credentials with
  | None => throw AuthenticationError
  | Some token =>
      match keycloak_issuer st with
      | None | Some EmptyString => throw RuntimeError
      | Some issuer =>
          key ← try_catch (resolve_signing_key (jwks_min_refresh_interval st) token)
            (λ e, match e with
                  | PyJWKClientError | PyJWKClientConnectionError | InvalidTokenError => throw AuthenticationError
                  | e => throw e
                  end);
          claims ← of_result (match jwt_decode token key [jwt_algorithm st] (keycloak_audience st) issuer
                                      ["exp"; "iss"; "aud"; "sub"]%string with
                              | Err InvalidTokenError => Err AuthenticationError
                              | r => r
                              end);
          of_result (principal_of_claims claims)
      end
  end.
End Jwks.
