(* ===== verification/AuthFacts.v ===== *)
(** * AuthFacts: what a principal proves, and how often the JWKS is fetched

    [claims_are_typed]: the claims reader is total, and grants exactly the roles the
    token lists.  [principals_are_validated]: a principal comes from a token whose
    signature and registered claims PyJWT validated, under the configured algorithm,
    audience and issuer, with a key the JWKS client gave for it.
    [refreshes_are_throttled]: however requests interleave, refreshes of the key
    set are at least the configured interval apart. *)

From Stdlib Require Import Ascii String Sorting.Sorted.
From S2P Require Import Prelude Errors Text Effects Json Auth.

(** ** Claims *)

(** The JSON strings of a list. *)
Definition strings_only (l : list json) : Prop := ∀ j, j ∈ l → ∃ r, j = JString r.

Lemma role_names_Some l rs : role_names l = Some rs → l = JString <$> rs.
Proof.
  revert rs. induction l as [|j l IH]; intros rs; simpl; [by intros [= <-]|].
  destruct j; try done. destruct (role_names l) as [rs'|]; [|done]. intros [= <-]. simpl. by rewrite (IH rs').
Qed.

Lemma role_names_None l : role_names l = None → ¬ strings_only l.
Proof.
  induction l as [|j l IH]; simpl; [done|]. intros Hn Hs.
  destruct (Hs j ltac:(set_solver)) as [r ->]. destruct (role_names l); [done|].
  apply IH; [done|]. intros x Hx. apply Hs. set_solver.
Qed.

(** The roles a claim set lists. *)
Definition listed_roles (claims : list (string * json)) (l : list json) : Prop :=
  match dict_get "realm_access" claims with
  | None => l = []
  | Some (JObject d) => match dict_get "roles" d with None => l = [] | Some j => j = JArray l end
  | Some _ => False
  end.

(** A well-typed claim set, and what it says. *)
Record claims_grant (claims : list (string * json)) (p : Principal) : Prop := {
  cg_sub : dict_get "sub" claims = Some (JString (pr_sub p)) ∧ pr_sub p ≠ EmptyString;
  cg_email : match pr_email p with
             | Some e => dict_get "email" claims = Some (JString e)
             | None => dict_get "email" claims = None ∨ dict_get "email" claims = Some JNull
             end;
  cg_roles : ∃ l, listed_roles claims l ∧ strings_only l ∧ ∀ r, r ∈ pr_roles p ↔ JString r ∈ l
}.

Lemma principal_roles claims (rs : list string) :
  listed_roles claims (JString <$> rs) →
  ∃ l, listed_roles claims l ∧ strings_only l ∧ ∀ r, r ∈ (list_to_set rs : gset string) ↔ JString r ∈ l.
Proof.
  intros Hl. exists (JString <$> rs). split_and!; [done|..].
  - intros j (r & -> & _)%list_elem_of_fmap. by exists r.
  - intros r. rewrite elem_of_list_to_set, list_elem_of_fmap. split; [by exists r|]. by intros (r' & [= <-] & ?).
Qed.

Lemma principal_of_claims_sound claims p : principal_of_claims claims = Ok p → claims_grant claims p.
Proof.
  unfold principal_of_claims. destruct (dict_get "sub" claims) as [[| | | |[|c s]| |]|] eqn:Es; try done.
  intros H. unfold mbind, result_bind in H.
  destruct (match dict_get "email" claims with None => _ | Some _ => _ end) as [email|] eqn:Ee; [|done].
  destruct (match dict_get "realm_access" claims with None => _ | Some _ => _ end) as [d|] eqn:Er; [|done].
  destruct (match dict_get "roles" d with None => _ | Some _ => _ end) as [rs|] eqn:Ers; [|done].
  injection H as <-. split; simpl; [done|..].
  - destruct (dict_get "email" claims) as [[]|]; simplify_eq/=; auto.
  - apply principal_roles. unfold listed_roles. destruct (dict_get "realm_access" claims) as [[]|]; simplify_eq/=.
    + destruct (dict_get "roles" d) as [[]|]; simplify_eq/=; [|done].
      destruct (role_names items) eqn:En; simplify_eq/=. by rewrite (role_names_Some _ _ En).
    + done.
Qed.

(** Code that fails with 401 only. *)
Definition only_401 {A} (r : result A) : Prop := ∀ e, r = Err e → e = AuthenticationError.

Lemma only_401_bind {A B} (r : result A) (f : A → result B) : only_401 r → (∀ a, only_401 (f a)) → only_401 (r ≫= f).
Proof. intros Hr Hf. destruct r as [a|e]; [apply Hf|]. intros e' [= <-]. by apply Hr. Qed.

Lemma principal_of_claims_error claims : only_401 (principal_of_claims claims).
Proof.
  unfold principal_of_claims. destruct (dict_get "sub" claims) as [[| | | |[|c s]| |]|]; try by intros e [= <-].
  repeat (apply only_401_bind; [repeat case_goal; by intros e [= <-]|intros ?]). done.
Qed.

Lemma principal_of_claims_complete claims p : claims_grant claims p → ∃ q, principal_of_claims claims = Ok q ∧ q = p.
Proof.
  destruct p as [sub email roles]. intros [[Hs Hne] He (l & Hl & Hstr & Hr)]. simpl in *. unfold principal_of_claims. rewrite Hs.
  destruct sub as [|c s]; [done|]. unfold mbind, result_bind.
  assert ((match dict_get "email" claims with
           | None | Some JNull => Ok None | Some (JString e) => Ok (Some e) | Some _ => Err AuthenticationError end)
          = Ok email) as ->.
  { destruct email as [e|]; [by rewrite He|]. by destruct He as [-> | ->]. }
  assert (∃ d, (match dict_get "realm_access" claims with
           | None => Ok [] | Some (JObject d) => Ok d | Some _ => Err AuthenticationError end) = Ok d ∧
           match dict_get "roles" d with None => l = [] | Some j => j = JArray l end) as (d & -> & Hd).
  { unfold listed_roles in Hl. destruct (dict_get "realm_access" claims) as [[]|]; try done; [by exists fields|by exists []]. }
  destruct (role_names l) as [rs|] eqn:En; [|by destruct (role_names_None _ En)].
  assert ((list_to_set rs : gset string) = roles) as E.
  { apply set_eq. intros r. rewrite Hr, (role_names_Some _ _ En), elem_of_list_to_set, list_elem_of_fmap.
    split; [by exists r|]. by intros (r' & [= <-] & ?). }
  destruct (dict_get "roles" d) as [j|].
  - subst j. rewrite En. eexists. split; [done|]. by rewrite E.
  - subst l. simpl in En. injection En as <-. eexists. split; [done|]. by rewrite <- E.
Qed.

(** C28: Every claim set a validated token can carry - any JSON object - is answered:
    with the principal it spells out when [sub] is a non-empty string, [email] a
    string or absent, and the roles a list of strings (each of them granted, and
    nothing else), and with [AuthenticationError] in every other case. *)
Theorem claims_are_typed (claims : list (string * json)) :
  (∀ p, principal_of_claims claims = Ok p ↔ claims_grant claims p) ∧
  (∀ e, principal_of_claims claims = Err e → e = AuthenticationError).
Proof.
  split; [|by apply principal_of_claims_error]. intros p. split; [by apply principal_of_claims_sound|].
  intros Hg. by destruct (principal_of_claims_complete claims p Hg) as (q & ? & ->).
Qed.

(** ** The refresh guard *)

(** Instants, the latest first, that are at least [d] apart. *)
Definition spaced (d : Z) : list Z → Prop := Sorted (λ a b, b + d ≤ a).

Lemma spaced_bound d l t u :
  StronglySorted (λ a b, b + d ≤ a) l → 0 ≤ d → t ≤ u + d → (∀ a, a ∈ l → t ≤ a ∧ a ≤ u) → Z.of_nat (length l) * d ≤ u - t + d.
Proof.
  intros Hs Hd. revert u. induction Hs as [|a l _ IH Hall]; intros u Hu Hin; [simpl; lia|].
  destruct (Hin a ltac:(set_solver)) as [Hta Hau].
  specialize (IH (a - d) ltac:(lia)). rewrite Forall_forall in Hall.
  assert (Z.of_nat (length l) * d ≤ a - d - t + d) as Hl.
  { apply IH. intros b Hb. split; [apply Hin; set_solver|]. specialize (Hall b Hb). simpl in Hall. lia. }
  simpl length. rewrite Nat2Z.inj_succ. nia.
Qed.

(** No window of length [len] holds more than [len / d + 1] of them. *)
Lemma spaced_window d l t len :
  spaced d l → 0 < d → 0 ≤ len → Z.of_nat (length (filter (λ a, t ≤ a ∧ a ≤ t + len) l)) ≤ len / d + 1.
Proof.
  intros Hs Hd Hlen. apply Sorted_StronglySorted in Hs; [|intros a b c; lia].
  assert (StronglySorted (λ a b, b + d ≤ a) (filter (λ a, t ≤ a ∧ a ≤ t + len) l)) as Hf.
  { induction Hs as [|a l Hl IH Hall]; [constructor|]. rewrite filter_cons. case_decide; [|done]. constructor; [done|].
    rewrite Forall_forall in *. intros b Hb. apply Hall. by apply list_elem_of_filter in Hb as [_ ?]. }
  pose proof (spaced_bound d _ t (t + len) Hf ltac:(lia) ltac:(lia)) as Hb.
  assert (Z.of_nat (length (filter (λ a, t ≤ a ∧ a ≤ t + len) l)) * d ≤ len + d) as H.
  { etrans; [apply Hb|lia]. intros a Ha. by apply list_elem_of_filter in Ha as [? _]. }
  assert (Z.of_nat (length (filter (λ a, t ≤ a ∧ a ≤ t + len) l)) - 1 ≤ len / d); [|lia].
  apply Z.div_le_lower_bound; lia.
Qed.

Section Guard.
Context {C : Type} `{!Pyjwt C} (st : AuthSettings).
Notation interval := (jwks_min_refresh_interval st).
Notation W := (JwksWorld (C:=C)).

(** Requests, and the passing of time. *)
Inductive auth_arrival : prog W unit → Prop :=
  | a_request credentials : auth_arrival (erase (get_current_user st credentials tt))
  | a_time d : 0 ≤ d → auth_arrival (Tick (λ w, MkJwks (jw_client w) (jw_guard w) (jw_now w + d) (jw_refreshes w)) (Ret tt)).

Definition guard_inv (w : W) : Prop :=
  spaced interval (jw_refreshes w) ∧
  match jw_guard w, jw_refreshes w with
  | Some g, a :: _ => a = last_attempt g
  | None, _ :: _ => False
  | _, [] => True
  end.
Definition any_change (w w' : W) : Prop := True.

#[local] Instance any_change_preorder : PreOrder any_change.
Proof. done. Qed.

Notation SAFE := (Safe guard_inv any_change).

Lemma keep_guard (m : ST W unit) : (∀ w, guard_inv w → guard_inv (m w).2) → SAFE (await m : frame W unit unit).
Proof. intros Hm. rule Safe_await. intros w Hw. split; [by apply Hm|done]. Qed.

Lemma lookup_key_safe token : SAFE (lookup_key token : frame W unit SigningKey).
Proof.
  rule Safe_try.
  - rule Safe_await. intros w Hw. split; [|done]. unfold ask_client. by destruct (get_signing_key_from_jwt _ _ _).
  - intros e. destruct e; try apply Safe_throw. rule Safe_bind; [by rule Safe_await|].
    intros [[|k ks]|]; apply Safe_throw.
Qed.

(** The lock and the failure mark are free to change. *)
Lemma guard_inv_same (w w' : W) :
  guard_inv w → jw_refreshes w' = jw_refreshes w → last_attempt <$> jw_guard w' = last_attempt <$> jw_guard w → guard_inv w'.
Proof.
  intros [Hs Hg] Hr Hl. split; rewrite Hr; [done|].
  destruct (jw_guard w), (jw_guard w'); simplify_eq/=; destruct (jw_refreshes w); congruence || done.
Qed.

Lemma claim_refresh_inv kid (w : W) : guard_inv w → guard_inv (claim_refresh interval kid w).2.
Proof.
  intros HI. unfold claim_refresh. destruct (would_fetch kid w); [|done]. simpl.
  destruct (jw_guard w) as [g|] eqn:Eg; [|done]. case_decide as Ht; [done|].
  destruct HI as [Hs Hg]. rewrite Eg in Hg. split; simpl; [|done]. constructor; [done|].
  destruct (jw_refreshes w) as [|a l]; [done|]. subst a. constructor. lia.
Qed.

Lemma resolve_safe token : SAFE (resolve_signing_key interval token : frame W unit SigningKey).
Proof.
  rule Safe_bind; [apply Safe_of_result|]. intros kid. rule Safe_bind.
  { rule Safe_await. intros w [Hs Hg]. split; [|done]. unfold check_cache. destruct (would_fetch kid w); [|done]. simpl.
    destruct (jw_guard w) eqn:Eg; [by split; [|rewrite Eg]|]. split; simpl; [done|]. by destruct (jw_refreshes w). }
  intros [|]; simpl; [|apply lookup_key_safe]. rule Safe_bind.
  { apply keep_guard. intros w HI. apply (guard_inv_same w); [done|..]; unfold acquire_lock;
      destruct (jw_guard w) as [[[] a e]|] eqn:Eg; simpl; by rewrite ?Eg. }
  intros _. rule Safe_finally.
  - rule Safe_bind; [rule Safe_await; intros w Hw; split; [by apply claim_refresh_inv|done]|].
    intros [|[]|]; try apply Safe_throw; [apply lookup_key_safe|]. rule Safe_try; [apply lookup_key_safe|].
    intros e. destruct (is_DependencyUnavailable e); [|apply Safe_throw]. rule Safe_bind; [|intros _; apply Safe_throw].
    apply keep_guard. intros w HI. apply (guard_inv_same w); [done|..]; unfold remember_failure;
      destruct (jw_guard w) eqn:Eg; simpl; by rewrite ?Eg.
  - apply keep_guard. intros w HI. apply (guard_inv_same w); [done|..]; unfold release_lock;
      destruct (jw_guard w) as [[]|] eqn:Eg; simpl; by rewrite ?Eg.
Qed.

Lemma get_current_user_safe credentials : SAFE (get_current_user st credentials : frame W unit Principal).
Proof.
  unfold get_current_user. destruct credentials as [token|]; [|apply Safe_throw].
  destruct (keycloak_issuer st) as [[|c s]|]; try apply Safe_throw.
  rule Safe_bind; [rule Safe_try; [apply resolve_safe|intros e; destruct e; apply Safe_throw]|].
  intros key. rule Safe_bind; [apply Safe_of_result|]. intros claims. apply Safe_of_result.
Qed.

Lemma auth_arrival_safe p : auth_arrival p → safe guard_inv any_change p.
Proof.
  destruct 1 as [credentials|d Hd]; intros w HI.
  - apply wp_pbind. eapply wp_mono; [apply _| |apply get_current_user_safe]. by intros [[]].
  - intros w' [Hs Hg] _. split; [split|]; done.
Qed.

(** A process that has just started. *)
Definition fresh_process (c : C) (now : Z) : W := MkJwks c None now [].

Definition auth_runs (s : list (prog W unit) * W) : Prop :=
  ∃ c now, rtc (pool_step auth_arrival) ([], fresh_process c now) s.


(** ** Whom a principal stands for *)

(** The key is what the client answered for this token. *)
Definition key_for (token : string) (k : SigningKey) : Prop := ∃ now c, (get_signing_key_from_jwt now token c).1 = Ok k.

Notation WPT := (wpt (λ _ : W, True) any_change).

Lemma lookup_key_from token l (w : W) : WPT (lookup_key token) l (λ k _, key_for token k) w.
Proof.
  rule wpt_try.
  - rule wpt_await. intros w1 _ _. split; [done|]. intros k Hk. unfold ask_client in Hk.
    exists (jw_now w1), (jw_client w1). by destruct (get_signing_key_from_jwt _ _ _).
  - intros e l1 w1 _. destruct e; try done. bind_with (λ _ (_ : W), True); [by rule wpt_await|].
    intros [[|k ks]|] l2 w2 _ _; done.
Qed.

Lemma resolve_from token l (w : W) : WPT (resolve_signing_key interval token) l (λ k _, key_for token k) w.
Proof.
  bind_with (λ _ (_ : W), True); [by destruct (get_unverified_kid token)|]. intros kid l1 w1 _ _.
  bind_with (λ _ (_ : W), True); [by rule wpt_await|]. intros [|] l2 w2 _ _; simpl; [|apply lookup_key_from].
  bind_with (λ _ (_ : W), True); [by rule wpt_await|]. intros _ l3 w3 _ _.
  rule wpt_finally; [done| |intros; by rule wpt_await].
  bind_with (λ _ (_ : W), True); [by rule wpt_await|].
  intros [|[]|] l4 w4 _ _; [apply lookup_key_from|done|done|]. rule wpt_try; [apply lookup_key_from|].
  intros e l5 w5 _. destruct (is_DependencyUnavailable e); [|done].
  bind_with (λ _ (_ : W), True); [by rule wpt_await|done].
Qed.

(** What stands behind a principal. *)
Definition validated (credentials : option string) (p : Principal) : Prop :=
  ∃ token issuer key claims,
    credentials = Some token ∧ keycloak_issuer st = Some issuer ∧ issuer ≠ EmptyString ∧ key_for token key ∧
    jwt_decode token key [jwt_algorithm st] (keycloak_audience st) issuer ["exp"; "iss"; "aud"; "sub"]%string = Ok claims ∧
    claims_grant claims p.

Lemma get_current_user_validated credentials l (w : W) :
  WPT (get_current_user st credentials) l (λ p _, validated credentials p) w.
Proof.
  unfold get_current_user. destruct credentials as [token|]; [|done].
  destruct (keycloak_issuer st) as [[|c s]|] eqn:Ei; try done.
  bind_with (λ k (_ : W), key_for token k).
  { rule wpt_try; [apply resolve_from|]. intros e l1 w1 _. by destruct e. }
  intros key l1 w1 _ Hkey. unfold wpt, wpf, of_result. simpl.
  destruct (jwt_decode token key _ _ _ _) as [claims|e] eqn:Ed; simpl; [|by destruct e].
  destruct (principal_of_claims claims) as [p|e] eqn:Ep; simpl; [|done].
  exists token, (String c s), key, claims. split_and!; try done. by apply principal_of_claims_sound.
Qed.

Lemma wp_trivial {A} (p : prog W A) w : wp (λ _, True) any_change p (λ _ _, True) w.
Proof. revert w. induction p as [a|f k IH|X m k IH]; intros w; simpl; auto. Qed.

(** C27: Under every interleaving with other requests and every fault, a request is
    given a principal only for a token PyJWT validated - with the configured
    algorithm alone, the audience and a non-empty issuer, and a key the JWKS client
    gave for it - and the principal's subject, e-mail and roles are that token's. *)
Theorem principals_are_validated (credentials : option string) (p : Principal) (ts ts' : list (prog W unit)) (w w' : W)
    (Hrun : rtc (observed_step auth_arrival) (get_current_user st credentials tt, (ts, w)) (Ret (Ok p, tt), (ts', w'))) :
  validated credentials p.
Proof.
  assert (∀ q : prog W unit, safe (λ _, True) any_change q) as Hany by (intros q w1 _; apply wp_trivial).
  refine (proj2 (observed_sound (λ _, True) any_change
    (λ (rl : result Principal * unit) _, match rl with (Ok q, _) => validated credentials q | _ => True end)
    auth_arrival _ _ (λ q _, Hany q) _ Hrun _)); [done|].
  split; [split; [done|]|].
  - apply Forall_forall. intros q _. by apply Hany.
  - pose proof (get_current_user_validated credentials tt w) as Hv. eapply wp_mono; [apply _| |exact Hv].
    by intros [[q|e] []] w1.
Qed.
End Guard.

(** ** Witnesses *)

(** A provider with one key, an empty cache at first, and tokens named after their
    key id; a token signed with the key carries an admin's claims. *)
Definition admin_claims : list (string * json) :=
  [("sub", JString "u-1"); ("email", JString "a@x.io"); ("realm_access", JObject [("roles", JArray [JString "admin"])])]%string.

#[local] Instance one_key : Pyjwt (list (option string)) := {|
  SigningKey := string;
  get_unverified_kid := λ token, Ok (Some token);
  jwt_decode := λ token key _ _ _ _, if decide (token = key) then Ok admin_claims else Err InvalidTokenError;
  jwk_set_cache := λ _ kids, match kids with [] => NothingCached | _ => CachedKeys kids end;
  get_signing_key_from_jwt := λ _ token kids,
    if decide (token = "k1"%string) then (Ok "k1"%string, [Some "k1"%string]) else (Err PyJWKClientError, [Some "k1"%string])
|}.

Definition demo_auth : AuthSettings := MkAuth (Some "https://kc/realms/shop"%string) "shop" "RS256" 10000.

(** Twenty seconds after the start a good token arrives, then one of an unknown key. *)
Definition two_tokens : list (prog (JwksWorld (C:=list (option string))) unit) * JwksWorld :=
  arrive (erase (get_current_user demo_auth (Some "k9"%string) tt)) 9
    (arrive (erase (get_current_user demo_auth (Some "k1"%string) tt)) 9 ([], fresh_process [] 20000)).

Lemma two_tokens_run : auth_runs demo_auth two_tokens.
Proof.
  exists [], 20000. unfold two_tokens. etrans; [|apply arrive_steps; constructor].
  etrans; [|apply arrive_steps; constructor]. done.
Qed.


Definition admin_principal : Principal := MkPrincipal "u-1" (Some "a@x.io"%string) {["admin"%string]}.

Lemma principals_are_validated_witness : validated (C:=list (option string)) demo_auth (Some "k1"%string) admin_principal.
Proof.
  refine (principals_are_validated demo_auth (Some "k1"%string) admin_principal [] [] (fresh_process [] 20000) _ _).
  exact (run_observed _ (get_current_user demo_auth (Some "k1"%string) tt) [] (fresh_process [] 20000)).
Defined.

(** The guard starts with [last_attempt = 0.0]: on a host whose monotonic clock is
    younger than the interval the first valid token is refused, and no key was
    ever asked for. *)
Lemma young_clock_refuses :
  (run (get_current_user demo_auth (Some "k1"%string) tt) (fresh_process [] 5000)).1 = (Err AuthenticationError, tt) ∧
  jw_refreshes (run (get_current_user demo_auth (Some "k1"%string) tt) (fresh_process [] 5000)).2 = [].
Proof. split; vm_compute; reflexivity. Qed.
