(* ===== verification/Identity.v ===== *)
(** * Identity: the local user mirror and the administration of accounts (src/identity)

    The [identity.users] table with its outbox and the transaction-scoped advisory
    locks of [lock]; [IdentityService] (just-in-time provisioning), the port to the
    account directory [IdentityAdminPort], [IdentityAdminService] with the cursor of
    the directory listing, and the routes of src/identity/api with their gates.

    A coroutine holds a database session; [Session] lists the advisory locks its
    open transaction owns.  Waiting for a lock is not being scheduled: a waiter that
    is scheduled while somebody else holds the lock has been given up by the server
    or the driver ([OperationalError]).  A transaction whose locks are gone was ended
    by the server, and its statements fail. *)

From Stdlib Require Import Ascii String.
From stdpp Require Import sorting.
From S2P Require Import Prelude Errors Text Parse Base64 Pagination Effects Json Auth Blake2b.

(** ** Data *)

(** The row of [identity.users]; [UserResponse] has the same fields. *)
Record User := MkUser {
  u_id : N; u_oidc_sub : string; u_email : string; u_is_active : bool; u_created_at : Z; u_updated_at : Z
}.

(** A Keycloak account in the directory listing, and the item of the answer. *)
Record DirectoryUser := MkDirectoryUser { du_sub : string; du_email : option string; du_enabled : bool }.
Record AdminUserResponse := MkAdminUser {
  au_sub : string; au_email : option string; au_merchant_role : bool; au_disabled : bool
}.

(** The table (one row per [oidc_sub]), the [UserCreated] rows of the outbox (user
    and e-mail, the newest first), the lock table, the next lock grant and the next
    primary key. *)
Record IdentityDB := MkIdentityDB {
  id_users : gmap string User;
  id_outbox : list (N * string);
  id_locks : gmap Z N;
  id_grants : N;
  id_next : N
}.

Record Session := MkSession { held : list (Z * N) }.
Definition new_session : Session := MkSession [].

(** The shared world: the database, the account directory behind its port, the clock. *)
Record IdWorld (K : Type) := MkIdWorld { iw_db : IdentityDB; iw_kc : K; iw_now : Z }.
Arguments MkIdWorld {K} _ _ _.
Arguments iw_db {K} _.
Arguments iw_kc {K} _.
Arguments iw_now {K} _.

(** ** The port to the directory *)

Class IdentityAdminPort (K : Type) := {
  grant_realm_role : string → string → ST K unit;
  revoke_realm_role : string → string → ST K unit;
  set_enabled : string → bool → ST K unit;
  get_user_email : string → ST K (option string);
  port_create_user : string → ST K string;
  port_list_users : option string → Z → Z → ST K (list DirectoryUser);
  has_realm_role : string → string → ST K bool
}.

Section Repository.
Context {K : Type}.
Notation W := (IdWorld K).

Definition on_db {A} (m : Z → ST IdentityDB A) : ST W A := λ w,
  let '(r, d) := m (iw_now w) (iw_db w) in (r, MkIdWorld d (iw_kc w) (iw_now w)).
Definition on_kc {A} (m : ST K A) : ST W A := λ w,
  let '(r, k) := m (iw_kc w) in (r, MkIdWorld (iw_db w) k (iw_now w)).

(** ** Statements *)

(** The locks of a session's transaction are all there. *)
Definition alive_in (s : Session) (d : IdentityDB) : Prop := Forall (λ kt, id_locks d !! kt.1 = Some kt.2) (held s).
#[local] Instance alive_in_dec s d : Decision (alive_in s d).
Proof. unfold alive_in. apply _. Defined.

(** The end of a transaction. *)
Definition unlock (s : Session) (locks : gmap Z N) : gmap Z N := filter (λ kt, kt.2 ∉ (held s).*2) locks.
Definition end_transaction (s : Session) (users : gmap string User) (outbox : list (N * string)) (next : N) (d : IdentityDB)
    : IdentityDB := MkIdentityDB users outbox (unlock s (id_locks d)) (id_grants d) next.

(** [pg_advisory_xact_lock(key)] of a transaction that does not own it yet. *)
Definition take_lock (key : Z) : ST IdentityDB N := λ d,
  match id_locks d !! key with
  | Some _ => (Err OperationalError, d)
  | None => (Ok (id_grants d),
             MkIdentityDB (id_users d) (id_outbox d) (<[key := id_grants d]> (id_locks d)) (id_grants d + 1) (id_next d))
  end.

(** [ROLLBACK], by the session going out of scope. *)
Definition rollback (s : Session) : ST IdentityDB unit := λ d,
  (Ok tt, end_transaction s (id_users d) (id_outbox d) (id_next d) d).

(** [VARCHAR(n)]; PostgreSQL text has no NUL. *)
Definition column_text (n : nat) (s : string) : bool :=
  bool_decide (String.length s ≤ n)%nat && negb (contains (String (ascii_of_N 0) EmptyString) s).

(** [INSERT ... ON CONFLICT (oidc_sub) DO UPDATE ... RETURNING], the outbox row of a
    genuine insert, and the commit.  The counter that stands for [uuid4] ends with the
    identifiers it can mint. *)
Definition upsert_user (s : Session) (oidc_sub email : string) (announce is_active : bool) (now : Z) : ST IdentityDB User := λ d,
  if negb (bool_decide (alive_in s d)) then (Err OperationalError, d)
  else if negb (column_text 255 oidc_sub && column_text 320 email) then (Err DataError, d)
  else match id_users d !! oidc_sub with
  | Some u =>
      let u' := MkUser (u_id u) (u_oidc_sub u) email (if is_active then u_is_active u else false) (u_created_at u) now in
      (Ok u', end_transaction s (<[oidc_sub := u']> (id_users d)) (id_outbox d) (id_next d) d)
  | None =>
      if decide (is_uuid (id_next d)) then
        let u := MkUser (id_next d) oidc_sub email is_active now now in
        (Ok u, end_transaction s (<[oidc_sub := u]> (id_users d))
                 (if announce then (u_id u, u_email u) :: id_outbox d else id_outbox d) (id_next d + 1) d)
      else (Err RuntimeError, d)
  end.

(** [UPDATE ... SET is_active ... RETURNING], and the commit; [updated_at] is set by
    the column's [onupdate]. *)
Definition update_active (s : Session) (oidc_sub : string) (is_active : bool) (now : Z) : ST IdentityDB (option User) := λ d,
  if negb (bool_decide (alive_in s d)) then (Err OperationalError, d)
  else match id_users d !! oidc_sub with
  | Some u =>
      let u' := MkUser (u_id u) (u_oidc_sub u) (u_email u) is_active (u_created_at u) now in
      (Ok (Some u'), end_transaction s (<[oidc_sub := u']> (id_users d)) (id_outbox d) (id_next d) d)
  | None => (Ok None, end_transaction s (id_users d) (id_outbox d) (id_next d) d)
  end.

(** ** [IdentityRepository] *)

(** [lock]: re-entrant. *)
Definition lock (oidc_sub : string) : frame W Session unit :=
  s ← locals;
  if decide (lock_key oidc_sub ∈ (held s).*1) then await (on_db (λ _ d, (Ok tt, d)))
  else
    grant ← await (on_db (λ _, take_lock (lock_key oidc_sub)));
    set_locals (λ s, MkSession ((lock_key oidc_sub, grant) :: held s)).

(** [get_by_oidc_sub] and [get_by_id] *)
Definition get_by_oidc_sub (oidc_sub : string) : frame W Session (option User) :=
  await (on_db (λ _ d, (Ok (id_users d !! oidc_sub), d))).
Definition get_by_id (user_id : N) : frame W Session (option User) :=
  await (on_db (λ _ d, (Ok (option_map snd (find_row (λ u, u_id u = user_id) (id_users d))), d))).

(** [get_or_create]; [announce] says whether an outbox factory was given. *)
Definition get_or_create (oidc_sub email : string) (announce is_active : bool) : frame W Session User :=
  lock oidc_sub ;;
  s ← locals;
  u ← await (on_db (upsert_user s oidc_sub email announce is_active));
  set_locals (λ _, new_session) ;;
  mret u.

(** [set_active] *)
Definition set_active (oidc_sub : string) (is_active : bool) : frame W Session (option User) :=
  s ← locals;
  u ← await (on_db (update_active s oidc_sub is_active));
  set_locals (λ _, new_session) ;;
  mret u.

(** ** [IdentityService] *)

(** [get_or_create_by_sub] *)
Definition get_or_create_by_sub (oidc_sub email : string) : frame W Session User :=
  get_or_create oidc_sub email true true.

(** [get_current_db_user] (src/bootstrap/container.py) *)
Definition get_current_db_user (p : Principal) : frame W Session User :=
  match pr_email p with
  | None => throw AuthenticationError
  | Some email =>
      user ← get_or_create_by_sub (pr_sub p) email;
      if u_is_active user then mret user else throw AuthorizationError
  end.
End Repository.

(** ** The offset cursor *)

(** [_encode_offset_cursor] *)
Definition encode_offset_cursor (offset : Z) (limit : option Z) (search : option string) : string :=
  b64_encode (dumps (JObject (("offset"%string, JInt offset) ::
    match limit with
    | None => []
    | Some n => [("limit"%string, JInt n);
                 ("search"%string, match search with Some s => JString s | None => JNull end)]
    end))).

(** [_decode_offset_cursor] *)
Definition decode_offset_cursor (cursor : string) : result (Z * option Z * option string) :=
  match (b64_decode cursor ≫= utf8_decode) ≫= loads with
  | Some (JObject parsed) =>
      match dict_get "offset" parsed with
      | Some (JInt offset) =>
          if decide (offset < 0) then Err InvalidCursorError
          else match dict_get "limit" parsed with
          | None | Some JNull => Ok (offset, None, None)
          | Some (JInt limit) =>
              if decide (limit < 1) then Err InvalidCursorError
              else match dict_get "search" parsed with
              | None | Some JNull => Ok (offset, Some limit, None)
              | Some (JString s) => Ok (offset, Some limit, Some s)
              | Some _ => Err InvalidCursorError
              end
          | Some _ => Err InvalidCursorError
          end
      | _ => Err InvalidCursorError
      end
  | _ => Err InvalidCursorError
  end.

(** ** [IdentityAdminService] *)

Section Admin.
Context {K : Type} `{!IdentityAdminPort K}.
Notation W := (IdWorld K).

(** [grant_merchant], [revoke_merchant] and [create_user] *)
Definition grant_merchant (oidc_sub : string) : frame W Session unit :=
  await (on_kc (grant_realm_role oidc_sub "merchant")).
Definition revoke_merchant (oidc_sub : string) : frame W Session unit :=
  await (on_kc (revoke_realm_role oidc_sub "merchant")).
Definition create_user (email : string) : frame W Session string := await (on_kc (port_create_user email)).

(** [disable_user] *)
Definition disable_user (oidc_sub : string) : frame W Session unit :=
  lock oidc_sub ;;
  email ← await (on_kc (get_user_email oidc_sub));
  match email with
  | None => set_active oidc_sub false ;; mret tt
  | Some e => get_or_create oidc_sub e false false ;; mret tt
  end ;;
  await (on_kc (set_enabled oidc_sub false)).

(** [asyncio.gather] of [_is_merchant] over the page, one call after the other *)
Fixpoint gather_roles (users : list DirectoryUser) : frame W Session (list bool) :=
  match users with
  | [] => mret []
  | u :: rest =>
      flag ← await (on_kc (has_realm_role (du_sub u) "merchant"));
      flags ← gather_roles rest;
      mret (flag :: flags)
  end.

(** The walk a request continues: offset, page size. *)
Definition resume_walk (limit : Z) (cursor : option string) (search : option string) : result (Z * Z) :=
  match cursor with
  | None => Ok (0, limit)
  | Some c =>
      '(offset, pinned_limit, pinned_search) ← decode_offset_cursor c;
      match pinned_limit with
      | Some n => if decide (pinned_search = search) then Ok (offset, n) else Err InvalidCursorError
      | None => Ok (offset, limit)
      end
  end.

(** [list_users] *)
Definition list_users (limit : Z) (cursor search : option string) : frame W Session (Page AdminUserResponse) :=
  '(offset, page_limit) ← of_result (resume_walk limit cursor search);
  users ← await (on_kc (port_list_users search offset (page_limit + 1)));
  let has_more := bool_decide (page_limit < Z.of_nat (length users)) in
  let users := take (Z.to_nat page_limit) users in
  flags ← gather_roles users;
  let items := zip_with (λ u flag, MkAdminUser (du_sub u) (du_email u) flag (negb (du_enabled u))) users flags in
  mret (MkPage items (if has_more then Some (encode_offset_cursor (offset + page_limit) (Some page_limit) search) else None)).
End Admin.

(** ** Routes (src/identity/api) *)

Section Routes.
Context {K : Type} `{!IdentityAdminPort K}.
Notation W := (IdWorld K).

(** The request's session: whatever happens, it is rolled back and closed. *)
Definition with_session {A} (p : frame W Session A) : frame W Session A :=
  try_finally p (s ← locals; await (on_db (λ _, rollback s))).

(** [_SUB_PATTERN] *)
Definition any_hex (c : ascii) : bool := bool_decide (is_Some (hex_char c)).
Definition sub_pattern (s : string) : bool :=
  match split_on "-" s with
  | [a; b; c; d; e] =>
      forallb (all_chars any_hex) [a; b; c; d; e] &&
      bool_decide (String.length <$> [a; b; c; d; e] = [8; 4; 4; 4; 12]%nat)
  | _ => false
  end.

(** [CreateUserRequest.email]: one [@], a local part, a domain with a dot inside;
    nothing up to the space character. *)
Definition mail_char (c : ascii) : bool := bool_decide (32 < N_of_ascii c)%N.
Fixpoint inner_dot (first : bool) (s : string) : bool :=
  match s with
  | EmptyString | String _ EmptyString => false
  | String c rest => (negb first && bool_decide (c = "."%char)) || inner_dot false rest
  end.
Definition email_pattern (s : string) : bool :=
  bool_decide (3 ≤ String.length s ≤ 255)%nat && all_chars mail_char s &&
  match split_on "@" s with
  | [local_part; domain] => negb (bool_decide (local_part = EmptyString)) && inner_dot true domain
  | _ => false
  end.

(** FastAPI: the route's gate, then the caller's mirror, then the parameters. *)
Definition admin_route {A} (p : Principal) (params_ok : bool) (body : frame W Session A) : frame W Session A :=
  with_session (
    of_result (require_role ["admin"%string] p) ;;
    get_current_db_user p ;;
    if params_ok then body else throw RequestValidationError).

Definition get_me (p : Principal) : frame W Session User := with_session (get_current_db_user p).
Definition create_user_route (p : Principal) (email : string) : frame W Session string :=
  admin_route p (email_pattern email) (create_user email).
Definition grant_merchant_route (p : Principal) (sub : string) : frame W Session unit :=
  admin_route p (sub_pattern sub) (grant_merchant sub).
Definition revoke_merchant_route (p : Principal) (sub : string) : frame W Session unit :=
  admin_route p (sub_pattern sub) (revoke_merchant sub).
Definition disable_user_route (p : Principal) (sub : string) : frame W Session unit :=
  admin_route p (sub_pattern sub) (disable_user sub).

(** [internal_whoami]: the role gate of machine accounts, without a session. *)
Definition internal_whoami (p : Principal) : result (string * string) :=
  match require_role ["service"%string] p with
  | Ok p => Ok (pr_sub p, "service"%string)
  | Err e => Err e
  end.

(** [reject_unknown_query_params]: every undeclared name, sorted. *)
Definition unknown_params (names allowed : list string) : list string :=
  merge_sort String.le (elements (list_to_set (filter (λ n, n ∉ allowed) names) : gset string)).
Definition reject_unknown_query_params (names allowed : list string) : result unit :=
  match unknown_params names allowed with
  | [] => Ok tt
  | u => Err (InvalidQueryParamError "query" (String.concat ", " u))
  end.

Definition list_admin_users (p : Principal) (names : list string) (limit : Z) (cursor search : option string)
    : frame W Session (Page AdminUserResponse) :=
  admin_route p (bool_decide (1 ≤ limit ≤ MAX_LIMIT) &&
                 match search with Some s => bool_decide (String.length s ≤ 200)%nat | None => true end)
    (of_result (reject_unknown_query_params names ["limit"; "cursor"; "search"]%string) ;;
     list_users limit cursor search).
End Routes.
