(* ===== verification/Orders.v ===== *)
(** * Orders: the order rows, the saga journal and their guarded writes

    The tables of the [orders] schema (src/orders/adapters/db/models.py) and the
    methods of [OrdersRepository] (src/orders/adapters/db/repository.py), one
    definition per method, as computations in [ST OrdDB].

    Money ([Numeric(12, 2)]) is an integer number of cents, a [String(n)] column
    refuses longer values with [DataError], identifiers minted by [uuid4] are
    drawn from a counter, [now] is the transaction's [now()].  The journal
    [saga_log] is the list of its rows in insertion order; rows are never
    updated, so [updated_at] is [created_at]. *)

From stdpp Require Import sorting.
From S2P Require Import Prelude Errors UnitOfWork.

(** ** Data *)

Inductive OrderStatus := PENDING | PAID | SHIPPED | CANCELLED.

#[export] Instance OrderStatus_eq_dec : EqDecision OrderStatus.
Proof. solve_decision. Defined.

Record OrderItem := MkOrderItem {
  item_id : N;
  item_product : N;
  item_name : string;
  item_price : Z;
  item_qty : Z
}.

#[export] Instance OrderItem_eq_dec : EqDecision OrderItem.
Proof. solve_decision. Defined.

Record Order := MkOrder {
  ord_id : N;
  ord_user : N;
  ord_status : OrderStatus;
  ord_total : Z;
  ord_items : list OrderItem;
  ord_created_at : Z;
  ord_updated_at : Z;
  ord_key : string;
  ord_body_hash : string;
  ord_email : string
}.

#[export] Instance Order_eq_dec : EqDecision Order.
Proof. solve_decision. Defined.

(** One row of [saga_log]. *)
Record SagaLog := MkSagaLog {
  log_order : N;
  log_step : string;
  log_status : string;
  log_at : Z
}.

#[export] Instance SagaLog_eq_dec : EqDecision SagaLog.
Proof. solve_decision. Defined.

(** [OrderPlacedData], the payload of the one event this module emits. *)
Record OrderPlaced := MkOrderPlaced {
  op_order : N;
  op_user : N;
  op_total : Z;
  op_email : option string;
  op_items : list (N * string * Z * Z)
}.

Record OrdDB := MkOrdDB {
  orders : gmap N Order;
  saga_log : list SagaLog;
  ord_outbox : list OrderPlaced;
  next_uuid : N
}.

Definition set_orders (m : gmap N Order) (d : OrdDB) : OrdDB :=
  MkOrdDB m (saga_log d) (ord_outbox d) (next_uuid d).
Definition log_add (e : SagaLog) (d : OrdDB) : OrdDB :=
  MkOrdDB (orders d) (saga_log d ++ [e]) (ord_outbox d) (next_uuid d).
Definition ord_outbox_add (e : OrderPlaced) (d : OrdDB) : OrdDB :=
  MkOrdDB (orders d) (saga_log d) (ord_outbox d ++ [e]) (next_uuid d).

(** The two columns an UPDATE of this module writes. *)
Definition with_status (st : OrderStatus) (now : Z) (o : Order) : Order :=
  MkOrder (ord_id o) (ord_user o) st (ord_total o) (ord_items o) (ord_created_at o) now
    (ord_key o) (ord_body_hash o) (ord_email o).
Definition touched (now : Z) (o : Order) : Order := with_status (ord_status o) now o.

(** [order_placed_outbox]: the message of the paid transition. *)
Definition order_placed_outbox (o : Order) : OrderPlaced :=
  MkOrderPlaced (ord_id o) (ord_user o) (ord_total o)
    (if decide (ord_email o = "") then None else Some (ord_email o))
    ((λ i, (item_product i, item_name i, item_qty i, item_price i)) <$> ord_items o).

(** ** Column types *)

Definition numeric_12_2 (cents : Z) : Prop := -1000000000000 < cents < 1000000000000.
#[export] Instance numeric_12_2_dec z : Decision (numeric_12_2 z).
Proof. unfold numeric_12_2. apply _. Defined.

Definition varchar (n : nat) (s : string) : Prop := (String.length s ≤ n)%nat.
#[export] Instance varchar_dec n s : Decision (varchar n s).
Proof. unfold varchar. apply _. Defined.

(** A nullable [String(n)] column. *)
Definition varchar_opt (n : nat) (s : option string) : Prop :=
  match s with Some s => varchar n s | None => True end.
#[export] Instance varchar_opt_dec n s : Decision (varchar_opt n s).
Proof. destruct s; simpl; apply _. Defined.

(** A checkout line as [create_pending_order] receives it:
    (product_id, product_name, unit_price, quantity). *)
Definition order_line : Type := N * string * Z * Z.

Definition line_columns_ok (l : order_line) : Prop :=
  let '(_, name, price, qty) := l in
  varchar 255 name ∧ numeric_12_2 price ∧ -2147483648 ≤ qty ≤ 2147483647.
#[export] Instance line_columns_ok_dec l : Decision (line_columns_ok l).
Proof. destruct l as [[[??]?]?]. unfold line_columns_ok. apply _. Defined.

Definition order_columns_ok (key body_hash email : string) (total : Z) : Prop :=
  varchar 255 key ∧ varchar 64 body_hash ∧ varchar 320 email ∧ numeric_12_2 total.
#[export] Instance order_columns_ok_dec k b e t : Decision (order_columns_ok k b e t).
Proof. unfold order_columns_ok. apply _. Defined.

(** ** Reads *)

Definition get_order (order_id : N) : ST OrdDB (option Order) := λ d, (Ok (orders d !! order_id), d).

Definition get_order_status (order_id : N) : ST OrdDB (option OrderStatus) := λ d,
  (Ok (ord_status <$> orders d !! order_id), d).

Definition get_by_idempotency (user_id : N) (key : string) : ST OrdDB (option Order) := λ d,
  (Ok (snd <$> find_row (λ o, ord_user o = user_id ∧ ord_key o = key) (orders d)), d).

(** ** The pending order *)

(** The lines of a fresh order, numbered from [base]. *)
Fixpoint make_items (base : N) (lines : list order_line) : list OrderItem :=
  match lines with
  | [] => []
  | (product_id, name, price, qty) :: rest =>
      MkOrderItem base product_id name price qty :: make_items (base + 1) rest
  end.

(** The flush of one [SagaLog] row, with its FOREIGN KEY to the order. *)
Definition add_log (now : Z) (order_id : N) (step status : string) : ST OrdDB unit := λ d,
  match orders d !! order_id with
  | Some _ => (Ok tt, log_add (MkSagaLog order_id step status now) d)
  | None => (Err (IntegrityError FOREIGN_KEY_VIOLATION), d)
  end.

(** The flush of the [Order] row: column types, then [UNIQUE(user_id, idempotency_key)]. *)
Definition insert_order (now : Z) (user_id : N) (key body_hash email : string) (total : Z)
    : ST OrdDB N := λ d,
  if decide (order_columns_ok key body_hash email total) then
    match find_row (λ o, ord_user o = user_id ∧ ord_key o = key) (orders d) with
    | Some _ => (Err (IntegrityError UNIQUE_VIOLATION), d)
    | None =>
        let id := next_uuid d in
        let o := MkOrder id user_id PENDING total [] now now key body_hash email in
        (Ok id, MkOrdDB (<[id := o]> (orders d)) (saga_log d) (ord_outbox d) (id + 1))
    end
  else (Err DataError, d).

(** The flush of the lines. *)
Definition insert_items (order_id : N) (lines : list order_line) : ST OrdDB unit := λ d,
  if decide (Forall line_columns_ok lines) then
    (Ok tt, MkOrdDB
      (alter (λ o, MkOrder (ord_id o) (ord_user o) (ord_status o) (ord_total o)
                     (make_items (next_uuid d) lines) (ord_created_at o) (ord_updated_at o)
                     (ord_key o) (ord_body_hash o) (ord_email o)) order_id (orders d))
      (saga_log d) (ord_outbox d) (next_uuid d + N.of_nat (length lines)))
  else (Err DataError, d).

(** [_loser_reads_winner] *)
Definition loser_reads_winner (user_id : N) (key : string) : ST OrdDB (Order * bool) :=
  existing ← get_by_idempotency user_id key;
  match existing with
  | None => raise RuntimeError
  | Some o => mret (o, false)
  end.

(** [create_pending_order]: [(order, created)]. *)
Definition create_pending_order (now : Z) (user_id : N) (key body_hash : string) (total : Z)
    (lines : list order_line) (email : string) : ST OrdDB (Order * bool) :=
  begin_nested (
    inserted ← try_except (id ← begin_nested (insert_order now user_id key body_hash email total);
                           mret (Some id))
      (λ e, match e with
            | IntegrityError UNIQUE_VIOLATION => mret None
            | e => raise e
            end);
    match inserted with
    | None => loser_reads_winner user_id key
    | Some order_id =>
        insert_items order_id lines ;;
        add_log now order_id "create" "completed" ;;
        row ← get_order order_id;
        match row with
        | None => raise RuntimeError
        | Some o => mret (o, true)
        end
    end).

(** ** The journal *)

(** [log_saga_step] *)
Definition log_saga_step (now : Z) (order_id : N) (step status : string) : ST OrdDB unit :=
  begin_nested (add_log now order_id step status).

Definition steps_of (order_id : N) (step : string) (d : OrdDB) : list SagaLog :=
  filter (λ e, log_order e = order_id ∧ log_step e = step) (saga_log d).

(** [_request_refund_once] *)
Definition request_refund_once (now : Z) (order_id : N) : ST OrdDB unit := λ d,
  match steps_of order_id "refund" d with
  | [] => add_log now order_id "refund" "requested" d
  | _ => (Ok tt, d)
  end.

(** [journal_refund_if_cancelled]: the payment-success hook. *)
Definition journal_refund_if_cancelled (now : Z) (order_id : N) : ST OrdDB unit :=
  status ← get_order_status order_id;
  if decide (status = Some CANCELLED) then request_refund_once now order_id else mret tt.

(** The row an [ORDER BY created_at DESC LIMIT 1] answers with; among equal
    timestamps the last inserted one. *)
Definition newest (e1 : option SagaLog) (e2 : SagaLog) : option SagaLog :=
  match e1 with
  | Some e => if decide (log_at e ≤ log_at e2) then Some e2 else Some e
  | None => Some e2
  end.

(** [latest_saga_step] *)
Definition latest_saga_step (order_id : N) (step : string) : ST OrdDB (option string) := λ d,
  (Ok (log_status <$> foldl newest None (steps_of order_id step d)), d).

(** [has_recent_saga_activity] *)
Definition has_recent_saga_activity (order_id : N) (since : Z) : ST OrdDB bool := λ d,
  (Ok (bool_decide (Exists (λ e, log_order e = order_id ∧ since ≤ log_at e) (saga_log d))), d).

Definition log_le (e1 e2 : SagaLog) : Prop := log_at e1 ≤ log_at e2.
#[export] Instance log_le_dec : RelDecision log_le.
Proof. intros e1 e2. unfold log_le. apply _. Defined.

(** [list_saga_steps]: oldest first. *)
Definition list_saga_steps (order_id : N) : ST OrdDB (list SagaLog) := λ d,
  (Ok (merge_sort log_le (filter (λ e, log_order e = order_id) (saga_log d))), d).

(** ** The guarded flip *)

(** [transition_status]; [has_succeeded_payment] is the repository's optional
    callback, evaluated on the payments this transaction sees. *)
Definition transition_status (has_succeeded_payment : option (N → bool)) (now : Z) (order_id : N)
    (expect : list OrderStatus) (to_status : OrderStatus) (outbox : option OrderPlaced)
    : ST OrdDB (option Order) :=
  begin_nested (λ d,
    match orders d !! order_id with
    | Some o =>
        if decide (ord_status o ∈ expect) then
          (modify (set_orders (<[order_id := with_status to_status now o]> (orders d))) ;;
           match outbox with
           | Some e => modify (ord_outbox_add e)
           | None => mret tt
           end ;;
           match has_succeeded_payment with
           | Some f => if decide (to_status = CANCELLED ∧ f order_id = true)
                       then request_refund_once now order_id else mret tt
           | None => mret tt
           end ;;
           get_order order_id) d
        else (Ok None, d)
    | None => (Ok None, d)
    end).

(** ** The recovery poller's leases *)

Definition updated_le (o1 o2 : Order) : Prop := ord_updated_at o1 ≤ ord_updated_at o2.
#[export] Instance updated_le_dec : RelDecision updated_le.
Proof. intros o1 o2. unfold updated_le. apply _. Defined.

(** [UPDATE orders SET updated_at = now() ... RETURNING id] over the claimed
    rows, then the re-reads. *)
Definition lease (now : Z) (ids : list N) : ST OrdDB (list Order) := λ d,
  let d' := set_orders (foldr (λ id m, alter (touched now) id m) (orders d) ids) d in
  (Ok (omap (λ id, orders d' !! id) ids), d').

Definition claim (now : Z) (batch : nat) (locked : N → bool) (P : Order → Prop)
    `{∀ o, Decision (P o)} : ST OrdDB (list Order) := λ d,
  lease now (ord_id <$> take batch (merge_sort updated_le
    (filter (λ o, P o ∧ locked (ord_id o) = false) (snd <$> map_to_list (orders d))))) d.

(** [claim_stuck_pending] / [_CLAIM_STUCK_SQL] *)
Definition claim_stuck_pending (now cutoff : Z) (batch : nat) (locked : N → bool)
    : ST OrdDB (list Order) :=
  begin_nested (λ d, claim now batch locked (λ o,
    ord_status o = PENDING ∧ ord_updated_at o < cutoff ∧
    ¬ Exists (λ e, log_order e = ord_id o ∧ cutoff ≤ log_at e) (saga_log d)) d).

(** [claim_cancelled_with_pending_refund] / [_CLAIM_PENDING_REFUND_SQL] *)
Definition claim_cancelled_with_pending_refund (now cutoff : Z) (batch : nat) (locked : N → bool)
    : ST OrdDB (list Order) :=
  begin_nested (λ d, claim now batch locked (λ o,
    ord_status o = CANCELLED ∧ ord_updated_at o < cutoff ∧
    Exists (λ e, log_order e = ord_id o ∧ log_step e = "refund" ∧ log_status e = "requested" ∧
                 log_at e < cutoff) (saga_log d) ∧
    ¬ Exists (λ e, log_order e = ord_id o ∧ log_step e = "refund" ∧
                   (log_status e = "completed" ∨ log_status e = "refused")) (saga_log d)) d).
