(* ===== verification/Payments.v ===== *)
(** * Payments: attempts, guarded transitions and the stub gateway

    The [payments] schema (src/payments/adapters/db/models.py), the methods of
    [PaymentsRepository] (src/payments/adapters/db/repository.py), the gateway
    port (src/payments/ports/gateway.py) as a class of operations, and its one
    implementation in the repository, [StubPaymentGateway] with its
    [DeferredChargeWindow] (src/payments/adapters/stub_gateway.py). *)

From stdpp Require Import sorting.
From S2P Require Import Prelude Errors UnitOfWork Text Orders.

(** ** Data *)

Inductive PaymentStatus := PPending | PSucceeded | PFailed | PRefunded.

#[export] Instance PaymentStatus_eq_dec : EqDecision PaymentStatus.
Proof. solve_decision. Defined.

Record Payment := MkPayment {
  pay_id : N;
  pay_order : N;
  pay_status : PaymentStatus;
  pay_amount : Z;
  pay_ref : option string;
  pay_created_at : Z;
  pay_failure : option string;
  pay_key : string
}.

#[export] Instance Payment_eq_dec : EqDecision Payment.
Proof. solve_decision. Defined.

(** Rows of [payments.outbox] (src/payments/application/outbox.py). *)
Inductive PaymentEvent :=
  | PaymentSucceeded (payment_id order_id : N) (amount : Z) (gateway_ref : option string)
  | PaymentFailed (payment_id order_id : N) (amount : Z) (reason : string)
  | PaymentRefunded (payment_id order_id : N) (amount : Z) (gateway_ref : option string).

Record PayDB := MkPayDB {
  payments : gmap N Payment;
  pay_outbox : list PaymentEvent;
  next_payment : N
}.

Definition payment_succeeded_outbox (p : Payment) : PaymentEvent :=
  PaymentSucceeded (pay_id p) (pay_order p) (pay_amount p) (pay_ref p).
(** [row["failure_reason"] or "unknown"] *)
Definition payment_failed_outbox (p : Payment) : PaymentEvent :=
  PaymentFailed (pay_id p) (pay_order p) (pay_amount p)
    (match pay_failure p with Some r => if decide (r = "") then "unknown" else r | None => "unknown" end).
Definition payment_refunded_outbox (p : Payment) : PaymentEvent :=
  PaymentRefunded (pay_id p) (pay_order p) (pay_amount p) (pay_ref p).

Definition pay_outbox_add (e : PaymentEvent) (d : PayDB) : PayDB :=
  MkPayDB (payments d) (pay_outbox d ++ [e]) (next_payment d).

(** The columns a transition writes. *)
Definition with_outcome (st : PaymentStatus) (ref failure : option string) (p : Payment) : Payment :=
  MkPayment (pay_id p) (pay_order p) st (pay_amount p) ref (pay_created_at p) failure (pay_key p).

(** ** Reads *)

(** [PaymentsRepository.get] *)
Definition pay_get (payment_id : N) : ST PayDB (option Payment) := λ d,
  (Ok (payments d !! payment_id), d).

(** [PaymentsRepository.get_by_idempotency_key] *)
Definition pay_get_by_key (key : string) : ST PayDB (option Payment) := λ d,
  (Ok (snd <$> find_row (λ p, pay_key p = key) (payments d)), d).

Definition has_succeeded_for_order (d : PayDB) (order_id : N) : bool :=
  match find_row (λ p, pay_order p = order_id ∧ pay_status p = PSucceeded) (payments d) with
  | Some _ => true
  | None => false
  end.

(** ** Writes *)

(** [INSERT ... ON CONFLICT DO NOTHING RETURNING id] *)
Definition insert_payment (now : Z) (order_id : N) (key : string) (amount : Z)
    : ST PayDB (option N) := λ d,
  if decide (varchar 255 key ∧ numeric_12_2 amount) then
    match find_row (λ p, pay_key p = key) (payments d) with
    | Some _ => (Ok None, d)
    | None =>
        let id := next_payment d in
        (Ok (Some id), MkPayDB (<[id := MkPayment id order_id PPending amount None now None key]>
                                  (payments d)) (pay_outbox d) (id + 1))
    end
  else (Err DataError, d).

(** [create_pending]: [(payment, created)]. *)
Definition create_pending (now : Z) (order_id : N) (key : string) (amount : Z)
    : ST PayDB (Payment * bool) :=
  begin_nested (
    inserted_id ← insert_payment now order_id key amount;
    match inserted_id with
    | None =>
        existing ← pay_get_by_key key;
        match existing with
        | None => raise RuntimeError
        | Some p => mret (p, false)
        end
    | Some id =>
        row ← pay_get id;
        match row with
        | None => raise RuntimeError
        | Some p => mret (p, true)
        end
    end).

Section Transition.
Context {D : Type} (pay : Lens D PayDB).

(** The guarded UPDATE: the row it RETURNed. *)
Definition flip_payment (payment_id : N) (expect to_status : PaymentStatus)
    (gateway_ref failure_reason : option string) : ST PayDB (option Payment) := λ d,
  match payments d !! payment_id with
  | Some p =>
      if decide (pay_status p = expect) then
        if decide (varchar_opt 255 gateway_ref ∧ varchar_opt 512 failure_reason)
        then let p' := with_outcome to_status gateway_ref failure_reason p in
             (Ok (Some p'), MkPayDB (<[payment_id := p']> (payments d)) (pay_outbox d) (next_payment d))
        else (Err DataError, d)
      else (Ok None, d)
  | None => (Ok None, d)
  end.

(** [transition]; the hook runs in the same transaction, on the whole database. *)
Definition transition (payment_id : N) (to_status : PaymentStatus)
    (gateway_ref failure_reason : option string) (outbox_factory : option (Payment → PaymentEvent))
    (expect : PaymentStatus) (on_succeeded : option (N → ST D unit)) : ST D (option Payment) :=
  begin_nested (
    row ← zoom pay (flip_payment payment_id expect to_status gateway_ref failure_reason);
    match row with
    | None => mret None
    | Some p =>
        match outbox_factory with
        | Some f => zoom pay (modify (pay_outbox_add (f p)))
        | None => mret tt
        end ;;
        match on_succeeded with
        | Some hook => hook (pay_order p)
        | None => mret tt
        end ;;
        zoom pay (pay_get payment_id)
    end).
End Transition.

Definition created_le (p1 p2 : Payment) : Prop := pay_created_at p1 ≤ pay_created_at p2.
#[export] Instance created_le_dec : RelDecision created_le.
Proof. intros p1 p2. unfold created_le. apply _. Defined.

Definition pending_rows (P : Payment → Prop) `{∀ p, Decision (P p)} (batch : nat) (d : PayDB) : list Payment :=
  take batch (merge_sort created_le
    (filter (λ p, pay_status p = PPending ∧ P p) (snd <$> map_to_list (payments d)))).

Definition due_for_reconciliation (now grace_seconds max_age_seconds : Z) (batch : nat)
    : ST PayDB (list Payment) := λ d,
  (Ok (pending_rows (λ p, pay_created_at p ≤ now - grace_seconds ∧ now - max_age_seconds < pay_created_at p)
        batch d), d).

Definition abandonable (now max_age_seconds : Z) (batch : nat) : ST PayDB (list Payment) := λ d,
  (Ok (pending_rows (λ p, pay_created_at p ≤ now - max_age_seconds) batch d), d).

(** ** The gateway port *)

Inductive GatewayOutcome := GSucceeded | GFailed | GPending.
#[export] Instance GatewayOutcome_eq_dec : EqDecision GatewayOutcome.
Proof. solve_decision. Defined.

Record GatewayCharge := MkGatewayCharge {
  gc_ref : string; gc_outcome : GatewayOutcome; gc_reason : option string
}.
Record GatewayRefund := MkGatewayRefund {
  gr_ref : string; gr_outcome : GatewayOutcome; gr_reason : option string
}.

(** [PaymentGatewayPort] over a provider state [G]; the first argument is the
    provider's clock. *)
Class PaymentGateway (G : Type) := {
  gw_charge : Z → Z → string → string → ST G GatewayCharge;
  gw_lookup : Z → string → ST G (option GatewayCharge);
  gw_refund : Z → Z → string → option string → ST G GatewayRefund
}.

(** ** The stub *)

(** One entry of [DeferredChargeWindow]: the reference, its settle deadline and
    the Valkey expiry of the key. *)
Record Deferred := MkDeferred { df_ref : string; df_settle_at : Z; df_expires : Z }.

Record StubGateway := MkStub {
  stub_charges : gmap string GatewayCharge;
  stub_refunds : gmap string GatewayRefund;
  stub_deferred : gmap string Deferred;   (* the shared window, in Valkey *)
  next_ref : N
}.

(** [f"stub_{uuid4().hex}"] *)
Definition mint_ref (n : N) : string := ("stub_" +:+ hex_fixed 32 n)%string.

Section Stub.
Context (fail_token_substring pending_token_substring : string) (settle_seconds : Z)
  (has_deferred_window : bool).

Definition fail_substring : string := lower_str fail_token_substring.
Definition pending_substring : string := lower_str pending_token_substring.

(** [DeferredChargeWindow.defer] *)
Definition defer (now : Z) (key ref : string) : ST StubGateway unit :=
  modify (λ s, MkStub (stub_charges s) (stub_refunds s)
    (<[key := MkDeferred ref (now + settle_seconds) (now + settle_seconds + 3600)]> (stub_deferred s))
    (next_ref s)).

(** [DeferredChargeWindow.state]; an expired key reads as absent. *)
Definition deferred_state (now : Z) (key : string) : ST StubGateway (option GatewayCharge) := λ s,
  (Ok (match stub_deferred s !! key with
       | Some e =>
           if decide (now < df_expires e) then
             Some (MkGatewayCharge (df_ref e)
               (if decide (now < df_settle_at e) then GPending else GSucceeded) None)
           else None
       | None => None
       end), s).

Definition mint : ST StubGateway string := λ s,
  (Ok (mint_ref (next_ref s)),
   MkStub (stub_charges s) (stub_refunds s) (stub_deferred s) (next_ref s + 1)).

Definition remember_charge (key : string) (c : GatewayCharge) : ST StubGateway GatewayCharge :=
  modify (λ s, MkStub (<[key := c]> (stub_charges s)) (stub_refunds s) (stub_deferred s) (next_ref s)) ;;
  mret c.

Definition remember_refund (key : string) (r : GatewayRefund) : ST StubGateway GatewayRefund :=
  modify (λ s, MkStub (stub_charges s) (<[key := r]> (stub_refunds s)) (stub_deferred s) (next_ref s)) ;;
  mret r.

(** [StubPaymentGateway.charge] after both dedup lookups missed. *)
Definition stub_decide (now : Z) (key token : string) : ST StubGateway GatewayCharge :=
  let token := lower_str token in
  ref ← mint;
  if contains fail_substring token then
    remember_charge key (MkGatewayCharge ref GFailed (Some "declined_by_stub"))
  else if negb (String.eqb pending_substring "") && contains pending_substring token then
    if has_deferred_window then
      defer now key ref ;; mret (MkGatewayCharge ref GPending None)
    else raise RuntimeError
  else remember_charge key (MkGatewayCharge ref GSucceeded None).

(** [StubPaymentGateway.charge] *)
Definition stub_charge (now amount : Z) (key token : string) : ST StubGateway GatewayCharge :=
  s ← get;
  match stub_charges s !! key with
  | Some existing => mret existing
  | None =>
      if has_deferred_window then
        deferred ← deferred_state now key;
        match deferred with
        | Some c => mret c
        | None => stub_decide now key token
        end
      else stub_decide now key token
  end.

(** [StubPaymentGateway.lookup] *)
Definition stub_lookup (now : Z) (key : string) : ST StubGateway (option GatewayCharge) :=
  s ← get;
  match stub_charges s !! key with
  | Some c => mret (Some c)
  | None => if has_deferred_window then deferred_state now key else mret None
  end.

(** [StubPaymentGateway.refund] *)
Definition stub_refund (amount : Z) (key : string) (gateway_ref : option string)
    : ST StubGateway GatewayRefund :=
  s ← get;
  match stub_refunds s !! key with
  | Some existing => mret existing
  | None =>
      ref ← mint;
      remember_refund key
        (match gateway_ref with
         | None => MkGatewayRefund ref GFailed (Some "no_charge_reference")
         | Some _ =>
             if negb (String.eqb fail_substring "") && contains fail_substring (lower_str key)
             then MkGatewayRefund ref GFailed (Some "declined_by_stub")
             else MkGatewayRefund ref GSucceeded None
         end)
  end.

#[export] Instance stub_gateway : PaymentGateway StubGateway := {
  gw_charge := stub_charge;
  gw_lookup := stub_lookup;
  gw_refund := λ _, stub_refund
}.

(** What the window answers for an entry. *)
Definition deferred_charge (now : Z) (e : Deferred) : GatewayCharge :=
  MkGatewayCharge (df_ref e) (if decide (now < df_settle_at e) then GPending else GSucceeded) None.

(** An answered charge is remembered, for good or in the window. *)
Lemma charge_remembered now amount key token s c s' :
  stub_charge now amount key token s = (Ok c, s') →
  stub_charges s' !! key = Some c ∨
  (stub_charges s' !! key = None ∧ has_deferred_window = true ∧ ∃ e, stub_deferred s' !! key = Some e ∧
   gc_ref c = df_ref e ∧ gc_reason c = None ∧
   (gc_outcome c = GPending ∨ (gc_outcome c = GSucceeded ∧ df_settle_at e ≤ now))).
Proof.
  unfold stub_charge, stub_decide, deferred_state, defer, remember_charge, mint. st_simp.
  destruct (stub_charges s !! key) as [c0|] eqn:E; [intros; simplify_eq; by left|].
  intros Hc. repeat (case_hyp Hc; simplify_eq/=); rewrite ?lookup_insert_eq; auto.
  - right. destruct (stub_deferred s' !! key) as [e|] eqn:Ed; [|done]. case_decide; simplify_eq/=.
    split_and!; [done..|]. exists e. split_and!; [done..|]. case_decide; [by left|right; split; [done|lia]].
  - right. split_and!; [done..|]. eexists. split_and!; auto.
Qed.

Lemma charge_again now amount key token s :
  match stub_charges s !! key, stub_deferred s !! key with
  | Some c, _ => stub_charge now amount key token s = (Ok c, s)
  | None, Some e => has_deferred_window = true → now < df_expires e →
                    stub_charge now amount key token s = (Ok (deferred_charge now e), s)
  | None, None => True
  end.
Proof.
  unfold stub_charge, deferred_state. st_simp. destruct (stub_charges s !! key); [done|].
  destruct (stub_deferred s !! key) as [e|] eqn:Ed; [|done]. intros Hw He. rewrite Hw. 
  rewrite Ed. by rewrite decide_True.
Qed.

(** the provider charges and refunds a key once. After a charge of a key is
    answered, charging the key again - with any amount and token, later, while
    the deferred window remembers it - mints no second charge: the reference is
    the same, the outcome too unless a pending one has succeeded since, and
    nothing changes. A refund is answered with the first refund's answer. *)
Theorem one_key_one_charge (now now' amount amount' : Z) (key token token' : string)
    (s s' : StubGateway) (c : GatewayCharge) (Hnow : now ≤ now')
    (Hc : stub_charge now amount key token s = (Ok c, s'))
    (Hlive : ∀ e, stub_deferred s' !! key = Some e → now' < df_expires e) :
  (∃ c', stub_charge now' amount' key token' s' = (Ok c', s') ∧ gc_ref c' = gc_ref c ∧
         (c' = c ∨ (gc_outcome c = GPending ∧ gc_outcome c' = GSucceeded))) ∧
  (∀ gateway_ref gateway_ref' r s1, stub_refund amount key gateway_ref s' = (Ok r, s1) →
     stub_refund amount' key gateway_ref' s1 = (Ok r, s1)).
Proof.
  pose proof (charge_again now' amount' key token' s') as Ha. split.
  - destruct (charge_remembered _ _ _ _ _ _ _ Hc) as [E|(E & Hw & e & Ed & Hr & Hre & Ho)].
    + rewrite E in Ha. eauto.
    + rewrite E, Ed in Ha. exists (deferred_charge now' e). split; [by apply Ha; [|apply Hlive]|]. split; [done|].
      destruct c as [ref o re]; simpl in *; subst. unfold deferred_charge. case_decide; simpl.
      * destruct Ho as [->|[-> ?]]; [by left|lia].
      * destruct Ho as [->|[-> ?]]; [by right|by left].
  - intros gr gr' r s1. unfold stub_refund, remember_refund, mint. st_simp.
    destruct (stub_refunds s' !! key) as [r0|] eqn:E; intros Heq; simplify_eq/=; [by rewrite E|].
    by rewrite lookup_insert_eq.
Qed.
End Stub.

Lemma one_key_one_charge_witness :
  ∃ c', stub_charge "fail" "pending" 10 true 5 999 "k" "tok_visa"
          (stub_charge "fail" "pending" 10 true 0 100 "k" "tok_pending" (MkStub ∅ ∅ ∅ 1)).2 =
        (Ok c', (stub_charge "fail" "pending" 10 true 0 100 "k" "tok_pending" (MkStub ∅ ∅ ∅ 1)).2).
Proof.
  destruct (one_key_one_charge "fail" "pending" 10 true 0 5 100 999 "k" "tok_pending" "tok_visa" (MkStub ∅ ∅ ∅ 1)
    (stub_charge "fail" "pending" 10 true 0 100 "k" "tok_pending" (MkStub ∅ ∅ ∅ 1)).2
    (MkGatewayCharge (mint_ref 1) GPending None)) as [(c' & Hc' & _) _].
  - lia.
  - vm_compute. reflexivity.
  - intros e He. assert (e = MkDeferred (mint_ref 1) 10 3610) as ->; [|simpl; lia].
    vm_compute in He. injection He as <-. vm_compute. reflexivity.
  - exists c'. exact Hc'.
Defined.
