(* ===== verification/World.v ===== *)
(** * World: the shared state of the deployment

    Everything the coroutines share: the PostgreSQL database (inventory, orders
    and payments schemas), the payment provider, the baskets and the checkout
    replay records in Valkey, the catalog's live prices, the process counters
    and the clock.  Each port of src/orders/ports/checkout.py is a class or a
    component of this state; [ord_op], [inv_op], [pay_op], [gw_op] and [cart_op]
    run one component's computation on it.

    A database transaction is one atomic block.  The statements of one block
    that PostgreSQL could interleave with another transaction's are serialised
    by the row locks they take (the guarded UPDATE of the order, [FOR UPDATE] on
    the order in the payment hook, [FOR UPDATE] on the reservations), so the
    blocks behave as if run one after the other. *)

From S2P Require Import Prelude Errors UnitOfWork Inventory InventoryService Text Orders Payments.

(** ** Ports *)

(** [CheckoutLine] *)
Record CheckoutLine := MkLine {
  cl_product : N;
  cl_name : string;
  cl_price : Z;
  cl_qty : Z
}.
#[export] Instance CheckoutLine_eq_dec : EqDecision CheckoutLine.
Proof. solve_decision. Defined.

(** [BasketPort] over a basket store [B]; the first argument is the store's clock. *)
Class BasketPort (B : Type) := {
  bk_get_lines : Z → N → ST B (list CheckoutLine);
  bk_consume : Z → N → list CheckoutLine → ST B unit;
  bk_clear : Z → N → ST B unit
}.

(** [OrderResponse]: the order snapshot on the wire. *)
Record OrderResponse := MkOrderResponse {
  or_id : N;
  or_user : N;
  or_status : OrderStatus;
  or_total : Z;
  or_items : list OrderItem;
  or_created_at : Z;
  or_updated_at : Z
}.

(** [_response]: [OrderResponse.model_validate(order)]. *)
Definition order_response (o : Order) : OrderResponse :=
  MkOrderResponse (ord_id o) (ord_user o) (ord_status o) (ord_total o) (ord_items o)
    (ord_created_at o) (ord_updated_at o).

(** [IdempotencyRecord] with the key's expiry; [ir_response = None] is a stored
    body that does not validate as an order. *)
Record IdempotencyRecord := MkIdem {
  ir_body_hash : string;
  ir_status : Z;
  ir_response : option OrderResponse;
  ir_expires : Z
}.

(** ** Settings *)

Record Settings := MkSettings {
  (** SQLAlchemy's [begin_nested] flush semantics, see [attempt_block]. *)
  flush_failure_unwinds : bool;
  reservation_ttl_seconds : Z;
  checkout_idempotency_ttl_seconds : Z;
  (** What reading [uow.depth] on a handle with no open block answers. *)
  depth_attribute : result nat;
  (** Whether the composition root wired fresh-session compensation. *)
  fresh_session_wired : bool;
  webhook_secret : option string;
  webhook_tolerance_seconds : Z;
  reconciliation_grace_seconds : Z;
  reconciliation_max_age_seconds : Z
}.

(** ** State *)

Section World.
Context {B G : Type}.

Record World := MkWorld {
  w_inv : InvSvc;
  w_ord : OrdDB;
  w_pay : PayDB;
  w_gw : G;
  w_basket : B;
  w_idem : gmap (N * string) IdempotencyRecord;
  w_prices : gmap N Z;
  w_counters : gmap (string * string) N;
  w_now : Z
}.

Definition set_inv (x : InvSvc) (w : World) : World :=
  MkWorld x (w_ord w) (w_pay w) (w_gw w) (w_basket w) (w_idem w) (w_prices w) (w_counters w) (w_now w).
Definition set_ord (x : OrdDB) (w : World) : World :=
  MkWorld (w_inv w) x (w_pay w) (w_gw w) (w_basket w) (w_idem w) (w_prices w) (w_counters w) (w_now w).
Definition set_pay (x : PayDB) (w : World) : World :=
  MkWorld (w_inv w) (w_ord w) x (w_gw w) (w_basket w) (w_idem w) (w_prices w) (w_counters w) (w_now w).
Definition set_gw (x : G) (w : World) : World :=
  MkWorld (w_inv w) (w_ord w) (w_pay w) x (w_basket w) (w_idem w) (w_prices w) (w_counters w) (w_now w).
Definition set_basket (x : B) (w : World) : World :=
  MkWorld (w_inv w) (w_ord w) (w_pay w) (w_gw w) x (w_idem w) (w_prices w) (w_counters w) (w_now w).
Definition set_idem (x : gmap (N * string) IdempotencyRecord) (w : World) : World :=
  MkWorld (w_inv w) (w_ord w) (w_pay w) (w_gw w) (w_basket w) x (w_prices w) (w_counters w) (w_now w).
Definition set_prices (x : gmap N Z) (w : World) : World :=
  MkWorld (w_inv w) (w_ord w) (w_pay w) (w_gw w) (w_basket w) (w_idem w) x (w_counters w) (w_now w).
Definition set_now (t : Z) (w : World) : World :=
  MkWorld (w_inv w) (w_ord w) (w_pay w) (w_gw w) (w_basket w) (w_idem w) (w_prices w) (w_counters w) t.

(** [counter.labels(label).inc()] *)
Definition inc (name label : string) (w : World) : World :=
  MkWorld (w_inv w) (w_ord w) (w_pay w) (w_gw w) (w_basket w) (w_idem w) (w_prices w)
    (<[(name, label) := (default 0 (w_counters w !! (name, label)) + 1)%N]> (w_counters w)) (w_now w).

Definition inv_lens : Lens World InvSvc := MkLens w_inv set_inv.
Definition ord_lens : Lens World OrdDB := MkLens w_ord set_ord.
Definition pay_lens : Lens World PayDB := MkLens w_pay set_pay.
Definition gw_lens : Lens World G := MkLens w_gw set_gw.
Definition basket_lens : Lens World B := MkLens w_basket set_basket.

(** A component's computation, at the world's clock. *)
Definition at_now {X A} (l : Lens World X) (m : Z → ST X A) : ST World A := λ w, zoom l (m (w_now w)) w.

Definition inv_op {A} (m : Z → ST InvSvc A) : ST World A := at_now inv_lens m.
Definition ord_op {A} (m : Z → ST OrdDB A) : ST World A := at_now ord_lens m.
Definition pay_op {A} (m : Z → ST PayDB A) : ST World A := at_now pay_lens m.
Definition gw_op {A} (m : Z → ST G A) : ST World A := at_now gw_lens m.
Definition cart_op {A} (m : Z → ST B A) : ST World A := at_now basket_lens m.

(** [orders_repository_with_payment_guard(session).transition_status] in its own
    transaction: the guard reads the payments of the same database. *)
Definition order_transition (order_id : N) (expect : list OrderStatus) (to_status : OrderStatus)
    (outbox : option OrderPlaced) : ST World (option Order) := λ w,
  ord_op (λ now, transition_status (Some (has_succeeded_for_order (w_pay w))) now order_id expect
                   to_status outbox) w.

(** [cancelled_order_refund_hook(session)] *)
Definition refund_hook (order_id : N) : ST World unit :=
  ord_op (λ now, journal_refund_if_cancelled now order_id).

(** [PaymentsRepository.transition] over the shared database. *)
Definition pay_transition (payment_id : N) (to_status : PaymentStatus)
    (gateway_ref failure_reason : option string) (outbox_factory : option (Payment → PaymentEvent))
    (expect : PaymentStatus) (on_succeeded : option (N → ST World unit)) : ST World (option Payment) :=
  transition pay_lens payment_id to_status gateway_ref failure_reason outbox_factory expect on_succeeded.
End World.
Arguments World B G : clear implicits.
