(* ===== verification/Cart.v ===== *)
(** * Cart: the baskets in Valkey

    src/cart: the Lua scripts and methods of [ValkeyCartRepository]
    (adapters/valkey/repository.py), the use-cases of [CartService]
    (application/service.py), the product-event handler
    (adapters/cart_consumer.py) and the saga's view of a basket
    ([SagaBasket], src/bootstrap/saga_factory.py), the [BasketPort] of the
    checkout.

    A cart is the Valkey hash [cart:{user_id}]: one field per product holding
    the line's JSON, the field [$meta] with the last change, and a rolling
    expiry.  Fields and keys are identified by the uuid they spell ([uuid_str]
    is injective), so sorting by [product_id] text is sorting by number.  The
    projection of a product is the string [cart:product:{id}], which never
    expires.  Lua numbers (quantities, versions) are read as integers; they stay
    below 10^14, where cjson prints them exactly. *)

From stdpp Require Import sorting.
From S2P Require Import Prelude Errors Text World.

(** ** Data *)

(** The JSON of one line. *)
Record LineDoc := MkLineDoc {
  ln_name : string;
  ln_price : string;
  ln_image : option string;
  ln_qty : Z;
  ln_version : option Z
}.
#[export] Instance LineDoc_eq_dec : EqDecision LineDoc.
Proof. solve_decision. Defined.

Definition set_qty (q : Z) (l : LineDoc) : LineDoc :=
  MkLineDoc (ln_name l) (ln_price l) (ln_image l) q (ln_version l).

(** The hash of one cart. *)
Record CartHash := MkHash { h_lines : gmap N LineDoc; h_meta : option Z }.
#[export] Instance CartHash_eq_dec : EqDecision CartHash.
Proof. solve_decision. Defined.

(** The value of a [cart:product:{id}] key. *)
Inductive Projection :=
  | Tombstone
  | Live (version : option Z) (name price : string).
#[export] Instance Projection_eq_dec : EqDecision Projection.
Proof. solve_decision. Defined.

Record CartStore := MkStore {
  carts : gmap N (CartHash * Z);   (* with the key's expiry *)
  projections : gmap N Projection
}.

(** [Cart] *)
Record Cart := MkCart { cart_items : list (N * LineDoc); cart_updated_at : option Z }.

(** [ProductSnapshot] *)
Record ProductSnapshot := MkSnapshot {
  ps_name : string; ps_price : Z; ps_image : option string; ps_version : option Z
}.

(** ** Valkey commands *)

Definition empty_hash : CartHash := MkHash ∅ None.

(** The hash a command sees: an expired key is an absent one. *)
Definition read_hash (now : Z) (user : N) (s : CartStore) : CartHash :=
  match carts s !! user with
  | Some (h, expires) => if decide (now < expires) then h else empty_hash
  | None => empty_hash
  end.

(** [HLEN] *)
Definition hlen (h : CartHash) : nat :=
  (size (h_lines h) + match h_meta h with Some _ => 1 | None => 0 end)%nat.

Definition hset_line (p : N) (l : LineDoc) (h : CartHash) : CartHash := MkHash (<[p := l]> (h_lines h)) (h_meta h).
Definition hdel_line (p : N) (h : CartHash) : CartHash := MkHash (delete p (h_lines h)) (h_meta h).
Definition hset_meta (now : Z) (h : CartHash) : CartHash := MkHash (h_lines h) (Some now).

(** [DEL] *)
Definition del_cart (user : N) (s : CartStore) : CartStore :=
  MkStore (delete user (carts s)) (projections s).

(** The hash written back under a fresh expiry. *)
Definition write_cart (user : N) (h : CartHash) (expires : Z) (s : CartStore) : CartStore :=
  MkStore (<[user := (h, expires)]> (carts s)) (projections s).

(** [HGETALL] through [_to_cart]: [None] when no line is left. *)
Definition line_le (x y : N * LineDoc) : Prop := (x.1 ≤ y.1)%N.
#[export] Instance line_le_dec : RelDecision line_le.
Proof. intros x y. unfold line_le. apply _. Defined.

Definition to_cart (h : CartHash) : option Cart :=
  match merge_sort line_le (map_to_list (h_lines h)) with
  | [] => None
  | items => Some (MkCart items (h_meta h))
  end.

(** [should_apply_update] *)
Definition should_apply_update (stored_version incoming_version : option Z) : bool :=
  match incoming_version, stored_version with
  | None, None => true
  | None, Some _ => false
  | Some _, None => true
  | Some i, Some v => bool_decide (v < i)
  end.

(** ** The product projections *)

(** [_PROJECT_LUA] / [refresh_product] *)
Definition refresh_product (product : N) (name price : string) (version : option Z) : ST CartStore Z := λ s,
  let stale := match projections s !! product with
               | Some Tombstone => true
               | Some (Live (Some v) _ _) =>
                   match version with None => true | Some i => bool_decide (i ≤ v) end
               | Some (Live None _ _) | None => false
               end in
  if stale then (Ok 0, s)
  else (Ok 1, MkStore (carts s) (<[product := Live version name price]> (projections s))).

(** [_TOMBSTONE_LUA] / [prune_product] *)
Definition prune_product (product : N) : ST CartStore Z := λ s,
  match projections s !! product with
  | Some Tombstone => (Ok 0, s)
  | _ => (Ok 1, MkStore (carts s) (<[product := Tombstone]> (projections s)))
  end.

(** A product event as [make_cart_handler] dispatches it. *)
Inductive ProductEvent :=
  | ProductUpdated (product : N) (name price : string) (version : option Z)
  | ProductDeleted (product : N).

Definition cart_handler (e : ProductEvent) : ST CartStore Z :=
  match e with
  | ProductUpdated p name price v => refresh_product p name price v
  | ProductDeleted p => prune_product p
  end.

(** The 400 of a quantity outside [lowest..cap]. *)
Definition out_of_range (quantity lowest cap : Z) : exn :=
  InvalidCartOperationError ("quantity " +:+ int_str quantity +:+ " out of range (" +:+ int_str lowest
    +:+ ".." +:+ int_str cap +:+ ")")%string.

Section CartRepository.
Context (ttl : Z).

(** The tail of the removing scripts: a cart holding only meta is deleted, any
    other is stamped and kept alive; the answer is whether it survived. *)
Definition finish (now : Z) (user : N) (h : CartHash) (s : CartStore) : bool * CartStore :=
  if decide (hlen h ≤ 1)%nat then (false, del_cart user s)
  else (true, write_cart user (hset_meta now h) (now + ttl) s).

(** The snapshot an increment ends up with: (name, price, version). *)
Definition add_existing (old : LineDoc) (state : option (option Z * string * string))
    (name price : string) (incoming : option Z) : string * string * option Z :=
  match incoming with
  | None => (name, price, ln_version old)
  | Some i =>
      let '(name1, price1, ver) :=
        match ln_version old with
        | None => (name, price, Some i)
        | Some v => if decide (i < v) then (ln_name old, ln_price old, Some v)
                    else if decide (v < i) then (name, price, Some i)
                    else (name, price, Some v)
        end in
      match state with
      | Some (Some sv, sname, sprice) =>
          if bool_decide (i < sv) && match ver with None => true | Some v => bool_decide (v < sv) end
          then (sname, sprice, Some sv) else (name1, price1, ver)
      | _ => (name1, price1, ver)
      end
  end.

(** The snapshot of a new line. *)
Definition add_fresh (state : option (option Z * string * string)) (name price : string)
    (incoming : option Z) : string * string * option Z :=
  match state with
  | Some (Some sv, sname, sprice) =>
      match incoming with
      | Some i => if decide (sv ≤ i) then (name, price, Some i) else (sname, sprice, Some sv)
      | None => (name, price, Some sv)
      end
  | Some (None, _, _) => (name, price, Some (default 0 incoming))
  | None => (name, price, incoming)
  end.

(** The write and the answer of [_ADD_LUA]. *)
Definition put_line (now : Z) (user product : N) (image : option string) (h : CartHash)
    (snap : string * string * option Z) (qty : Z) : ST CartStore Cart := λ s,
  let h' := hset_meta now (hset_line product (MkLineDoc snap.1.1 snap.1.2 image qty snap.2) h) in
  (match to_cart h' with Some c => Ok c | None => Err AssertionError end,
   write_cart user h' (now + ttl) s).

(** [_ADD_LUA] / [add_item]; an empty image url is none. *)
Definition repo_add_item (now : Z) (user product : N) (name price : string) (image : option string)
    (quantity : Z) (max_items : nat) (max_per_line : Z) (version : option Z) : ST CartStore Cart := λ s,
  let h := read_hash now user s in
  let image := match image with Some EmptyString => None | i => i end in
  match projections s !! product with
  | Some Tombstone => (Err ProductTombstonedError, s)
  | projection =>
      let state := match projection with Some (Live v n p) => Some (v, n, p) | _ => None end in
      match h_lines h !! product with
      | Some old =>
          put_line now user product image h (add_existing old state name price version)
            (Z.min (ln_qty old + quantity) max_per_line) s
      | None =>
          if decide (max_items ≤ hlen h - match h_meta h with Some _ => 1 | None => 0 end)%nat
          then (Err (InvalidCartOperationError
                 ("cart holds the maximum of " +:+ int_str (Z.of_nat max_items) +:+ " lines")), s)
          else put_line now user product image h (add_fresh state name price version)
                 (Z.min quantity max_per_line) s
      end
  end.

(** [_SET_LUA] / [set_quantity]: [None] for an absent line. *)
Definition repo_set_quantity (now : Z) (user product : N) (quantity max_per_line : Z)
    : ST CartStore (option Cart) := λ s,
  let h := read_hash now user s in
  match h_lines h !! product with
  | None => (Ok None, s)
  | Some line =>
      let answer (h' : CartHash) : result (option Cart) * CartStore :=
        let '(alive, s') := finish now user h' s in
        (Ok (Some (if alive then default (MkCart [] (Some now)) (to_cart (hset_meta now h'))
                   else MkCart [] (Some now))), s') in
      if decide (quantity = 0) then answer (hdel_line product h)
      else if decide (max_per_line < quantity)
      then (Err (out_of_range quantity 0 max_per_line), s)
      else answer (hset_line product (set_qty quantity line) h)
  end.

(** [_REMOVE_LUA] / [remove_item] *)
Definition repo_remove_item (now : Z) (user product : N) : ST CartStore (option Cart) := λ s,
  let h := read_hash now user s in
  match h_lines h !! product with
  | None => (Ok (to_cart h), s)
  | Some _ =>
      let h' := hdel_line product h in
      let '(alive, s') := finish now user h' s in
      (Ok (if alive then to_cart (hset_meta now h') else None), s')
  end.

(** [_CLEAR_LUA] / [clear_cart] *)
Definition repo_clear_cart (user : N) : ST CartStore unit := modify (del_cart user).

(** One (product, quantity) pair of [_CONSUME_LUA]. *)
Definition consume_pair (h : CartHash) (pair : N * Z) : CartHash :=
  let '(p, qty) := pair in
  if decide (0 < qty) then
    match h_lines h !! p with
    | None => h
    | Some line =>
        if decide (ln_qty line - qty ≤ 0) then hdel_line p h
        else hset_line p (set_qty (ln_qty line - qty) line) h
    end
  else h.

(** [_CONSUME_LUA] / [consume_lines] *)
Definition repo_consume_lines (now : Z) (user : N) (pairs : list (N * Z)) : ST CartStore unit := λ s,
  (Ok tt, (finish now user (foldl consume_pair (read_hash now user s) pairs) s).2).

(** [_APPLY_UPDATED_LUA] *)
Definition apply_updated (now : Z) (user product : N) (name price : string) (version : option Z)
    : ST CartStore bool := λ s,
  let h := read_hash now user s in
  match h_lines h !! product with
  | None => (Ok false, s)
  | Some line =>
      let stale := match version with
                   | None => match ln_version line with
                             | Some _ => true
                             | None => bool_decide (ln_name line = name ∧ ln_price line = price)
                             end
                   | Some i => match ln_version line with
                               | Some v => bool_decide (i ≤ v)
                               | None => false
                               end
                   end in
      if stale then (Ok false, s)
      else
        let line' := MkLineDoc name price (ln_image line) (ln_qty line)
                       (match version with Some i => Some i | None => ln_version line end) in
        (Ok true, write_cart user (hset_meta now (hset_line product line' h)) (now + ttl) s)
  end.

(** [_APPLY_DELETED_LUA] *)
Definition apply_deleted (now : Z) (user product : N) : ST CartStore bool := λ s,
  let h := read_hash now user s in
  match h_lines h !! product with
  | None => (Ok false, s)
  | Some _ => (Ok true, (finish now user (hdel_line product h) s).2)
  end.

(** [EXPIRE] of a present key. *)
Definition touch (now : Z) (user : N) (s : CartStore) : CartStore :=
  match carts s !! user with
  | Some (h, expires) => if decide (now < expires) then write_cart user h (now + ttl) s else s
  | None => s
  end.

(** The reconciliation of one line with the projection read for it. *)
Definition reconcile_line (now : Z) (user : N) (entry : N * LineDoc) (state : option Projection)
    : ST CartStore bool :=
  let '(product, line) := entry in
  match state with
  | None => mret false
  | Some Tombstone => apply_deleted now user product
  | Some (Live version name price) =>
      if negb (should_apply_update (ln_version line) version) then mret false
      else if decide (version = None ∧ ln_name line = name ∧ ln_price line = price) then mret false
      else apply_updated now user product name price version
  end.

Fixpoint reconcile_lines (now : Z) (user : N) (entries : list ((N * LineDoc) * option Projection))
    (changed : bool) : ST CartStore bool :=
  match entries with
  | [] => mret changed
  | (entry, state) :: rest =>
      applied ← reconcile_line now user entry state;
      reconcile_lines now user rest (changed || applied)
  end.

(** [get_cart] *)
Definition repo_get_cart (now : Z) (user : N) : ST CartStore (option Cart) :=
  s ← get;
  modify (touch now user) ;;
  match to_cart (read_hash now user s) with
  | None => mret None
  | Some cart =>
      let states := (λ entry, projections s !! entry.1) <$> cart_items cart in
      changed ← reconcile_lines now user (zip (cart_items cart) states) false;
      if (changed : bool) then s' ← get; mret (to_cart (read_hash now user s'))
      else mret (Some cart)
  end.

(** ** The service *)

(** [CartResponse]; an item's price stays the text it is on the wire. *)
Record CartResponse := MkCartResponse { resp_items : list (N * LineDoc); resp_updated_at : Z }.

(** [_to_response] *)
Definition to_response (now : Z) (c : option Cart) : CartResponse :=
  match c with
  | None => MkCartResponse [] now
  | Some c => MkCartResponse (cart_items c) (default now (cart_updated_at c))
  end.

Context (max_items : nat) (max_qty_per_line : Z).

(** [get_cart] *)
Definition svc_get_cart (now : Z) (user : N) : ST CartStore CartResponse :=
  c ← repo_get_cart now user; mret (to_response now c).

(** [add_item]; [snapshot] is what the products port answers. *)
Definition svc_add_item (now : Z) (snapshot : option ProductSnapshot) (user product : N) (quantity : Z)
    : ST CartStore CartResponse :=
  if decide (quantity < 1 ∨ max_qty_per_line < quantity)
  then raise (out_of_range quantity 1 max_qty_per_line)
  else match snapshot with
  | None => raise ProductNotFoundError
  | Some p =>
      cart ← try_except (repo_add_item now user product (ps_name p) (price_str (ps_price p)) (ps_image p)
                           quantity max_items max_qty_per_line (ps_version p))
               (λ e, match e with ProductTombstonedError => raise ProductNotFoundError | e => raise e end);
      mret (to_response now (Some cart))
  end.

(** [set_quantity] *)
Definition svc_set_quantity (now : Z) (snapshot : option ProductSnapshot) (user product : N) (quantity : Z)
    : ST CartStore CartResponse :=
  if decide (quantity < 0 ∨ max_qty_per_line < quantity)
  then raise (out_of_range quantity 0 max_qty_per_line)
  else match snapshot with
  | None => repo_remove_item now user product ;; raise ProductNotFoundError
  | Some _ =>
      cart ← repo_set_quantity now user product quantity max_qty_per_line;
      match cart with
      | None => raise CartLineNotFoundError
      | Some c => mret (to_response now (Some c))
      end
  end.

(** [remove_item] *)
Definition svc_remove_item (now : Z) (user product : N) : ST CartStore CartResponse :=
  c ← repo_remove_item now user product; mret (to_response now c).

(** ** The saga's basket *)

(** One cart line as a checkout line; [Decimal(text)] may refuse. *)
Fixpoint checkout_lines (items : list (N * LineDoc)) : result (list CheckoutLine) :=
  match items with
  | [] => Ok []
  | (p, l) :: rest =>
      match decimal_cents (ln_price l) with
      | None => Err InvalidOperation
      | Some cents =>
          match checkout_lines rest with
          | Ok ls => Ok (MkLine p (ln_name l) cents (ln_qty l) :: ls)
          | Err e => Err e
          end
      end
  end.

(** [SagaBasket.get_lines] *)
Definition basket_get_lines (now : Z) (user : N) : ST CartStore (list CheckoutLine) :=
  c ← repo_get_cart now user;
  match checkout_lines (default [] (cart_items <$> c)) with
  | Ok lines => mret lines
  | Err e => raise e
  end.

(** [SagaBasket.consume] *)
Definition basket_consume (now : Z) (user : N) (lines : list CheckoutLine) : ST CartStore unit :=
  repo_consume_lines now user ((λ l, (cl_product l, cl_qty l)) <$> lines).

Definition cart_basket : BasketPort CartStore := {|
  bk_get_lines := basket_get_lines;
  bk_consume := basket_consume;
  bk_clear := λ _, repo_clear_cart
|}.
End CartRepository.
