(* ===== verification/CartFacts.v ===== *)
(** * CartFacts: what the baskets promise

    The size and quantity limits of every stored cart, exact consumption at
    checkout, the refresh a read performs, permanence of tombstones, and
    insensitivity of the product projections to the order and repetition of
    event delivery. *)

From stdpp Require Import sorting.
From S2P Require Import Prelude Errors Text World Cart.

(** ** Reading back *)

Lemma read_del now user u s :
  read_hash now u (del_cart user s) = if decide (u = user) then empty_hash else read_hash now u s.
Proof.
  unfold read_hash, del_cart. simpl. case_decide as H; [subst; by rewrite lookup_delete_eq|].
  by rewrite lookup_delete_ne by done.
Qed.

Lemma read_write now user u h expires s :
  now < expires →
  read_hash now u (write_cart user h expires s) = if decide (u = user) then h else read_hash now u s.
Proof.
  intros He. unfold read_hash, write_cart. simpl. case_decide as H; [subst; rewrite lookup_insert_eq; by case_decide|].
  by rewrite lookup_insert_ne by done.
Qed.

Lemma elem_of_to_cart h p l :
  (p, l) ∈ default [] (cart_items <$> to_cart h) ↔ h_lines h !! p = Some l.
Proof.
  rewrite <- elem_of_map_to_list. unfold to_cart.
  pose proof (merge_sort_Permutation line_le (map_to_list (h_lines h))) as Hp.
  destruct (merge_sort line_le (map_to_list (h_lines h))); simpl; by rewrite <- Hp.
Qed.

Lemma to_cart_None h : to_cart h = None → h_lines h = ∅.
Proof.
  intros H. apply map_empty. intros p. destruct (h_lines h !! p) as [l|] eqn:E; [|done].
  apply elem_of_to_cart in E. rewrite H in E. simpl in E. set_solver.
Qed.

Section Facts.
Context (ttl : Z) (ttl_positive : 0 < ttl) (max_items : nat) (cap : Z).

(** ** Limits *)

(** A line within the cap. *)
Definition line_ok (l : LineDoc) : Prop := 1 ≤ ln_qty l ≤ cap.

Record lines_ok (m : gmap N LineDoc) : Prop := {
  lk_size : (size m ≤ max_items)%nat;
  lk_qty : map_Forall (λ _, line_ok) m
}.

(** A stored cart: stamped, not empty, within the limits. *)
Record cart_ok (h : CartHash) : Prop := {
  ck_meta : is_Some (h_meta h);
  ck_lines : h_lines h ≠ ∅;
  ck_ok : lines_ok (h_lines h)
}.

Definition store_ok (s : CartStore) : Prop := map_Forall (λ _ x, cart_ok x.1) (carts s).

(** What scripts may rely on when they read a hash. *)
Definition hash_ok (h : CartHash) : Prop :=
  (h_meta h = None → h_lines h = ∅) ∧ lines_ok (h_lines h).

Lemma read_ok now user s : store_ok s → hash_ok (read_hash now user s).
Proof.
  intros Hs. assert (hash_ok empty_hash) as He.
  { split; [done|]. split; [simpl; rewrite map_size_empty; lia|]. apply map_Forall_empty. }
  unfold read_hash. destruct (carts s !! user) as [[h e]|] eqn:E; [|done]. case_decide; [|done].
  destruct (Hs _ _ E) as [[t Ht] Hl Hok]. simpl in *. split; [|done]. by rewrite Ht.
Qed.

Lemma store_ok_del user s : store_ok s → store_ok (del_cart user s).
Proof. intros Hs. by apply map_Forall_delete. Qed.

Lemma store_ok_write user h e s : cart_ok h → store_ok s → store_ok (write_cart user h e s).
Proof. intros Hh Hs. by apply map_Forall_insert_2. Qed.

Lemma hlen_lines h : (1 < hlen h)%nat → h_lines h ≠ ∅.
Proof.
  unfold hlen. intros Hl Hm. rewrite Hm, map_size_empty in Hl. case_hyp Hl; lia.
Qed.

Lemma store_ok_finish now user h s : lines_ok (h_lines h) → store_ok s → store_ok (finish ttl now user h s).2.
Proof.
  intros Hl Hs. unfold finish. case_decide; simpl; [by apply store_ok_del|].
  apply store_ok_write; [|done]. split; [by eexists| |done]. apply (hlen_lines h). lia.
Qed.

(** The tail of a script loses no line. *)
Lemma read_finish now user u h s :
  (h_meta h = None → h_lines h = ∅) →
  h_lines (read_hash now u (finish ttl now user h s).2) =
  if decide (u = user) then h_lines h else h_lines (read_hash now u s).
Proof.
  intros Hm. unfold finish. case_decide as Hl; simpl.
  - rewrite read_del. case_decide; [|done]. simpl. symmetry.
    destruct (h_meta h) eqn:E; [|by apply Hm]. apply map_size_empty_inv. unfold hlen in Hl. rewrite E in Hl. lia.
  - rewrite read_write by lia. by case_decide.
Qed.

Lemma lines_ok_insert p l m :
  lines_ok m → line_ok l → (is_Some (m !! p) ∨ (size m < max_items)%nat) → lines_ok (<[p := l]> m).
Proof.
  intros [Hs Hq] Hl Hp. split; [|by apply map_Forall_insert_2].
  destruct (m !! p) eqn:E; [rewrite map_size_insert_Some by (by eexists); done|].
  rewrite map_size_insert_None by done. destruct Hp as [[? ?]|]; [done|lia].
Qed.

Lemma lines_ok_delete p m : lines_ok m → lines_ok (delete p m).
Proof.
  intros [Hs Hq]. split; [|by apply map_Forall_delete].
  rewrite map_size_delete. case_goal; simpl in *; lia.
Qed.

(** ** Every operation keeps the limits *)

Lemma put_line_ok now user p image snap q s :
  store_ok s → 1 ≤ q ≤ cap →
  is_Some (h_lines (read_hash now user s) !! p) ∨ (size (h_lines (read_hash now user s)) < max_items)%nat →
  store_ok (put_line ttl now user p image (read_hash now user s) snap q s).2.
Proof.
  intros Hs Hq Hp. apply store_ok_write; [|done]. split; simpl; [by eexists|apply insert_non_empty|].
  apply lines_ok_insert; [apply (read_ok now user s Hs)|done|done].
Qed.

Lemma repo_add_item_ok now user p name price image q v :
  1 ≤ q → 1 ≤ cap → preserves store_ok (repo_add_item ttl now user p name price image q max_items cap v).
Proof.
  intros Hq Hcap s Hs. unfold repo_add_item. pose proof (read_ok now user s Hs) as [Hm Hl].
  assert (size (h_lines (read_hash now user s)) = hlen (read_hash now user s) -
    match h_meta (read_hash now user s) with Some _ => 1 | None => 0 end)%nat as Hn by (unfold hlen; lia).
  destruct (projections s !! p) as [[|ve n pr]|]; [done|..];
    (destruct (h_lines (read_hash now user s) !! p) as [old|] eqn:E;
     [pose proof (lk_qty _ Hl _ _ E) as Ho; unfold line_ok in Ho; simpl in Ho;
      apply put_line_ok; [done|lia|left; by eexists]
     |case_decide; [done|]; apply put_line_ok; [done|lia|right; lia]]).
Qed.

Lemma repo_set_quantity_ok now user p q : 0 ≤ q → preserves store_ok (repo_set_quantity ttl now user p q cap).
Proof.
  intros Hq s Hs. unfold repo_set_quantity. pose proof (read_ok now user s Hs) as [Hm Hl].
  destruct (h_lines (read_hash now user s) !! p) as [l|] eqn:E; [|done].
  assert (∀ h, lines_ok (h_lines h) → store_ok (finish ttl now user h s).2) as Hf by (intros; by apply store_ok_finish).
  case_decide; [|case_decide; [done|]].
  - specialize (Hf (hdel_line p (read_hash now user s)) (lines_ok_delete p _ Hl)). by destruct (finish _ _ _ _ _).
  - specialize (Hf (hset_line p (set_qty q l) (read_hash now user s))). destruct (finish _ _ _ _ _).
    apply Hf, lines_ok_insert; [done|unfold line_ok; simpl; lia|left; by eexists].
Qed.

Lemma repo_remove_item_ok now user p : preserves store_ok (repo_remove_item ttl now user p).
Proof.
  intros s Hs. unfold repo_remove_item. pose proof (read_ok now user s Hs) as [Hm Hl].
  destruct (h_lines (read_hash now user s) !! p) as [l|] eqn:E; [|done].
  pose proof (store_ok_finish now user (hdel_line p (read_hash now user s)) s (lines_ok_delete p _ Hl) Hs).
  by destruct (finish _ _ _ _ _).
Qed.

Lemma apply_deleted_ok now user p : preserves store_ok (apply_deleted ttl now user p).
Proof.
  intros s Hs. unfold apply_deleted. pose proof (read_ok now user s Hs) as [Hm Hl].
  destruct (h_lines (read_hash now user s) !! p) as [l|] eqn:E; [|done].
  apply (store_ok_finish now user (hdel_line p (read_hash now user s)) s (lines_ok_delete p _ Hl) Hs).
Qed.

Lemma apply_updated_ok now user p name price v : preserves store_ok (apply_updated ttl now user p name price v).
Proof.
  intros s Hs. unfold apply_updated. pose proof (read_ok now user s Hs) as [Hm Hl].
  destruct (h_lines (read_hash now user s) !! p) as [l|] eqn:E; [|done]. case_goal; [done|].
  apply store_ok_write; [|done]. split; simpl; [by eexists|apply insert_non_empty|].
  apply lines_ok_insert; [done| |left; by eexists]. apply (lk_qty _ Hl _ _ E).
Qed.

Lemma reconcile_line_ok now user e st : preserves store_ok (reconcile_line ttl now user e st).
Proof.
  destruct e as [p l], st as [[|v n pr]|]; simpl; repeat case_goal;
    auto using apply_deleted_ok, apply_updated_ok with shop.
Qed.

Lemma reconcile_lines_ok now user es b : preserves store_ok (reconcile_lines ttl now user es b).
Proof.
  revert b. induction es as [|[e st] es IH]; intros b; simpl; [auto with shop|].
  apply preserves_bind; [apply reconcile_line_ok|done].
Qed.

Lemma touch_ok now user s : store_ok s → store_ok (touch ttl now user s).
Proof.
  intros Hs. unfold touch. destruct (carts s !! user) as [[h e]|] eqn:E; [|done]. case_decide; [|done].
  apply store_ok_write; [|done]. apply (Hs _ _ E).
Qed.

Lemma repo_get_cart_ok now user : preserves store_ok (repo_get_cart ttl now user).
Proof.
  apply preserves_bind; [by intros s|]. intros s0.
  apply preserves_bind; [intros s Hs; by apply touch_ok|]. intros _.
  destruct (to_cart _); [|auto with shop]. apply preserves_bind; [apply reconcile_lines_ok|].
  intros []; [|auto with shop]. apply preserves_bind; [by intros s|auto with shop].
Qed.

Lemma consume_pair_ok h pr : hash_ok h → hash_ok (consume_pair h pr).
Proof.
  destruct pr as [p q]. intros [Hm Hl]. unfold consume_pair. case_decide; [|done].
  destruct (h_lines h !! p) as [l|] eqn:E; [|done].
  assert (h_meta h ≠ None) as Hne by (intros H0; rewrite (Hm H0) in E; done).
  pose proof (lk_qty _ Hl _ _ E) as Hq. unfold line_ok in Hq. simpl in Hq.
  case_decide; split; simpl; try done.
  - by apply lines_ok_delete.
  - apply lines_ok_insert; [done|unfold line_ok; simpl; lia|left; by eexists].
Qed.

Lemma consume_all_ok pairs h : hash_ok h → hash_ok (foldl consume_pair h pairs).
Proof. revert h. induction pairs as [|pr ps IH]; intros h Hh; simpl; [done|]. by apply IH, consume_pair_ok. Qed.

Lemma repo_consume_lines_ok now user pairs : preserves store_ok (repo_consume_lines ttl now user pairs).
Proof. intros s Hs. apply store_ok_finish; [|done]. by apply consume_all_ok, read_ok. Qed.

(** ** The calls a cart sees *)

Inductive cart_call :=
  | CGet (user : N)
  | CAdd (snapshot : option ProductSnapshot) (user product : N) (quantity : Z)
  | CSet (snapshot : option ProductSnapshot) (user product : N) (quantity : Z)
  | CRemove (user product : N)
  | CClear (user : N)
  | CLines (user : N)                              (* the saga reads the basket *)
  | CConsume (user : N) (lines : list CheckoutLine) (* the saga consumes it *)
  | CEvent (e : ProductEvent).

Definition discard {A} (m : ST CartStore A) : ST CartStore unit := m ;; mret tt.

Definition do_call (now : Z) (c : cart_call) : ST CartStore unit :=
  match c with
  | CGet u => discard (svc_get_cart ttl now u)
  | CAdd snap u p q => discard (svc_add_item ttl max_items cap now snap u p q)
  | CSet snap u p q => discard (svc_set_quantity ttl cap now snap u p q)
  | CRemove u p => discard (svc_remove_item ttl now u p)
  | CClear u => repo_clear_cart u
  | CLines u => discard (basket_get_lines ttl now u)
  | CConsume u lines => basket_consume ttl now u lines
  | CEvent e => discard (cart_handler e)
  end.

(** Calls at their times, each from the state the previous one left. *)
Fixpoint run_cart_calls (calls : list (Z * cart_call)) (s : CartStore) : CartStore :=
  match calls with
  | [] => s
  | (now, c) :: rest => run_cart_calls rest (do_call now c s).2
  end.

Lemma cart_handler_carts e s : carts (cart_handler e s).2 = carts s.
Proof.
  destruct e as [p n pr v|p]; simpl; unfold refresh_product, prune_product; repeat case_goal; done.
Qed.

Lemma do_call_ok now c : preserves store_ok (do_call now c).
Proof.
  assert (∀ A (m : ST CartStore A), preserves store_ok m → preserves store_ok (discard m)) as Hd.
  { intros A m Hm. apply preserves_bind; [done|auto with shop]. }
  destruct c as [u|snap u p q|snap u p q|u p|u|u|u ls|e]; simpl.
  - apply Hd, preserves_bind; [apply repo_get_cart_ok|auto with shop].
  - apply Hd. unfold svc_add_item. case_decide as Hq; [auto with shop|]. destruct snap; [|auto with shop].
    apply preserves_bind; [|auto with shop].
    apply preserves_try; [apply repo_add_item_ok; lia|]. intros []; auto with shop.
  - apply Hd. unfold svc_set_quantity. case_decide as Hq; [auto with shop|]. destruct snap.
    + apply preserves_bind; [apply repo_set_quantity_ok; lia|]. intros []; auto with shop.
    + apply preserves_bind; [apply repo_remove_item_ok|auto with shop].
  - apply Hd, preserves_bind; [apply repo_remove_item_ok|auto with shop].
  - intros s Hs. by apply store_ok_del.
  - apply Hd, preserves_bind; [apply repo_get_cart_ok|]. intros c0. case_goal; auto with shop.
  - apply repo_consume_lines_ok.
  - apply Hd. intros s Hs. unfold store_ok. by rewrite cart_handler_carts.
Qed.

Lemma run_cart_calls_ok calls s : store_ok s → store_ok (run_cart_calls calls s).
Proof.
  revert s. induction calls as [|[now c] rest IH]; intros s Hs; simpl; [done|]. by apply IH, do_call_ok.
Qed.

(** every cart stays within its limits. After any sequence of cart calls,
    saga reads and consumptions, and product events, at any times, every stored
    cart is stamped, holds at least one line and at most [cart_max_items], and
    each line between one and [cart_max_qty_per_line] units; so what the saga
    reads is at most that. *)
Theorem carts_stay_within_limits (calls : list (Z * cart_call)) (s : CartStore) (Hs : store_ok s) :
  ∀ user h expires, carts (run_cart_calls calls s) !! user = Some (h, expires) →
    is_Some (h_meta h) ∧ h_lines h ≠ ∅ ∧ (size (h_lines h) ≤ max_items)%nat ∧
    ∀ p l, h_lines h !! p = Some l → 1 ≤ ln_qty l ≤ cap.
Proof.
  intros user h e Hh. destruct (run_cart_calls_ok calls s Hs _ _ Hh) as [Hm Hl [Hsz Hq]]. simpl in *.
  split_and!; [done..|]. intros p l Hp. apply (Hq _ _ Hp).
Qed.

(** ** Consumption *)

(** The units a list of pairs buys of one product; non-positive ones count for none. *)
Definition purchased (pairs : list (N * Z)) (p : N) : Z :=
  sumZ (λ pr, if decide (pr.1 = p) then Z.max 0 pr.2 else 0) pairs.

(** A line less [q] units. *)
Definition less (q : Z) (l : option LineDoc) : option LineDoc :=
  match l with
  | Some l => if decide (ln_qty l - q ≤ 0) then None else Some (set_qty (ln_qty l - q) l)
  | None => None
  end.

Lemma purchased_nonneg pairs p : 0 ≤ purchased pairs p.
Proof. apply sumZ_nonneg. intros [p' q] _. simpl. case_decide; lia. Qed.

Lemma consume_pair_less h pr p :
  map_Forall (λ _, line_ok) (h_lines h) →
  h_lines (consume_pair h pr) !! p = less (if decide (pr.1 = p) then Z.max 0 pr.2 else 0) (h_lines h !! p).
Proof.
  intros Hq. assert (∀ l, h_lines h !! p = Some l → less 0 (Some l) = Some l) as H0.
  { intros l Hl. specialize (Hq _ _ Hl). unfold line_ok in Hq. simpl in *. case_decide; [lia|].
    destruct l; unfold set_qty; simpl; do 2 f_equal; lia. }
  assert (less 0 (h_lines h !! p) = h_lines h !! p) as H0'.
  { destruct (h_lines h !! p) as [l|] eqn:E; [|done]. by apply H0. }
  destruct pr as [p' q]. simpl. unfold consume_pair. case_decide as Hpos; case_decide as Hp; subst.
  - rewrite Z.max_r by lia. destruct (h_lines h !! p) as [l|] eqn:E; [|done]. simpl.
    case_decide; simpl; [by rewrite lookup_delete_eq|by rewrite lookup_insert_eq].
  - rewrite H0'. destruct (h_lines h !! p') as [l|] eqn:E; [|done].
    case_decide; simpl; [by rewrite lookup_delete_ne|by rewrite lookup_insert_ne].
  - rewrite Z.max_l by lia. by rewrite H0'.
  - by rewrite H0'.
Qed.

Lemma less_less a b l : 0 ≤ a → 0 ≤ b → less b (less a l) = less (a + b) l.
Proof.
  intros Ha Hb. destruct l as [l|]; simpl; [|done]. case_decide; simpl; repeat case_decide; try lia; [done..|].
  unfold set_qty. simpl. do 2 f_equal. lia.
Qed.

Lemma consume_all_less h pairs p :
  hash_ok h → h_lines (foldl consume_pair h pairs) !! p = less (purchased pairs p) (h_lines h !! p).
Proof.
  revert h. induction pairs as [|pr ps IH]; intros h Hh; simpl.
  - unfold purchased. simpl. destruct (h_lines h !! p) as [l|] eqn:E; [|done].
    destruct Hh as [_ [_ Hq]]. specialize (Hq _ _ E). unfold line_ok in Hq. simpl in *. case_decide; [lia|].
    destruct l; unfold set_qty; simpl; do 2 f_equal; lia.
  - rewrite IH by by apply consume_pair_ok. rewrite consume_pair_less by apply Hh.
    rewrite less_less; [done| |apply purchased_nonneg]. case_decide; lia.
Qed.

(** checkout consumes exactly what was bought. Consuming an order's lines
    takes from each line of the buyer's cart exactly the purchased units and
    drops it when none is left; every other line - one added while the checkout
    ran included - and every other cart is untouched. *)
Theorem consume_exact (now : Z) (user : N) (lines : list CheckoutLine) (s : CartStore) (Hs : store_ok s) :
  let bought := purchased ((λ l, (cl_product l, cl_qty l)) <$> lines) in
  let s' := (basket_consume ttl now user lines s).2 in
  (∀ p, h_lines (read_hash now user s') !! p = less (bought p) (h_lines (read_hash now user s) !! p)) ∧
  (∀ u, u ≠ user → h_lines (read_hash now u s') = h_lines (read_hash now u s)) ∧
  projections s' = projections s.
Proof.
  set (pairs := (λ l, (cl_product l, cl_qty l)) <$> lines).
  pose proof (consume_all_ok pairs _ (read_ok now user s Hs)) as Hok. split_and!.
  - intros p. unfold basket_consume, repo_consume_lines. simpl. rewrite read_finish by apply Hok.
    rewrite decide_True by done. by apply consume_all_less, read_ok.
  - intros u Hu. unfold basket_consume, repo_consume_lines. simpl. rewrite read_finish by apply Hok.
    by rewrite decide_False.
  - unfold basket_consume, repo_consume_lines, finish. simpl. by case_decide.
Qed.

(** ** Reads refresh *)

(** What a line becomes under its product's projection: the reference for the
    reconciliation of [get_cart]. *)
Definition refreshed (l : LineDoc) (state : option Projection) : option LineDoc :=
  match state with
  | None => Some l
  | Some Tombstone => None
  | Some (Live v name price) =>
      if should_apply_update (ln_version l) v
      then Some (MkLineDoc name price (ln_image l) (ln_qty l) (match v with Some i => Some i | None => ln_version l end))
      else Some l
  end.

Lemma refreshed_idem l st l' : refreshed l st = Some l' → refreshed l' st = Some l'.
Proof.
  destruct st as [[|v n pr]|]; simpl; [done| |done]. destruct (should_apply_update (ln_version l) v) eqn:E.
  - intros [= <-]. destruct l as [nm p im q [lv|]], v as [i|]; simpl in *; try done;
      (case_goal; [|done]); do 2 f_equal; by rewrite ?bool_decide_eq_true in *.
  - intros [= <-]. by rewrite E.
Qed.

Lemma lines_meta h p l : hash_ok h → h_lines h !! p = Some l → h_meta h = None → False.
Proof. intros [Hm _] Hl Hn. by rewrite (Hm Hn) in Hl. Qed.

(** The updating script is the predicate [should_apply_update]. *)
Lemma apply_updated_lines now user p l name price v s :
  h_lines (read_hash now user s) !! p = Some l →
  let s' := (apply_updated ttl now user p name price v s).2 in
  (∃ b, (apply_updated ttl now user p name price v s).1 = Ok b ∧
        (b = false → h_lines (read_hash now user s') = h_lines (read_hash now user s))) ∧
  projections s' = projections s ∧
  h_lines (read_hash now user s') =
    partial_alter (λ _, refreshed l (Some (Live v name price))) p (h_lines (read_hash now user s)).
Proof.
  intros Hl. unfold apply_updated. rewrite Hl. simpl.
  assert (∀ o, o = Some l → h_lines (read_hash now user s) =
            partial_alter (λ _, o) p (h_lines (read_hash now user s))) as Hself.
  { intros o ->. rewrite <- Hl. symmetry. apply partial_alter_self. }
  assert (∀ l', h_lines (read_hash now user
             (write_cart user (hset_meta now (hset_line p l' (read_hash now user s))) (now + ttl) s)) =
            partial_alter (λ _, Some l') p (h_lines (read_hash now user s))) as Hset.
  { intros l'. rewrite read_write by lia. by rewrite decide_True. }
  destruct v as [i|], (ln_version l) as [lv|] eqn:Ev; simpl.
  - case_bool_decide; case_bool_decide; try lia; simpl.
    + split_and!; [by eexists|done|by apply Hself].
    + split_and!; [by eexists|done|apply Hset].
  - split_and!; [by eexists|done|apply Hset].
  - split_and!; [by eexists|done|by apply Hself].
  - case_bool_decide as Hsame; simpl.
    + destruct Hsame as [<- <-]. split_and!; [by eexists|done|]. apply Hself. destruct l; simpl in *. congruence.
    + split_and!; [by eexists|done|apply Hset].
Qed.

Lemma reconcile_line_lines now user p l st s :
  store_ok s → h_lines (read_hash now user s) !! p = Some l →
  let s' := (reconcile_line ttl now user (p, l) st s).2 in
  (∃ b, (reconcile_line ttl now user (p, l) st s).1 = Ok b ∧
        (b = false → h_lines (read_hash now user s') = h_lines (read_hash now user s))) ∧
  projections s' = projections s ∧
  h_lines (read_hash now user s') = partial_alter (λ _, refreshed l st) p (h_lines (read_hash now user s)).
Proof.
  intros Hs Hl. pose proof (read_ok now user s Hs) as Hok.
  assert (h_lines (read_hash now user s) = partial_alter (λ _, Some l) p (h_lines (read_hash now user s))) as Hself.
  { rewrite <- Hl. symmetry. apply partial_alter_self. }
  destruct st as [[|v n pr]|]; [|simpl|split_and!; [by eexists|done|done]].
  - unfold reconcile_line, apply_deleted. rewrite Hl. simpl. split_and!.
    + by eexists.
    + unfold finish. by case_decide.
    + rewrite read_finish; [by rewrite decide_True|]. simpl. intros Hn. by destruct (lines_meta _ _ _ Hok Hl).
  - destruct (should_apply_update (ln_version l) v) eqn:Eu; simpl; [|split_and!; [by eexists|done|done]].
    case_decide as Hsame.
    + destruct Hsame as (-> & <- & <-). split_and!; [by eexists|done|]. simpl in *.
      rewrite Hself at 1. f_equal. destruct l; done.
    + pose proof (apply_updated_lines now user p l n pr v s Hl) as Hu. simpl in Hu. by rewrite Eu in Hu.
Qed.

Lemma reconcile_lines_spec now user es changed s :
  store_ok s → NoDup (es.*1.*1) →
  (∀ p l st, ((p, l), st) ∈ es → h_lines (read_hash now user s) !! p = Some l) →
  let s' := (reconcile_lines ttl now user es changed s).2 in
  (∃ b, (reconcile_lines ttl now user es changed s).1 = Ok b ∧
        (b = false → changed = false ∧ h_lines (read_hash now user s') = h_lines (read_hash now user s))) ∧
  projections s' = projections s ∧
  (∀ p l st, ((p, l), st) ∈ es → h_lines (read_hash now user s') !! p = refreshed l st) ∧
  (∀ q, q ∉ es.*1.*1 → h_lines (read_hash now user s') !! q = h_lines (read_hash now user s) !! q).
Proof.
  revert changed s. induction es as [|[[p l] st] es IH]; intros changed s Hs Hnd Hin.
  - simpl. split_and!; [by eexists|done|set_solver|done].
  - assert (h_lines (read_hash now user s) !! p = Some l) as Hl by (apply (Hin p l st); set_solver).
    destruct (reconcile_line_lines now user p l st s Hs Hl) as ((b & Hb & Hbf) & Hp & Hlines).
    pose proof (reconcile_line_ok now user (p, l) st s Hs) as Hs1.
    cbn [reconcile_lines]. unfold mbind, ST_bind.
    destruct (reconcile_line ttl now user (p, l) st s) as [r s1]. simpl in *. subst r.
    apply NoDup_cons in Hnd as [Hpn Hnd].
    assert (∀ q, q ≠ p → h_lines (read_hash now user s1) !! q = h_lines (read_hash now user s) !! q) as Hne.
    { intros q Hq. rewrite Hlines. by rewrite lookup_partial_alter_ne. }
    assert (∀ q l0 st0, ((q, l0), st0) ∈ es → q ≠ p) as Hqp.
    { intros q l0 st0 Hq ->. apply Hpn. apply list_elem_of_fmap. exists (p, l0). split; [done|].
      apply list_elem_of_fmap. by exists ((p, l0), st0). }
    destruct (IH (changed || b) s1) as ((b' & Hb' & Hbf') & Hp' & Hes & Hrest); [done|done| |].
    { intros q l0 st0 Hq. rewrite Hne by (by eapply Hqp). apply (Hin q l0 st0). set_solver. }
    split_and!.
    + exists b'. split; [done|]. intros Hf. destruct (Hbf' Hf) as [[? ?]%orb_false_iff Hl']. split; [done|].
      rewrite Hl'. by apply Hbf.
    + congruence.
    + intros q l0 st0 [Heq|Hq]%elem_of_cons; [|by apply Hes]. simplify_eq. rewrite Hrest by done. rewrite Hlines.
      by rewrite lookup_partial_alter_eq.
    + intros q Hq. simpl in Hq. rewrite Hrest by set_solver. apply Hne. set_solver.
Qed.

Lemma read_touch now user u s : read_hash now u (touch ttl now user s) = read_hash now u s.
Proof.
  unfold touch. destruct (carts s !! user) as [[h e]|] eqn:E; [|done]. case_decide; [|done].
  rewrite read_write by lia. case_decide; [|done]. subst. unfold read_hash. rewrite E. by case_decide.
Qed.

Lemma touch_projections now user s : projections (touch ttl now user s) = projections s.
Proof. unfold touch. by repeat case_goal. Qed.

Lemma to_cart_keys h c : to_cart h = Some c → NoDup (cart_items c).*1.
Proof.
  unfold to_cart. pose proof (merge_sort_Permutation line_le (map_to_list (h_lines h))) as Hp.
  destruct (merge_sort line_le (map_to_list (h_lines h))) as [|x xs]; [done|]. intros [= <-]. simpl cart_items.
  rewrite Hp. apply NoDup_fst_map_to_list.
Qed.

Lemma to_cart_items h c p l : to_cart h = Some c → (p, l) ∈ cart_items c ↔ h_lines h !! p = Some l.
Proof. intros H. rewrite <- elem_of_to_cart, H. done. Qed.

Lemma zip_map_elem {A B} (f : A → B) (l : list A) x y : (x, y) ∈ zip l (f <$> l) ↔ x ∈ l ∧ y = f x.
Proof.
  induction l as [|a l IH]; simpl; [set_solver|]. rewrite !elem_of_cons, IH. naive_solver.
Qed.

(** One read of a non-empty cart: the answer holds the lines of the store it leaves. *)
Lemma get_cart_run now user s c :
  store_ok s → to_cart (read_hash now user s) = Some c →
  ∃ c' s', repo_get_cart ttl now user s = (Ok c', s') ∧ projections s' = projections s ∧
    (∀ p l, (p, l) ∈ default [] (cart_items <$> c') ↔ h_lines (read_hash now user s') !! p = Some l) ∧
    (∀ p, h_lines (read_hash now user s') !! p =
            h_lines (read_hash now user s) !! p ≫= λ l, refreshed l (projections s !! p)).
Proof.
  intros Hs Ec. assert (∀ p l, (p, l) ∈ cart_items c ↔ h_lines (read_hash now user s) !! p = Some l) as Hit.
  { intros p l. by apply to_cart_items. }
  unfold repo_get_cart. st_simp. rewrite Ec.
  set (states := (λ entry : N * LineDoc, projections s !! entry.1) <$> cart_items c).
  assert ((zip (cart_items c) states).*1 = cart_items c) as Hz.
  { apply fst_zip. unfold states. by rewrite length_fmap. }
  destruct (reconcile_lines_spec now user (zip (cart_items c) states) false (touch ttl now user s))
    as ((b & Hb & Hbf) & Hp & Hes & Hrest).
  { by apply touch_ok. }
  { rewrite Hz. by eapply to_cart_keys. }
  { intros p l st [Hin _]%zip_map_elem. rewrite read_touch. by apply Hit. }
  rewrite Hz, read_touch in *. rewrite touch_projections in Hp.
  destruct (reconcile_lines ttl now user _ false _) as [r s']. simpl in *. subst r.
  exists (if b then to_cart (read_hash now user s') else Some c), s'. split_and!; [by destruct b|done|..].
  - intros p l. destruct b; [apply elem_of_to_cart|]. destruct (Hbf eq_refl) as [_ ->]. apply Hit.
  - intros p. destruct (h_lines (read_hash now user s) !! p) as [l|] eqn:E; simpl.
    + apply Hes, zip_map_elem. split; [by apply Hit|done].
    + rewrite Hrest; [done|]. intros ([q lq] & -> & Hq)%list_elem_of_fmap. apply Hit in Hq. simpl in *. congruence.
Qed.

Lemma get_cart_answer now user s :
  store_ok s →
  ∃ c s', repo_get_cart ttl now user s = (Ok c, s') ∧ projections s' = projections s ∧
    (∀ p l, (p, l) ∈ default [] (cart_items <$> c) ↔ h_lines (read_hash now user s') !! p = Some l) ∧
    (∀ p, h_lines (read_hash now user s') !! p =
            h_lines (read_hash now user s) !! p ≫= λ l, refreshed l (projections s !! p)).
Proof.
  intros Hs. destruct (to_cart (read_hash now user s)) as [c|] eqn:Ec; [by apply (get_cart_run now user s c)|].
  exists None, (touch ttl now user s). unfold repo_get_cart. st_simp. rewrite Ec, read_touch.
  apply to_cart_None in Ec. rewrite Ec, touch_projections. split_and!; [done..| |done].
  intros p l. rewrite lookup_empty. set_solver.
Qed.

(** A read shows every line as its product's projection leaves it. [get_cart]
    always answers; its lines are exactly the stored ones, each refreshed by
    [should_apply_update], those of deleted products gone - the Lua scripts and
    the loop around them implement the domain predicate - and they are what the
    store now holds, so that reading again changes nothing. *)
Theorem get_cart_refreshes (now : Z) (user : N) (s : CartStore) (Hs : store_ok s) :
  let s' := (repo_get_cart ttl now user s).2 in
  ∃ c, (repo_get_cart ttl now user s).1 = Ok c ∧
    (∀ p l, (p, l) ∈ default [] (cart_items <$> c) ↔
       ∃ l0, h_lines (read_hash now user s) !! p = Some l0 ∧ refreshed l0 (projections s !! p) = Some l) ∧
    (∀ p l, (p, l) ∈ default [] (cart_items <$> c) ↔ h_lines (read_hash now user s') !! p = Some l) ∧
    (∀ p l, (p, l) ∈ default [] (cart_items <$> c) → refreshed l (projections s' !! p) = Some l).
Proof.
  destruct (get_cart_answer now user s Hs) as (c & s' & -> & Hp & Hans & Hl). simpl. exists c.
  assert (∀ p l, (p, l) ∈ default [] (cart_items <$> c) ↔
     ∃ l0, h_lines (read_hash now user s) !! p = Some l0 ∧ refreshed l0 (projections s !! p) = Some l) as Hspec.
  { intros p l. rewrite Hans, Hl. apply bind_Some. }
  split_and!; [done..|]. intros p l (l0 & _ & Hr)%Hspec. rewrite Hp. by eapply refreshed_idem.
Qed.

(** ** Tombstones *)

Definition tombstoned (p : N) (s : CartStore) : Prop := projections s !! p = Some Tombstone.

(** The computations that leave the projections alone. *)
Definition keeps_projections {A} (m : ST CartStore A) : Prop := ∀ s, projections (m s).2 = projections s.

Lemma keeps_projections_bind {A B} (m : ST CartStore A) (f : A → ST CartStore B) :
  keeps_projections m → (∀ a, keeps_projections (f a)) → keeps_projections (m ≫= f).
Proof.
  intros Hm Hf s. st_simp. specialize (Hm s). destruct (m s) as [[a|e] s1]; simpl in *; [by rewrite Hf|done].
Qed.

Lemma keeps_projections_ret {A} (a : A) : keeps_projections (mret a).
Proof. done. Qed.
Lemma keeps_projections_raise {A} e : keeps_projections (raise e : ST CartStore A).
Proof. done. Qed.
Hint Resolve keeps_projections_ret keeps_projections_raise : core.

Lemma finish_projections now user h s : projections (finish ttl now user h s).2 = projections s.
Proof. unfold finish. by case_decide. Qed.

Lemma keeps_add now u p n pr im q v : keeps_projections (repo_add_item ttl now u p n pr im q max_items cap v).
Proof. intros s. unfold repo_add_item, put_line. by repeat case_goal. Qed.

Lemma keeps_set now u p q : keeps_projections (repo_set_quantity ttl now u p q cap).
Proof.
  intros s. unfold repo_set_quantity.
  repeat case_goal; try done; simplify_eq/=;
    match goal with H : finish _ _ _ _ _ = _ |- _ =>
      apply (f_equal snd) in H; simpl in H; subst; apply finish_projections end.
Qed.

Lemma keeps_remove now u p : keeps_projections (repo_remove_item ttl now u p).
Proof.
  intros s. unfold repo_remove_item. case_goal; [|done]. case_goal. simpl.
  match goal with H : finish _ _ _ _ _ = _ |- _ => apply (f_equal snd) in H; simpl in H; subst end.
  apply finish_projections.
Qed.

Lemma keeps_reconcile now u e st : keeps_projections (reconcile_line ttl now u e st).
Proof.
  destruct e as [p l], st as [[|v n pr]|]; simpl; [| |done].
  - intros s. unfold apply_deleted. case_goal; [apply finish_projections|done].
  - repeat case_goal; try done. intros s. unfold apply_updated. by repeat case_goal.
Qed.

Lemma keeps_get now u : keeps_projections (repo_get_cart ttl now u).
Proof.
  apply keeps_projections_bind; [done|]. intros s0.
  apply keeps_projections_bind; [intros s; apply touch_projections|]. intros _. case_goal; [|done].
  apply keeps_projections_bind; [|intros []; [by apply keeps_projections_bind|done]].
  generalize false. induction (zip _ _) as [|[e st] es IH]; intros b; simpl; [done|].
  apply keeps_projections_bind; [apply keeps_reconcile|done].
Qed.

Lemma keeps_discard {A} (m : ST CartStore A) : keeps_projections m → keeps_projections (discard m).
Proof. intros Hm. by apply keeps_projections_bind. Qed.

Lemma do_call_projections now c :
  (∀ e, c ≠ CEvent e) → keeps_projections (do_call now c).
Proof.
  intros Hc. destruct c as [u|snap u p q|snap u p q|u p|u|u|u ls|e]; simpl; try apply keeps_discard.
  - apply keeps_projections_bind; [apply keeps_get|done].
  - unfold svc_add_item. case_decide; [done|]. destruct snap; [|done]. apply keeps_projections_bind; [|done].
    intros s. unfold try_except. rewrite <- (keeps_add now u p (ps_name p0) (price_str (ps_price p0)) (ps_image p0) q (ps_version p0) s).
    destruct (repo_add_item _ _ _ _ _ _ _ _ _ _ _ s) as [[a|[]] s1]; done.
  - unfold svc_set_quantity. case_decide; [done|]. destruct snap; apply keeps_projections_bind;
      auto using keeps_set, keeps_remove. intros []; done.
  - apply keeps_projections_bind; [apply keeps_remove|done].
  - done.
  - apply keeps_projections_bind; [apply keeps_get|]. intros c0. by case_goal.
  - intros s. apply finish_projections.
  - by destruct (Hc e).
Qed.

Lemma tombstoned_event p e s : tombstoned p s → tombstoned p (cart_handler e s).2.
Proof.
  unfold tombstoned. intros Hp. destruct e as [q n pr v|q]; simpl; unfold refresh_product, prune_product;
    (destruct (decide (q = p)) as [->|Hq]; [by rewrite Hp|]); repeat case_goal; simpl; by rewrite ?lookup_insert_ne.
Qed.

Lemma tombstoned_call p now c s : tombstoned p s → tombstoned p (do_call now c s).2.
Proof.
  intros Hp. assert ((∀ e, c ≠ CEvent e) ∨ ∃ e, c = CEvent e) as [Hc|[e ->]] by (destruct c; naive_solver).
  - unfold tombstoned. by rewrite do_call_projections.
  - pose proof (tombstoned_event p e s Hp) as He. simpl. unfold discard. st_simp. by destruct (cart_handler e s) as [[]].
Qed.

Lemma tombstoned_run p calls s : tombstoned p s → tombstoned p (run_cart_calls calls s).
Proof.
  revert s. induction calls as [|[now c] rest IH]; intros s Hs; simpl; [done|]. by apply IH, tombstoned_call.
Qed.

(** A deleted product never comes back. Once [ProductDeleted] is recorded,
    after any further calls and events - late or repeated [ProductUpdated]
    included - no read shows a line of the product, and adding it answers
    [ProductNotFoundError] and changes nothing. *)
Theorem deleted_products_stay_out (p : N) (calls : list (Z * cart_call)) (s : CartStore) (Hs : store_ok s) :
  let s' := run_cart_calls calls (cart_handler (ProductDeleted p) s).2 in
  (∀ now user c, (repo_get_cart ttl now user s').1 = Ok c → ∀ l, (p, l) ∉ default [] (cart_items <$> c)) ∧
  (∀ now snap user q, 1 ≤ q ≤ cap →
     svc_add_item ttl max_items cap now snap user p q s' = (Err ProductNotFoundError, s')).
Proof.
  intros s'. assert (tombstoned p s') as Ht.
  { apply tombstoned_run. simpl. unfold prune_product, tombstoned. repeat case_goal; simpl; by rewrite ?lookup_insert_eq. }
  assert (store_ok s') as Hs'. { apply run_cart_calls_ok. unfold store_ok. by rewrite cart_handler_carts. }
  unfold tombstoned in Ht. clearbody s'. split.
  - intros now user c Hc l. destruct (get_cart_answer now user s' Hs') as (c' & s1 & E & _ & Hans & Hl).
    rewrite E in Hc. simplify_eq/=. rewrite Hans, Hl, Ht. by destruct (h_lines (read_hash now user s') !! p).
  - intros now snap user q Hq. unfold svc_add_item. rewrite decide_False by lia. destruct snap as [sp|]; [|done].
    st_simp. unfold try_except, repo_add_item. by rewrite Ht.
Qed.
End Facts.

(** ** Event delivery *)

(** Deliveries in order; SNS/SQS reorder and repeat them. *)
Definition deliver (es : list ProductEvent) (s : CartStore) : CartStore :=
  foldl (λ s e, (cart_handler e s).2) s es.

Definition product_of (e : ProductEvent) : N :=
  match e with ProductUpdated p _ _ _ | ProductDeleted p => p end.

(** What an event makes of its product's projection. *)
Definition merge_event (e : ProductEvent) (o : option Projection) : option Projection :=
  match e, o with
  | _, Some Tombstone => o
  | ProductDeleted _, _ => Some Tombstone
  | ProductUpdated _ name price v, Some (Live (Some w) _ _) =>
      match v with None => o | Some i => if decide (i ≤ w) then o else Some (Live v name price) end
  | ProductUpdated _ name price v, _ => Some (Live v name price)
  end.

Lemma handler_merge e s :
  (cart_handler e s).2 = MkStore (carts s) (partial_alter (merge_event e) (product_of e) (projections s)).
Proof.
  assert (∀ p o, o = projections s !! p → s = MkStore (carts s) (partial_alter (λ _, o) p (projections s))) as Hs.
  { intros p o ->. rewrite partial_alter_self. by destruct s. }
  assert (∀ p f o, f (projections s !! p) = o → partial_alter f p (projections s) = partial_alter (λ _, o) p (projections s)) as Hf.
  { intros p f o Hfo. by apply partial_alter_ext; intros ? <-. }
  destruct e as [p n pr v|p]; simpl; unfold refresh_product, prune_product;
    destruct (projections s !! p) as [[|[w|] n0 pr0]|] eqn:E; simpl;
    try destruct v as [i|]; try case_bool_decide; simpl;
    rewrite (Hf p _ _ eq_refl), E; simpl; repeat case_decide; try lia; first [done|by apply Hs].
Qed.

(** Every update carries its version, and a version names one payload. *)
Record versioned (es : list ProductEvent) : Prop := {
  ver_some : ∀ p n pr v, ProductUpdated p n pr v ∈ es → is_Some v;
  ver_unique : ∀ p n pr n' pr' v, ProductUpdated p n pr v ∈ es → ProductUpdated p n' pr' v ∈ es → n = n' ∧ pr = pr'
}.

Lemma merge_commute e1 e2 o :
  versioned [e1; e2] → product_of e1 = product_of e2 →
  merge_event e1 (merge_event e2 o) = merge_event e2 (merge_event e1 o).
Proof.
  intros [Hv Hu] Hp. destruct e1 as [p1 n1 pr1 v1|p1], e2 as [p2 n2 pr2 v2|p2]; simpl in Hp; subst p2.
  - destruct (Hv p1 n1 pr1 v1) as [i1 ->]; [set_solver|]. destruct (Hv p1 n2 pr2 v2) as [i2 ->]; [set_solver|].
    assert (i1 = i2 → n1 = n2 ∧ pr1 = pr2) as Hn.
    { intros <-. apply (Hu p1 n1 pr1 n2 pr2 (Some i1)); set_solver. }
    destruct o as [[|[w|] n0 pr0]|]; simpl; [done|..]; repeat (case_decide; simpl); try lia; try done;
      (assert (i1 = i2) as -> by lia; by destruct Hn as [-> ->]).
  - by destruct o as [[|[w|] n0 pr0]|], v1 as [i|]; simpl; repeat (case_decide; simpl).
  - by destruct o as [[|[w|] n0 pr0]|], v2 as [i|]; simpl; repeat (case_decide; simpl).
  - by destruct o as [[|[w|] n0 pr0]|].
Qed.

Lemma merge_idem e o : (∀ p n pr, e ≠ ProductUpdated p n pr None) → merge_event e (merge_event e o) = merge_event e o.
Proof.
  intros Hv. destruct e as [p n pr [i|]|p]; [| by destruct (Hv p n pr)|by destruct o as [[]|]].
  destruct o as [[|[w|] n0 pr0]|]; simpl; repeat (case_decide; simpl); try lia; done.
Qed.

Section Delivery.
Context (es : list ProductEvent) (Hes : versioned es).

Lemma versioned_pair e1 e2 : e1 ∈ es → e2 ∈ es → versioned [e1; e2].
Proof.
  intros H1 H2. assert (∀ e, e ∈ [e1; e2] → e ∈ es) as Hin by set_solver. split.
  - intros p n pr v H. by eapply (ver_some es Hes), Hin.
  - intros p n pr n' pr' v H H'. eapply (ver_unique es Hes); by apply Hin.
Qed.

Lemma handler_commute e1 e2 s :
  e1 ∈ es → e2 ∈ es →
  (cart_handler e1 (cart_handler e2 s).2).2 = (cart_handler e2 (cart_handler e1 s).2).2.
Proof.
  intros H1 H2. rewrite !handler_merge. simpl. f_equal. destruct (decide (product_of e1 = product_of e2)) as [Hp|Hp].
  - rewrite Hp, !partial_alter_partial_alter_eq. apply partial_alter_ext. intros o _. simpl.
    apply merge_commute; [by apply versioned_pair|done].
  - by apply partial_alter_partial_alter_ne.
Qed.

Lemma handler_idem e s : e ∈ es → (cart_handler e (cart_handler e s).2).2 = (cart_handler e s).2.
Proof.
  intros He. rewrite !handler_merge. simpl. f_equal. rewrite partial_alter_partial_alter_eq. apply partial_alter_ext.
  intros o _. apply merge_idem. intros p n pr ->. by destruct (ver_some es Hes _ _ _ _ He).
Qed.

Lemma deliver_past xs e s :
  xs ⊆ es → e ∈ es → deliver xs (cart_handler e s).2 = (cart_handler e (deliver xs s)).2.
Proof.
  revert s. induction xs as [|x xs IH]; intros s Hxs He; simpl; [done|].
  rewrite handler_commute by set_solver. apply IH; set_solver.
Qed.

Lemma deliver_absorbs xs e s : xs ⊆ es → e ∈ xs → deliver xs (cart_handler e s).2 = deliver xs s.
Proof.
  revert s. induction xs as [|x xs IH]; intros s Hxs He; [set_solver|]. simpl.
  apply elem_of_cons in He as [->|He].
  - by rewrite handler_idem by set_solver.
  - rewrite handler_commute by set_solver. apply IH; set_solver.
Qed.

Lemma deliver_absorbs_all xs ys s : xs ⊆ es → ys ⊆ xs → deliver xs (deliver ys s) = deliver xs s.
Proof.
  revert s. induction ys as [|y ys IH]; intros s Hxs Hys; simpl; [done|].
  rewrite IH by set_solver. apply deliver_absorbs; set_solver.
Qed.

Lemma deliver_swap xs ys s : xs ⊆ es → ys ⊆ es → deliver xs (deliver ys s) = deliver ys (deliver xs s).
Proof.
  revert s. induction ys as [|y ys IH]; intros s Hxs Hys; simpl; [done|].
  rewrite IH by set_solver. f_equal. apply deliver_past; set_solver.
Qed.
End Delivery.

(** Late, reordered and repeated product events do not matter. Two deliveries
    of the same set of versioned events - in any order, each any positive number
    of times - leave the same projections and carts. *)
Theorem delivery_order_irrelevant (es1 es2 : list ProductEvent) (s : CartStore)
    (Hv : versioned es1) (Hsame : ∀ e, e ∈ es1 ↔ e ∈ es2) :
  deliver es1 s = deliver es2 s.
Proof.
  assert (es2 ⊆ es1) as H21 by (intros e; apply Hsame). assert (es1 ⊆ es2) as H12 by (intros e; apply Hsame).
  rewrite <- (deliver_absorbs_all es1 Hv es1 es2 s) by done.
  rewrite (deliver_swap es1 Hv es1 es2 s) by done.
  by rewrite (deliver_absorbs_all es1 Hv es2 es1 s).
Qed.

(** ** At a concrete cart *)

Definition empty_store : CartStore := MkStore ∅ ∅.

Lemma empty_store_ok max_items cap : store_ok max_items cap empty_store.
Proof. apply map_Forall_empty. Qed.

Definition mug : ProductSnapshot := MkSnapshot "mug" 1250 None (Some 1).

(** A buyer adds a mug twice; the product is renamed meanwhile. *)
Definition demo_calls : list (Z * cart_call) :=
  [(0, CAdd (Some mug) 42 17 8); (1, CEvent (ProductUpdated 17 "big mug" "13.00" (Some 2)));
   (2, CAdd (Some mug) 42 17 8); (3, CGet 42)].

Definition demo_store : CartStore := run_cart_calls 100 50 10 demo_calls empty_store.

(** The buyer's cart: sixteen mugs were asked for, ten is the cap of a line. *)
Definition demo_hash : CartHash * Z :=
  default (empty_hash, 0) (carts demo_store !! 42%N).

Lemma carts_stay_within_limits_witness :
  carts demo_store !! 42%N = Some demo_hash ∧ h_lines demo_hash.1 ≠ ∅ ∧ (size (h_lines demo_hash.1) ≤ 50)%nat.
Proof.
  assert (carts demo_store !! 42%N = Some (demo_hash.1, demo_hash.2)) as Hh by (vm_compute; reflexivity).
  destruct (carts_stay_within_limits 100 50 10 demo_calls empty_store (empty_store_ok 50 10)
    42 demo_hash.1 demo_hash.2 Hh) as (_ & Hn & Hs & _).
  split; [exact Hh|]. split; [exact Hn|exact Hs].
Defined.

Lemma demo_store_ok : store_ok 50 10 demo_store.
Proof. apply run_cart_calls_ok, empty_store_ok. Qed.

Lemma consume_exact_witness :
  h_lines (read_hash 5 42 (basket_consume 100 5 42 [MkLine 17 "mug" 1250 4] demo_store).2) !! 17%N =
  Some (MkLineDoc "big mug" "13.00" None 6 (Some 2)).
Proof.
  destruct (consume_exact 100 ltac:(lia) 50 10 5 42 [MkLine 17 "mug" 1250 4] demo_store demo_store_ok) as [H _].
  rewrite H. vm_compute. reflexivity.
Defined.

Lemma get_cart_refreshes_witness :
  ∃ c, (repo_get_cart 100 5 42 demo_store).1 = Ok c ∧
       (17%N, MkLineDoc "big mug" "13.00" None 10 (Some 2)) ∈ default [] (cart_items <$> c).
Proof.
  destruct (get_cart_refreshes 100 ltac:(lia) 50 10 5 42 demo_store demo_store_ok) as (c & Hc & Hl & _).
  exists c. split; [exact Hc|]. apply Hl. exists (MkLineDoc "big mug" "13.00" None 10 (Some 2)).
  split; vm_compute; reflexivity.
Defined.

Lemma deleted_products_stay_out_witness :
  svc_add_item 100 50 10 9 (Some mug) 42 17 1
    (run_cart_calls 100 50 10 demo_calls (cart_handler (ProductDeleted 17) demo_store).2) =
  (Err ProductNotFoundError, run_cart_calls 100 50 10 demo_calls (cart_handler (ProductDeleted 17) demo_store).2).
Proof.
  destruct (deleted_products_stay_out 100 ltac:(lia) 50 10 17 demo_calls demo_store demo_store_ok) as [_ H].
  apply H. lia.
Defined.

Lemma delivery_order_irrelevant_witness :
  deliver [ProductUpdated 17 "a" "1.00" (Some 1); ProductUpdated 17 "b" "2.00" (Some 2)] empty_store =
  deliver [ProductUpdated 17 "b" "2.00" (Some 2); ProductUpdated 17 "a" "1.00" (Some 1);
           ProductUpdated 17 "b" "2.00" (Some 2)] empty_store.
Proof.
  apply delivery_order_irrelevant.
  - split.
    + intros p n pr v [H|[H|[]%not_elem_of_nil]%elem_of_cons]%elem_of_cons; injection H as -> -> -> ->; eauto.
    + intros p n pr n' pr' v H H'. set_solver.
  - set_solver.
Defined.
