(* ===== verification/Resilience.v ===== *)
(** * Resilience: circuit breaker, concurrency budget, bounded retries

    src/shared/resilience.py and the payment gateway's decorator over it
    (src/payments/adapters/resilient_gateway.py).  Times are integers
    (milliseconds); the breaker's clock is the monotonic one, the budget's the
    wall clock.  Gauges and log lines of [_transition] are not part of the
    state. *)

From S2P Require Import Prelude Errors Effects Payments.

(** ** The circuit breaker *)

Inductive CircuitState := CLOSED | HALF_OPEN | OPEN.
#[export] Instance CircuitState_eq_dec : EqDecision CircuitState.
Proof. solve_decision. Defined.

Record CircuitBreaker := MkBreaker {
  cb_state : CircuitState;
  consecutive_failures : Z;
  opened_at : Z;
  half_open_calls : Z
}.

Definition new_breaker : CircuitBreaker := MkBreaker CLOSED 0 0 0.

(** The calls in flight; [true] marks one admitted by a half-open breaker. *)
Abbreviation flights := (list bool).

Section Breaker.
Context (failure_threshold reset_timeout : Z).

(** [_transition] *)
Definition transition_to (to : CircuitState) (b : CircuitBreaker) : CircuitBreaker :=
  MkBreaker to (consecutive_failures b) (opened_at b) (half_open_calls b).
Definition add_half_open (d : Z) (b : CircuitBreaker) : CircuitBreaker :=
  MkBreaker (cb_state b) (consecutive_failures b) (opened_at b) (half_open_calls b + d).

(** [_open] *)
Definition open_breaker (now : Z) (b : CircuitBreaker) : CircuitBreaker :=
  transition_to OPEN (MkBreaker (cb_state b) 0 now (half_open_calls b)).

(** The half-open tail of [allow]. *)
Definition admit_probe (b : CircuitBreaker) : bool * CircuitBreaker :=
  if decide (1 ≤ half_open_calls b) then (false, b) else (true, add_half_open 1 b).

(** [allow] *)
Definition allow (now : Z) (b : CircuitBreaker) : bool * CircuitBreaker :=
  match cb_state b with
  | CLOSED => (true, b)
  | OPEN => if decide (now - opened_at b < reset_timeout) then (false, b)
            else admit_probe (transition_to HALF_OPEN b)
  | HALF_OPEN => admit_probe b
  end.

(** [record_success] *)
Definition record_success (b : CircuitBreaker) : CircuitBreaker :=
  match cb_state b with
  | OPEN => b
  | HALF_OPEN => MkBreaker CLOSED 0 (opened_at b) (half_open_calls b - 1)
  | CLOSED => MkBreaker CLOSED 0 (opened_at b) (half_open_calls b)
  end.

(** [record_failure] *)
Definition record_failure (now : Z) (b : CircuitBreaker) : CircuitBreaker :=
  match cb_state b with
  | OPEN => b
  | HALF_OPEN => open_breaker now (add_half_open (-1) b)
  | CLOSED =>
      let b' := MkBreaker CLOSED (consecutive_failures b + 1) (opened_at b) (half_open_calls b) in
      if decide (failure_threshold ≤ consecutive_failures b') then open_breaker now b' else b'
  end.

(** [record_abandoned] *)
Definition record_abandoned (b : CircuitBreaker) : CircuitBreaker :=
  match cb_state b with
  | HALF_OPEN => MkBreaker HALF_OPEN (consecutive_failures b) (opened_at b) (Z.max 0 (half_open_calls b - 1))
  | _ => b
  end.

(** *** The breaker among its callers *)

(** How an admitted call ends. *)
Inductive Ending := Succeeded_ | Failed_ | Abandoned_.

Definition record (now : Z) (e : Ending) (b : CircuitBreaker) : CircuitBreaker :=
  match e with
  | Succeeded_ => record_success b
  | Failed_ => record_failure now b
  | Abandoned_ => record_abandoned b
  end.



(** One event: a call arrives, or one in flight ends. *)
Inductive breaker_step : CircuitBreaker * flights → CircuitBreaker * flights → Prop :=
  | call_refused now b b' fs :
      allow now b = (false, b') → breaker_step (b, fs) (b', fs)
  | call_admitted now b b' fs :
      allow now b = (true, b') → breaker_step (b, fs) (b', bool_decide (cb_state b' = HALF_OPEN) :: fs)
  | call_ended now b fs1 f fs2 e :
      breaker_step (b, fs1 ++ f :: fs2) (record now e b, fs1 ++ fs2).

Record breaker_ok (x : CircuitBreaker * flights) : Prop := {
  bo_calls : half_open_calls x.1 ≤ 1;
  bo_left : cb_state x.1 ≠ HALF_OPEN → half_open_calls x.1 ≤ 0;
  bo_probe : 1 ≤ half_open_calls x.1 → true ∈ x.2;
  bo_streak : 1 ≤ failure_threshold → 0 ≤ consecutive_failures x.1 < failure_threshold
}.

Lemma breaker_step_ok x y : breaker_step x y → breaker_ok x → breaker_ok y.
Proof.
  intros Hs Hok. destruct Hs as [now b b' fs Ha|now b b' fs Ha|now b fs1 f fs2 e];
    destruct (Hok) as [Hc Hl Hp Hf]; simpl in *.
  - unfold allow, admit_probe in Ha.
    destruct (cb_state b) eqn:E; repeat case_decide; simplify_eq; try exact Hok.
    simpl in *. pose proof (Hl ltac:(done)). lia.
  - unfold allow, admit_probe in Ha. destruct (cb_state b) eqn:E; repeat case_decide; simplify_eq; simpl in *.
    + congruence.
    + split; simpl; [lia|rewrite E; done|set_solver|done].
    + split; simpl; [lia|by rewrite E|set_solver|done].
    + split; simpl; [pose proof (Hl ltac:(done)); lia|done|set_solver|done].
  - assert (cb_state b = HALF_OPEN ∨ half_open_calls b ≤ 0) as Hh.
    { destruct (decide (cb_state b = HALF_OPEN)); [by left|right; auto]. }
    destruct e, (cb_state b) eqn:E; simpl; unfold record_success, record_failure, record_abandoned; rewrite E; simpl;
      try case_decide; split; simpl in *; rewrite ?E; try done; intros; destruct Hh; try done; try lia.
Qed.

Lemma breaker_reachable_ok x y : rtc breaker_step x y → breaker_ok x → breaker_ok y.
Proof. induction 1; eauto using breaker_step_ok. Qed.

Lemma new_breaker_ok : breaker_ok (new_breaker, []).
Proof. split; simpl; try lia; set_solver. Qed.

(** C24: the breaker never wedges. Whatever calls arrived, succeeded, failed or
    were cancelled before, in any order: when no half-open probe is in flight,
    the next call is admitted - at once, or as soon as the reset window of an
    open breaker has elapsed. *)
Theorem breaker_never_wedges (b : CircuitBreaker) (fs : flights)
    (Hr : rtc breaker_step (new_breaker, []) (b, fs)) (Hq : true ∉ fs) (now : Z)
    (Hnow : cb_state b = OPEN → opened_at b + reset_timeout ≤ now) :
  (allow now b).1 = true.
Proof.
  destruct (breaker_reachable_ok _ _ Hr new_breaker_ok) as [_ _ Hp _]. simpl in *.
  assert (half_open_calls b ≤ 0) as Hh. { destruct (decide (1 ≤ half_open_calls b)); [|lia]. by destruct Hq; apply Hp. }
  unfold allow, admit_probe. destruct (cb_state b); [done| |]; simpl; repeat case_decide; try done; try lia.
  specialize (Hnow eq_refl). lia.
Qed.

(** The failures since the last success; a cancelled call says nothing. *)
Definition streak (es : list (Z * Ending)) : Z :=
  foldl (λ n e, match e.2 with Succeeded_ => 0 | Failed_ => n + 1 | Abandoned_ => n end) 0 es.

Definition record_all (es : list (Z * Ending)) (b : CircuitBreaker) : CircuitBreaker :=
  foldl (λ b e, record e.1 e.2 b) b es.

Lemma record_open now e b : cb_state b = OPEN → record now e b = b.
Proof. intros E. destruct e; simpl; unfold record_success, record_failure, record_abandoned; by rewrite E. Qed.

Lemma record_all_open es b : cb_state b = OPEN → record_all es b = b.
Proof. revert b. induction es as [|e es IH]; intros b E; simpl; [done|]. rewrite record_open by done. by apply IH. Qed.

Lemma streak_snoc es now e :
  streak (es ++ [(now, e)]) =
    match e with Succeeded_ => 0 | Failed_ => streak es + 1 | Abandoned_ => streak es end.
Proof. unfold streak. by rewrite foldl_app. Qed.

Lemma record_all_snoc es now e b : record_all (es ++ [(now, e)]) b = record now e (record_all es b).
Proof. unfold record_all. by rewrite foldl_app. Qed.

(** No prefix reached the threshold. *)
Definition below (es : list (Z * Ending)) : Prop := ∀ pre suf, es = pre ++ suf → streak pre < failure_threshold.

Lemma below_snoc es x : below es → streak (es ++ [x]) < failure_threshold → below (es ++ [x]).
Proof.
  intros Hb Hx pre suf Heq. destruct suf as [|y suf _] using rev_ind.
  - rewrite app_nil_r in Heq. by subst pre.
  - rewrite app_assoc in Heq. apply app_inj_tail in Heq as [-> _]. by eapply Hb.
Qed.

Lemma record_all_spec es :
  1 ≤ failure_threshold →
  (cb_state (record_all es new_breaker) = CLOSED ∧ consecutive_failures (record_all es new_breaker) = streak es ∧
   below es) ∨
  (cb_state (record_all es new_breaker) = OPEN ∧ ∃ pre suf, es = pre ++ suf ∧ failure_threshold ≤ streak pre).
Proof.
  intros Ht. induction es as [|[now e] es IH] using rev_ind.
  { left. split_and!; [done..|]. intros [|] suf; [unfold streak; simpl; lia|done]. }
  rewrite record_all_snoc. destruct IH as [(Hst & Hf & Hb)|(Hst & pre & suf & -> & Hpre)].
  - assert (streak es < failure_threshold) as Hes by (apply (Hb es []); by rewrite app_nil_r).
    destruct e; simpl; unfold record_success, record_failure, record_abandoned; rewrite Hst; simpl.
    + left. rewrite streak_snoc. split_and!; [done..|]. apply below_snoc; [done|]. rewrite streak_snoc. lia.
    + rewrite Hf. case_decide; simpl.
      * right. split; [done|]. exists (es ++ [(now, Failed_)]), []. split; [by rewrite app_nil_r|]. by rewrite streak_snoc.
      * left. rewrite streak_snoc. split_and!; [done|lia|]. apply below_snoc; [done|]. rewrite streak_snoc. lia.
    + left. rewrite streak_snoc. split_and!; [done..|]. apply below_snoc; [done|]. by rewrite streak_snoc.
  - right. rewrite record_open by done. split; [done|]. exists pre, (suf ++ [(now, e)]). by rewrite app_assoc.
Qed.

(** the breaker trips exactly on a streak. Feeding a fresh breaker any
    sequence of outcomes, it ends open if and only if somewhere in the sequence
    [failure_threshold] transient faults came without a success between them. *)
Theorem trips_exactly_on_a_streak (es : list (Z * Ending)) (Ht : 1 ≤ failure_threshold) :
  cb_state (record_all es new_breaker) = OPEN ↔
  ∃ pre suf, es = pre ++ suf ∧ failure_threshold ≤ streak pre.
Proof.
  destruct (record_all_spec es Ht) as [(Hst & _ & Hpre)|(Hst & Hex)]; [|done].
  rewrite Hst. split; [done|]. intros (pre & suf & Heq & Hle). specialize (Hpre pre suf Heq). lia.
Qed.
End Breaker.

(** One executable event of [breaker_step]: an arrival, or the end of the
    [i]-th call in flight. *)
Inductive BreakerEvent := Arrives (now : Z) | Ends (now : Z) (i : nat) (e : Ending).

Definition play (threshold reset : Z) (x : CircuitBreaker * flights) (ev : BreakerEvent)
    : CircuitBreaker * flights :=
  match ev with
  | Arrives now =>
      let '(ok, b') := allow reset now x.1 in
      if (ok : bool) then (b', bool_decide (cb_state b' = HALF_OPEN) :: x.2) else (b', x.2)
  | Ends now i e =>
      match x.2 !! i with
      | Some _ => (record threshold now e x.1, delete i x.2)
      | None => x
      end
  end.

Lemma play_steps threshold reset evs x :
  rtc (breaker_step threshold reset) x (foldl (play threshold reset) x evs).
Proof.
  revert x. induction evs as [|ev evs IH]; intros [b fs]; simpl; [done|]. etrans; [|apply IH]. clear IH.
  destruct ev as [now|now i e]; simpl.
  - destruct (allow reset now b) as [[] b'] eqn:E; apply rtc_once; by econstructor.
  - destruct (fs !! i) as [f|] eqn:E; [|done]. apply rtc_once.
    rewrite <- (take_drop_middle fs i f E) at 1. rewrite delete_take_drop. apply call_ended.
Qed.

(** Six calls enter a closed breaker with the default settings (5 faults, 30 s);
    five fail and open it. *)
Definition opened_with_straggler : list BreakerEvent :=
  replicate 6 (Arrives 0) ++ replicate 5 (Ends 1000 0 Failed_).

(** Half-open can admit two probes. A call admitted before the breaker opened
    and cancelled while a probe is in flight frees the probe's slot:
    [record_abandoned] does not know whose slot it is. With the default settings
    two half-open probes are then in flight at once. *)
Theorem half_open_admits_two_probes :
  ∃ b, rtc (breaker_step 5 30000) (new_breaker, []) (b, [true; true]) ∧ cb_state b = HALF_OPEN.
Proof.
  exists (MkBreaker HALF_OPEN 0 1000 1). split; [|done].
  apply (play_steps 5 30000 (opened_with_straggler ++ [Arrives 31000; Ends 31001 1 Abandoned_; Arrives 31002])).
Qed.

Lemma breaker_never_wedges_witness :
  (allow 30000 31000 (foldl (play 5 30000) (new_breaker, []) opened_with_straggler).1).1 = true.
Proof.
  apply (breaker_never_wedges 5 30000 _ (foldl (play 5 30000) (new_breaker, []) opened_with_straggler).2).
  - exact (play_steps 5 30000 opened_with_straggler (new_breaker, [])).
  - vm_compute. intros H. inversion H as [|? ? ? H1]; inversion H1.
  - vm_compute. intros _. discriminate.
Defined.

Lemma trips_exactly_on_a_streak_witness :
  cb_state (record_all 2 [(0, Failed_); (1, Abandoned_); (2, Failed_)] new_breaker) = OPEN.
Proof.
  apply (trips_exactly_on_a_streak 2); [lia|]. exists [(0, Failed_); (1, Abandoned_); (2, Failed_)], [].
  split; [reflexivity|]. vm_compute. discriminate.
Defined.

(** ** Bounded retries *)

(** [is_transient_exception] *)
Definition is_transient_exception (e : exn) : bool :=
  match e with
  | CircuitOpenError => false
  | ProviderError code | KeycloakError _ (Some code) => (500 <=? code) || (code =? 429)
  | TimeoutError | ConnectionError => true
  | _ => false
  end.

Section Retry.
Context {W A : Type} (is_transient : exn → bool).

(** [retry_transient]; the sleeps between tries do not touch the state. *)
Fixpoint retry_transient (attempts : nat) (operation : ST W A) : ST W A := λ w,
  match attempts with
  | O => (Err AssertionError, w)
  | S rest =>
      match operation w with
      | (Ok a, w') => (Ok a, w')
      | (Err e, w') =>
          if negb (is_Exception e) || negb (is_transient e) || bool_decide (rest = 0%nat)
          then (Err e, w') else retry_transient rest operation w'
      end
  end.

(** The state after [n] tries. *)
Fixpoint tries (n : nat) (operation : ST W A) (w : W) : W :=
  match n with
  | O => w
  | S n => tries n operation (operation w).2
  end.

Definition retryable (r : result A) : Prop := ∃ e, r = Err e ∧ is_transient e = true.

(** retries are bounded and decisive. With at least one attempt allowed, the
    operation is tried [k] times for some [1 <= k <= attempts]; every try but the
    last ended in a transient fault, the answer is the last try's own, and that
    one is a result, a definitive error, or the [attempts]-th fault. *)
Theorem retries_are_bounded (attempts : nat) (operation : ST W A) (w : W) (Ha : (1 ≤ attempts)%nat)
    (Hc : ∀ by_, is_transient (CancelledError by_) = false) :
  ∃ k, (k < attempts)%nat ∧ retry_transient attempts operation w = operation (tries k operation w) ∧
    (∀ j, (j < k)%nat → retryable (operation (tries j operation w)).1) ∧
    (k = pred attempts ∨ ¬ retryable (operation (tries k operation w)).1).
Proof.
  revert w. induction attempts as [|n IH]; intros w; [lia|]. simpl.
  destruct (operation w) as [[a|e] w'] eqn:E.
  - exists 0%nat. simpl. rewrite E. split_and!; [lia|done|lia|]. right. intros (e & ? & _). done.
  - destruct (is_transient e) eqn:Et.
    + assert (is_Exception e = true) as -> by (destruct e; try done; by rewrite Hc in Et). case_bool_decide as Hn; simpl.
      * exists 0%nat. simpl. rewrite E. split_and!; [lia|done|lia|by left].
      * destruct (IH ltac:(lia) w') as (k & Hk & Hr & Hj & Hd). exists (S k). simpl. rewrite E. simpl.
        split_and!; [lia|done| |].
        -- intros [|j] Hjk; simpl; rewrite E; [by exists e|]. apply Hj. lia.
        -- destruct Hd as [->|Hd]; [left; lia|by right].
    + exists 0%nat. simpl. rewrite E. rewrite orb_true_r. split_and!; [lia|done|lia|].
      right. intros (e' & [= <-] & ?). congruence.
Qed.
End Retry.

(** An operation that answers on its second try. *)
Definition flaky : ST Z Z := λ n, if decide (n = 2) then (Ok n, n) else (Err TimeoutError, n + 1).

Lemma retries_are_bounded_witness :
  ∃ k, (k < 3)%nat ∧ retry_transient is_transient_exception 3 flaky 1 = flaky (tries k flaky 1).
Proof.
  destruct (retries_are_bounded is_transient_exception 3 flaky 1) as (k & Hk & Hr & _); [lia|reflexivity|]. exists k. split; [exact Hk|exact Hr].
Defined.

(** ** The concurrency budget *)

(** The ZSET [budget:{dependency}]: permits with their expiry, and the expiry of
    the key itself. *)
Record Budget := MkBudget { permits : gmap N Z; key_expires : Z }.
Definition no_permits : Budget := MkBudget ∅ 0.

Section Budget.
Context (limit : nat) (ttl : Z).

(** [_ACQUIRE_PERMIT_LUA] under [acquire]; [up] is whether Valkey answers. *)
Definition acquire_permit (up : bool) (now : Z) (permit_id : N) (b : Budget) : option N * Budget :=
  if negb up then (Some permit_id, b)
  else
    let live := if decide (now < key_expires b) then permits b else ∅ in
    let kept := filter (λ x : N * Z, now < x.2) live in
    if decide (limit ≤ size kept)%nat then (None, MkBudget kept (key_expires b))
    else (Some permit_id, MkBudget (<[permit_id := now + ttl]> kept) (now + ttl)).

(** [release] *)
Definition release_permit (up : bool) (permit_id : N) (b : Budget) : Budget :=
  if negb up then b else MkBudget (delete permit_id (permits b)) (key_expires b).

Inductive BudgetCall := Acquire (up : bool) (now : Z) (id : N) | Release (up : bool) (id : N).

Definition budget_call (b : Budget) (c : BudgetCall) : Budget :=
  match c with
  | Acquire up now id => (acquire_permit up now id b).2
  | Release up id => release_permit up id b
  end.

Definition call_by (t : Z) (c : BudgetCall) : Prop :=
  match c with Acquire _ now _ => now ≤ t | Release _ _ => True end.

Lemma filter_size_le (m : gmap N Z) (P : N * Z → Prop) `{∀ x, Decision (P x)} : (size (filter P m) ≤ size m)%nat.
Proof. apply map_subseteq_size, map_filter_subseteq. Qed.

Lemma budget_call_ok t c b :
  0 ≤ ttl → call_by t c → (size (permits b) ≤ limit)%nat → key_expires b ≤ Z.max 0 (t + ttl) →
  (size (permits (budget_call b c)) ≤ limit)%nat ∧ key_expires (budget_call b c) ≤ Z.max 0 (t + ttl).
Proof.
  intros Httl Hc Hs Hk. destruct c as [up now id|up id]; simpl in *; unfold acquire_permit, release_permit; destruct up; simpl; try done.
  - set (live := if decide (now < key_expires b) then permits b else ∅).
    assert (size live ≤ limit)%nat as Hl by (unfold live; case_decide; [done|rewrite map_size_empty; lia]).
    pose proof (filter_size_le live (λ x, now < x.2)). case_decide; simpl; [split; [lia|done]|].
    split; [|lia]. rewrite map_size_insert. case_goal; simpl; lia.
  - split; [|done]. rewrite map_size_delete. case_goal; simpl; lia.
Qed.

(** The budget bounds the fleet and heals itself. Whatever replicas acquired,
    released, lost or leaked before, at most [limit] permits are outstanding;
    and once the permit lifetime has passed since the last acquisition, the next
    acquisition is granted - a crashed replica's permits block nobody for good. *)
Theorem budget_bounds_and_heals (calls : list BudgetCall) (t now : Z) (id : N)
    (Httl : 0 ≤ ttl) (Hl : (0 < limit)%nat) (Hcalls : Forall (call_by t) calls)
    (Hnow : Z.max 0 (t + ttl) ≤ now) :
  let b := foldl budget_call no_permits calls in
  (size (permits b) ≤ limit)%nat ∧ (acquire_permit true now id b).1 = Some id.
Proof.
  intros b. assert ((size (permits b) ≤ limit)%nat ∧ key_expires b ≤ Z.max 0 (t + ttl)) as [Hs Hk].
  { unfold b. assert ((size (permits no_permits) ≤ limit)%nat ∧ key_expires no_permits ≤ Z.max 0 (t + ttl)) as H0.
    { simpl. rewrite map_size_empty. lia. }
    revert H0. generalize no_permits. induction Hcalls as [|c cs Hc _ IH]; intros b0 [H1 H2]; simpl; [done|].
    apply IH. by apply budget_call_ok. }
  split; [done|]. unfold acquire_permit. simpl. rewrite (decide_False (P := now < key_expires b)) by lia.
  rewrite map_filter_empty, map_size_empty. rewrite decide_False by lia. done.
Qed.
End Budget.

Lemma budget_bounds_and_heals_witness :
  (acquire_permit 2 1000 true 3000 7
     (foldl (budget_call 2 1000) no_permits [Acquire true 0 1; Acquire true 5 2; Acquire true 6 3])).1 = Some 7%N.
Proof.
  apply (budget_bounds_and_heals 2 1000 [Acquire true 0 1; Acquire true 5 2; Acquire true 6 3] 6); try lia.
  repeat constructor; simpl; lia.
Defined.

(** ** Calls under a breaker, a budget and retries

    The body of [_resilient] (payments) and of [_guarded] (the Keycloak client):
    they differ in what counts as transient, in the error of a shed call and in
    the number of attempts. *)

Section Resilient.
Context {G : Type} (is_transient : exn → bool) (shed : exn).
Context (failure_threshold reset_timeout : Z) (max_attempts : nat).
Context (budget_limit : option nat) (permit_ttl : Z).

Record Shell := MkShell { sh_breaker : CircuitBreaker; sh_budget : Budget; sh_inner : G }.

(** What the moment brings: the clock before and after the call, the answers of
    Valkey to acquire and release, a cancellation landing on either, the fresh
    permit id. *)
Record Moment := MkMoment {
  at_start : Z; at_end : Z; up_acquire : bool; up_release : bool;
  cancel_acquire : option cancel_source; cancel_release : option cancel_source;
  fresh_permit : N
}.

(** The breaker's record and the caller's answer for an outcome of the retries. *)
Definition classify {A} (now : Z) (r : result A) (b : CircuitBreaker) : result A * CircuitBreaker :=
  match r with
  | Ok a => (Ok a, record_success b)
  | Err e =>
      if negb (is_Exception e) then (Err e, record_abandoned b)
      else if is_transient e then (Err DependencyUnavailableError, record_failure failure_threshold now b)
      else (Err e, record_success b)
  end.

(** A call once admitted: the retries, the record, and [finish], the
    release of the permit in the [finally] block. *)
Definition admitted {A} (m : Moment) (operation : ST G A) (b : CircuitBreaker)
    (finish : option cancel_source * Budget) : ST Shell A := λ s,
  let '(r, g) := retry_transient is_transient max_attempts operation (sh_inner s) in
  let '(answer, b2) := classify (at_end m) r b in
  (match finish.1 with Some by_ => Err (CancelledError by_) | None => answer end, MkShell b2 finish.2 g).

(** The whole call. *)
Definition guarded_call {A} (m : Moment) (operation : ST G A) : ST Shell A := λ s,
  let '(ok, b1) := allow reset_timeout (at_start m) (sh_breaker s) in
  if negb ok then (Err CircuitOpenError, MkShell b1 (sh_budget s) (sh_inner s))
  else match budget_limit with
  | None => admitted m operation b1 (None, sh_budget s) s
  | Some limit =>
      match cancel_acquire m with
      | Some by_ => (Err (CancelledError by_), MkShell (record_abandoned b1) (sh_budget s) (sh_inner s))
      | None =>
          let '(permit, budget) :=
            acquire_permit limit permit_ttl (up_acquire m) (at_start m) (fresh_permit m) (sh_budget s) in
          match permit with
          | None => (Err shed, MkShell (record_abandoned b1) budget (sh_inner s))
          | Some id => admitted m operation b1 (cancel_release m, release_permit (up_release m) id budget) s
          end
      end
  end.

Lemma allow_slot now b b' :
  half_open_calls b ≤ 0 → allow reset_timeout now b = (true, b') →
  cb_state b' = HALF_OPEN ∨ half_open_calls b' ≤ 0.
Proof.
  intros Hh. unfold allow, admit_probe. destruct (cb_state b) eqn:E; repeat case_decide; intros [= <-]; simpl; auto.
Qed.

Lemma allow_le now b b' :
  half_open_calls b ≤ 0 → allow reset_timeout now b = (true, b') → half_open_calls b' ≤ 1.
Proof.
  intros Hh. unfold allow, admit_probe. destruct (cb_state b) eqn:E; repeat case_decide; intros [= <-]; simpl; lia.
Qed.

Lemma classify_slot {A} now (r : result A) b :
  half_open_calls b ≤ 1 → cb_state b = HALF_OPEN ∨ half_open_calls b ≤ 0 →
  half_open_calls (classify now r b).2 ≤ 0.
Proof.
  intros H1 Hh. unfold classify, record_success, record_failure, record_abandoned.
  repeat case_goal; simpl; destruct Hh; try congruence; try lia.
Qed.

(** The provider was not asked. *)
Definition not_asked {A} (r : result A) : Prop :=
  r = Err CircuitOpenError ∨ r = Err shed ∨ ∃ by_, r = Err (CancelledError by_).

(** What the caller sees of the retries' outcome. *)
Definition seen_as {A} (outcome answer : result A) : Prop :=
  match outcome with
  | Ok a => answer = Ok a
  | Err e => answer = Err (if is_transient e then DependencyUnavailableError else e)
  end ∨ ∃ by_, answer = Err (CancelledError by_).

Lemma admitted_ok {A} m (operation : ST G A) b fin s :
  (∀ by_, is_transient (CancelledError by_) = false) →
  half_open_calls b ≤ 1 → cb_state b = HALF_OPEN ∨ half_open_calls b ≤ 0 →
  let '(r, s') := admitted m operation b fin s in
  half_open_calls (sh_breaker s') ≤ 0 ∧
  sh_inner s' = (retry_transient is_transient max_attempts operation (sh_inner s)).2 ∧
  seen_as (retry_transient is_transient max_attempts operation (sh_inner s)).1 r.
Proof.
  intros Hcan H1 Hh. unfold admitted. destruct (retry_transient is_transient max_attempts operation (sh_inner s)) as [r g].
  pose proof (classify_slot (at_end m) r b H1 Hh) as Hc.
  destruct (classify (at_end m) r b) as [answer b2] eqn:Ec. simpl in *. split_and!; [done..|].
  destruct fin as [[by_|] bu]; [by right; exists by_|]. left. unfold classify in Ec.
  destruct r as [a|e]; [by simplify_eq|]. destruct e; simpl in *; rewrite ?Hcan in *; repeat case_hyp Ec; by simplify_eq/=.
Qed.

Lemma abandoned_slot b :
  half_open_calls b ≤ 1 → cb_state b = HALF_OPEN ∨ half_open_calls b ≤ 0 →
  half_open_calls (record_abandoned b) ≤ 0.
Proof. intros H1 Hh. unfold record_abandoned. destruct (cb_state b) eqn:E; simpl; destruct Hh; try done; lia. Qed.

(** A resilient call leaks nothing. Whatever the breaker, the budget, Valkey
    and the provider do - refusal, shed, success, transient or definitive error,
    cancellation at any await - a call that started with no probe slot taken
    leaves none taken; it reaches the provider only when the breaker admits it
    and the budget grants it; unless cancelled its answer is the provider's own,
    a transient fault being seen as [DependencyUnavailableError]. *)
Theorem resilient_leaks_nothing {A} (m : Moment) (operation : ST G A) (s : Shell)
    (Hs : half_open_calls (sh_breaker s) ≤ 0) (Hc : ∀ by_, is_transient (CancelledError by_) = false) :
  let '(r, s') := guarded_call m operation s in
  half_open_calls (sh_breaker s') ≤ 0 ∧
  ((not_asked r ∧ sh_inner s' = sh_inner s) ∨
   (sh_inner s' = (retry_transient is_transient max_attempts operation (sh_inner s)).2 ∧
    seen_as (retry_transient is_transient max_attempts operation (sh_inner s)).1 r)).
Proof.
  unfold guarded_call. destruct (allow reset_timeout (at_start m) (sh_breaker s)) as [ok b1] eqn:Ea. destruct ok; simpl.
  2:{ unfold allow, admit_probe in Ea. repeat case_hyp Ea; simplify_eq/=; split; try lia; left; split; by try left. }
  pose proof (allow_slot _ _ _ Hs Ea) as Hslot. pose proof (allow_le _ _ _ Hs Ea) as Hle.
  pose proof (abandoned_slot b1 Hle Hslot) as Hab.
  assert (∀ fin, let '(r, s') := admitted m operation b1 fin s in
    half_open_calls (sh_breaker s') ≤ 0 ∧ ((not_asked r ∧ sh_inner s' = sh_inner s) ∨
    (sh_inner s' = (retry_transient is_transient max_attempts operation (sh_inner s)).2 ∧
     seen_as (retry_transient is_transient max_attempts operation (sh_inner s)).1 r))) as Hrun.
  { intros fin. pose proof (admitted_ok m operation b1 fin s Hc Hle Hslot) as H. destruct (admitted _ _ _ _ _).
    destruct H as (H1 & H2 & H3). auto. }
  destruct budget_limit as [limit|]; [|apply Hrun]. unfold not_asked.
  destruct (cancel_acquire m) as [by_|]; [split; [done|left; eauto]|].
  destruct (acquire_permit limit permit_ttl _ _ _ _) as [[id|] bu]; [apply Hrun|split; [done|left; eauto]].
Qed.
End Resilient.

(** [_resilient] *)
Definition resilient {G A} (failure_threshold reset_timeout : Z) (max_attempts : nat) (budget_limit : option nat)
    (permit_ttl : Z) (m : Moment) (operation : ST G A) : ST (Shell (G:=G)) A :=
  guarded_call is_transient_exception DependencyBudgetExhaustedError failure_threshold reset_timeout max_attempts
    budget_limit permit_ttl m operation.

(** The gateway of the deployment: every port call under the shell. *)
Definition resilient_gateway {G} (failure_threshold reset_timeout : Z) (max_attempts : nat)
    (budget_limit : option nat) (permit_ttl : Z) (m : Z → Moment) `{!PaymentGateway G} : PaymentGateway (Shell (G:=G)) :=
  let under {A} now (operation : ST G A) := resilient failure_threshold reset_timeout max_attempts budget_limit permit_ttl (m now) operation in {|
  gw_charge := λ now amount key token, under now (gw_charge now amount key token);
  gw_lookup := λ now key, under now (gw_lookup now key);
  gw_refund := λ now amount key ref, under now (gw_refund now amount key ref)
|}.


Lemma resilient_leaks_nothing_witness :
  half_open_calls (sh_breaker (resilient 5 30000 3 None 0 (MkMoment 0 1 true true None None 1) flaky
                                 (MkShell new_breaker no_permits 1)).2) ≤ 0.
Proof.
  pose proof (resilient_leaks_nothing is_transient_exception DependencyBudgetExhaustedError 5 30000 3 None 0 (MkMoment 0 1 true true None None 1) flaky
    (MkShell new_breaker no_permits 1)) as H.
  unfold resilient.
  destruct (guarded_call _ _ _ _ _ _ _ _ _ _) as [r s']. destruct H as [H _]; [simpl; lia|reflexivity|]. exact H.
Defined.
