(* ===== verification/RateLimit.v ===== *)
(** * RateLimit: the token bucket (src/shared/ratelimit)

    The Lua script over one bucket, the Valkey adapter, and the dependency that
    spends a token per request and fails open.  Token counts are rationals where
    the script uses doubles; times are microseconds. *)

From Stdlib Require Import QArith Qround Qminmax Lqa String Sorting.Sorted.
From S2P Require Import Prelude Errors Effects.

Local Open Scope Z_scope.

(** [RateLimitConfig] *)
Record RateLimitConfig := MkRate { capacity : Z; refill : Z; period_seconds : Z }.

Definition rate_ok (c : RateLimitConfig) : Prop := 0 < capacity c ∧ 0 < refill c ∧ 0 < period_seconds c.

(** The hash of a key: [tokens] and [ts]. *)
Record Bucket := MkBucket { tokens : Q; ts : Z }.

(** [BucketDecision] *)
Record BucketDecision := MkDecision { allowed : bool; remaining : Z; retry_after_seconds : Z }.

(** ** [_TOKEN_BUCKET_LUA] *)

Section Script.
Context (c : RateLimitConfig).

Definition rate : Q := inject_Z (refill c) / inject_Z (period_seconds c).

Definition refilled (now : Z) (b : option Bucket) : Bucket :=
  match b with
  | None => MkBucket (inject_Z (capacity c)) now
  | Some b =>
      let elapsed := (inject_Z (now - ts b) / 1000000)%Q in
      if Qlt_le_dec 0 elapsed
      then MkBucket (Qmin (inject_Z (capacity c)) (tokens b + elapsed * rate)) now
      else b
  end.

(** [{allowed, floor(tokens), retry_after_us}] and the hash written back *)
Definition token_bucket (now : Z) (b : option Bucket) : bool * Z * Z * Bucket :=
  let b := refilled now b in
  if Qlt_le_dec (tokens b) 1 then
    (false, Qfloor (tokens b), Qceiling ((1 - tokens b) / rate * 1000000), b)
  else
    let b := MkBucket (tokens b - 1) (ts b) in (true, Qfloor (tokens b), 0, b).

Definition bucket_ttl : Z := Qceiling (inject_Z (capacity c) / rate) + period_seconds c.
End Script.

(** ** [ValkeyTokenBucket.allow] *)

(** The hashes with their expiry, and the clock. *)
Record RateWorld := MkRateWorld { rl_buckets : gmap string (Bucket * Z); rl_now : Z }.

Definition allow_token (key : string) (c : RateLimitConfig) : ST RateWorld BucketDecision := λ w,
  let now := rl_now w in
  let '(ok, left_, retry_us, b) := token_bucket c now (alive now (rl_buckets w !! key)) in
  (Ok (MkDecision ok left_ (Z.max 1 (Qceiling (inject_Z retry_us / 1000000)))),
   MkRateWorld (<[key := (b, now + bucket_ttl c * 1000000)]> (rl_buckets w)) now).

(** ** [_enforce] and its two keyings *)

Record RateSettings := MkRateSettings {
  rate_limit_enabled : bool;
  rate_checkout : RateLimitConfig;
  rate_write : RateLimitConfig;
  rate_upload : RateLimitConfig
}.

(** [config_for] *)
Definition config_for (s : RateSettings) (bucket : string) : result RateLimitConfig :=
  if decide (bucket = "checkout"%string) then Ok (rate_checkout s)
  else if decide (bucket = "write"%string) then Ok (rate_write s)
  else if decide (bucket = "upload"%string) then Ok (rate_upload s)
  else Err ValueError.

(** [_enforce]; [valkey] says whether the app has a client wired. *)
Definition enforce (settings : option RateSettings) (valkey : bool) (bucket identity : string) : frame RateWorld unit unit :=
  match settings with
  | None => mret tt
  | Some s =>
      if negb (rate_limit_enabled s) then mret tt
      else if negb valkey then mret tt
      else
        match config_for s bucket with
        | Err e => throw e
        | Ok config =>
            decision ← try_catch (d ← await (allow_token ("ratelimit:" +:+ bucket +:+ ":" +:+ identity)%string config); mret (Some d))
                         (λ e, if is_Exception e then mret None else throw e);
            match decision with
            | None => mret tt
            | Some d => if allowed d then mret tt else throw (RateLimitExceededError (Z.max 1 (retry_after_seconds d)))
            end
        end
  end.

(** [rate_limited] and [ip_rate_limited] *)
Definition rate_limited settings valkey (bucket sub : string) := enforce settings valkey bucket ("sub:" +:+ sub)%string.
Definition ip_rate_limited settings valkey (bucket : string) (ip : option string) : frame RateWorld unit unit :=
  match ip with
  | None => mret tt
  | Some ip => enforce settings valkey bucket ("ip:" +:+ ip)%string
  end.

(** ** Arithmetic of the bucket *)

Lemma inject_pos z : 0 < z → (0 < inject_Z z)%Q.
Proof. intros Hz. change 0%Q with (inject_Z 0). by rewrite <- Zlt_Qlt. Qed.

Lemma inject_nonneg z : 0 ≤ z → (0 <= inject_Z z)%Q.
Proof. intros Hz. change 0%Q with (inject_Z 0). by rewrite <- Zle_Qle. Qed.

(** Seconds between two instants. *)
Definition seconds (a b : Z) : Q := (inject_Z (b - a) / 1000000)%Q.

Lemma seconds_add x y z : (seconds x z == seconds x y + seconds y z)%Q.
Proof.
  unfold seconds. replace (z - x) with ((y - x) + (z - y)) by lia. rewrite inject_Z_plus. field.
Qed.

Lemma seconds_nonneg x y : x ≤ y → (0 <= seconds x y)%Q.
Proof. intros Hxy. unfold seconds. apply Qle_shift_div_l; [done|]. rewrite Qmult_0_l. apply inject_nonneg. lia. Qed.

Section Bounds.
Context (c : RateLimitConfig) (Hc : rate_ok c).
Notation cap := (inject_Z (capacity c)).

Lemma rate_pos : (0 < rate c)%Q.
Proof.
  destruct Hc as (_ & Hr & Hp). unfold rate. apply Qlt_shift_div_l; [by apply inject_pos|].
  rewrite Qmult_0_l. by apply inject_pos.
Qed.

Lemma cap_one : (1 <= cap)%Q.
Proof. destruct Hc as (Hcap & _). change 1%Q with (inject_Z 1). rewrite <- Zle_Qle. lia. Qed.

(** What a stored bucket is, and that it stays so. *)
Definition bucket_ok (now : Z) (b : Bucket) : Prop := (0 <= tokens b <= cap)%Q ∧ ts b ≤ now.

Lemma refilled_ok now b :
  (∀ b', b = Some b' → bucket_ok now b') →
  (0 <= tokens (refilled c now b) <= cap)%Q ∧ ts (refilled c now b) = now ∧
  ∀ b', b = Some b' → (tokens (refilled c now b) <= tokens b' + seconds (ts b') now * rate c)%Q.
Proof.
  pose proof rate_pos as Hr. pose proof cap_one as H1. intros Hb. destruct b as [b|]; simpl.
  2:{ split_and!; [lra|lra|done|done]. }
  destruct (Hb b eq_refl) as [Ht Hts]. fold (seconds (ts b) now). pose proof (seconds_nonneg _ _ Hts) as Hs.
  destruct (Qlt_le_dec 0 (seconds (ts b) now)) as [Hpos|Hle]; simpl.
  - assert (0 <= seconds (ts b) now * rate c)%Q by (apply Qmult_le_0_compat; lra).
    split_and!; [apply Q.min_glb; lra|apply Q.le_min_l|done|]. intros b' [= <-]. apply Q.le_min_r.
  - assert (ts b = now) as <-.
    { assert (seconds (ts b) now == 0)%Q as E by lra. unfold seconds, Qdiv in E.
      apply Qmult_integral in E as [E|E]; [|done]. unfold Qeq in E. simpl in E. lia. }
    split_and!; [lra|lra|done|]. intros b' [= <-]. assert (seconds (ts b) (ts b) * rate c == 0)%Q as ->; [|lra].
    assert (seconds (ts b) (ts b) == 0)%Q as -> by (unfold seconds; rewrite Z.sub_diag; reflexivity). ring.
Qed.
End Bounds.

(** ** A sequence of requests on one key *)

Section Requests.
Context (c : RateLimitConfig) (Hc : rate_ok c) (key : string).
Notation cap := (inject_Z (capacity c)).

(** Requests at the given instants: what each was answered. *)
Fixpoint requests (times : list Z) (buckets : gmap string (Bucket * Z)) : list bool :=
  match times with
  | [] => []
  | t :: rest =>
      match allow_token key c (MkRateWorld buckets t) with
      | (Ok d, w) => allowed d :: requests rest (rl_buckets w)
      | (Err _, _) => []
      end
  end.

Definition admitted (xs : list bool) : Z := Z.of_nat (length (filter (λ b, b = true) xs)).

(** The key as the store keeps it: full enough again before it expires. *)
Definition key_ok (now : Z) (buckets : gmap string (Bucket * Z)) : Prop :=
  ∀ b e, buckets !! key = Some (b, e) → bucket_ok c now b ∧ (cap <= seconds (ts b) e * rate c)%Q.

Lemma ttl_covers t : (cap <= seconds t (t + bucket_ttl c * 1000000) * rate c)%Q.
Proof.
  pose proof (rate_pos c Hc) as Hr. destruct Hc as (_ & _ & Hp).
  assert (seconds t (t + bucket_ttl c * 1000000) == inject_Z (bucket_ttl c))%Q as ->.
  { unfold seconds. replace (t + bucket_ttl c * 1000000 - t) with (bucket_ttl c * 1000000) by lia.
    rewrite inject_Z_mult. field. }
  unfold bucket_ttl. rewrite inject_Z_plus.
  pose proof (Qle_ceiling (cap / rate c)) as Hq. pose proof (inject_pos _ Hp) as Hpos.
  assert (cap == cap / rate c * rate c)%Q as E by (field; lra).
  rewrite E at 1. apply Qmult_le_compat_r; lra.
Qed.

(** One request: what is left, counting the token it took, is at most what was
    there plus what the time since has restored - expiry included. *)
Lemma request_step t buckets :
  key_ok t buckets →
  ∃ d b, allow_token key c (MkRateWorld buckets t) = (Ok d, MkRateWorld (<[key := (b, t + bucket_ttl c * 1000000)]> buckets) t) ∧
    key_ok t (<[key := (b, t + bucket_ttl c * 1000000)]> buckets) ∧ ts b = t ∧
    (tokens b + (if allowed d then 1 else 0) <= cap)%Q ∧
    (∀ b0 e, buckets !! key = Some (b0, e) → (tokens b + (if allowed d then 1 else 0) <= tokens b0 + seconds (ts b0) t * rate c)%Q).
Proof.
  intros Hk. pose proof (rate_pos c Hc) as Hr. set (o := alive t (buckets !! key)).
  assert (∀ b, o = Some b → bucket_ok c t b) as Ho.
  { intros b [e He]%alive_Some. by apply (Hk b e). }
  destruct (refilled_ok c Hc t o Ho) as (Hrange & Hts & Hgrow).
  assert (∀ b0 e, buckets !! key = Some (b0, e) → (tokens (refilled c t o) <= tokens b0 + seconds (ts b0) t * rate c)%Q) as Hall.
  { intros b0 e He. destruct (Hk b0 e He) as [[[Hb0 _] Hb1] Hcov]. destruct o as [b|] eqn:Eo.
    - apply alive_Some in Eo as [e' He']. rewrite He in He'. injection He' as -> ->. by apply Hgrow.
    - unfold o, alive in Eo. rewrite He in Eo. case_decide as Hex; [done|].
      assert (seconds (ts b0) e * rate c <= seconds (ts b0) t * rate c)%Q; [|lra].
      apply Qmult_le_compat_r; [|lra]. rewrite (seconds_add (ts b0) e t). pose proof (seconds_nonneg e t ltac:(lia)). lra. }
  unfold allow_token. cbn [rl_now rl_buckets]. fold o. unfold token_bucket.
  set (b := refilled c t o) in *. destruct (Qlt_le_dec (tokens b) 1) as [Hlt|Hge]; eexists _, _; split; [reflexivity| |reflexivity|]; simpl.
  - split_and!; [|done|lra|intros b0 e He; pose proof (Hall b0 e He); lra].
    intros b' e'. rewrite lookup_insert_eq. intros [= <- <-]. split; [split; [done|lia]|]. rewrite Hts. apply ttl_covers.
  - split_and!; [|done|lra|intros b0 e He; pose proof (Hall b0 e He); lra].
    intros b' e'. rewrite lookup_insert_eq. intros [= <- <-]. unfold bucket_ok. simpl.
    split; [split; [lra|lia]|]. rewrite Hts. apply ttl_covers.
Qed.

Lemma key_ok_later t t' buckets : t ≤ t' → key_ok t buckets → key_ok t' buckets.
Proof. intros Ht Hk b e He. destruct (Hk b e He) as [[? ?] ?]. split; [split; [done|lia]|done]. Qed.

Lemma admitted_cons a xs : (inject_Z (admitted (a :: xs)) == (if a then 1 else 0) + inject_Z (admitted xs))%Q.
Proof.
  unfold admitted. rewrite filter_cons. destruct a; simpl; [|ring].
  rewrite Nat2Z.inj_succ, <- Z.add_1_l, inject_Z_plus. reflexivity.
Qed.

Lemma admitted_bound times buckets b e :
  key_ok (ts b) buckets → buckets !! key = Some (b, e) → Sorted Z.le (ts b :: times) →
  (inject_Z (admitted (requests times buckets)) <= tokens b + seconds (ts b) (default (ts b) (last times)) * rate c)%Q.
Proof.
  revert buckets b e. induction times as [|t rest IH]; intros buckets b e Hk Hb Hs.
  - cbn [requests]. destruct (Hk b e Hb) as [[[? _] _] _]. pose proof (rate_pos c Hc).
    assert (seconds (ts b) (ts b) * rate c == 0)%Q as E.
    { unfold seconds. rewrite Z.sub_diag. unfold Qdiv. rewrite Qmult_0_l. apply Qmult_0_l. }
    change (default (ts b) (last [])) with (ts b). change (inject_Z (admitted [])) with 0%Q. lra.
  - apply Sorted_inv in Hs as [Hs Hhd]. apply HdRel_inv in Hhd.
    destruct (request_step t buckets (key_ok_later _ _ _ Hhd Hk)) as (d & b1 & E & Hk1 & Ht1 & _ & Hgrow).
    cbn [requests]. rewrite E. cbn [rl_buckets]. rewrite admitted_cons. specialize (Hgrow b e Hb). subst t.
    pose proof (IH _ b1 _ Hk1 (lookup_insert_eq _ _ _) Hs) as Hrest.
    assert (default (ts b) (last (ts b1 :: rest)) = default (ts b1) (last rest)) as -> by (destruct rest; [done|by rewrite last_cons_cons; destruct (last _) eqn:El; [|apply last_None in El]]).
    rewrite (seconds_add (ts b) (ts b1)), Qmult_plus_distr_l. destruct (allowed d); lra.
Qed.


(** ** The advice of a refusal *)

Definition admits (t : Z) (buckets : gmap string (Bucket * Z)) : bool :=
  match (allow_token key c (MkRateWorld buckets t)).1 with Ok d => allowed d | Err _ => false end.

Lemma admits_refilled t buckets : admits t buckets = true ↔ (1 <= tokens (refilled c t (alive t (buckets !! key))))%Q.
Proof.
  unfold admits, allow_token, token_bucket. cbn [rl_now rl_buckets].
  destruct (Qlt_le_dec (tokens (refilled c t (alive t (buckets !! key)))) 1) as [Hlt|Hge]; simpl; [|done].
  split; [done|]. intros Hle. exfalso. lra.
Qed.

Lemma ceiling_div us : (inject_Z us / 1000000 <= inject_Z (Z.max 1 (Qceiling (inject_Z us / 1000000))))%Q.
Proof.
  eapply Qle_trans; [apply Qle_ceiling|]. rewrite <- Zle_Qle. lia.
Qed.

(** Waiting [x] microseconds is what it takes to get from [tok] to a whole token. *)
Lemma wait_enough tok t t' :
  ((1 - tok) / rate c * 1000000 <= inject_Z (t' - t))%Q → (1 <= tok + seconds t t' * rate c)%Q.
Proof.
  intros Hx. pose proof (rate_pos c Hc) as Hr. unfold seconds.
  assert ((1 - tok) / rate c <= inject_Z (t' - t) / 1000000)%Q as H1 by (apply Qle_shift_div_l; [done|exact Hx]).
  assert ((1 - tok) / rate c * rate c <= inject_Z (t' - t) / 1000000 * rate c)%Q as H2 by (apply Qmult_le_compat_r; lra).
  assert ((1 - tok) / rate c * rate c == 1 - tok)%Q as E by (field; lra). lra.
Qed.

Lemma wait_short tok t t' :
  (inject_Z (t' - t) < (1 - tok) / rate c * 1000000)%Q → (tok + seconds t t' * rate c < 1)%Q.
Proof.
  intros Hx. pose proof (rate_pos c Hc) as Hr. unfold seconds.
  assert (inject_Z (t' - t) / 1000000 < (1 - tok) / rate c)%Q as H1 by (apply Qlt_shift_div_r; [done|exact Hx]).
  assert (inject_Z (t' - t) / 1000000 * rate c < (1 - tok) / rate c * rate c)%Q as H2 by (by apply Qmult_lt_compat_r).
  assert ((1 - tok) / rate c * rate c == 1 - tok)%Q as E by (field; lra). lra.
Qed.

(** A refused caller who waits the advised seconds is admitted, and the advice is
    exact up to its rounding to whole seconds: any try more than a second earlier is
    refused again. *)
Theorem retry_after_is_honest (t : Z) (buckets : gmap string (Bucket * Z)) (d : BucketDecision) (w : RateWorld)
    (Hstore : key_ok t buckets) (Hcall : allow_token key c (MkRateWorld buckets t) = (Ok d, w)) (Hno : allowed d = false) :
  1 ≤ retry_after_seconds d ∧
  (∀ t', t + retry_after_seconds d * 1000000 ≤ t' → admits t' (rl_buckets w) = true) ∧
  (∀ t', t ≤ t' < t + (retry_after_seconds d - 1) * 1000000 → admits t' (rl_buckets w) = false).
Proof.
  pose proof (rate_pos c Hc) as Hr. pose proof (cap_one c Hc) as Hcap.
  assert (∀ b, alive t (buckets !! key) = Some b → bucket_ok c t b) as Ho.
  { intros b [e He]%alive_Some. by apply (Hstore b e). }
  destruct (refilled_ok c Hc t _ Ho) as ([H0 _] & Hts & _). unfold allow_token, token_bucket in Hcall. cbn [rl_now rl_buckets] in Hcall.
  destruct (Qlt_le_dec (tokens (refilled c t (alive t (buckets !! key)))) 1) as [Hlt|Hge]; [|by injection Hcall as <- <-].
  revert H0 Hts Hlt Hcall. generalize (refilled c t (alive t (buckets !! key))). intros b H0 Hts Hlt Hcall.
  injection Hcall as <- <-. cbn [retry_after_seconds rl_buckets].
  set (x := ((1 - tokens b) / rate c * 1000000)%Q). set (us := Qceiling x).
  pose proof (Qle_ceiling x) as Hup. pose proof (Qceiling_lt x) as Hlow. fold us in Hup, Hlow.
  pose proof (ceiling_div us) as Hsec. set (r := Z.max 1 (Qceiling (inject_Z us / 1000000))) in *.
  split_and!; [unfold r; lia| |].
  - intros t' Ht'. apply admits_refilled. rewrite lookup_insert_eq. unfold alive. case_decide as Hal; [|exact Hcap]. simpl.
    rewrite Hts. fold (seconds t t'). assert (x <= inject_Z (t' - t))%Q as Hx.
    { eapply Qle_trans; [exact Hup|]. assert (inject_Z us <= inject_Z r * 1000000)%Q as H1.
      { assert (inject_Z us == inject_Z us / 1000000 * 1000000)%Q as -> by field. apply Qmult_le_compat_r; [exact Hsec|done]. }
      eapply Qle_trans; [exact H1|]. change 1000000%Q with (inject_Z 1000000). rewrite <- inject_Z_mult, <- Zle_Qle. lia. }
    pose proof (wait_enough _ _ _ Hx) as Hok. destruct (Qlt_le_dec 0 (seconds t t')) as [Hpos|Hle].
    + simpl. by apply Q.min_glb.
    + exfalso. assert (seconds t t' * rate c <= 0 * rate c)%Q by (apply Qmult_le_compat_r; lra). lra.
  - intros t' Ht'. apply not_true_is_false. rewrite admits_refilled, lookup_insert_eq.
    assert ((r - 1) * 1000000 < us) as Hrus.
    { assert (r = Qceiling (inject_Z us / 1000000)) as Er by lia. pose proof (Qceiling_lt (inject_Z us / 1000000)) as Hl.
      rewrite <- Er in Hl. assert (inject_Z (r - 1) * 1000000 < inject_Z us)%Q as H1.
      { assert (inject_Z us == inject_Z us / 1000000 * 1000000)%Q as -> by field. by apply Qmult_lt_compat_r. }
      change 1000000%Q with (inject_Z 1000000) in H1. by rewrite <- inject_Z_mult, <- Zlt_Qlt in H1. }
    assert (us ≤ bucket_ttl c * 1000000) as Httl.
    { unfold us. transitivity (Qceiling (inject_Z (bucket_ttl c * 1000000))); [apply Qceiling_resp_le|by rewrite Qceiling_Z].
      unfold x. rewrite inject_Z_mult. apply Qmult_le_compat_r; [|done]. unfold bucket_ttl. rewrite inject_Z_plus.
      pose proof (Qle_ceiling (cap / rate c)). destruct Hc as (_ & _ & Hp). pose proof (inject_pos _ Hp).
      assert ((1 - tokens b) / rate c <= cap / rate c)%Q; [|lra]. unfold Qdiv. apply Qmult_le_compat_r; [lra|].
      apply Qlt_le_weak. by apply Qinv_lt_0_compat. }
    unfold alive. rewrite decide_True by lia. simpl. rewrite Hts. fold (seconds t t').
    assert (inject_Z (t' - t) < x)%Q as Hx. { eapply Qle_lt_trans; [|exact Hlow]. rewrite <- Zle_Qle. lia. }
    pose proof (wait_short _ _ _ Hx) as Hshort. destruct (Qlt_le_dec 0 (seconds t t')); simpl; intros Hbad; [|lra].
    pose proof (Q.le_min_r cap (tokens b + seconds t t' * rate c)). lra.
Qed.
End Requests.

(** ** Failing open *)

(** Whatever Valkey does - no client, a fault, a lost answer - the limiter lets the
    request pass, unless the script itself refused it or the request was cancelled:
    no other exception ever leaves it for a known bucket. *)
Theorem limiter_fails_open (settings : option RateSettings) (valkey : bool) (bucket identity : string) (w : RateWorld)
    (Hbucket : bucket ∈ ["checkout"; "write"; "upload"]%string) :
  wpf (λ _, True) (λ _ _, True) (enforce settings valkey bucket identity) tt (λ _ _ _, True)
    (λ e _ w', (∃ by_, e = CancelledError by_) ∨
       ∃ s config d w0, settings = Some s ∧ rate_limit_enabled s = true ∧ valkey = true ∧ config_for s bucket = Ok config ∧
         allow_token ("ratelimit:" +:+ bucket +:+ ":" +:+ identity)%string config w0 = (Ok d, w') ∧ allowed d = false ∧
         e = RateLimitExceededError (retry_after_seconds d)) w.
Proof.
  unfold enforce. destruct settings as [s|]; [|done]. destruct (rate_limit_enabled s) eqn:Een; [|done]. cbn [negb].
  destruct valkey; [|done]. cbn [negb].
  destruct (config_for s bucket) as [config|e] eqn:Ec.
  2:{ exfalso. unfold config_for in Ec. set_solver. }
  intros w1 r w' _ _ Ho. split; [done|]. split; [done|]. inversion Ho as [E1 E2|e He E1 E2|e He E1 E2]; subst.
  - destruct (allow_token _ config w1) as [r w2] eqn:Ea. unfold allow_token in Ea.
    destruct (token_bucket _ _ _) as [[[ok left_] us] b] eqn:Et. injection Ea as <- <-. cbn.
    destruct ok; [done|]. right. exists s, config. eexists _, w1. split_and!; try done.
    + unfold allow_token. by rewrite Et.
    + done.
    + cbn. f_equal. lia.
  - cbn. destruct e; cbn; try done. left. by eexists.
  - cbn. destruct e; cbn; try done. left. by eexists.
Qed.

(** ** At a concrete bucket *)

Definition two_per_second : RateLimitConfig := MkRate 2 1 1.

Lemma two_per_second_ok : rate_ok two_per_second.
Proof. by vm_compute. Qed.

Lemma empty_key_ok c key t : key_ok c key t ∅.
Proof. intros b e He. by rewrite lookup_empty in He. Qed.


Definition drained_store : gmap string (Bucket * Z) := {["k" := (MkBucket (1 # 4) 0, 10000000)]}.

Lemma drained_key_ok : key_ok two_per_second "k" 0 drained_store.
Proof. intros b e. unfold drained_store. rewrite lookup_singleton_eq. intros [= <- <-]. vm_compute. repeat split; discriminate. Qed.

Lemma retry_after_is_honest_witness :
  let answer := allow_token "k" two_per_second (MkRateWorld drained_store 0) in
  admits two_per_second "k" 1000000 (rl_buckets answer.2) = true.
Proof.
  destruct (retry_after_is_honest two_per_second two_per_second_ok "k" 0 drained_store (MkDecision false 0 1)
    (allow_token "k" two_per_second (MkRateWorld drained_store 0)).2 drained_key_ok ltac:(vm_compute; reflexivity) eq_refl)
    as (_ & Hlate & _).
  apply Hlate. vm_compute. discriminate.
Defined.

Definition shop_limits : RateSettings := MkRateSettings true (MkRate 30 30 60) (MkRate 120 120 60) (MkRate 30 30 60).

Lemma limiter_fails_open_witness :
  wpf (λ _, True) (λ _ _, True) (enforce (Some shop_limits) false "checkout" "sub:u") tt (λ _ _ _, True)
    (λ e _ _, (∃ by_, e = CancelledError by_)) (MkRateWorld ∅ 0).
Proof.
  eapply wp_mono; [by split| |apply (limiter_fails_open (Some shop_limits) false "checkout" "sub:u" (MkRateWorld ∅ 0)); left].
  intros [[[]|e] l] w' _; [done|]. intros [He|(s & config & d & w0 & _ & _ & Hv & _)]; [exact He|discriminate].
Defined.
