(* ===== verification/Http.v ===== *)
(** * Http: error answers and version tags

    src/shared/errors/exception_handlers.py: which exception is answered how.  The
    handlers are looked up along the method resolution order of the exception's
    class, as Starlette does; what no handler takes goes to the handler of
    [Exception], outside the others.  src/shared/api/etag.py: the grammar of [ETag]
    and [If-Match].  The free texts of the answers are not modelled. *)

From Stdlib Require Import Ascii String.
From S2P Require Import Prelude Errors Text Parse Sha256 Datetime.

(** ** Problems *)

Record Problem := MkProblem { pb_status : Z; pb_title : string; pb_headers : list (string * string) }.

(** Classes up to, and without, [Exception]. *)
Definition mro (e : exn) : list string :=
  match e with
  | InvalidCursorError => ["InvalidCursorError"; "ValueError"]
  | InvalidQueryParamError _ _ => ["InvalidQueryParamError"; "ValueError"]
  | InvalidUploadError => ["InvalidUploadError"; "ValueError"]
  | InvalidCartOperationError _ => ["InvalidCartOperationError"; "ValueError"]
  | InvalidPaymentMethodError => ["InvalidPaymentMethodError"; "ValueError"]
  | InvalidReservationError _ => ["InvalidReservationError"; "ValueError"]
  | PaymentIdempotencyConflictError => ["PaymentIdempotencyConflictError"]
  | CheckoutIdempotencyConflictError => ["CheckoutIdempotencyConflictError"]
  | CartChangedError _ => ["CartChangedError"]
  | OrderStateConflictError _ => ["OrderStateConflictError"]
  | UnknownPaymentRefError => ["UnknownPaymentRefError"]
  | AuthenticationError => ["AuthenticationError"]
  | AuthorizationError => ["AuthorizationError"]
  | RateLimitExceededError _ => ["RateLimitExceededError"]
  | InsufficientStockError _ _ => ["InsufficientStockError"]
  | StockBelowReservedError _ _ _ => ["StockBelowReservedError"]
  | ReservationConflictError _ _ _ => ["ReservationConflictError"]
  | ReservationContendedError _ => ["ReservationContendedError"]
  | ConcurrentUpdateError => ["ConcurrentUpdateError"]
  | PreconditionFailedError _ => ["PreconditionFailedError"]
  | StockMutationError _ => ["StockMutationError"]
  | DependencyUnavailableError => ["DependencyUnavailableError"]
  | CircuitOpenError => ["CircuitOpenError"; "DependencyUnavailableError"]
  | DependencyBudgetExhaustedError => ["DependencyBudgetExhaustedError"; "DependencyUnavailableError"]
  | KeycloakEntityNotFoundError => ["KeycloakEntityNotFoundError"]
  | KeycloakConflictError => ["KeycloakConflictError"]
  | KeycloakInvalidRequestError => ["KeycloakInvalidRequestError"]
  | ProductNotFoundError => ["ProductNotFoundError"]
  | CartLineNotFoundError => ["CartLineNotFoundError"]
  | HTTPException _ => ["HTTPException"]
  | RequestValidationError => ["RequestValidationError"]
  | _ => []
  end.

(** The handlers, each with the class it is registered for; [HTTPStatus(n).phrase]
    is the argument [reason]. *)
Definition conflict (title : string) (e : exn) : Problem := MkProblem 409 title [].
Definition bad_request (e : exn) : Problem := MkProblem 400 "Bad Request" [].
Definition not_found (e : exn) : Problem := MkProblem 404 "Not Found" [].
Definition rate_limit_answer (e : exn) : Problem :=
  MkProblem 429 "Too Many Requests"
    (match e with RateLimitExceededError s => [("Retry-After", int_str s)] | _ => [] end)%string.
Definition http_answer (reason : Z → option string) (e : exn) : Problem :=
  match e with
  | HTTPException code => MkProblem code (default "Error"%string (reason code)) []
  | _ => MkProblem 500 "Internal Server Error" []
  end.

(** [register_exception_handlers] *)
Definition handlers (reason : Z → option string) : list (string * (exn → Problem)) :=
  [("AuthenticationError", λ _, MkProblem 401 "Unauthorized" [("WWW-Authenticate", "Bearer")]);
   ("AuthorizationError", λ _, MkProblem 403 "Forbidden" []);
   ("RateLimitExceededError", rate_limit_answer);
   ("InvalidQueryParamError", bad_request);
   ("InvalidCursorError", bad_request);
   ("InvalidUploadError", bad_request);
   ("InvalidReservationError", bad_request);
   ("InvalidCartOperationError", bad_request);
   ("KeycloakInvalidRequestError", bad_request);
   ("InsufficientStockError", conflict "Conflict");
   ("ReservationConflictError", conflict "Reservation Conflict");
   ("ReservationContendedError", conflict "Reservation Contention");
   ("StockBelowReservedError", conflict "Conflict");
   ("PaymentIdempotencyConflictError", conflict "Idempotency Conflict");
   ("CheckoutIdempotencyConflictError", conflict "Idempotency Conflict");
   ("CartChangedError", conflict "Cart Changed");
   ("OrderStateConflictError", conflict "Conflict");
   ("UnknownPaymentRefError", not_found);
   ("ConcurrentUpdateError", conflict "Conflict");
   ("PreconditionFailedError", λ _, MkProblem 412 "Precondition Failed" []);
   ("StaleDataError", conflict "Conflict");
   ("DependencyUnavailableError", λ _, MkProblem 503 "Service Unavailable" []);
   ("KeycloakEntityNotFoundError", not_found);
   ("ProductNotFoundError", not_found);
   ("CartLineNotFoundError", not_found);
   ("KeycloakConflictError", conflict "Conflict");
   ("HTTPException", http_answer reason);
   ("RequestValidationError", λ _, MkProblem 422 "Request validation failed" [])]%string.

(** The first class of the order that has a handler. *)
Fixpoint find_handler (classes : list string) (hs : list (string * (exn → Problem))) : option (exn → Problem) :=
  match classes with
  | [] => None
  | cls :: rest =>
      match list_find (λ x, x.1 = cls) hs with
      | Some (_, (_, h)) => Some h
      | None => find_handler rest hs
      end
  end.

(** The answer to an exception; a cancellation is none. *)
Definition answer (reason : Z → option string) (e : exn) : option Problem :=
  if is_Exception e then
    Some (match find_handler (mro e) (handlers reason) with
          | Some h => h e
          | None => MkProblem 500 "Internal Server Error" []
          end)
  else None.

(** ** What the docstrings of src/shared/errors/exceptions.py promise *)

Definition documented_status (e : exn) : option Z :=
  match e with
  | InvalidCursorError | InvalidUploadError | InvalidCartOperationError _ | InvalidPaymentMethodError
  | InvalidReservationError _ | KeycloakInvalidRequestError => Some 400
  | AuthenticationError => Some 401
  | AuthorizationError => Some 403
  | UnknownPaymentRefError | KeycloakEntityNotFoundError | ProductNotFoundError | CartLineNotFoundError => Some 404
  | PaymentIdempotencyConflictError | CheckoutIdempotencyConflictError | CartChangedError _ | OrderStateConflictError _
  | InsufficientStockError _ _ | StockBelowReservedError _ _ _ | ReservationConflictError _ _ _
  | ReservationContendedError _ | ConcurrentUpdateError | KeycloakConflictError => Some 409
  | RateLimitExceededError _ => Some 429
  | StockMutationError _ => Some 500
  | DependencyUnavailableError | CircuitOpenError | DependencyBudgetExhaustedError => Some 503
  | _ => None
  end.

(** Every exception whose docstring names a status is answered with it - the subclasses
    of an unavailable dependency included - with one exception: the handler written
    for an unusable payment method is never registered. *)
Theorem documented_statuses_hold (reason : Z → option string) (e : exn) (s : Z)
    (Hdoc : documented_status e = Some s) (Hpan : e ≠ InvalidPaymentMethodError) :
  ∃ p, answer reason e = Some p ∧ pb_status p = s.
Proof. destruct e; simpl in Hdoc; try discriminate; injection Hdoc as <-; try done; by eexists. Qed.

Lemma documented_statuses_hold_witness :
  ∃ p, answer (λ _, None) CircuitOpenError = Some p ∧ pb_status p = 503.
Proof. apply (documented_statuses_hold (λ _, None) CircuitOpenError 503 eq_refl). discriminate. Defined.

(** ** [ETag] and [If-Match] *)

(** [etag_of] *)
Definition etag_of (version : Z) : string := (quote +:+ int_str version +:+ quote)%string.

(** [_IF_MATCH_RE.match(s)]: the digits between the quotes; [$] also matches before
    a final newline. *)
Definition match_etag (s : string) : option string :=
  match s with
  | String q rest =>
      if decide (q = ascii_of_N 34) then
        let body := if ends_with (String (ascii_of_N 10) EmptyString) rest
                    then remove_suffix (String (ascii_of_N 10) EmptyString) rest else rest in
        if ends_with quote body then
          let digits := remove_suffix quote body in
          if all_digits digits && negb (bool_decide (digits = EmptyString)) then Some digits else None
        else None
      else None
  | EmptyString => None
  end.

(** [parse_if_match] *)
Definition parse_if_match (header : option string) : result (option Z) :=
  match header with
  | None => Ok None
  | Some h =>
      if decide (strip h = "*"%string) then Ok None
      else match match_etag (strip h) with
           | Some digits => Ok (Z.of_N <$> digits_value 0 digits)
           | None => Err (HTTPException 400)
           end
  end.

Lemma ends_with_char c a x : ends_with (String c EmptyString) (a +:+ String x EmptyString) = bool_decide (c = x).
Proof.
  unfold ends_with. rewrite str_rev_app_distr. change (str_rev (String x EmptyString)) with (String x EmptyString).
  change (str_rev (String c EmptyString)) with (String c EmptyString). rewrite str_cons_app, str_app_nil_l. simpl.
  destruct (ascii_dec c x) as [->|Hne]; [|by rewrite bool_decide_eq_false_2].
  rewrite bool_decide_eq_true_2 by done. by destruct (str_rev a).
Qed.

Lemma remove_suffix_char a x : remove_suffix (String x EmptyString) (a +:+ String x EmptyString) = a.
Proof.
  unfold remove_suffix. rewrite ends_with_char, bool_decide_eq_true_2 by done. rewrite str_length_app. simpl.
  rewrite Nat.add_sub. apply substring_prefix.
Qed.

Lemma match_etag_digits d : all_digits d = true → d ≠ EmptyString → match_etag (quote +:+ d +:+ quote) = Some d.
Proof.
  intros Hd Hne. unfold quote at 1. rewrite str_cons_app, str_app_nil_l. unfold match_etag. rewrite decide_True by done.
  unfold quote. rewrite ends_with_char. rewrite bool_decide_eq_false_2 by done. cbv iota.
  rewrite ends_with_char, bool_decide_eq_true_2, remove_suffix_char by done. rewrite Hd. by rewrite bool_decide_eq_false_2.
Qed.

Lemma all_digits_no_space_quoted d : all_digits d = true → strip (quote +:+ d +:+ quote) = (quote +:+ d +:+ quote)%string.
Proof. intros Hd. apply strip_no_space. rewrite !no_space_app, (digits_no_space d Hd). done. Qed.

(** A client that sends back the tag of the version it read names exactly that
    version: the [If-Match] of an [ETag] is its number. *)
Theorem etag_roundtrip (version : Z) (Hv : 0 ≤ version) :
  parse_if_match (Some (etag_of version)) = Ok (Some version).
Proof.
  unfold etag_of, int_str. rewrite decide_False by lia. set (d := nat_str (Z.to_N version)).
  assert (all_digits d = true) as Hd by apply nat_str_digits. assert (d ≠ EmptyString) as Hne by apply nat_str_nonempty.
  unfold parse_if_match. rewrite all_digits_no_space_quoted by done. rewrite decide_False.
  - rewrite match_etag_digits by done. unfold d. rewrite nat_str_value. simpl. by rewrite Z2N.id.
  - unfold quote. rewrite str_cons_app. discriminate.
Qed.

Lemma etag_roundtrip_witness : parse_if_match (Some (etag_of 42)) = Ok (Some 42).
Proof. apply (etag_roundtrip 42). lia. Defined.

(** Weak tags, lists and bare numbers are malformed, not guessed at. *)
Example weak_tag : parse_if_match (Some ("W/" +:+ etag_of 7)%string) = Err (HTTPException 400).
Proof. vm_compute. reflexivity. Qed.
Example tag_list : parse_if_match (Some (etag_of 7 +:+ ", " +:+ etag_of 8)%string) = Err (HTTPException 400).
Proof. vm_compute. reflexivity. Qed.
Example padded_tag : parse_if_match (Some (quote +:+ "007" +:+ quote)%string) = Ok (Some 7).
Proof. vm_compute. reflexivity. Qed.
