(* ===== verification/Middleware.v ===== *)
(** * Middleware: what every answer passes through (src/app.py, src/shared/middleware)

    The stack [create_app] builds around the routes, from the outside: Starlette's
    [ServerErrorMiddleware] with the handler of [Exception], the request-id middleware,
    the security headers, and the exception handlers of [Http].  The request context -
    the context variable and [request.state] - is the local of a frame; a route runs
    with a frame of its own.  CORS, proxy headers and the metrics middleware are left
    out.  The probes of src/shared/api/health.py follow. *)

From Stdlib Require Import Ascii String.
From S2P Require Import Prelude Errors UnitOfWork Text Parse Effects Http.

(** ** Headers *)

Notation headers := (list (string * string)).

(** Names are compared without case. *)
Definition same_header (a b : string) : bool := bool_decide (lower_str a = lower_str b).
Fixpoint header_get (name : string) (hs : headers) : option string :=
  match hs with
  | [] => None
  | (k, v) :: rest => if same_header k name then Some v else header_get name rest
  end.
(** [MutableHeaders.__setitem__] and [setdefault] *)
Fixpoint header_set (name value : string) (hs : headers) : headers :=
  match hs with
  | [] => [(name, value)]
  | (k, v) :: rest =>
      if same_header k name then (k, value) :: filter (λ x, same_header x.1 name = false) rest
      else (k, v) :: header_set name value rest
  end.
Definition header_setdefault (name value : string) (hs : headers) : headers :=
  match header_get name hs with Some _ => hs | None => hs ++ [(name, value)] end.

(** ** Answers *)

(** [build_problem] *)
Record ProblemBody := MkBody { bd_status : Z; bd_title : string; bd_trace : string; bd_detail : option string }.
Inductive AnswerBody (A : Type) := Payload (a : A) | ProblemDoc (p : ProblemBody).
Arguments Payload {A} _.
Arguments ProblemDoc {A} _.
Record Answer (A : Type) := MkAnswer { an_status : Z; an_headers : headers; an_body : AnswerBody A }.
Arguments MkAnswer {A} _ _ _.
Arguments an_status {A} _.
Arguments an_headers {A} _.
Arguments an_body {A} _.

Definition with_headers {A} (hs : headers) (r : Answer A) : Answer A := MkAnswer (an_status r) hs (an_body r).

(** [request_id_ctx] and [request.state.request_id] *)
Record RequestContext := MkContext { cx_request_id : string; cx_state_id : option string }.

Definition REQUEST_ID_HEADER : string := "X-Request-ID".
Definition SECURITY_HEADERS : headers :=
  [("X-Content-Type-Options", "nosniff"); ("X-Frame-Options", "DENY");
   ("Content-Security-Policy", "default-src 'none'; frame-ancestors 'none'"); ("Referrer-Policy", "no-referrer");
   ("Strict-Transport-Security", "max-age=31536000; includeSubDomains")]%string.
Definition DOCS_CSP : string :=
  "default-src 'none'; script-src https://cdn.jsdelivr.net 'unsafe-inline'; style-src https://cdn.jsdelivr.net 'unsafe-inline'; img-src 'self' https://fastapi.tiangolo.com data:; font-src https://cdn.jsdelivr.net data:; connect-src 'self'; frame-ancestors 'none'; base-uri 'none'; form-action 'none'".

(** [_REQUEST_ID_PATTERN.fullmatch] *)
Definition request_id_char (c : ascii) : bool :=
  let n := N_of_ascii c in
  bool_decide ((48 ≤ n ≤ 57)%N ∨ (65 ≤ n ≤ 90)%N ∨ (97 ≤ n ≤ 122)%N) || bool_decide (c ∈ ["."; "_"; "~"; "-"]%char).
Definition request_id_ok (s : string) : bool :=
  bool_decide (1 ≤ String.length s ≤ 64)%nat && all_chars request_id_char s.

(** The id of a request: the caller's, or a fresh [uuid4().hex] *)
Definition request_id (supplied : option string) (fresh : string) : string :=
  match supplied with Some s => if request_id_ok s then s else fresh | None => fresh end.

(** The docs are served outside production only. *)
Definition docs_paths (is_prod : bool) : list string := if is_prod then [] else ["/docs"; "/redoc"; "/openapi.json"]%string.

Section Stack.
Context {W A : Type} (reason : Z → option string) (detail_of : exn → option string).
Notation dispatch := (frame W RequestContext (Answer A)).

Definition build_problem (status : Z) (title : string) (detail : option string) : frame W RequestContext ProblemBody :=
  c ← locals; mret (MkBody status title (cx_request_id c) detail).

(** Starlette's [ExceptionMiddleware] with the registered handlers *)
Definition exception_middleware (route : dispatch) : dispatch :=
  try_catch route (λ e,
    match find_handler (mro e) (handlers reason) with
    | Some h =>
        let p := h e in
        body ← build_problem (pb_status p) (pb_title p) (detail_of e);
        mret (MkAnswer (pb_status p) (pb_headers p) (ProblemDoc body))
    | None => throw e
    end).

(** [SecurityHeadersMiddleware.dispatch] *)
Definition secured (docs : list string) (path : string) (hs : headers) : headers :=
  let hs := foldl (λ hs h, header_setdefault h.1 h.2 hs) hs SECURITY_HEADERS in
  if bool_decide (path ∈ docs) then header_set "Content-Security-Policy" DOCS_CSP hs else hs.

Definition security_middleware (docs : list string) (path : string) (inner : dispatch) : dispatch :=
  r ← inner; mret (with_headers (secured docs path (an_headers r)) r).

Definition set_request_id (id : string) (c : RequestContext) : RequestContext := MkContext id (cx_state_id c).

(** [RequestIDMiddleware.dispatch] *)
Definition request_id_middleware (supplied : option string) (fresh : string) (inner : dispatch) : dispatch :=
  let id := request_id supplied fresh in
  before ← locals;
  set_locals (λ _, MkContext id (Some id)) ;;
  r ← try_finally inner (set_locals (set_request_id (cx_request_id before)));
  mret (with_headers (header_set REQUEST_ID_HEADER id (an_headers r)) r).

(** [_unhandled_exception_handler]; [shown]: type and text of the exception. *)
Definition unhandled (verbose : bool) (shown : exn → string) (fresh : string) (e : exn) : dispatch :=
  c ← locals;
  let id := match cx_state_id c with Some (String x s) => String x s | _ => fresh end in
  set_locals (set_request_id id) ;;
  r ← try_finally
    (body ← build_problem 500 "Internal Server Error" (if verbose then Some (shown e) else None);
     mret (MkAnswer 500 [] (ProblemDoc body)))
    (set_locals (set_request_id (cx_request_id c)));
  mret (with_headers (header_set REQUEST_ID_HEADER id (an_headers r)) r).

(** [ServerErrorMiddleware]: the answer it sends; the exception is raised again behind
    it, for the log of the server. *)
Definition server_error_middleware (verbose : bool) (shown : exn → string) (fresh : string) (inner : dispatch) : dispatch :=
  try_catch inner (λ e, if is_Exception e then unhandled verbose shown fresh e else throw e).

(** [create_app] *)
Definition application (is_prod verbose : bool) (shown : exn → string) (path : string) (supplied : option string)
    (fresh fresh' : string) (route : frame W unit (Answer A)) : dispatch :=
  server_error_middleware verbose shown fresh'
    (request_id_middleware supplied fresh
      (security_middleware (docs_paths is_prod) path
        (exception_middleware (call tt route)))).

(** ** Probes (src/shared/api/health.py) *)

(** [_postgres_ready], [_valkey_ready]: a ping that fails or outruns its deadline is a
    dead dependency. *)
Definition probe (timer : cancel_source) (present : bool) (ping : ST W bool) : frame W unit bool :=
  try_catch (timeout timer (if present then await ping else mret false))
    (λ e, if is_Exception e then mret false else throw e).

(** [_bus_ready] *)
Definition bus_probe (timer : cancel_source) (list_queues : ST W unit) : frame W unit bool :=
  try_catch (timeout timer (await list_queues ;; mret true)) (λ e, if is_Exception e then mret false else throw e).

(** [ready]: the status and the named checks; [bus] is absent where no client is. *)
Definition ready (timer : cancel_source) (postgres valkey : bool) (ping_pg ping_vk : ST W bool) (bus : option (ST W unit))
    : frame W unit (Z * list (string * bool)) :=
  pg ← probe timer postgres ping_pg;
  vk ← probe timer valkey ping_vk;
  checks ← match bus with
           | None => mret [("postgres"%string, pg); ("valkey"%string, vk)]
           | Some ping_bus => b ← bus_probe timer ping_bus; mret [("postgres"%string, pg); ("valkey"%string, vk); ("bus"%string, b)]
           end;
  mret (if forallb snd checks then (200, checks) else (503, filter (λ x, x.2 = false) checks)).
End Stack.

(** ** Headers *)

Lemma header_get_set name v hs : header_get name (header_set name v hs) = Some v.
Proof.
  induction hs as [|[k x] hs IH]; simpl; [unfold same_header; by rewrite bool_decide_true|].
  destruct (same_header k name) eqn:E; simpl; by rewrite E.
Qed.

Lemma same_header_ne a b name : same_header a b = true → same_header name b = false → same_header name a = false.
Proof. unfold same_header. rewrite bool_decide_eq_true, !bool_decide_eq_false. congruence. Qed.

Lemma header_get_filter n m hs :
  same_header m n = false → header_get n (filter (λ x, same_header x.1 m = false) hs) = header_get n hs.
Proof.
  intros Hne. induction hs as [|[k x] hs IH]; simpl; [done|]. rewrite filter_cons. simpl. case_decide as Hk; simpl; [by rewrite IH|].
  rewrite IH. destruct (same_header k n) eqn:E; [|done]. destruct Hk. revert E Hne. unfold same_header.
  rewrite bool_decide_eq_true, !bool_decide_eq_false. congruence.
Qed.

Lemma header_get_set_ne n m v hs : same_header m n = false → header_get n (header_set m v hs) = header_get n hs.
Proof.
  intros Hne. induction hs as [|[k x] hs IH]; simpl; [by rewrite Hne|]. destruct (same_header k m) eqn:E; simpl.
  - rewrite header_get_filter by done. destruct (same_header k n) eqn:E2; [|done]. revert E E2 Hne. unfold same_header.
    rewrite !bool_decide_eq_true, bool_decide_eq_false. congruence.
  - by rewrite IH.
Qed.

Lemma header_get_app n hs hs' : header_get n (hs ++ hs') = match header_get n hs with Some v => Some v | None => header_get n hs' end.
Proof. induction hs as [|[k x] hs IH]; simpl; [done|]. by destruct (same_header k n). Qed.

Lemma header_get_setdefault n m v hs :
  header_get n (header_setdefault m v hs) =
    if same_header m n then Some (default v (header_get m hs)) else header_get n hs.
Proof.
  unfold header_setdefault. destruct (same_header m n) eqn:E.
  - assert (header_get n hs = header_get m hs) as Hn.
    { induction hs as [|[k x] hs IH]; simpl; [done|]. rewrite IH. unfold same_header in *. apply bool_decide_eq_true in E.
      by rewrite E. }
    destruct (header_get m hs) as [x|] eqn:Em; [by rewrite Hn|]. rewrite header_get_app, Hn. simpl. by rewrite E.
  - destruct (header_get m hs); [done|]. rewrite header_get_app. simpl. rewrite E. by destruct (header_get n hs).
Qed.

(** What [SecurityHeadersMiddleware] leaves: a header the route set itself stays; the
    docs pages have their own policy. *)
Lemma secured_headers docs path hs h v :
  (h, v) ∈ SECURITY_HEADERS →
  header_get h (secured docs path hs) =
    if bool_decide (path ∈ docs) && same_header h "Content-Security-Policy" then Some DOCS_CSP else Some (default v (header_get h hs)).
Proof.
  intros Hin. unfold secured. set (hs' := foldl _ _ _).
  assert (header_get h hs' = Some (default v (header_get h hs))) as Hbase.
  { unfold hs', SECURITY_HEADERS. cbn [foldl fst snd]. rewrite !header_get_setdefault.
    unfold SECURITY_HEADERS in Hin. rewrite !elem_of_cons in Hin.
    destruct Hin as [E|[E|[E|[E|[E|?%not_elem_of_nil]]]]]; [injection E as -> ->..|done]; reflexivity. }
  case_bool_decide as Hd; [|by rewrite Hbase]. simpl. destruct (same_header h "Content-Security-Policy") eqn:E.
  - assert (h = "Content-Security-Policy"%string) as ->; [|apply header_get_set].
    unfold SECURITY_HEADERS in Hin. rewrite !elem_of_cons in Hin. destruct Hin as [F|[F|[F|[F|[F|?%not_elem_of_nil]]]]];
      [injection F as -> _; first [reflexivity|vm_compute in E; discriminate E]..|done].
  - rewrite header_get_set_ne, Hbase; [done|]. unfold same_header in *. rewrite bool_decide_eq_false in *. congruence.
Qed.

(** ** Every answer *)

Section Facts.
Context {W A : Type} (Inv : W → Prop) (evolves : W → W → Prop) `{!PreOrder evolves}.
Context (reason : Z → option string) (detail_of : exn → option string).
Context (is_prod verbose : bool) (shown : exn → string) (path : string) (supplied : option string) (fresh fresh' : string).
Notation id := (request_id supplied fresh).

(** An answer of the inner stack: dressed, and its problem body quotes the id. *)
Definition dressed (r : Answer A) : Prop :=
  ∀ h v, (h, v) ∈ SECURITY_HEADERS →
    is_Some (header_get h (an_headers r)) ∧
    (path ∈ docs_paths is_prod → h = "Content-Security-Policy"%string → header_get h (an_headers r) = Some DOCS_CSP).
Definition quotes (i : string) (r : Answer A) : Prop := ∀ b, an_body r = ProblemDoc b → bd_trace b = i.

(** The answer of the outermost handler. *)
Definition bare (e : exn) : Answer A :=
  MkAnswer 500 [(REQUEST_ID_HEADER, id)]
    (ProblemDoc (MkBody 500 "Internal Server Error" id (if verbose then Some (shown e) else None))).

Lemma request_id_nonempty : fresh ≠ EmptyString → id ≠ EmptyString.
Proof.
  intros Hf. unfold request_id. destruct supplied as [s|]; [|done]. destruct (request_id_ok s) eqn:E; [|done].
  intros ->. done.
Qed.

Lemma secured_dressed hs status body : dressed (MkAnswer status (header_set REQUEST_ID_HEADER id (secured (docs_paths is_prod) path hs)) body).
Proof.
  intros h v Hin. simpl. assert (same_header REQUEST_ID_HEADER h = false) as Hne.
  { unfold SECURITY_HEADERS in Hin. rewrite !elem_of_cons in Hin.
    destruct Hin as [F|[F|[F|[F|[F|?%not_elem_of_nil]]]]]; [injection F as -> _; vm_compute; reflexivity..|done]. }
  rewrite header_get_set_ne, (secured_headers _ _ _ h v Hin) by done. split.
  - destruct (bool_decide (path ∈ docs_paths is_prod) && same_header h "Content-Security-Policy"); by eexists.
  - intros Hp ->. by rewrite bool_decide_true.
Qed.


(** A readiness probe never fails: a dependency that is absent, slow or broken is named
    in the 503, and 200 means that every probed one answered. *)
Lemma ready_names_the_dead timer postgres valkey (ping_pg ping_vk : ST W bool) (bus : option (ST W unit)) (w : W) :
  (∀ w, Inv w → Inv (ping_pg w).2 ∧ evolves w (ping_pg w).2) → (∀ w, Inv w → Inv (ping_vk w).2 ∧ evolves w (ping_vk w).2) →
  (∀ ping, bus = Some ping → ∀ w, Inv w → Inv (ping w).2 ∧ evolves w (ping w).2) →
  wpf Inv evolves (ready timer postgres valkey ping_pg ping_vk bus) tt
    (λ r _ _, (r.1 = 200 ∧ Forall (λ x, x.2 = true) r.2) ∨ (r.1 = 503 ∧ r.2 ≠ [] ∧ Forall (λ x, x.2 = false) r.2))
    (λ e _ _, is_Exception e = false) w.
Proof.
  intros Hpg Hvk Hbus.
  assert (∀ p (Q : bool → unit → W → Prop) w, Safe Inv evolves p → (∀ b w', Q b tt w') →
    wpf Inv evolves (try_catch (timeout timer p) (λ e, if is_Exception e then mret false else throw e)) tt
      Q (λ e _ _, is_Exception e = false) w) as Hprobe.
  { intros p Q w1 Hp HQ. rule wpf_try. rule wpf_timeout. eapply wpf_mono; [apply _| | |apply (Hp tt w1)]; intros ? [] w2 _ _; [done|].
    destruct (is_Exception _) eqn:E; [by apply wpf_ret|by apply wpf_throw]. }
  assert (∀ (checks : list (string * bool)) (l : unit) (w' : W), (λ r (_ : unit) (_ : W), (r.1 = 200 ∧ Forall (λ x, x.2 = true) r.2) ∨
    (r.1 = 503 ∧ r.2 ≠ [] ∧ Forall (λ x, x.2 = false) r.2))
      (if forallb snd checks then (200, checks) else (503, filter (λ x, x.2 = false) checks)) l w') as Hend.
  { intros checks _ _. destruct (forallb snd checks) eqn:E; simpl.
    - left. split; [done|]. apply Forall_forall. intros x Hx. rewrite forallb_forall in E. by apply E, list_elem_of_In.
    - right. split; [done|]. split; [|apply Forall_forall; by intros x [? _]%list_elem_of_filter].
      intros Hnil. assert (forallb snd checks = true) as Ht; [|congruence]. apply forallb_forall. intros x Hx%list_elem_of_In.
      destruct (x.2) eqn:Ex; [done|]. assert (x ∈ filter (λ x, x.2 = false) checks) as Hf by (by apply list_elem_of_filter).
      rewrite Hnil in Hf. by apply not_elem_of_nil in Hf. }
  unfold ready. rule wpf_bind.
  apply Hprobe; [destruct postgres; [rule Safe_await; exact Hpg|apply Safe_ret]|]. intros pg w1. rule wpf_bind.
  apply Hprobe; [destruct valkey; [rule Safe_await; exact Hvk|apply Safe_ret]|]. intros vk w2. rule wpf_bind. destruct bus as [ping|]; [|by apply wpf_ret, wpf_ret, Hend].
  rule wpf_bind. apply Hprobe; [rule Safe_bind; [rule Safe_await; exact (Hbus ping eq_refl)|intros; apply Safe_ret]|].
  intros b w3. by apply wpf_ret, wpf_ret, Hend.
Qed.
End Facts.

(** ** At concrete requests *)

Section Demo.
Definition quiet (_ : exn) : option string := None.
Definition no_reason (_ : Z) : option string := None.
Definition page (r : result Z) : frame unit unit (Answer Z) :=
  x ← of_result r; mret (MkAnswer 200 [("X-Cache", "hit")]%string (Payload x)).
Definition app (r : result Z) (supplied : option string) : Answer Z * string :=
  match run (application no_reason quiet true false (λ _, "boom"%string) "/v1/products" supplied "f0" "f1" (page r)
               (MkContext EmptyString None)) tt with
  | ((Ok a, c), _) => (a, cx_request_id c)
  | ((Err _, c), _) => (MkAnswer 0 [] (Payload 0), cx_request_id c)
  end.

(** The caller's id is adopted; an id that could break a log line is not. *)
Example adopted : header_get REQUEST_ID_HEADER (an_headers (app (Ok 7) (Some "spa-42"%string)).1) = Some "spa-42"%string.
Proof. vm_compute. reflexivity. Qed.
Example discarded :
  header_get REQUEST_ID_HEADER (an_headers (app (Ok 7) (Some (String "a" (String (ascii_of_N 10) "b")))).1) = Some "f0"%string.
Proof. vm_compute. reflexivity. Qed.

(** An answer of the outermost handler has no security header. *)
Example bare_500 :
  an_status (app (Err KeyError) None).1 = 500 ∧ header_get "X-Content-Type-Options" (an_headers (app (Err KeyError) None).1) = None.
Proof. vm_compute. split; reflexivity. Qed.

End Demo.
