(* ===== verification/IdentityFacts.v ===== *)
(** * IdentityFacts: disabled accounts, announced accounts, and the lock

    The invariant of the identity world under every interleaving of its routes, with
    faults, lost answers and crashes.  [AdminPortLaws] states what the service relies
    on of the account directory. *)

From Stdlib Require Import Ascii String.
From S2P Require Import Prelude Errors Text Effects Json Auth Blake2b Identity.

(** ** What the service relies on *)

(** Accounts by [sub]: the e-mail, and whether the account is enabled. *)
Class Accounts (K : Type) := {
  email_in : K → string → option string;
  enabled_in : K → string → option bool
}.

(** E-mails stay, and nobody is disabled. *)
Definition emails_kept `{Accounts K} (k k' : K) : Prop := ∀ sub e, email_in k sub = Some e → email_in k' sub = Some e.
Definition accounts_kept `{Accounts K} (k k' : K) : Prop :=
  emails_kept k k' ∧ ∀ sub, enabled_in k' sub = Some false → enabled_in k sub = Some false.

Class AdminPortLaws (K : Type) `{!IdentityAdminPort K} `{!Accounts K} := {
  grant_kept sub role k : accounts_kept k (grant_realm_role sub role k).2;
  revoke_kept sub role k : accounts_kept k (revoke_realm_role sub role k).2;
  create_kept email k : accounts_kept k (port_create_user email k).2;
  list_kept search first max k : accounts_kept k (port_list_users search first max k).2;
  has_role_kept sub role k : accounts_kept k (has_realm_role sub role k).2;
  get_email_kept sub k : accounts_kept k (get_user_email sub k).2;
  set_enabled_kept sub b k :
    emails_kept k (set_enabled sub b k).2 ∧
    ∀ sub', sub' ≠ sub → enabled_in (set_enabled sub b k).2 sub' = Some false → enabled_in k sub' = Some false;
  get_email_known sub k e r : email_in k sub = Some e → (get_user_email sub k).1 = Ok r → r = Some e
}.

Section Facts.
Context {K : Type} `{!IdentityAdminPort K} `{!Accounts K} `{!AdminPortLaws K}.
(** Accounts that had an e-mail from the start. *)
Context (known : string → Prop).
Notation W := (IdWorld K).

Definition mirror (w : W) (sub : string) : option User := id_users (iw_db w) !! sub.
Definition disabled (w : W) (sub : string) : Prop := ∃ u, mirror w sub = Some u ∧ u_is_active u = false.

Record IdInv (w : W) : Prop := {
  ii_locks : ∀ key t, id_locks (iw_db w) !! key = Some t → (t < id_grants (iw_db w))%N;
  ii_ids : ∀ sub u, mirror w sub = Some u → (u_id u < id_next (iw_db w))%N;
  ii_uuid : ∀ sub u, mirror w sub = Some u → is_uuid (u_id u);
  ii_unique : ∀ s1 s2 u1 u2, mirror w s1 = Some u1 → mirror w s2 = Some u2 → u_id u1 = u_id u2 → s1 = s2;
  ii_events : NoDup (id_outbox (iw_db w)).*1;
  ii_of_rows : ∀ i, i ∈ (id_outbox (iw_db w)).*1 → ∃ sub u, mirror w sub = Some u ∧ u_id u = i;
  ii_announced : ∀ sub u, mirror w sub = Some u → u_is_active u = true → u_id u ∈ (id_outbox (iw_db w)).*1;
  ii_known : ∀ sub, known sub →
    (∃ e, email_in (iw_kc w) sub = Some e) ∧ (enabled_in (iw_kc w) sub = Some false → disabled w sub)
}.

Record id_evolves (w w' : W) : Prop := {
  ie_rows : ∀ sub u, mirror w sub = Some u →
    ∃ u', mirror w' sub = Some u' ∧ u_id u' = u_id u ∧ (u_is_active u = false → u_is_active u' = false);
  ie_outbox : ∃ new, id_outbox (iw_db w') = new ++ id_outbox (iw_db w);
  ie_grants : (id_grants (iw_db w) ≤ id_grants (iw_db w'))%N;
  ie_old : ∀ key t, (t < id_grants (iw_db w))%N → id_locks (iw_db w') !! key = Some t → id_locks (iw_db w) !! key = Some t;
  ie_frozen : ∀ sub t, (t < id_grants (iw_db w))%N → id_locks (iw_db w) !! lock_key sub = Some t →
    id_locks (iw_db w') !! lock_key sub = Some t → mirror w' sub = mirror w sub;
  ie_emails : emails_kept (iw_kc w) (iw_kc w')
}.

#[local] Instance id_evolves_preorder : PreOrder id_evolves.
Proof.
  split.
  - intros w. split; [intros sub u Hu; by exists u|by exists []|lia|done|done|by intros ???].
  - intros w1 w2 w3 [R1 [n1 O1] G1 L1 F1 E1] [R2 [n2 O2] G2 L2 F2 E2]. split.
    + intros sub u Hu. destruct (R1 _ _ Hu) as (u2 & H2 & I2 & A2), (R2 _ _ H2) as (u3 & H3 & I3 & A3).
      exists u3. split_and!; [done|congruence|by auto].
    + exists (n2 ++ n1). by rewrite O2, O1, app_assoc.
    + lia.
    + intros key t Ht H3. apply L1; [done|]. apply L2; [lia|done].
    + intros sub t Ht H1 H3. assert (id_locks (iw_db w2) !! lock_key sub = Some t) as H2 by (apply L2; [lia|done]).
      rewrite (F2 sub t); [by apply (F1 sub t)|lia|done|done].
    + intros sub e He. by apply E2, E1.
Qed.

Lemma disabled_stays w w' sub : id_evolves w w' → disabled w sub → disabled w' sub.
Proof. intros He (u & Hu & Ha). destruct (ie_rows _ _ He _ _ Hu) as (u' & Hu' & _ & Ha'). exists u'. by auto. Qed.

(** The mirror row of [sub] has this id. *)
Definition row_of (w : W) (sub : string) (i : N) : Prop := is_uuid i ∧ ∃ u, mirror w sub = Some u ∧ u_id u = i.

Lemma row_of_stays w w' sub i : id_evolves w w' → row_of w sub i → row_of w' sub i.
Proof. intros He (Hd & u & Hu & <-). destruct (ie_rows _ _ He _ _ Hu) as (u' & Hu' & Hi & _). split; [done|]. by exists u'. Qed.

(** ** Blocks *)

Notation step_ok w w' := (IdInv w' ∧ id_evolves w w').

(** Only the lock table changes. *)
Lemma locks_step (w : W) (locks : gmap Z N) (grants : N) :
  IdInv w → (id_grants (iw_db w) ≤ grants)%N → (∀ key t, locks !! key = Some t → (t < grants)%N) →
  (∀ key t, (t < id_grants (iw_db w))%N → locks !! key = Some t → id_locks (iw_db w) !! key = Some t) →
  let d := iw_db w in
  step_ok w (MkIdWorld (MkIdentityDB (id_users d) (id_outbox d) locks grants (id_next d)) (iw_kc w) (iw_now w)).
Proof.
  intros [HL HI HD HU HE HR HA HK] Hg Hl Ho. split; [by split|]. split; [intros sub u Hu; by exists u|by exists []|done|done|done|by intros ???].
Qed.

Lemma unlock_subset s locks key t : unlock s locks !! key = Some t → locks !! key = Some t ∧ t ∉ (held s).*2.
Proof. unfold unlock. by intros [? ?]%map_lookup_filter_Some. Qed.

Lemma rollback_step s (w : W) : IdInv w → step_ok w (on_db (λ _, rollback s) w).2.
Proof.
  intros HI. unfold on_db, rollback, end_transaction. simpl. apply locks_step; [done|done|..].
  - intros key t [Hl _]%unlock_subset. by eapply ii_locks.
  - by intros key t _ [? _]%unlock_subset.
Qed.

Lemma take_lock_step key (w : W) : IdInv w → step_ok w (on_db (λ _, take_lock key) w).2.
Proof.
  intros HI. unfold on_db, take_lock. destruct (id_locks (iw_db w) !! key) eqn:El; simpl.
  { by destruct w. }
  apply locks_step; [done|lia|..].
  - intros k t. rewrite lookup_insert_Some. intros [[_ <-]|[_ Hl]]; [lia|]. pose proof (ii_locks _ HI _ _ Hl). lia.
  - intros k t Ht. rewrite lookup_insert_Some. intros [[_ <-]|[_ Hl]]; [lia|done].
Qed.

(** The commit of a transaction that owns the lock of [sub] and wrote its row. *)
Definition committed (s : Session) (sub : string) (u : User) (outbox : list (N * string)) (next : N) (w : W) : W :=
  MkIdWorld (end_transaction s (<[sub := u]> (id_users (iw_db w))) outbox next (iw_db w)) (iw_kc w) (iw_now w).

Lemma id_commit_step s sub u new next (w : W) :
  IdInv w → alive_in s (iw_db w) → lock_key sub ∈ (held s).*1 →
  (id_next (iw_db w) ≤ next)%N → (u_id u < next)%N → is_uuid (u_id u) →
  match mirror w sub with
  | Some u0 => u_id u = u_id u0 ∧ new = [] ∧ (u_is_active u = true → u_is_active u0 = true)
  | None => u_id u = id_next (iw_db w) ∧ (new.*1 = [] ∨ new.*1 = [u_id u]) ∧ (u_is_active u = true → new.*1 = [u_id u])
  end →
  step_ok w (committed s sub u (new ++ id_outbox (iw_db w)) next w).
Proof.
  intros HInv Hal Hkey Hnx Hid Hud Hrow. set (w' := committed s sub u (new ++ id_outbox (iw_db w)) next w).
  assert (∀ x, mirror w' x = if decide (x = sub) then Some u else mirror w x) as Hm.
  { intros x. unfold mirror, w', committed. simpl. case_decide; [subst; by rewrite lookup_insert_eq|by rewrite lookup_insert_ne]. }
  assert (∀ sub', disabled w sub' → disabled w' sub') as Hdis.
  { intros x (v & Hv & Ha). unfold disabled. rewrite Hm. case_decide; [subst x|by exists v].
    rewrite Hv in Hrow. destruct Hrow as (_ & _ & Hact). exists u. split; [done|]. destruct (u_is_active u); [|done].
    rewrite Hact in Ha by done. discriminate. }
  split.
  - destruct HInv as [HL HI HD HU HE HR HA HK].
    assert (∀ x v, mirror w x = Some v → x ≠ sub → u_id v ≠ u_id u) as Hne.
    { intros x v Hv Hx Heq. destruct (mirror w sub) as [u0|] eqn:E; destruct Hrow as (Hi & _).
      - apply Hx, (HU x sub v u0); [done|done|congruence].
      - specialize (HI x v Hv). lia. }
    assert (∀ i, i ∈ new.*1 → mirror w sub = None ∧ i = u_id u) as Hnew.
    { intros i Hin. destruct (mirror w sub) as [u0|]; [destruct Hrow as (_ & -> & _); set_solver|].
      destruct Hrow as (_ & [E|E] & _); rewrite E in Hin; set_solver. }
    split; unfold w'; simpl.
    + intros key t [Hl _]%unlock_subset. by apply (HL key).
    + intros x v. fold w'. rewrite Hm. case_decide; [by intros [= <-]|]. intros Hv. specialize (HI x v Hv). lia.
    + intros x v. fold w'. rewrite Hm. case_decide; [by intros [= <-]|]. apply HD.
    + intros x y v v'. fold w'. rewrite !Hm. repeat case_decide; intros Hv Hv' E; simplify_eq; try done;
        [by destruct (Hne y v' Hv')|by destruct (Hne x v Hv)|by apply (HU x y v v')].
    + rewrite fmap_app. apply NoDup_app. split_and!; [|intros i Hi|done].
      * destruct (mirror w sub); destruct Hrow as (_ & Hn & _); [subst new; constructor|].
        destruct Hn as [-> | ->]; [constructor|apply NoDup_singleton].
      * destruct (Hnew i Hi) as [Hnone ->]. rewrite Hnone in Hrow. destruct Hrow as (Hi' & _).
        intros Hin. destruct (HR _ Hin) as (x & v & Hv & Ev). specialize (HI x v Hv). lia.
    + intros i. rewrite fmap_app, elem_of_app. fold w'. intros [Hi|Hi].
      * destruct (Hnew i Hi) as [_ ->]. exists sub, u. rewrite Hm, decide_True by done. done.
      * destruct (HR i Hi) as (x & v & Hv & Ev). destruct (decide (x = sub)) as [->|Hx].
        -- exists sub, u. rewrite Hm, decide_True by done. rewrite Hv in Hrow. destruct Hrow as (E & _). split; [done|congruence].
        -- exists x, v. by rewrite Hm, decide_False.
    + intros x v. fold w'. rewrite Hm, fmap_app, elem_of_app. case_decide as Hx; [|intros Hv Ha; right; by apply (HA x)].
      intros [= <-] Ha. subst x. destruct (mirror w sub) as [u0|] eqn:E; destruct Hrow as (Ei & Hn & Hact).
      * right. rewrite Ei. apply (HA sub); auto.
      * left. rewrite Hact by done. set_solver.
    + intros x Hx. destruct (HK x Hx) as [He Hd]. split; [done|]. intros Hf. by apply Hdis, Hd.
  - split.
    + intros x v Hv. rewrite Hm. case_decide; [subst x|by exists v]. rewrite Hv in Hrow. destruct Hrow as (Ei & _ & Hact).
      exists u. split_and!; [done|done|]. intros Hf. destruct (u_is_active u); [|done]. rewrite Hact in Hf by done. discriminate.
    + by exists new.
    + done.
    + intros key t _ [? _]%unlock_subset. done.
    + intros x t _ Hl [_ Hnot]%unlock_subset. rewrite Hm. case_decide; [subst x|done]. exfalso. apply Hnot.
      apply list_elem_of_fmap in Hkey as ([k t'] & Ek & Hin). simpl in Ek. subst k.
      unfold alive_in in Hal. rewrite Forall_forall in Hal. specialize (Hal _ Hin). simpl in Hal.
      apply list_elem_of_fmap. exists (lock_key sub, t'). split; [simpl; congruence|done].
    + by intros ???.
Qed.

(** What a provisioning statement answers and leaves. *)
Lemma upsert_step s sub email announce act (w : W) :
  IdInv w → lock_key sub ∈ (held s).*1 → (act = true → announce = true) →
  let r := on_db (upsert_user s sub email announce act) w in
  step_ok w r.2 ∧
  ∀ u, r.1 = Ok u → mirror r.2 sub = Some u ∧ (act = false → u_is_active u = false) ∧ (disabled w sub → u_is_active u = false).
Proof.
  intros HI Hk Hann. unfold on_db, upsert_user. destruct (decide (alive_in s (iw_db w))) as [Hal|Hal];
    [rewrite bool_decide_true by done|rewrite bool_decide_false by done; by destruct w].
  simpl. destruct (column_text 255 sub && column_text 320 email); simpl; [|by destruct w].
  destruct (id_users (iw_db w) !! sub) as [u0|] eqn:Eu; simpl.
  - split.
    + apply (id_commit_step s sub _ []); try done; simpl; [by apply (ii_ids _ HI sub)|by apply (ii_uuid _ HI sub)|].
      unfold mirror. rewrite Eu. split_and!; [done|done|]. by destruct act.
    + intros u [= <-]. unfold mirror. simpl. rewrite lookup_insert_eq. split_and!; [done|by intros ->|].
      intros (v & Hv & Ha). unfold mirror in Hv. rewrite Eu in Hv. simplify_eq. simpl. by destruct act.
  - case_decide as Hud; [|by destruct w]. set (u := MkUser _ _ _ _ _ _).
    assert ((if announce then (u_id u, u_email u) :: id_outbox (iw_db w) else id_outbox (iw_db w)) =
            (if announce then [(u_id u, u_email u)] else []) ++ id_outbox (iw_db w)) as Eo by by destruct announce.
    split.
    + simpl in Eo. rewrite Eo. apply (id_commit_step s sub u); try done; simpl; [lia|lia|]. unfold mirror. rewrite Eu.
      split_and!; [done|destruct announce; auto|]. intros ->. by rewrite Hann.
    + intros v [= <-]. unfold mirror. simpl. rewrite lookup_insert_eq. split_and!; [done|by intros ->|].
      intros (v & Hv & _). unfold mirror in Hv. congruence.
Qed.

Lemma id_update_step s sub (w : W) :
  IdInv w → lock_key sub ∈ (held s).*1 → step_ok w (on_db (update_active s sub false) w).2.
Proof.
  intros HI Hk. unfold on_db, update_active. destruct (decide (alive_in s (iw_db w))) as [Hal|Hal];
    [rewrite bool_decide_true by done|rewrite bool_decide_false by done; by destruct w]. simpl.
  destruct (id_users (iw_db w) !! sub) as [u0|] eqn:Eu; simpl.
  - apply (id_commit_step s sub _ []); try done; simpl; [by apply (ii_ids _ HI sub)|by apply (ii_uuid _ HI sub)|]. unfold mirror. by rewrite Eu.
  - by apply (rollback_step s w).
Qed.

(** Only the directory changes. *)
Lemma kc_step (k : K) (w : W) :
  IdInv w → emails_kept (iw_kc w) k →
  (∀ sub, known sub → enabled_in k sub = Some false → enabled_in (iw_kc w) sub = Some false ∨ disabled w sub) →
  step_ok w (MkIdWorld (iw_db w) k (iw_now w)).
Proof.
  intros [HL HI HD HU HE HR HA HK] He Hd. split.
  - split; try done. intros sub Hs. destruct (HK sub Hs) as [[e Hem] Hdis]. split; [exists e; by apply He|].
    intros Hf. destruct (Hd sub Hs Hf) as [Hf'|Hx]; [by apply Hdis|done].
  - split; [intros sub u Hu; by exists u|by exists []|done|done|done|done].
Qed.

Lemma kept_step {A} (m : ST K A) (w : W) : IdInv w → accounts_kept (iw_kc w) (m (iw_kc w)).2 → step_ok w (on_kc m w).2.
Proof.
  intros HI [He Hd]. unfold on_kc. destruct (m (iw_kc w)) as [r k]; simpl in *. apply kc_step; [done|done|].
  intros sub _ Hf. left. by apply Hd.
Qed.

Lemma set_enabled_step sub (w : W) : IdInv w → (known sub → disabled w sub) → step_ok w (on_kc (set_enabled sub false) w).2.
Proof.
  intros HI Hdis. unfold on_kc. destruct (set_enabled_kept sub false (iw_kc w)) as [He Hd].
  destruct (set_enabled sub false (iw_kc w)) as [r k]; simpl in *. apply kc_step; [done|done|].
  intros sub' Hs Hf. destruct (decide (sub' = sub)) as [->|Hne]; [right; by apply Hdis|left; by apply (Hd sub')].
Qed.

(** ** Coroutines *)

Notation WP p l Q := (wpf IdInv id_evolves p l Q (λ _ _ _, True)).
Notation SAFE := (Safe IdInv id_evolves).

Lemma lock_ok sub l Q w :
  (∀ l' w', id_evolves w w' → lock_key sub ∈ (held l').*1 → Q tt l' w') → WP (lock sub) l Q w.
Proof.
  intros HQ. rule wpf_bind. apply wpf_locals. case_decide as Hk.
  - rule wpf_await_ok; [|done]. intros w1 HI He. split; [by destruct w1|]. intros [] _. apply HQ; [|done].
    by destruct w1.
  - rule wpf_bind. rule wpf_await_ok; [|done]. intros w1 HI He. pose proof (take_lock_step (lock_key sub) w1 HI) as [HI' He'].
    split; [done|]. intros t _. apply wpf_set_locals, HQ; [by etrans|]. simpl. set_solver.
Qed.

Lemma get_or_create_ok sub email announce act l w0 :
  (act = true → announce = true) →
  WP (get_or_create sub email announce act) l
    (λ u _ w, (act = false → disabled w sub) ∧ (disabled w0 sub → u_is_active u = false) ∧ row_of w sub (u_id u)) w0.
Proof.
  intros Hann. rule wpf_bind. apply lock_ok. intros l1 w1 He1 Hk. rule wpf_bind. apply wpf_locals.
  rule wpf_bind. rule wpf_await_ok; [|done]. intros w2 HI2 He2.
  destruct (upsert_step l1 sub email announce act w2 HI2 Hk Hann) as [Hst Hans]. split; [done|].
  intros u Hu. destruct (Hans u Hu) as (Hm & Hact & Hdis). rule wpf_bind. apply wpf_set_locals, wpf_ret. split_and!.
  - intros Ha. exists u. auto.
  - intros Hd. apply Hdis. eapply disabled_stays; [|exact Hd]. by etrans.
  - split; [|by exists u]. destruct Hst as [HI3 _]. by apply (ii_uuid _ HI3 sub).
Qed.

(** The caller of a request that is answered was not disabled when it started, and is
    known by the id of its row. *)
Lemma get_current_db_user_ok p l w0 :
  WP (get_current_db_user p) l (λ u _ w, ¬ disabled w0 (pr_sub p) ∧ row_of w (pr_sub p) (u_id u)) w0.
Proof.
  unfold get_current_db_user. destruct (pr_email p) as [email|]; [|done]. rule wpf_bind.
  eapply wpf_mono; [apply _| | |by apply (get_or_create_ok (pr_sub p) email true true l w0)]; [|done].
  intros u l1 w1 He (_ & Hd & Hrow). destruct (u_is_active u) eqn:Ea; [|done]. apply wpf_ret. split; [|done]. intros Hdis.
  discriminate (Hd Hdis).
Qed.

Lemma disable_user_ok sub l w0 : WP (disable_user sub) l (λ _ _ w, known sub → disabled w sub) w0.
Proof.
  rule wpf_bind. apply lock_ok. intros l1 w1 He1 Hk. rule wpf_bind. rule wpf_await_ok; [|done]. intros w2 HI2 He2.
  split; [apply kept_step; [done|apply get_email_kept]|]. intros r Hr.
  rule wpf_bind. eapply wpf_mono with (Q := λ _ _ w, known sub → disabled w sub) (E := λ _ _ _, True); [apply _| | |].
  - intros [] l3 w3 He3 Hd. rule wpf_await_ok; [|done]. intros w4 HI4 He4.
    assert (known sub → disabled w4 sub) as Hd4 by (intros Hs; eapply disabled_stays; [exact He4|by apply Hd]).
    pose proof (set_enabled_step sub w4 HI4 Hd4) as Hst. split; [done|]. intros [] _ Hs. eapply disabled_stays; [apply Hst|by apply Hd4].
  - done.
  - destruct r as [email|].
    + rule wpf_bind. eapply wpf_mono; [apply _| | |by apply (get_or_create_ok sub email false false l1)]; [|done].
      intros u l3 w3 _ (Hd & _ & _). apply wpf_ret. auto.
    + assert (¬ known sub) as Hnk.
      { intros Hs. destruct (ii_known _ HI2 sub Hs) as [[e He] _]. unfold on_kc in Hr.
        destruct (get_user_email sub (iw_kc w2)) as [r k] eqn:Eg. simpl in Hr. subst r.
        pose proof (get_email_known sub (iw_kc w2) e None He) as Hx. rewrite Eg in Hx. specialize (Hx eq_refl). discriminate. }
      rule wpf_bind. rule wpf_bind. apply wpf_locals. rule wpf_bind. rule wpf_await_ok; [|done]. intros w3 HI3 He3.
      split; [by apply id_update_step|]. intros u _. rule wpf_bind. apply wpf_set_locals, wpf_ret, wpf_ret. done.
Qed.

(** ** Routes *)

Lemma with_session_ok {A} (p : frame W Session A) l (P : A → W → Prop) w :
  (∀ a w w', id_evolves w w' → P a w → P a w') →
  WP p l (λ a _, P a) w → WP (with_session p) l (λ a _, P a) w.
Proof.
  intros HP Hp. rule wpf_finally. eapply wpf_mono; [apply _| | |exact Hp]; intros x l1 w1 _ Hx;
    (rule wpf_bind; apply wpf_locals; rule wpf_await_ok; [|done]; intros w2 HI He;
     pose proof (rollback_step l1 w2 HI) as [? He']; split; [done|]; try done).
  intros _ _. apply (HP _ w2); [done|]. by apply (HP _ w1).
Qed.

Lemma with_session_safe {A} (p : frame W Session A) : SAFE p → SAFE (with_session p).
Proof.
  intros Hp l w. eapply wpf_mono; [apply _| | |apply (with_session_ok p l (λ _ _, True)), Hp]; done.
Qed.

Lemma admin_route_safe {A} p ok (body : frame W Session A) : SAFE body → SAFE (admin_route p ok body).
Proof.
  intros Hb. apply with_session_safe. rule Safe_bind; [apply Safe_of_result|]. intros _. rule Safe_bind.
  - intros l w. eapply wpf_mono; [apply _| | |apply get_current_db_user_ok]; done.
  - intros _. destruct ok; [done|apply Safe_throw].
Qed.

(** A call of the directory that keeps the accounts. *)
Lemma kept_safe {A} (m : ST K A) : (∀ k, accounts_kept k (m k).2) → SAFE (await (on_kc m) : frame W Session A).
Proof. intros Hm. rule Safe_await. intros w HI. by apply kept_step. Qed.

Lemma gather_roles_safe users : SAFE (gather_roles users : frame W Session (list bool)).
Proof.
  induction users as [|u users IH]; [apply Safe_ret|]. rule Safe_bind; [apply kept_safe, has_role_kept|]. intros flag.
  rule Safe_bind; [done|]. intros flags. apply Safe_ret.
Qed.

Lemma list_users_safe limit cursor search : SAFE (list_users limit cursor search : frame W Session _).
Proof.
  rule Safe_bind; [apply Safe_of_result|]. intros [offset n]. rule Safe_bind; [apply kept_safe, list_kept|]. intros users.
  rule Safe_bind; [apply gather_roles_safe|]. intros flags. apply Safe_ret.
Qed.

Lemma disable_user_safe sub : SAFE (disable_user sub : frame W Session unit).
Proof. intros l w. eapply wpf_mono; [apply _| | |apply disable_user_ok]; done. Qed.

(** What arrives: requests, with any principal and any input, time, and what the
    directory does by itself - registrations, role changes - without touching the
    e-mail of an account or disabling it. *)
Inductive id_arrival : prog W unit → Prop :=
  | i_me p : id_arrival (erase (get_me p new_session))
  | i_create p email : id_arrival (erase (create_user_route p email new_session))
  | i_grant p sub : id_arrival (erase (grant_merchant_route p sub new_session))
  | i_revoke p sub : id_arrival (erase (revoke_merchant_route p sub new_session))
  | i_disable p sub : id_arrival (erase (disable_user_route p sub new_session))
  | i_list p names limit cursor search : id_arrival (erase (list_admin_users p names limit cursor search new_session))
  | i_time d : id_arrival (Tick (λ w, MkIdWorld (iw_db w) (iw_kc w) (iw_now w + d)) (Ret tt))
  | i_directory (f : K → K) : (∀ k, accounts_kept k (f k)) → id_arrival (Tick (λ w, MkIdWorld (iw_db w) (f (iw_kc w)) (iw_now w)) (Ret tt)).

Lemma id_arrival_safe p : id_arrival p → safe IdInv id_evolves p.
Proof.
  assert (∀ A (q : frame W Session A) l, SAFE q → safe IdInv id_evolves (erase (q l))) as Hf.
  { intros A q l Hq. apply safe_erase. intros w _. eapply wp_mono; [apply _| |apply Hq]. by intros [[]]. }
  destruct 1 as [p|p email|p sub|p sub|p sub|p names limit cursor search|d|f Hk].
  - apply Hf, with_session_safe. intros l w. eapply wpf_mono; [apply _| | |apply get_current_db_user_ok]; done.
  - apply Hf, admin_route_safe, kept_safe, create_kept.
  - apply Hf, admin_route_safe, kept_safe, grant_kept.
  - apply Hf, admin_route_safe, kept_safe, revoke_kept.
  - apply Hf, admin_route_safe, disable_user_safe.
  - apply Hf, admin_route_safe. rule Safe_bind; [apply Safe_of_result|]. intros _. apply list_users_safe.
  - intros w _ w' [HL HI HD HU HE HR HA HK] _. split; [by split|]. split; [|done].
    split; [intros sub u Hu; by exists u|by exists []|done|done|done|by intros ???].
  - intros w _ w' HI _. destruct (kc_step (f (iw_kc w')) w' HI) as [? ?]; [apply Hk|intros sub _ Hd; left; by apply Hk|done].
Qed.

End Facts.

#[export] Existing Instance id_evolves_preorder.

(** ** Theorems *)

Section Theorems.
Context {K : Type} `{!IdentityAdminPort K} `{!Accounts K} `{!AdminPortLaws K}.
Notation W := (IdWorld K).

(** The service starts with an empty mirror. *)
Definition id_start (k : K) (now : Z) : W := MkIdWorld (MkIdentityDB ∅ [] ∅ 0 0) k now.

Definition id_runs (k : K) (s : list (prog W unit) * W) : Prop :=
  ∃ now, rtc (pool_step id_arrival) ([], id_start k now) s.

(** Accounts that were enabled, with an e-mail, when the service started. *)
Definition enabled_at_start (k : K) (sub : string) : Prop :=
  (∃ e, email_in k sub = Some e) ∧ enabled_in k sub = Some true.

Lemma id_start_inv k now : IdInv (enabled_at_start k) (id_start k now).
Proof.
  split; unfold mirror; simpl.
  - intros key t Hl. by rewrite lookup_empty in Hl.
  - intros sub u Hu. by rewrite lookup_empty in Hu.
  - intros sub u Hu. by rewrite lookup_empty in Hu.
  - intros s1 s2 u1 u2 Hu. by rewrite lookup_empty in Hu.
  - constructor.
  - intros i Hi. by apply not_elem_of_nil in Hi.
  - intros sub u Hu. by rewrite lookup_empty in Hu.
  - intros sub [He Hon]. split; [done|]. rewrite Hon. discriminate.
Qed.

Lemma id_runs_ok k s : id_runs k s → pool_ok (IdInv (enabled_at_start k)) id_evolves s.
Proof.
  intros [now Hr].
  destruct (pool_sound _ id_evolves id_arrival _ _ (id_arrival_safe (enabled_at_start k)) Hr) as [Hok _]; [|done].
  split; [apply id_start_inv|constructor].
Qed.


(** In every reachable world every active user has been announced - there is a
    [UserCreated] of it in the outbox, and only one - and every [UserCreated] is
    that of one row: concurrent first requests announce nobody twice. *)
Theorem users_are_announced_once (k : K) (s : list (prog W unit) * W) (Hs : id_runs k s) :
  NoDup (id_outbox (iw_db s.2)).*1 ∧
  (∀ sub u, mirror s.2 sub = Some u → u_is_active u = true → u_id u ∈ (id_outbox (iw_db s.2)).*1) ∧
  (∀ i, i ∈ (id_outbox (iw_db s.2)).*1 → exists ! sub, ∃ u, mirror s.2 sub = Some u ∧ u_id u = i).
Proof.
  destruct (id_runs_ok _ _ Hs) as [[HL HI HD HU HE HR HA HK] _]. split_and!; [done|done|].
  intros i Hi. destruct (HR i Hi) as (sub & u & Hu & Ei). exists sub. split; [by exists u|].
  intros sub' (u' & Hu' & Ei'). apply (HU sub sub' u u'); congruence.
Qed.

(** While a transaction holds the advisory lock of an account - an administrator
    is disabling it and waits for Keycloak - nobody provisions or changes its mirror. *)
Theorem locked_accounts_are_frozen (k : K) (s s' : list (prog W unit) * W) (sub : string) (t : N)
    (Hs : id_runs k s) (Hrun : rtc (pool_step id_arrival) s s')
    (Hl : id_locks (iw_db s.2) !! lock_key sub = Some t) (Hl' : id_locks (iw_db s'.2) !! lock_key sub = Some t) :
  mirror s'.2 sub = mirror s.2 sub.
Proof.
  pose proof (id_runs_ok _ _ Hs) as Hok. destruct Hok as [HI Hts].
  destruct (pool_sound _ id_evolves id_arrival _ _ (id_arrival_safe (enabled_at_start k)) Hrun) as [_ He]; [by split|].
  apply (ie_frozen _ _ He sub t); [by apply (ii_locks _ _ HI (lock_key sub))|done|done].
Qed.
End Theorems.
