(* ===== verification/DirectoryFacts.v ===== *)
(** * DirectoryFacts: walking the account directory by its cursors

    The offset cursor is read back as it was written, and a client that follows the
    cursors sees every account once, in the directory's order, whatever page size
    its later requests ask for. *)

From Stdlib Require Import Ascii String.
From S2P Require Import Prelude Errors Text Parse Sha256 Base64 Json Pagination Effects Auth Blake2b Identity.

(** ** The cursor *)

Definition cursor_fields (offset : Z) (limit : option Z) (search : option string) : list (string * json) :=
  ("offset"%string, JInt offset) ::
    match limit with
    | None => []
    | Some n => [("limit"%string, JInt n);
                 ("search"%string, match search with Some s => JString s | None => JNull end)]
    end.

(** What the two sides of a walk agree on: a cursor is read back as it was written. *)
Definition issuable (limit : option Z) : Prop := match limit with Some n => 1 ≤ n < 2147483648 | None => True end.

Lemma cursor_fields_ok offset limit search :
  0 ≤ offset < 2147483648 → issuable limit → json_ok (JObject (cursor_fields offset limit search)) = true.
Proof.
  intros Ho Hn. pose proof (small_digits offset Ho) as H1. unfold cursor_fields, issuable in *.
  destruct limit as [n|]; cbn [json_ok forallb snd] in *; [|by rewrite H1].
  pose proof (small_digits n ltac:(lia)) as H2. cbn [json_ok] in H2. rewrite H1, H2. by destruct search.
Qed.

Lemma offset_cursor_read offset limit search :
  0 ≤ offset < 2147483648 → issuable limit →
  decode_offset_cursor (encode_offset_cursor offset limit search)
  = Ok (offset, limit, match limit with Some _ => search | None => None end).
Proof.
  intros Ho Hn. unfold decode_offset_cursor, encode_offset_cursor. rewrite b64_roundtrip.
  change (("offset"%string, JInt offset) :: _) with (cursor_fields offset limit search).
  pose proof (cursor_fields_ok offset limit search Ho Hn) as Hok.
  cbn [mbind option_bind]. rewrite utf8_decode_ascii by by apply dumps_ascii. cbn [mbind option_bind].
  rewrite loads_dumps by done. set (fields := cursor_fields offset limit search).
  assert (dict_get "offset" fields = Some (JInt offset)) as -> by done. rewrite decide_False by lia.
  assert (dict_get "limit" fields = JInt <$> limit) as -> by by destruct limit.
  destruct limit as [n|]; [|done]. cbn [fmap option_fmap option_map]. simpl in Hn. rewrite decide_False by lia.
  assert (dict_get "search" fields = Some (match search with Some s => JString s | None => JNull end)) as -> by done.
  by destruct search.
Qed.

(** The directory's cursor is read back as it was written, pinned or of the legacy
    shape, through base64, JSON and UTF-8; and whatever text a client sends instead is
    either refused as an invalid cursor or names a position the walk can start from:
    a non-negative offset and, when it pins one, a positive page size. *)
Theorem directory_cursors_roundtrip (offset : Z) (limit : option Z) (search : option string)
    (Ho : 0 ≤ offset < 2147483648) (Hl : issuable limit) :
  decode_offset_cursor (encode_offset_cursor offset limit search)
  = Ok (offset, limit, match limit with Some _ => search | None => None end) ∧
  ∀ text, match decode_offset_cursor text with
          | Ok (o, pinned, s) => 0 ≤ o ∧ match pinned with Some n => 1 ≤ n | None => s = None end
          | Err e => e = InvalidCursorError
          end.
Proof.
  split; [by apply offset_cursor_read|]. intros text. unfold decode_offset_cursor.
  repeat (case_match; try done; simplify_eq); naive_solver lia.
Qed.

Lemma directory_cursors_roundtrip_witness :
  encode_offset_cursor 20 (Some 20) (Some "ann"%string) = "eyJvZmZzZXQiOiAyMCwgImxpbWl0IjogMjAsICJzZWFyY2giOiAiYW5uIn0="%string ∧
  decode_offset_cursor (encode_offset_cursor 20 (Some 20) (Some "ann"%string)) = Ok (20, Some 20, Some "ann"%string).
Proof.
  split; [vm_compute; reflexivity|].
  refine (proj1 (directory_cursors_roundtrip 20 (Some 20) (Some "ann"%string) _ _)); simpl; lia.
Defined.

(** ** The walk *)

Section Walk.
Context {K : Type} `{!IdentityAdminPort K}.
Notation W := (IdWorld K).

(** A client that follows the cursors, asking page after page with sizes of its own;
    [true] says the last answer had no cursor. *)
Fixpoint walk (limits : list Z) (cursor search : option string) (w : W) : result (list AdminUserResponse * bool) :=
  match limits with
  | [] => Ok ([], false)
  | limit :: rest =>
      match run (list_users limit cursor search new_session) w with
      | (Ok page, _, w') =>
          match pg_next page with
          | None => Ok (pg_items page, true)
          | Some c => '(more, fin) ← walk rest (Some c) search w'; Ok (pg_items page ++ more, fin)
          end
      | (Err e, _, _) => Err e
      end
  end.

Lemma walk_cons limit rest cursor search (w : W) :
  walk (limit :: rest) cursor search w =
    match run (list_users limit cursor search new_session) w with
    | (Ok page, _, w') =>
        match pg_next page with
        | None => Ok (pg_items page, true)
        | Some c => '(more, fin) ← walk rest (Some c) search w'; Ok (pg_items page ++ more, fin)
        end
    | (Err e, _, _) => Err e
    end.
Proof. done. Qed.

(** A directory that stands still. *)
Context (standing : K → Prop) (matching : option string → list DirectoryUser) (merchant : string → bool).
Context (list_answers : ∀ k search first max, standing k → 0 ≤ first → 0 ≤ max →
  (port_list_users search first max k).1 = Ok (take (Z.to_nat max) (drop (Z.to_nat first) (matching search))) ∧
  standing (port_list_users search first max k).2).
Context (role_answers : ∀ k sub, standing k →
  (has_realm_role sub "merchant" k).1 = Ok (merchant sub) ∧ standing (has_realm_role sub "merchant" k).2).

(** How an account is shown. *)
Definition shown (u : DirectoryUser) : AdminUserResponse :=
  MkAdminUser (du_sub u) (du_email u) (merchant (du_sub u)) (negb (du_enabled u)).

Lemma gather_roles_run users s (w : W) : standing (iw_kc w) →
  ∃ w', run (gather_roles users s) w = (Ok ((λ u, merchant (du_sub u)) <$> users), s, w') ∧ standing (iw_kc w').
Proof.
  revert w. induction users as [|u users IH]; intros w Hw; [by exists w|]. simpl.
  unfold mbind, frame_bind, on_kc, await. simpl. pose proof (role_answers (iw_kc w) (du_sub u) Hw) as [Hr Hk].
  destruct (has_realm_role (du_sub u) "merchant" (iw_kc w)) as [r k]. simpl in *. subst r.
  rewrite run_pbind. destruct (IH (MkIdWorld (iw_db w) k (iw_now w)) Hk) as (w' & E & Hw'). rewrite E. by exists w'.
Qed.

Lemma zip_shown (users : list DirectoryUser) :
  zip_with (λ u flag, MkAdminUser (du_sub u) (du_email u) flag (negb (du_enabled u))) users ((λ u, merchant (du_sub u)) <$> users)
  = shown <$> users.
Proof. induction users as [|u users IH]; [done|]. rewrite !fmap_cons. cbn [zip_with]. f_equal. apply IH. Qed.

(** One page. *)
Lemma page_run limit cursor search offset n (w : W) :
  standing (iw_kc w) → resume_walk limit cursor search = Ok (offset, n) → 0 ≤ offset → 1 ≤ n →
  let rest := drop (Z.to_nat offset) (matching search) in
  ∃ w', run (list_users limit cursor search new_session) w =
    (Ok (MkPage (shown <$> take (Z.to_nat n) rest)
           (if decide (n < Z.of_nat (length rest)) then Some (encode_offset_cursor (offset + n) (Some n) search) else None)),
     new_session, w') ∧ standing (iw_kc w').
Proof.
  intros Hw Hres Ho Hn rest. unfold list_users. rewrite Hres. unfold mbind, frame_bind, of_result, on_kc, await. simpl.
  pose proof (list_answers (iw_kc w) search offset (n + 1) Hw Ho ltac:(lia)) as [Hl Hk].
  destruct (port_list_users search offset (n + 1) (iw_kc w)) as [r k]. simpl in *. subst r. fold rest.
  rewrite run_pbind. rewrite take_take, Nat.min_l by lia.
  destruct (gather_roles_run (take (Z.to_nat n) rest) new_session (MkIdWorld (iw_db w) k (iw_now w)) Hk) as (w' & E & Hw'). rewrite E.
  exists w'. split; [|done]. simpl. rewrite zip_shown. rewrite length_take. repeat case_decide; try done; repeat case_bool_decide; try done; lia.
Qed.

Lemma resume_pinned limit offset n search :
  0 ≤ offset < 2147483648 → 1 ≤ n < 2147483648 →
  resume_walk limit (Some (encode_offset_cursor offset (Some n) search)) search = Ok (offset, n).
Proof. intros Ho Hn. unfold resume_walk. rewrite offset_cursor_read by done. simpl. by rewrite decide_True. Qed.

Lemma walk_exact n search : 1 ≤ n → Z.of_nat (length (matching search)) + n < 2147483648 → ∀ limit rest cursor offset (w : W),
  standing (iw_kc w) → resume_walk limit cursor search = Ok (offset, n) → 0 ≤ offset ≤ Z.of_nat (length (matching search)) →
  Z.of_nat (length (matching search)) - offset ≤ n * Z.of_nat (S (length rest)) →
  walk (limit :: rest) cursor search w = Ok (shown <$> drop (Z.to_nat offset) (matching search), true).
Proof.
  intros Hn Hsmall limit rest. revert limit. induction rest as [|limit' rest IH]; intros limit cursor offset w Hw Hres Ho Hlen;
    destruct (page_run limit cursor search offset n w Hw Hres ltac:(lia) Hn) as (w' & E & Hw');
    rewrite walk_cons, E; cbn [pg_next pg_items]; rewrite length_drop in *; case_decide as Hmore.
  - simpl in Hlen. lia.
  - rewrite take_ge; [done|]. rewrite length_drop. lia.
  - rewrite (IH limit' _ (offset + n)); [|done|apply resume_pinned; lia|lia|simpl length in Hlen; lia]. simpl.
    rewrite <- fmap_app. do 3 f_equal. rewrite Z2Nat.inj_add, <- drop_drop by lia. apply take_drop.
  - rewrite take_ge; [done|]. rewrite length_drop. lia.
Qed.

(** C32: Over a directory that stands still, a client that follows the cursors is shown
    every matching account exactly once, in the directory's order, and is told when
    the walk is over - after as many pages as the first request's size needs, whatever
    sizes the later requests ask for; a cursor taken to another search is refused. *)
Theorem directory_walk_is_exact (limit : Z) (rest : list Z) (search : option string) (w : W)
    (Hw : standing (iw_kc w)) (Hlimit : 1 ≤ limit) (Hsmall : Z.of_nat (length (matching search)) + limit < 2147483648)
    (Henough : Z.of_nat (length (matching search)) ≤ limit * Z.of_nat (S (length rest))) :
  walk (limit :: rest) None search w = Ok (shown <$> matching search, true) ∧
  ∀ offset size search', 0 ≤ offset < 2147483648 → 1 ≤ size < 2147483648 → search' ≠ search →
    (run (list_users limit (Some (encode_offset_cursor offset (Some size) search)) search' new_session) w).1.1 = Err InvalidCursorError.
Proof.
  split.
  - rewrite (walk_exact limit search Hlimit Hsmall limit rest None 0 w); [done|done|done|lia|lia].
  - intros offset size search' Ho Hs Hne. unfold list_users, resume_walk. rewrite offset_cursor_read by done.
    simpl. rewrite decide_False by congruence. done.
Qed.
End Walk.
