(* ===== verification/KeycloakAdmin.v ===== *)
(** * KeycloakAdmin: the Admin-API adapter (src/identity/adapters/keycloak/admin_client.py)

    [KeycloakIdentityAdmin] as an implementation of [IdentityAdminPort]: every call
    under the shell of breaker, budget and retries ([guarded_call] of Resilience),
    then through the error translation.  python-keycloak and the server behind it
    are a parameter [KeycloakApi], one operation per [a_] method that is used;
    [KeycloakServer] states the documented effect of each on the accounts. *)

From Stdlib Require Import Ascii String.
From S2P Require Import Prelude Errors Text Effects Resilience Auth Identity IdentityFacts.

(** ** The client library *)

(** The fields of a user representation the adapter reads. *)
Record UserRep := MkRep { rep_id : option string; rep_email : option string; rep_enabled : option bool }.

(** The payloads of the account creations, and the queries of the listings. *)
Record NewUser := MkNewUser {
  nu_username : string; nu_email : string; nu_names : option (string * string);
  nu_enabled : bool; nu_verified : bool; nu_actions : list string
}.
Inductive UserQuery := Paged (first max : Z) (search : option string) | ExactUsername (username : string).

Class KeycloakApi (K : Type) := {
  a_get_realm_role : string → ST K string;
  a_assign_realm_roles : string → list string → ST K unit;
  a_delete_realm_roles_of_user : string → list string → ST K unit;
  a_update_user : string → bool → ST K unit;
  a_get_user : string → ST K (option UserRep);
  a_create_user : NewUser → ST K string;
  a_send_update_account : string → list string → ST K unit;
  a_set_user_password : string → string → ST K unit;
  a_delete_user : string → ST K unit;
  a_get_users : UserQuery → ST K (list UserRep);
  a_get_realm_roles_of_user : string → ST K (list string)
}.

(** ** Errors *)

(** [_translate] *)
Definition translate (e : exn) : exn :=
  match e with
  | KeycloakError _ (Some 404) => KeycloakEntityNotFoundError
  | KeycloakError _ (Some 409) => KeycloakConflictError
  | KeycloakError _ (Some 400) => KeycloakInvalidRequestError
  | e => e
  end.

(** [map_admin_errors] *)
Definition map_admin_errors {D A} (m : ST D A) : ST D A := try_except m (λ e, raise (translate e)).

(** [_keycloak_transient] *)
Definition keycloak_transient (e : exn) : bool :=
  is_transient_exception e || match e with KeycloakError ConnectionFault _ => true | _ => false end.

(** ** The adapter *)

Record AdminSettings := MkAdminSettings {
  as_issuer : option string;
  as_client_id : option string;
  as_client_secret : option string;
  as_failure_threshold : Z;
  as_reset_seconds : Z;
  as_max_attempts : nat;
  as_max_concurrent : option nat;
  as_permit_ttl : Z
}.

(** [not (issuer and client_id and client_secret)] *)
Definition is_set (s : option string) : bool := match s with Some (String _ _) => true | _ => false end.
Definition configured (st : AdminSettings) : bool :=
  is_set (as_issuer st) && is_set (as_client_id st) && is_set (as_client_secret st).

Section Adapter.
Context {K : Type} `{!KeycloakApi K} (st : AdminSettings).

(** [_client]: built on first use; only its absence matters. *)
Definition client : ST K unit := if configured st then mret tt else raise RuntimeError.

(** [op] of each method *)
Definition grant_op (user_sub role : string) : ST K unit :=
  client ;; role_rep ← a_get_realm_role role; a_assign_realm_roles user_sub [role_rep].
Definition revoke_op (user_sub role : string) : ST K unit :=
  client ;; role_rep ← a_get_realm_role role; a_delete_realm_roles_of_user user_sub [role_rep].
Definition set_enabled_op (user_sub : string) (enabled : bool) : ST K unit :=
  client ;; a_update_user user_sub enabled.

Definition get_user_email_op (user_sub : string) : ST K (option string) :=
  client ;;
  try_except (user ← a_get_user user_sub; mret (user ≫= rep_email))
    (λ e, match e with
          | KeycloakError GetError (Some 404) => mret None
          | e => raise e
          end).

(** An account and its follow-up; on any failure of the latter the account is
    deleted, and the failure - or that of the deletion - is raised. *)
Definition create_then (u : NewUser) (follow_up : string → ST K unit) : ST K string :=
  client ;;
  user_sub ← try_except (a_create_user u)
    (λ e, match e with KeycloakError _ _ => raise (translate e) | e => raise e end);
  try_except (follow_up user_sub) (λ e, a_delete_user user_sub ;; raise e) ;;
  mret user_sub.

Definition required_actions : list string := ["UPDATE_PASSWORD"; "VERIFY_EMAIL"]%string.
Definition create_user_op (email : string) : ST K string :=
  create_then (MkNewUser email email None true false required_actions)
    (λ user_sub, a_send_update_account user_sub required_actions).
Definition create_user_with_password_op (username email password first_name last_name : string) : ST K string :=
  create_then (MkNewUser username email (Some (first_name, last_name)) true true [])
    (λ user_sub, a_set_user_password user_sub password).

(** [DirectoryUser(sub=u["id"], email=u.get("email"), enabled=u.get("enabled", True))] *)
Fixpoint directory_users (reps : list UserRep) : result (list DirectoryUser) :=
  match reps with
  | [] => Ok []
  | r :: rest =>
      match rep_id r with
      | None => Err KeyError
      | Some id => us ← directory_users rest; Ok (MkDirectoryUser id (rep_email r) (default true (rep_enabled r)) :: us)
      end
  end.

Definition lift {A} (r : result A) : ST K A := λ k, (r, k).

Definition list_users_op (search : option string) (first max_results : Z) : ST K (list DirectoryUser) :=
  client ;;
  let infix := match search with Some (String c s) => Some ("*" +:+ String c s +:+ "*")%string | _ => None end in
  users ← a_get_users (Paged first max_results infix);
  lift (directory_users users).

Definition has_realm_role_op (user_sub role : string) : ST K bool :=
  client ;;
  try_except (roles ← a_get_realm_roles_of_user user_sub; mret (bool_decide (role ∈ roles)))
    (λ e, match e with
          | KeycloakError GetError (Some 404) => mret false
          | e => raise e
          end).

Definition find_sub_by_username_op (username : string) : ST K (option string) :=
  client ;;
  users ← a_get_users (ExactUsername username);
  match users with
  | [] => mret None
  | u :: _ => match rep_id u with Some id => mret (Some id) | None => raise KeyError end
  end.

Definition delete_user_op (user_sub : string) : ST K unit :=
  client ;;
  try_except (a_delete_user user_sub)
    (λ e, match e with KeycloakError _ (Some 404) => mret tt | e => raise e end).

(** The process: the shell around the server, and how many calls were made; what
    the moment of each call brings is [moments]. *)
Context (moments : nat → Moment).
Record KcProcess := MkProcess { kp_shell : Shell (G:=K); kp_calls : nat }.

(** [_guarded] *)
Definition guarded {A} (retry : bool) (operation : ST K A) : ST KcProcess A := λ p,
  let '(r, s) := guarded_call keycloak_transient DependencyUnavailableError (as_failure_threshold st) (as_reset_seconds st)
                   (if retry then as_max_attempts st else 1) (as_max_concurrent st) (as_permit_ttl st)
                   (moments (kp_calls p)) operation (kp_shell p) in
  (r, MkProcess s (S (kp_calls p))).

(** [KeycloakIdentityAdmin] *)
#[export] Instance keycloak_identity_admin : IdentityAdminPort KcProcess := {|
  grant_realm_role := λ sub role, map_admin_errors (guarded true (grant_op sub role));
  revoke_realm_role := λ sub role, map_admin_errors (guarded true (revoke_op sub role));
  set_enabled := λ sub enabled, map_admin_errors (guarded true (set_enabled_op sub enabled));
  get_user_email := λ sub, guarded true (get_user_email_op sub);
  port_create_user := λ email, map_admin_errors (guarded false (create_user_op email));
  port_list_users := λ search first max, map_admin_errors (guarded true (list_users_op search first max));
  has_realm_role := λ sub role, map_admin_errors (guarded true (has_realm_role_op sub role))
|}.

(** The surface of the demo seeder. *)
Definition find_sub_by_username (username : string) : ST KcProcess (option string) :=
  map_admin_errors (guarded true (find_sub_by_username_op username)).
Definition create_user_with_password (username email password first_name last_name : string) : ST KcProcess string :=
  map_admin_errors (guarded false (create_user_with_password_op username email password first_name last_name)).
Definition delete_user (user_sub : string) : ST KcProcess unit := map_admin_errors (guarded true (delete_user_op user_sub)).
End Adapter.
