(* ===== verification/KeycloakFacts.v ===== *)
(** * KeycloakFacts: the adapter keeps what the service relies on

    [KeycloakServer] is the documented effect of the Admin API on the accounts.
    From it the adapter, with its retries, breaker and budget, is shown to satisfy
    [AdminPortLaws], and account creation to be all or nothing. *)

From Stdlib Require Import Ascii String.
From S2P Require Import Prelude Errors Text Effects Resilience Auth Identity IdentityFacts KeycloakAdmin.

(** ** The server *)

Record Account := MkAccount { ac_email : option string; ac_enabled : bool }.
#[export] Instance account_eq_dec : EqDecision Account.
Proof. solve_decision. Defined.

(** The account a creation asks for. *)
Definition account_for (u : NewUser) : Account := MkAccount (Some (nu_email u)) (nu_enabled u).

(** What each call does to the accounts; a call that fails may have acted. *)
Class KeycloakServer (K : Type) `{!KeycloakApi K} := {
  directory : K → gmap string Account;
  get_role_reads role k : directory (a_get_realm_role role k).2 = directory k;
  assign_reads sub roles k : directory (a_assign_realm_roles sub roles k).2 = directory k;
  unassign_reads sub roles k : directory (a_delete_realm_roles_of_user sub roles k).2 = directory k;
  get_user_reads sub k : directory (a_get_user sub k).2 = directory k;
  get_users_reads q k : directory (a_get_users q k).2 = directory k;
  get_roles_reads sub k : directory (a_get_realm_roles_of_user sub k).2 = directory k;
  send_reads sub actions k : directory (a_send_update_account sub actions k).2 = directory k;
  password_reads sub pw k : directory (a_set_user_password sub pw k).2 = directory k;
  update_effect sub b k :
    directory (a_update_user sub b k).2 = directory k ∨
    directory (a_update_user sub b k).2 = alter (λ a, MkAccount (ac_email a) b) sub (directory k);
  create_effect u k :
    match (a_create_user u k).1 with
    | Ok id => directory k !! id = None ∧ directory (a_create_user u k).2 = <[id := account_for u]> (directory k)
    | Err (KeycloakError _ (Some _)) => directory (a_create_user u k).2 = directory k
    | Err _ => directory (a_create_user u k).2 = directory k ∨
               ∃ id, directory k !! id = None ∧ directory (a_create_user u k).2 = <[id := account_for u]> (directory k)
    end;
  delete_effect sub k :
    match (a_delete_user sub k).1 with
    | Ok _ => directory (a_delete_user sub k).2 = delete sub (directory k)
    | Err _ => directory (a_delete_user sub k).2 = directory k ∨ directory (a_delete_user sub k).2 = delete sub (directory k)
    end;
  get_user_answers sub k :
    match (a_get_user sub k).1 with
    | Ok user => (user ≫= rep_email) = (directory k !! sub ≫= ac_email)
    | Err (KeycloakError GetError (Some 404)) => directory k !! sub = None
    | Err _ => True
    end
}.

(** ** Repetition *)

Section Repetition.
Context {G A : Type} (R : G → G → Prop) `{!PreOrder R} (operation : ST G A).
Context (is_transient : exn → bool) (shed : exn) (thr reset : Z) (attempts : nat) (budget : option nat) (ttl : Z).

Lemma retry_kept n k : (∀ k, R k (operation k).2) → R k (retry_transient is_transient n operation k).2.
Proof.
  intros Hop. revert k. induction n as [|n IH]; intros k; simpl; [done|].
  pose proof (Hop k) as Hk. destruct (operation k) as [[a|e] k']; simpl in *; [done|].
  destruct (_ || _); [done|]. etrans; [exact Hk|apply IH].
Qed.

(** An answer of the retries is an answer of one of the tries. *)
Lemma retry_answer n k a :
  (∀ k, R k (operation k).2) → (retry_transient is_transient n operation k).1 = Ok a →
  ∃ k', R k k' ∧ operation k' = (Ok a, (retry_transient is_transient n operation k).2).
Proof.
  intros Hop. revert k. induction n as [|n IH]; intros k; simpl; [done|].
  pose proof (Hop k) as Hk. destruct (operation k) as [[b|e] k'] eqn:E; simpl in *; [intros [= ->]; by exists k|].
  destruct (_ || _); [done|]. intros Ha. destruct (IH k' Ha) as (k2 & Hk2 & E2). exists k2. split; [by etrans|done].
Qed.

(** The server seen through one guarded call. *)
Lemma guarded_call_inner m s :
  let r := guarded_call is_transient shed thr reset attempts budget ttl m operation s in
  let tried := retry_transient is_transient attempts operation (sh_inner s) in
  sh_inner r.2 = sh_inner s ∧ is_ok r.1 = false ∨
  sh_inner r.2 = tried.2 ∧ (∀ a, r.1 = Ok a → tried.1 = Ok a) ∧ (cancel_release m = None → is_ok r.1 = is_ok tried.1).
Proof.
  unfold guarded_call. destruct (allow reset (at_start m) (sh_breaker s)) as [[] b1]; simpl; [|by left].
  assert (∀ fin, let r := admitted is_transient thr attempts m operation b1 fin s in
    let tried := retry_transient is_transient attempts operation (sh_inner s) in
    sh_inner r.2 = tried.2 ∧ (∀ a, r.1 = Ok a → tried.1 = Ok a) ∧ (fin.1 = None → is_ok r.1 = is_ok tried.1)) as Hadm.
  { intros [fin bu]. unfold admitted. destruct (retry_transient is_transient attempts operation (sh_inner s)) as [[b|e] g]; simpl.
    - by destruct fin.
    - unfold classify. destruct (is_Exception e); simpl; [destruct (is_transient e)|]; by destruct fin. }
  destruct budget as [limit|]; [|right; destruct (Hadm (None, sh_budget s)) as (? & ? & ?); auto].
  destruct (cancel_acquire m); simpl; [by left|].
  destruct (acquire_permit limit ttl _ _ _ _) as [[id|] bu]; simpl; [right; apply Hadm|by left].
Qed.
End Repetition.

(** ** Code that stays within a relation *)

Section Keeps.
Context {D : Type} (R : D → D → Prop) `{!PreOrder R}.

Definition keeps {A} (m : ST D A) : Prop := ∀ d, R d (m d).2.

Lemma kc_keeps_ret {A} (a : A) : keeps (mret a).
Proof. intros d. done. Qed.
Lemma kc_keeps_raise {A} e : keeps (raise e : ST D A).
Proof. intros d. done. Qed.
Lemma kc_keeps_bind {A B} (m : ST D A) (f : A → ST D B) : keeps m → (∀ a, keeps (f a)) → keeps (m ≫= f).
Proof.
  intros Hm Hf d. unfold mbind, ST_bind. specialize (Hm d). destruct (m d) as [[a|e] d']; simpl in *; [|done].
  etrans; [exact Hm|apply Hf].
Qed.
Lemma keeps_try {A} (m : ST D A) h : keeps m → (∀ e, keeps (h e)) → keeps (try_except m h).
Proof.
  intros Hm Hh d. unfold try_except. specialize (Hm d). destruct (m d) as [[a|e] d']; simpl in *; [done|].
  etrans; [exact Hm|apply Hh].
Qed.
End Keeps.
#[export] Hint Resolve kc_keeps_ret kc_keeps_raise : shop.

Section Adapter.
Context {K : Type} `{!KeycloakApi K} `{!KeycloakServer K} (st : AdminSettings) (moments : nat → Moment).

#[export] Instance server_accounts : Accounts K := {|
  email_in := λ k sub, directory k !! sub ≫= ac_email;
  enabled_in := λ k sub, ac_enabled <$> directory k !! sub
|}.

#[local] Instance accounts_kept_preorder : PreOrder (accounts_kept (K:=K)).
Proof.
  split; [by split; [intros ???|]|]. intros k1 k2 k3 [E1 D1] [E2 D2]. split; [|by auto]. intros sub e He. by apply E2, E1.
Qed.
#[local] Instance emails_kept_preorder : PreOrder (emails_kept (K:=K)).
Proof. split; [by intros ???|]. intros k1 k2 k3 E1 E2 sub e He. by apply E2, E1. Qed.

Lemma same_kept (k k' : K) : directory k' = directory k → accounts_kept k k'.
Proof. intros E. split; [intros sub e|intros sub]; simpl; by rewrite E. Qed.

Notation KEEPS := (keeps (accounts_kept (K:=K))).

Lemma reads_keep {A} (m : ST K A) : (∀ k, directory (m k).2 = directory k) → KEEPS m.
Proof. intros Hm k. by apply same_kept. Qed.

Lemma client_keeps : KEEPS (client st).
Proof. unfold client. destruct (configured st); apply reads_keep; done. Qed.

(** An insertion of a fresh account, and the deletion of one that had no e-mail. *)
Lemma insert_kept (k k' : K) id a :
  directory k !! id = None → ac_enabled a = true → directory k' = <[id := a]> (directory k) → accounts_kept k k'.
Proof.
  intros Hn Ha E. split; [intros sub e|intros sub]; simpl; rewrite E; (destruct (decide (id = sub)) as [<-|Hne];
    [rewrite lookup_insert_eq, ?Hn|rewrite lookup_insert_ne by done]); try done. simpl. rewrite Ha. discriminate.
Qed.

Lemma delete_kept (k k' k0 : K) id :
  accounts_kept k0 k → directory k0 !! id = None →
  (directory k' = directory k ∨ directory k' = delete id (directory k)) → accounts_kept k0 k'.
Proof.
  intros H0 Hn [E|E]; [etrans; [exact H0|by apply same_kept]|]. destruct H0 as [He Hd]. split.
  - intros sub e Hs. specialize (He sub e Hs). simpl in *. rewrite E. destruct (decide (id = sub)) as [<-|Hne].
    + by rewrite Hn in Hs.
    + by rewrite lookup_delete_ne.
  - intros sub. specialize (Hd sub). simpl in *. rewrite E. destruct (decide (id = sub)) as [<-|Hne];
      [by rewrite lookup_delete_eq|by rewrite lookup_delete_ne].
Qed.

Lemma create_then_keeps u follow_up :
  nu_enabled u = true → (∀ sub k, directory (follow_up sub k).2 = directory k) → KEEPS (create_then st u follow_up).
Proof.
  intros Hu Hf. apply kc_keeps_bind; [apply _|apply client_keeps|]. intros _ k0.
  unfold mbind, ST_bind, try_except. pose proof (create_effect u k0) as Hc.
  destruct (a_create_user u k0) as [[id|e] k1]; simpl in *.
  - destruct Hc as [Hn E]. pose proof (insert_kept k0 k1 id (account_for u) Hn Hu E) as H1.
    specialize (Hf id k1). destruct (follow_up id k1) as [[[]|e] k2]; simpl in *.
    + etrans; [exact H1|by apply same_kept].
    + pose proof (delete_effect id k2) as Hd. destruct (a_delete_user id k2) as [[[]|e2] k3]; simpl in *.
      * apply (delete_kept k2 k3 k0 id); [etrans; [exact H1|by apply same_kept]|done|by right].
      * apply (delete_kept k2 k3 k0 id); [etrans; [exact H1|by apply same_kept]|done|done].
  - assert (accounts_kept k0 k1) as Hk.
    { destruct e; try (destruct Hc as [E|(id & Hn & E)]; [by apply same_kept|exact (insert_kept k0 k1 id (account_for u) Hn Hu E)]).
      case_hyp Hc; [by apply same_kept|]. destruct Hc as [E|(id & Hn & E)]; [by apply same_kept|exact (insert_kept k0 k1 id (account_for u) Hn Hu E)]. }
    by destruct e.
Qed.

(** The other operations read, or write roles. *)
Ltac keep_step :=
  first [apply client_keeps | apply kc_keeps_ret; apply _ | apply kc_keeps_raise; apply _
        | apply kc_keeps_bind; [apply _| |intros ?] | apply keeps_try; [apply _| |intros ?]
        | apply reads_keep; intros ?; done
        | apply reads_keep; intros ?; first [apply get_role_reads | apply assign_reads | apply unassign_reads
            | apply get_user_reads | apply get_users_reads | apply get_roles_reads]
        | case_goal].

Lemma grant_op_keeps sub role : KEEPS (grant_op st sub role).
Proof. unfold grant_op. repeat keep_step. Qed.
Lemma revoke_op_keeps sub role : KEEPS (revoke_op st sub role).
Proof. unfold revoke_op. repeat keep_step. Qed.
Lemma get_user_email_op_keeps sub : KEEPS (get_user_email_op st sub).
Proof. unfold get_user_email_op. repeat keep_step. Qed.
Lemma list_users_op_keeps search first max : KEEPS (list_users_op st search first max).
Proof. unfold list_users_op. repeat keep_step. Qed.
Lemma has_realm_role_op_keeps sub role : KEEPS (has_realm_role_op st sub role).
Proof. unfold has_realm_role_op. repeat keep_step. Qed.
Lemma create_user_op_keeps email : KEEPS (create_user_op st email).
Proof. apply create_then_keeps; [done|]. intros sub k. apply send_reads. Qed.

(** [set_enabled] turns off at most the account it names. *)
Definition disables_at_most (sub : string) (k k' : K) : Prop :=
  emails_kept k k' ∧ ∀ sub', sub' ≠ sub → enabled_in k' sub' = Some false → enabled_in k sub' = Some false.

#[local] Instance disables_preorder sub : PreOrder (disables_at_most sub).
Proof.
  split; [by split; [intros ???|]|]. intros k1 k2 k3 [E1 D1] [E2 D2]. split; [by etrans|]. intros sub' Hne Hf. auto.
Qed.

Lemma set_enabled_op_keeps sub b : keeps (disables_at_most sub) (set_enabled_op st sub b).
Proof.
  apply kc_keeps_bind; [apply _|unfold client; by destruct (configured st)|]. intros _ k.
  destruct (update_effect sub b k) as [E|E]; (split; [intros x e|intros x Hne]); simpl; rewrite E; try done.
  - destruct (decide (sub = x)) as [<-|Hx]; [rewrite lookup_alter_eq|by rewrite lookup_alter_ne].
    by destruct (directory k !! sub).
  - by rewrite lookup_alter_ne.
Qed.

(** ** Through the shell *)

Notation KP := (KcProcess (K:=K)).
Definition server (p : KP) : K := sh_inner (kp_shell p).

Lemma map_admin_state {D A} (m : ST D A) d : (map_admin_errors m d).2 = (m d).2.
Proof. unfold map_admin_errors, try_except. by destruct (m d) as [[]]. Qed.

Lemma guarded_kept {A} (R : K → K → Prop) `{!PreOrder R} retry (op : ST K A) (p : KP) :
  keeps R op → R (server p) (server (guarded st moments retry op p).2).
Proof.
  intros Hop. unfold guarded, server.
  pose proof (guarded_call_inner op keycloak_transient DependencyUnavailableError (as_failure_threshold st) (as_reset_seconds st)
    (if retry then as_max_attempts st else 1%nat) (as_max_concurrent st) (as_permit_ttl st) (moments (kp_calls p)) (kp_shell p)) as Hi.
  destruct (guarded_call _ _ _ _ _ _ _ _ _ _) as [r s]. simpl in *. destruct Hi as [[-> _]|(-> & _)]; [done|].
  by apply retry_kept.
Qed.

#[export] Instance process_accounts : Accounts KP := {|
  email_in := λ p, email_in (server p);
  enabled_in := λ p, enabled_in (server p)
|}.

Lemma port_kept {A} retry (op : ST K A) (p : KP) : KEEPS op → accounts_kept p (map_admin_errors (guarded st moments retry op) p).2.
Proof. intros Hop. rewrite map_admin_state. exact (guarded_kept (accounts_kept (K:=K)) retry op p Hop). Qed.

Lemma email_op_answers sub k e r :
  email_in k sub = Some e → (get_user_email_op st sub k).1 = Ok r → r = Some e.
Proof.
  simpl. intros He. unfold get_user_email_op, client. destruct (configured st); [|done]. simpl.
  unfold try_except, mbind, ST_bind. simpl. pose proof (get_user_answers sub k) as Ha.
  destruct (a_get_user sub k) as [[user|err] k']; simpl in *; [intros [= <-]; etrans; [exact Ha|exact He]|].
  intros Hr. repeat (case_hyp Hr; try discriminate Hr). by rewrite Ha in He.
Qed.

#[export] Instance keycloak_port_laws : AdminPortLaws KP (IdentityAdminPort0 := keycloak_identity_admin st moments).
Proof.
  split.
  - intros sub role k. apply port_kept, grant_op_keeps.
  - intros sub role k. apply port_kept, revoke_op_keeps.
  - intros email k. apply port_kept, create_user_op_keeps.
  - intros search first max k. apply port_kept, list_users_op_keeps.
  - intros sub role k. apply port_kept, has_realm_role_op_keeps.
  - intros sub k. exact (guarded_kept (accounts_kept (K:=K)) true _ k (get_user_email_op_keeps sub)).
  - intros sub b k. simpl. rewrite map_admin_state.
    exact (guarded_kept (disables_at_most sub) true _ k (set_enabled_op_keeps sub b)).
  - intros sub k e r He. simpl. unfold guarded.
    pose proof (guarded_call_inner (get_user_email_op st sub) keycloak_transient DependencyUnavailableError (as_failure_threshold st)
      (as_reset_seconds st) (as_max_attempts st) (as_max_concurrent st) (as_permit_ttl st) (moments (kp_calls k)) (kp_shell k)) as Hi.
    destruct (guarded_call _ _ _ _ _ _ _ _ _ _) as [r' s]. simpl in *. destruct Hi as [[_ Hn]|(_ & Ha & _)].
    + intros ->. discriminate.
    + intros Hr. destruct (retry_answer (accounts_kept (K:=K)) _ _ _ _ _ (get_user_email_op_keeps sub) (Ha r Hr)) as (k' & [Hk _] & E).
      apply (email_op_answers sub k' e r); [by apply Hk|]. by rewrite E.
Qed.

(** ** Creation *)

(** What a creation leaves of the accounts. *)
Definition creation_outcome (u : NewUser) (d : gmap string Account) (r : result string) (d' : gmap string Account) : Prop :=
  match r with
  | Ok id => d !! id = None ∧ d' = <[id := account_for u]> d
  | Err _ => d' = d
  end.

Lemma create_then_atomic u follow_up k :
  (∀ sub k, directory (follow_up sub k).2 = directory k) →
  (∀ k, is_ok (a_create_user u k).1 = false → directory (a_create_user u k).2 = directory k) →
  (∀ sub k, (a_delete_user sub k).1 = Ok tt) →
  creation_outcome u (directory k) (create_then st u follow_up k).1 (directory (create_then st u follow_up k).2).
Proof.
  intros Hf Hlost Hdel. unfold create_then, client. destruct (configured st); [|done].
  unfold mbind, ST_bind, try_except. simpl. pose proof (create_effect u k) as Hc. specialize (Hlost k).
  destruct (a_create_user u k) as [[id|e] k1]; simpl in *.
  - destruct Hc as [Hn E]. specialize (Hf id k1). destruct (follow_up id k1) as [[[]|e] k2]; simpl in *; [by rewrite Hf|].
    pose proof (delete_effect id k2) as Hd. specialize (Hdel id k2). destruct (a_delete_user id k2) as [r k3]. simpl in *. subst r.
    simpl. rewrite Hd, Hf, E. apply delete_insert_id. done.
  - specialize (Hlost eq_refl). by destruct e.
Qed.

(** The account [create_user] asks for. *)
Definition invited (email : string) : NewUser := MkNewUser email email None true false required_actions.

End Adapter.
