(* ===== verification/IdentityScenarios.v ===== *)
(** * IdentityScenarios: a small Keycloak, runs, and the witnesses

    [Toy] is a Keycloak server whose directory is a map; it satisfies
    [KeycloakServer], so the adapter over it satisfies [AdminPortLaws].  Over it the
    theorems of the identity component are applied to concrete runs, and two runs
    show what the code does where its comments promise something else. *)

From Stdlib Require Import Ascii String.
From S2P Require Import Prelude Errors Text Pagination Effects Resilience Http Auth Blake2b Identity IdentityFacts DirectoryFacts.
From S2P Require Import KeycloakAdmin KeycloakFacts.

(** ** A small server *)

(** Its accounts, the order it lists them in, the next id, whether it can send mail
    and whether the service account may list users. *)
Record Toy := MkToy {
  ty_accounts : gmap string Account; ty_order : list string; ty_next : N; ty_smtp : bool; ty_may_list : bool
}.
Definition set_accounts (d : gmap string Account) (k : Toy) : Toy :=
  MkToy d (ty_order k) (ty_next k) (ty_smtp k) (ty_may_list k).

Definition absent_error {A} : result A := Err (KeycloakError GetError (Some 404)).
Definition rep_of (k : Toy) (sub : string) : UserRep :=
  let a := ty_accounts k !! sub in MkRep (Some sub) (a ≫= ac_email) (ac_enabled <$> a).

#[export] Instance toy_api : KeycloakApi Toy := {|
  a_get_realm_role := λ role k, (Ok role, k);
  a_assign_realm_roles := λ sub roles k, (Ok tt, k);
  a_delete_realm_roles_of_user := λ sub roles k, (Ok tt, k);
  a_update_user := λ sub b k,
    if decide (is_Some (ty_accounts k !! sub))
    then (Ok tt, set_accounts (alter (λ a, MkAccount (ac_email a) b) sub (ty_accounts k)) k)
    else (Err (KeycloakError OtherKeycloakError (Some 404)), k);
  a_get_user := λ sub k, if decide (is_Some (ty_accounts k !! sub)) then (Ok (Some (rep_of k sub)), k) else (absent_error, k);
  a_create_user := λ u k,
    let id := ("id-" +:+ nat_str (ty_next k))%string in
    if decide (ty_accounts k !! id = None)
    then (Ok id, MkToy (<[id := account_for u]> (ty_accounts k)) (ty_order k ++ [id]) (ty_next k + 1) (ty_smtp k) (ty_may_list k))
    else (Err (KeycloakError OtherKeycloakError (Some 409)), k);
  a_send_update_account := λ sub actions k,
    (if ty_smtp k then Ok tt else Err (KeycloakError OtherKeycloakError (Some 500)), k);
  a_set_user_password := λ sub pw k, (Ok tt, k);
  a_delete_user := λ sub k, (Ok tt, set_accounts (delete sub (ty_accounts k)) k);
  a_get_users := λ q k,
    match q with
    | Paged first max _ =>
        if ty_may_list k then (Ok (rep_of k <$> take (Z.to_nat max) (drop (Z.to_nat first) (ty_order k))), k)
        else (Err (KeycloakError GetError (Some 403)), k)
    | ExactUsername _ => (Ok [], k)
    end;
  a_get_realm_roles_of_user := λ sub k, (Ok ["consumer"%string], k)
|}.

#[export] Instance toy_server : KeycloakServer Toy.
Proof.
  refine {| directory := ty_accounts |}; try done.
  - intros sub k. simpl. by case_decide.
  - intros [first max search|name] k; simpl; [|done]. by destruct (ty_may_list k).
  - intros sub b k. simpl. case_decide; [by right|by left].
  - intros u k. simpl. case_decide; [by split|done].
  - intros sub k. simpl. case_decide as Hs; simpl.
    + unfold rep_of. done.
    + by apply eq_None_not_Some.
Defined.

(** ** The deployment *)

Definition demo_admin : AdminSettings := MkAdminSettings (Some "https://kc/realms/shop") (Some "app") (Some "s3cret") 5 30000 3 None 60.
Definition quiet : nat → Moment := λ n, MkMoment (Z.of_nat n) (Z.of_nat n) true true None None 1.

Notation KP := (KcProcess (K:=Toy)).
#[export] Instance demo_port : IdentityAdminPort KP := keycloak_identity_admin demo_admin quiet.
#[export] Instance demo_laws : AdminPortLaws KP := keycloak_port_laws demo_admin quiet.

Definition ada : string := "0000000a-0000-4000-8000-00000000000a".
Definition bob : string := "0000000b-0000-4000-8000-00000000000b".
Definition eve : string := "0000000e-0000-4000-8000-00000000000e".

(** Three accounts; [eve]'s has lost its e-mail. *)
Definition demo_toy : Toy :=
  MkToy {[ ada := MkAccount (Some "ada@x.io"%string) true; bob := MkAccount (Some "bob@x.io"%string) true;
           eve := MkAccount None true ]} [ada; bob; eve] 0 true true.
Definition fresh_process (k : Toy) : KP := MkProcess (MkShell new_breaker no_permits k) 0.

Definition ada_token : Principal := MkPrincipal ada (Some "ada@x.io"%string) {["admin"%string]}.
Definition bob_token : Principal := MkPrincipal bob (Some "bob@x.io"%string) ∅.
(** A token from before the e-mail was removed. *)
Definition eve_token : Principal := MkPrincipal eve (Some "eve@x.io"%string) ∅.

Notation state := (list (prog (IdWorld KP) unit) * IdWorld KP)%type.
Definition start : state := ([], id_start (fresh_process demo_toy) 0).

Lemma id_start_runs : id_runs (fresh_process demo_toy) start.
Proof. by exists 0. Qed.

Lemma id_runs_arrive k p fuel (s : state) : id_arrival p → id_runs k s → id_runs k (arrive p fuel s).
Proof. intros Hp [now Hr]. exists now. etrans; [exact Hr|by apply arrive_steps]. Qed.

(** [bob] comes, then [ada] disables him. *)
Definition bob_disabled : state :=
  arrive (erase (disable_user_route ada_token bob new_session)) 20 (arrive (erase (get_me bob_token new_session)) 20 start).

Lemma bob_disabled_runs : id_runs (fresh_process demo_toy) bob_disabled.
Proof. unfold bob_disabled. do 2 (apply id_runs_arrive; [constructor|]). apply id_start_runs. Qed.


Lemma users_are_announced_once_witness :
  length (id_outbox (iw_db bob_disabled.2)) = 2%nat ∧ NoDup (id_outbox (iw_db bob_disabled.2)).*1.
Proof. split; [vm_compute; reflexivity|]. exact (proj1 (users_are_announced_once _ _ bob_disabled_runs)). Defined.

(** [ada] holds [bob]'s lock and waits for Keycloak; [bob]'s first request comes. *)
Definition being_disabled : state := arrive (erase (disable_user_route ada_token bob new_session)) 4 start.
Definition bob_waits : state := arrive (erase (get_me bob_token new_session)) 9 being_disabled.

Lemma locked_accounts_are_frozen_witness : mirror bob_waits.2 bob = mirror being_disabled.2 bob.
Proof.
  apply (locked_accounts_are_frozen (fresh_process demo_toy) being_disabled bob_waits bob 1%N).
  - apply id_runs_arrive; [constructor|apply id_start_runs].
  - apply arrive_steps. constructor.
  - vm_compute. reflexivity.
  - vm_compute. reflexivity.
Defined.

(** ** The walk *)

Definition standing (p : KP) : Prop := sh_breaker (kp_shell p) = new_breaker ∧ sh_inner (kp_shell p) = demo_toy.
Definition demo_directory (search : option string) : list DirectoryUser :=
  [MkDirectoryUser ada (Some "ada@x.io"%string) true; MkDirectoryUser bob (Some "bob@x.io"%string) true; MkDirectoryUser eve None true].

Lemma demo_call {A} retry (op : ST Toy A) (a : A) p :
  standing p → op demo_toy = (Ok a, demo_toy) →
  (map_admin_errors (guarded demo_admin quiet retry op) p).1 = Ok a ∧
  standing (map_admin_errors (guarded demo_admin quiet retry op) p).2.
Proof.
  intros [Hb Hk] Hop. destruct p as [[b bu k] n]. simpl in Hb, Hk. subst b. rewrite <- Hk in Hop.
  unfold map_admin_errors, try_except, guarded, standing. destruct retry; cbn; unfold admitted; cbn; rewrite Hop; cbn; done.
Qed.

Lemma demo_list_answers p search first max : standing p → 0 ≤ first → 0 ≤ max →
  (port_list_users search first max p).1 = Ok (take (Z.to_nat max) (drop (Z.to_nat first) (demo_directory search))) ∧
  standing (port_list_users search first max p).2.
Proof.
  intros Hp _ _. apply (demo_call true (list_users_op demo_admin search first max)); [done|]. unfold list_users_op. cbn.
  assert (∀ n m, directory_users (rep_of demo_toy <$> take m (drop n (ty_order demo_toy))) =
    Ok (take m (drop n (demo_directory search)))) as H.
  { intros n m. do 4 (destruct n as [|n]; [do 4 (destruct m as [|m]; [vm_compute; reflexivity|]); destruct m; vm_compute; reflexivity|]).
    assert (∀ A (x y z : A), drop (S (S (S (S n)))) [x; y; z] = []) as E by by destruct n.
    unfold demo_directory. cbn [ty_order demo_toy]. rewrite !E. by destruct m. }
  unfold mbind, ST_bind. cbn. unfold lift. by rewrite H.
Qed.

Lemma demo_role_answers p sub : standing p →
  (has_realm_role sub "merchant" p).1 = Ok false ∧ standing (has_realm_role sub "merchant" p).2.
Proof. intros Hp. by apply (demo_call true (has_realm_role_op demo_admin sub "merchant")). Qed.

Lemma directory_walk_is_exact_witness :
  walk [2; 50] None None start.2 = Ok (shown (λ _, false) <$> demo_directory None, true).
Proof.
  apply (directory_walk_is_exact standing demo_directory (λ _, false) demo_list_answers demo_role_answers 2 [50] None start.2).
  - by split.
  - lia.
  - vm_compute. reflexivity.
  - vm_compute. discriminate.
Defined.

(** ** Creation *)

(** A server that cannot send mail. *)
Definition mute_toy : Toy := MkToy (ty_accounts demo_toy) [ada; bob; eve] 0 false true.


(** ** Two runs against the comments *)

(** [eve]'s account has no e-mail: disabling it answers 204 and turns the account
    off in Keycloak, but leaves no mirror to block her - and a token of hers that still
    carries the old e-mail is then let in as an active user. *)
Theorem emailless_disable_lets_in :
  let off := run (disable_user_route ada_token eve new_session) start.2 in
  let again := run (get_me eve_token new_session) off.2 in
  off.1.1 = Ok tt ∧ enabled_in (iw_kc off.2) eve = Some false ∧
  (u_is_active <$> again.1.1) = Ok true.
Proof. split_and!; vm_compute; reflexivity. Qed.

(** A Keycloak that refuses the listing (403): the comment of [list_users] promises a
    503, the caller is answered 500. *)
Definition forbidden_toy : Toy := MkToy (ty_accounts demo_toy) [ada; bob; eve] 0 true false.

Lemma forbidden_listing_is_500 (reason : Z → option string) :
  ∃ e p, (port_list_users None 0 21 (fresh_process forbidden_toy)).1 = Err e ∧ answer reason e = Some p ∧ pb_status p = 500.
Proof. eexists _, _. split; [vm_compute; reflexivity|]. by split. Qed.
