(* ===== verification/Catalog.v ===== *)
(** * Catalog: product rows, their events and the image clean-up queue

    The tables of the [catalog] schema (src/catalog/adapters/db/models.py) and
    the methods of [CatalogRepository] (src/catalog/adapters/db/repository.py),
    one definition per method, as computations in [ST CatalogDB].

    Prices are in cents, timestamps are integers and [now] is the transaction's
    [now()].  A method that runs raw SQL is one transaction.  A method that goes
    through the ORM is two: the SELECT that loads the aggregate and the flush that
    commits it, because other sessions may commit between them.  Two properties
    of the ORM decide what such a write does and are the record [Orm]: whether the
    identity map still holds the instance an earlier read of the session created
    (it holds it weakly), and whether an instance without a net change is written
    at all. *)

From stdpp Require Import sorting.
From Stdlib Require Import String.
From S2P Require Import Prelude Errors UnitOfWork Text.

(** ** Data *)

(** [ImageStatus] *)
Inductive ImageStatus := ImgNone | ImgPending | ImgReady | ImgFailed.
#[export] Instance ImageStatus_eq_dec : EqDecision ImageStatus.
Proof. solve_decision. Defined.

(** One row of [catalog.products]. *)
Record Product := MkProduct {
  p_id : N;
  p_merchant : N;
  p_name : string;
  p_description : option string;
  p_category : option string;
  p_price : Z;
  p_image_key : option string;
  p_image_status : ImageStatus;
  p_upload_token : option string;
  p_upload_expires : option Z;
  p_created_at : Z;
  p_updated_at : Z;
  p_version : Z;
  p_deleted_at : option Z
}.
#[export] Instance Product_eq_dec : EqDecision Product.
Proof. solve_decision. Defined.

(** [ProductWriteDataV2] *)
Record ProductWriteData := MkWrite {
  wd_product : N;
  wd_merchant : N;
  wd_name : string;
  wd_price : Z;
  wd_category : option string;
  wd_version : Z
}.
#[export] Instance ProductWriteData_eq_dec : EqDecision ProductWriteData.
Proof. solve_decision. Defined.

(** Rows of [catalog.outbox]. *)
Inductive CatalogEvent :=
  | ProductCreatedV2 (d : ProductWriteData)
  | ProductUpdatedV2 (d : ProductWriteData)
  | ProductDeletedV2 (product merchant : N) (version : Z).
#[export] Instance CatalogEvent_eq_dec : EqDecision CatalogEvent.
Proof. solve_decision. Defined.

(** [ImageReclaim] *)
Record ReclaimRow := MkReclaim {
  rc_id : N;
  rc_product : N;
  rc_key : string;
  rc_attempts : Z;
  rc_error : option string;
  rc_next : Z
}.
#[export] Instance ReclaimRow_eq_dec : EqDecision ReclaimRow.
Proof. solve_decision. Defined.

Record CatalogDB := MkCatalogDB {
  products : gmap N Product;
  cat_outbox : list CatalogEvent;
  reclaims : list ReclaimRow;
  next_product : N;
  next_reclaim : N
}.

Record Orm := MkOrm { identity_kept : bool; updates_unchanged : bool }.

Definition set_products (ps : gmap N Product) (d : CatalogDB) : CatalogDB :=
  MkCatalogDB ps (cat_outbox d) (reclaims d) (next_product d) (next_reclaim d).
Definition set_reclaims (rs : list ReclaimRow) (d : CatalogDB) : CatalogDB :=
  MkCatalogDB (products d) (cat_outbox d) rs (next_product d) (next_reclaim d).

(** [_outbox_row] added to the session *)
Definition cat_emit (e : CatalogEvent) : ST CatalogDB unit :=
  modify (λ d, MkCatalogDB (products d) (cat_outbox d ++ [e]) (reclaims d) (next_product d) (next_reclaim d)).

(** ** Column types and constraints *)

Definition len_ok (n : nat) (s : string) : Prop := (String.length s ≤ n)%nat.
Definition opt_len_ok (n : nat) (o : option string) : Prop :=
  match o with Some s => len_ok n s | None => True end.

Definition product_columns_ok (p : Product) : Prop :=
  len_ok 255 (p_name p) ∧ opt_len_ok 255 (p_category p) ∧ Z.abs (p_price p) < 10 ^ 12 ∧
  opt_len_ok 1024 (p_image_key p) ∧ opt_len_ok 64 (p_upload_token p) ∧ int4 (p_version p).

#[export] Instance opt_len_ok_dec n o : Decision (opt_len_ok n o).
Proof. destruct o; simpl; unfold len_ok; apply _. Defined.
#[export] Instance product_columns_ok_dec p : Decision (product_columns_ok p).
Proof. unfold product_columns_ok, len_ok. apply _. Defined.

(** Storing a row; [ck_products_price_positive] is the CHECK. *)
Definition write_product (p : Product) : ST CatalogDB unit := λ d,
  if decide (product_columns_ok p) then
    if decide (0 < p_price p) then (Ok tt, set_products (<[p_id p := p]> (products d)) d)
    else (Err (IntegrityError CHECK_VIOLATION), d)
  else (Err DataError, d).

(** ** Events *)

Definition write_data (p : Product) : ProductWriteData :=
  MkWrite (p_id p) (p_merchant p) (p_name p) (p_price p) (p_category p) (p_version p).

(** [product_updated_outbox] *)
Definition product_updated_outbox (product merchant : N) (name : string) (price : Z)
    (category : option string) (version : Z) : CatalogEvent :=
  ProductUpdatedV2 (MkWrite product merchant name price category version).

(** [_image_outbox]: built from the row the guarded UPDATE returned. *)
Definition image_outbox (p : Product) : CatalogEvent :=
  product_updated_outbox (p_id p) (p_merchant p) (p_name p) (p_price p) (p_category p) (p_version p).

(** ** Reads *)

Definition live_row (pid : N) (d : CatalogDB) : option Product :=
  match products d !! pid with
  | Some p => match p_deleted_at p with None => Some p | Some _ => None end
  | None => None
  end.

(** [get_product] *)
Definition repo_get_product (pid : N) : ST CatalogDB (option Product) := λ d, (Ok (live_row pid d), d).

(** [get_products_by_ids] *)
Definition repo_get_products_by_ids (pids : list N) : ST CatalogDB (list Product) := λ d,
  (Ok (filter (λ p, p_id p ∈ pids ∧ p_deleted_at p = None) (map_to_list (products d)).*2), d).

(** [current_image_key] *)
Definition current_image_key (pid : N) : ST CatalogDB (option string) := λ d,
  (Ok (live_row pid d ≫= p_image_key), d).

(** ** Writes through the ORM *)

(** [create_product]; the id is a fresh [uuid4] (drawn from a counter of the
    128-bit identifiers), [version_id] defaults to 1. *)
Definition repo_create_product (now : Z) (merchant : N) (name : string) (description category : option string)
    (price : Z) : ST CatalogDB Product :=
  atomically (
    d ← get;
    guard_ (bool_decide (is_uuid (next_product d))) RuntimeError ;;
    let p := MkProduct (next_product d) merchant name description category price None ImgNone None None
               now now 1 None in
    modify (λ d, MkCatalogDB (products d) (cat_outbox d) (reclaims d) (next_product d + 1) (next_reclaim d)) ;;
    write_product p ;;
    cat_emit (ProductCreatedV2 (write_data p)) ;;
    mret p).

(** [_load_aggregate]: the SELECT decides whether there is a live row; the
    instance it hands out is the one the session already holds, if it does. *)
Definition load_aggregate (orm : Orm) (snapshot : Product) : ST CatalogDB Product := λ d,
  match live_row (p_id snapshot) d with
  | None => (Err ConcurrentUpdateError, d)
  | Some row => (Ok (if identity_kept orm then snapshot else row), d)
  end.

(** The columns of an UPDATE are those whose value differs from the loaded one. *)
Definition changed_to {A} `{EqDecision A} (loaded target stored : A) : A :=
  if decide (target = loaded) then stored else target.

Definition merge_columns (loaded target row : Product) : Product :=
  MkProduct (p_id row) (p_merchant row)
    (changed_to (p_name loaded) (p_name target) (p_name row))
    (changed_to (p_description loaded) (p_description target) (p_description row))
    (changed_to (p_category loaded) (p_category target) (p_category row))
    (changed_to (p_price loaded) (p_price target) (p_price row))
    (p_image_key row)
    (changed_to (p_image_status loaded) (p_image_status target) (p_image_status row))
    (changed_to (p_upload_token loaded) (p_upload_token target) (p_upload_token row))
    (changed_to (p_upload_expires loaded) (p_upload_expires target) (p_upload_expires row))
    (p_created_at row) (p_updated_at row) (p_version row)
    (changed_to (p_deleted_at loaded) (p_deleted_at target) (p_deleted_at row)).

(** [version_id = version_id + 1, updated_at = now()] *)
Definition bump (now : Z) (p : Product) : Product :=
  MkProduct (p_id p) (p_merchant p) (p_name p) (p_description p) (p_category p) (p_price p) (p_image_key p)
    (p_image_status p) (p_upload_token p) (p_upload_expires p) (p_created_at p) now (p_version p + 1)
    (p_deleted_at p).

(** [flush] of the loaded instance: the guarded UPDATE, or nothing when no
    column changed; a stale version is [StaleDataError], translated to 409. *)
Definition flush_product (orm : Orm) (now : Z) (loaded target : Product) : ST CatalogDB Product := λ d,
  match products d !! p_id loaded with
  | None => (Err ConcurrentUpdateError, d)
  | Some row =>
      if bool_decide (target = loaded) && negb (updates_unchanged orm) then (Ok row, d)
      else if decide (p_version row = p_version loaded) then
        let row' := bump now (merge_columns loaded target row) in
        (write_product row' ;; mret row') d
      else (Err ConcurrentUpdateError, d)
  end.

(** [_commit_versioned] with the outbox row added before it *)
Definition commit_versioned (orm : Orm) (now : Z) (loaded target : Product) (event : CatalogEvent)
    : ST CatalogDB Product :=
  atomically (row ← flush_product orm now loaded target; cat_emit event ;; mret row).

(** [ProductUpdate.model_dump(exclude_unset=True)]: the fields the body set. *)
Record ProductPatch := MkPatch {
  pt_name : option string;
  pt_description : option (option string);
  pt_category : option (option string);
  pt_price : option Z
}.

Definition apply_patch (c : ProductPatch) (p : Product) : Product :=
  MkProduct (p_id p) (p_merchant p) (default (p_name p) (pt_name c))
    (default (p_description p) (pt_description c)) (default (p_category p) (pt_category c))
    (default (p_price p) (pt_price c)) (p_image_key p) (p_image_status p) (p_upload_token p)
    (p_upload_expires p) (p_created_at p) (p_updated_at p) (p_version p) (p_deleted_at p).

Definition with_deleted (now : Z) (p : Product) : Product :=
  MkProduct (p_id p) (p_merchant p) (p_name p) (p_description p) (p_category p) (p_price p) (p_image_key p)
    (p_image_status p) (p_upload_token p) (p_upload_expires p) (p_created_at p) (p_updated_at p) (p_version p)
    (Some now).

Definition with_pending (token : string) (expires_at : Z) (p : Product) : Product :=
  MkProduct (p_id p) (p_merchant p) (p_name p) (p_description p) (p_category p) (p_price p) (p_image_key p)
    ImgPending (Some token) (Some expires_at) (p_created_at p) (p_updated_at p) (p_version p) (p_deleted_at p).

(** The commit of [update_product] *)
Definition repo_update_product (orm : Orm) (now : Z) (loaded : Product) (changes : ProductPatch)
    (event : CatalogEvent) : ST CatalogDB Product :=
  commit_versioned orm now loaded (apply_patch changes loaded) event.

(** [INSERT INTO image_reclaim ... ON CONFLICT (object_key) DO NOTHING] *)
Definition enqueue_reclaim (now : Z) (pid : N) (key : string) : ST CatalogDB unit := λ d,
  if decide (key ∈ rc_key <$> reclaims d) then (Ok tt, d)
  else (Ok tt, MkCatalogDB (products d) (cat_outbox d)
                 (reclaims d ++ [MkReclaim (next_reclaim d) pid key 0 None now])
                 (next_product d) (next_reclaim d + 1)).

(** [session.add(ImageReclaim(...))]: a duplicate key violates the UNIQUE column. *)
Definition insert_reclaim (now : Z) (pid : N) (key : string) : ST CatalogDB unit := λ d,
  if decide (key ∈ rc_key <$> reclaims d) then (Err (IntegrityError UNIQUE_VIOLATION), d)
  else enqueue_reclaim now pid key d.

(** [if key:] *)
Definition truthy (o : option string) : option string :=
  match o with Some EmptyString | None => None | Some s => Some s end.

(** The commit of [soft_delete_product] *)
Definition repo_soft_delete (orm : Orm) (now deleted_at : Z) (loaded : Product) (event : CatalogEvent)
    : ST CatalogDB unit :=
  atomically (
    flush_product orm now loaded (with_deleted deleted_at loaded) ;;
    cat_emit event ;;
    match truthy (p_image_key loaded) with
    | Some key => enqueue_reclaim now (p_id loaded) key
    | None => mret tt
    end).

(** The commit of [set_image_pending] *)
Definition repo_set_image_pending (orm : Orm) (now : Z) (loaded : Product) (token : string) (expires_at : Z)
    (event : CatalogEvent) : ST CatalogDB unit :=
  commit_versioned orm now loaded (with_pending token expires_at loaded) event ;; mret tt.

(** ** The image worker's guarded statements *)

(** [UPDATE ... WHERE id AND image_upload_token = :token AND image_status =
    pending AND deleted_at IS NULL RETURNING]: the row before and after. *)
Definition flip_pending (now : Z) (pid : N) (token : string) (f : Product → Product)
    : ST CatalogDB (option (Product * Product)) := λ d,
  match live_row pid d with
  | Some p =>
      if decide (p_upload_token p = Some token ∧ p_image_status p = ImgPending) then
        let p' := bump now (f p) in (write_product p' ;; mret (Some (p, p'))) d
      else (Ok None, d)
  | None => (Ok None, d)
  end.

Definition with_image (key : option string) (status : ImageStatus) (token : option string) (p : Product) : Product :=
  MkProduct (p_id p) (p_merchant p) (p_name p) (p_description p) (p_category p) (p_price p) key status token None
    (p_created_at p) (p_updated_at p) (p_version p) (p_deleted_at p).

(** [ImageFlip] *)
Record ImageFlip := MkFlip { fl_applied : bool; fl_previous_key : option string }.

(** [mark_image_ready] *)
Definition mark_image_ready (now : Z) (pid : N) (token key : string) : ST CatalogDB ImageFlip :=
  atomically (
    r ← flip_pending now pid token (λ p, with_image (Some key) ImgReady (p_upload_token p) p);
    match r with
    | None => mret (MkFlip false None)
    | Some (p, p') =>
        cat_emit (image_outbox p') ;;
        (match truthy (p_image_key p) with
         | Some old => if decide (old = key) then mret tt else insert_reclaim now pid old
         | None => mret tt
         end) ;;
        mret (MkFlip true (p_image_key p))
    end).

(** [_commit_image_flip] *)
Definition commit_image_flip (r : option (Product * Product)) : ST CatalogDB bool :=
  match r with
  | None => mret false
  | Some (_, p') => cat_emit (image_outbox p') ;; mret true
  end.

(** [mark_image_failed] *)
Definition mark_image_failed (now : Z) (pid : N) (token : string) : ST CatalogDB bool :=
  atomically (
    r ← flip_pending now pid token (λ p, with_image (p_image_key p) ImgFailed (p_upload_token p) p);
    commit_image_flip r).

(** [expire_abandoned_upload] *)
Definition expire_abandoned_upload (now : Z) (pid : N) (token : string) : ST CatalogDB bool :=
  atomically (
    r ← flip_pending now pid token
          (λ p, with_image (p_image_key p)
                  (match p_image_key p with None => ImgNone | Some _ => ImgReady end) None p);
    commit_image_flip r).

(** [due_pending_uploads] *)
Definition expires_le (x y : Z * (N * string)) : Prop := x.1 ≤ y.1.
#[export] Instance expires_le_dec : RelDecision expires_le.
Proof. intros x y. unfold expires_le. apply _. Defined.

Definition pending_upload (cutoff : Z) (p : Product) : option (Z * (N * string)) :=
  match p_image_status p, p_upload_token p, p_upload_expires p, p_deleted_at p with
  | ImgPending, Some token, Some expires, None =>
      if decide (expires < cutoff) then Some (expires, (p_id p, token)) else None
  | _, _, _, _ => None
  end.

Definition due_pending_uploads (now grace : Z) (batch : nat) : ST CatalogDB (list (N * string)) := λ d,
  (Ok (take batch (merge_sort expires_le (omap (pending_upload (now - grace)) (map_to_list (products d)).*2)).*2), d).

(** [defer_upload_expiry] *)
Definition with_expires (e : Z) (p : Product) : Product :=
  MkProduct (p_id p) (p_merchant p) (p_name p) (p_description p) (p_category p) (p_price p) (p_image_key p)
    (p_image_status p) (p_upload_token p) (Some e) (p_created_at p) (p_updated_at p) (p_version p) (p_deleted_at p).

Definition defer_upload_expiry (now : Z) (pid : N) (token : string) (delay : Z) : ST CatalogDB unit := λ d,
  match products d !! pid with
  | Some p =>
      if decide (p_upload_token p = Some token ∧ p_image_status p = ImgPending)
      then (Ok tt, set_products (<[pid := with_expires (now + delay) p]> (products d)) d)
      else (Ok tt, d)
  | None => (Ok tt, d)
  end.

(** ** The clean-up queue *)

(** [schedule_image_reclaim] *)
Definition schedule_image_reclaim (now : Z) (pid : N) (key : string) : ST CatalogDB unit := enqueue_reclaim now pid key.

(** [ImageReclaimTask] *)
Record ReclaimTask := MkTask { tk_id : N; tk_product : N; tk_key : string; tk_attempts : Z }.

Definition reclaim_le (x y : ReclaimRow) : Prop := rc_next x ≤ rc_next y.
#[export] Instance reclaim_le_dec : RelDecision reclaim_le.
Proof. intros x y. unfold reclaim_le. apply _. Defined.

(** [claim_image_reclaims]; [locked] are the rows other workers hold. *)
Definition claim_image_reclaims (now lease : Z) (batch : nat) (locked : N → bool) : ST CatalogDB (list ReclaimTask) := λ d,
  let due := take batch (merge_sort reclaim_le
               (filter (λ r, rc_next r ≤ now ∧ locked (rc_id r) = false) (reclaims d))) in
  if decide (Forall (λ r, int4 (rc_attempts r + 1)) due) then
    (Ok ((λ r, MkTask (rc_id r) (rc_product r) (rc_key r) (rc_attempts r + 1)) <$> due),
     set_reclaims ((λ r, if decide (rc_id r ∈ rc_id <$> due)
                         then MkReclaim (rc_id r) (rc_product r) (rc_key r) (rc_attempts r + 1) (rc_error r) (now + lease)
                         else r) <$> reclaims d) d)
  else (Err DataError, d).

(** [finish_image_reclaim] *)
Definition finish_image_reclaim (ids : list N) : ST CatalogDB unit :=
  modify (λ d, set_reclaims (filter (λ r, rc_id r ∉ ids) (reclaims d)) d).

(** [defer_image_reclaim]; the reason is cut to the column's width. *)
Definition defer_image_reclaim (now : Z) (id : N) (delay : Z) (error : string) : ST CatalogDB unit :=
  modify (λ d, set_reclaims
    ((λ r, if decide (rc_id r = id)
           then MkReclaim (rc_id r) (rc_product r) (rc_key r) (rc_attempts r) (Some (String.substring 0 512 error)) (now + delay)
           else r) <$> reclaims d) d).
