(* ===== verification/CatalogFacts.v ===== *)
(** * CatalogFacts: versions and events of the product rows

    What every catalog write does to the rows ([row_evolves]: a row keeps its
    identity, its version never falls, and equal versions mean equal rows up to
    the upload deadline) and to the outbox ([EventsOK]: every event describes the
    row as it was at the event's version, no version is announced twice, and the
    current version of every row has been announced).

    The first holds of any ORM; the second needs one that keeps the instance a
    session has read and that bumps the version on every flush ([strict]). *)

From stdpp Require Import sorting.
From Stdlib Require Import String.
From S2P Require Import Prelude Errors UnitOfWork Text Catalog.

(** ** Rows *)

(** Equal up to the upload deadline, the one column written without a version. *)
Definition same_row (p q : Product) : Prop := with_expires 0 p = with_expires 0 q.

Record row_evolves (p q : Product) : Prop := {
  re_id : p_id q = p_id p;
  re_merchant : p_merchant q = p_merchant p;
  re_created : p_created_at q = p_created_at p;
  re_version : p_version p < p_version q ∨ same_row p q;
  re_deleted : is_Some (p_deleted_at p) → is_Some (p_deleted_at q)
}.

#[export] Instance same_row_equiv : Equivalence same_row.
Proof. unfold same_row. split; [by intros ?|intros ? ? H; exact (eq_sym H)|intros ? ? ? H1 H2; exact (eq_trans H1 H2)]. Qed.

Lemma same_row_fields p q :
  same_row p q →
  p_id p = p_id q ∧ p_merchant p = p_merchant q ∧ p_name p = p_name q ∧ p_description p = p_description q ∧
  p_category p = p_category q ∧ p_price p = p_price q ∧ p_image_key p = p_image_key q ∧
  p_image_status p = p_image_status q ∧ p_upload_token p = p_upload_token q ∧ p_created_at p = p_created_at q ∧
  p_updated_at p = p_updated_at q ∧ p_version p = p_version q ∧ p_deleted_at p = p_deleted_at q.
Proof. destruct p, q. unfold same_row, with_expires. cbn. intros E. injection E. intros. subst. split_and!; reflexivity. Qed.

#[export] Instance row_evolves_preorder : PreOrder row_evolves.
Proof.
  split.
  - intros p. by split; [..|right|].
  - intros p q r [I1 M1 C1 V1 D1] [I2 M2 C2 V2 D2].
    split; [congruence..| |by auto].
    destruct V1 as [V1|V1], V2 as [V2|V2]; [left; lia|left..|].
    + apply same_row_fields in V2. destruct V2 as (_&_&_&_&_&_&_&_&_&_&_&<-&_). lia.
    + apply same_row_fields in V1. destruct V1 as (_&_&_&_&_&_&_&_&_&_&_&->&_). lia.
    + right. by transitivity q.
Qed.

Record RowsOK (d : CatalogDB) : Prop := {
  ro_row : ∀ pid p, products d !! pid = Some p → p_id p = pid ∧ 1 ≤ p_version p ∧ is_uuid pid;
  ro_next : ∀ pid p, products d !! pid = Some p → (pid < next_product d)%N
}.

(** [p] is what some earlier read of its product saw. *)
Definition snapshot_of (p : Product) (d : CatalogDB) : Prop :=
  ∃ q, products d !! p_id p = Some q ∧ row_evolves p q.

Lemma snapshot_version p d q :
  snapshot_of p d → products d !! p_id p = Some q → p_version q = p_version p → same_row p q.
Proof. intros (q' & Hq' & He) Hq Hv. simplify_eq. destruct (re_version _ _ He); [lia|done]. Qed.

(** ** Events *)

Definition event_product (e : CatalogEvent) : N :=
  match e with ProductCreatedV2 d | ProductUpdatedV2 d => wd_product d | ProductDeletedV2 p _ _ => p end.
Definition event_version (e : CatalogEvent) : Z :=
  match e with ProductCreatedV2 d | ProductUpdatedV2 d => wd_version d | ProductDeletedV2 _ _ v => v end.

(** The event says what the row holds. *)
Definition describes (e : CatalogEvent) (p : Product) : Prop :=
  match e with
  | ProductCreatedV2 d | ProductUpdatedV2 d => d = write_data p ∧ p_deleted_at p = None
  | ProductDeletedV2 pid m v => pid = p_id p ∧ m = p_merchant p ∧ v = p_version p ∧ is_Some (p_deleted_at p)
  end.

Lemma describes_ids e p : describes e p → event_product e = p_id p ∧ event_version e = p_version p.
Proof. destruct e; simpl; intros; destruct_and?; subst; done. Qed.

Lemma describes_same e p q : same_row p q → describes e p → describes e q.
Proof.
  intros (Hi&Hm&Hn&_&Hc&Hp&_&_&_&_&_&Hv&Hd)%same_row_fields. destruct e; simpl; unfold write_data;
    rewrite ?Hi, ?Hm, ?Hn, ?Hc, ?Hp, ?Hv, ?Hd; done.
Qed.

(** Creation is version 1; a later write has a later version. *)
Definition numbered (e : CatalogEvent) : Prop :=
  match e with ProductCreatedV2 d => wd_version d = 1 | _ => 2 ≤ event_version e end.

Definition is_created (e : CatalogEvent) : bool := match e with ProductCreatedV2 _ => true | _ => false end.

Record EventsOK (d : CatalogDB) : Prop := {
  eo_sound : ∀ e, e ∈ cat_outbox d → ∃ p, products d !! event_product e = Some p ∧
    event_version e ≤ p_version p ∧ (event_version e = p_version p → describes e p);
  eo_numbered : ∀ e, e ∈ cat_outbox d → numbered e;
  eo_deleted : ∀ pid m v, ProductDeletedV2 pid m v ∈ cat_outbox d →
    ∃ p, products d !! pid = Some p ∧ is_Some (p_deleted_at p);
  eo_unique : NoDup ((λ e, (event_product e, event_version e)) <$> cat_outbox d);
  eo_complete : ∀ pid p, products d !! pid = Some p → ∃ e, e ∈ cat_outbox d ∧ describes e p
}.

(** What the versions of the events rely on. *)
Definition strict (orm : Orm) : Prop := identity_kept orm = true ∧ updates_unchanged orm = true.

(** ** One announced write *)

(** The database after row [pid] became [p'] and [e] was added to the outbox. *)
Definition announced (pid : N) (p' : Product) (e : CatalogEvent) (d d' : CatalogDB) : Prop :=
  products d' = <[pid := p']> (products d) ∧ cat_outbox d' = cat_outbox d ++ [e] ∧
  next_product d' = next_product d.

(** Rows may change their deadline, nothing else; the outbox stays. *)
Definition quiet (d d' : CatalogDB) : Prop :=
  cat_outbox d' = cat_outbox d ∧ next_product d' = next_product d ∧
  (∀ pid p, products d !! pid = Some p → ∃ q, products d' !! pid = Some q ∧ same_row p q) ∧
  (∀ pid q, products d' !! pid = Some q → is_Some (products d !! pid)).

Definition next_version (p p' : Product) : Prop :=
  p_id p' = p_id p ∧ p_merchant p' = p_merchant p ∧ p_created_at p' = p_created_at p ∧
  p_version p' = p_version p + 1 ∧ (is_Some (p_deleted_at p) → is_Some (p_deleted_at p')).

Lemma next_version_evolves p p' : next_version p p' → row_evolves p p'.
Proof. intros (?&?&?&?&?). split; [done..|left; lia|done]. Qed.

Lemma same_row_evolves p q : same_row p q → row_evolves p q.
Proof.
  intros H. destruct (same_row_fields _ _ H) as (?&?&_&_&_&_&_&_&_&?&_&?&Hd). split; [done..|by right|by rewrite Hd].
Qed.

Definition rows_evolve (d d' : CatalogDB) : Prop :=
  (∀ pid p, products d !! pid = Some p → ∃ q, products d' !! pid = Some q ∧ row_evolves p q) ∧
  cat_outbox d `prefix_of` cat_outbox d'.

#[export] Instance rows_evolve_preorder : PreOrder rows_evolve.
Proof.
  split.
  - intros d. split; [|done]. intros pid p Hp. by exists p.
  - intros d1 d2 d3 [H1 P1] [H2 P2]. split; [|by etrans]. intros pid p Hp.
    destruct (H1 _ _ Hp) as (q & Hq & He). destruct (H2 _ _ Hq) as (r & Hr & He'). exists r. split; [done|by etrans].
Qed.

Lemma announced_rows pid p p' e d d' :
  announced pid p' e d d' → products d !! pid = Some p → next_version p p' → RowsOK d →
  RowsOK d' ∧ rows_evolve d d'.
Proof.
  intros (Hps & Ho & Hn) Hp Hv [Hr Hnx]. pose proof Hv as (Hid&_&_&Hvv&_). destruct (Hr _ _ Hp) as (? & ? & ?).
  split; split.
  - intros i q. rewrite Hps, lookup_insert_Some. intros [[<- <-]|[? Hq]]; [|by apply Hr].
    split_and!; [congruence|lia|done].
  - intros i q. rewrite Hps, Hn, lookup_insert_Some. intros [[<- <-]|[? Hq]]; by eapply Hnx.
  - intros i q Hq. rewrite Hps. destruct (decide (i = pid)) as [->|Hne].
    + simplify_eq. exists p'. rewrite lookup_insert_eq. split; [done|by apply next_version_evolves].
    + exists q. by rewrite lookup_insert_ne.
  - rewrite Ho. by apply prefix_app_r.
Qed.

Lemma announced_events pid p p' e d d' :
  announced pid p' e d d' → products d !! pid = Some p → next_version p p' → describes e p' →
  is_created e = false → RowsOK d → EventsOK d → EventsOK d'.
Proof.
  intros (Hps & Ho & Hn) Hp (Hid & Hm & Hc & Hv & Hdel) Hde Hcr Hr [Hs Hnu Hdl Hu Hcp].
  destruct (describes_ids _ _ Hde) as [Hep Hev]. destruct (ro_row _ Hr _ _ Hp) as (Hpid & _).
  assert (event_product e = pid) as Hepid by congruence. split.
  - intros e1. rewrite Ho, Hps, elem_of_app, list_elem_of_singleton. intros [He1| ->].
    + destruct (Hs _ He1) as (q & Hq & Hle & Hd). destruct (decide (event_product e1 = pid)) as [E|E].
      * rewrite E in *. simplify_eq. exists p'. rewrite lookup_insert_eq. split; [done|]. split; [lia|]. lia.
      * exists q. by rewrite lookup_insert_ne.
    + exists p'. rewrite Hepid, lookup_insert_eq. split; [done|]. split; [lia|done].
  - intros e1. rewrite Ho, elem_of_app, list_elem_of_singleton. intros [He1| ->]; [by apply Hnu|].
    destruct (ro_row _ Hr _ _ Hp) as (_ & Hv1 & _). destruct e; [done|..]; simpl in *; lia.
  - intros i m v. rewrite Ho, Hps, elem_of_app, list_elem_of_singleton. intros [He1|He1].
    + destruct (Hdl _ _ _ He1) as (q & Hq & Hqd). destruct (decide (i = pid)) as [->|E].
      * simplify_eq. exists p'. rewrite lookup_insert_eq. split; [done|by apply Hdel].
      * exists q. by rewrite lookup_insert_ne.
    + subst e. simpl in Hepid, Hde. exists p'. rewrite Hepid, lookup_insert_eq. split; [done|]. by destruct_and!.
  - rewrite Ho, fmap_app. apply NoDup_app. split; [done|]. split; [|apply NoDup_singleton].
    intros x Hx Hx2. apply list_elem_of_singleton in Hx2. subst x.
    apply list_elem_of_fmap in Hx as (e1 & E & He1). injection E as E1 E2.
    destruct (Hs _ He1) as (q & Hq & Hle & _). rewrite <- E1, Hepid, Hp in Hq. simplify_eq. lia.
  - intros i q. rewrite Hps, lookup_insert_Some. intros [[<- <-]|[Hne Hq]].
    + exists e. split; [|done]. rewrite Ho. set_solver.
    + destruct (Hcp _ _ Hq) as (e1 & He1 & Hd1). exists e1. split; [|done]. rewrite Ho. set_solver.
Qed.

Lemma quiet_rows d d' : quiet d d' → RowsOK d → RowsOK d' ∧ rows_evolve d d'.
Proof.
  intros (Ho & Hn & Hf & Hb) [Hr Hnx]. split; split.
  - intros pid q Hq. destruct (Hb _ _ Hq) as [p Hp]. destruct (Hf _ _ Hp) as (q' & Hq' & Hs). simplify_eq.
    destruct (same_row_fields _ _ Hs) as (<-&_&_&_&_&_&_&_&_&_&_&<-&_). by apply Hr.
  - intros pid q Hq. destruct (Hb _ _ Hq) as [p Hp]. rewrite Hn. by eapply Hnx.
  - intros pid p Hp. destruct (Hf _ _ Hp) as (q & Hq & Hs). exists q. split; [done|by apply same_row_evolves].
  - by rewrite Ho.
Qed.

Lemma quiet_events d d' : quiet d d' → EventsOK d → EventsOK d'.
Proof.
  intros (Ho & Hn & Hf & Hb) [Hs Hnu Hdl Hu Hc]. split.
  - intros e. rewrite Ho. intros He. destruct (Hs _ He) as (p & Hp & Hle & Hd).
    destruct (Hf _ _ Hp) as (q & Hq & Hsr). exists q. split; [done|].
    destruct (same_row_fields _ _ Hsr) as (_&_&_&_&_&_&_&_&_&_&_&<-&_). split; [done|].
    intros E. eapply describes_same; [done|]. by apply Hd.
  - intros e. rewrite Ho. apply Hnu.
  - intros pid m v. rewrite Ho. intros He. destruct (Hdl _ _ _ He) as (p & Hp & Hpd).
    destruct (Hf _ _ Hp) as (q & Hq & Hsr). exists q. split; [done|].
    by destruct (same_row_fields _ _ Hsr) as (_&_&_&_&_&_&_&_&_&_&_&_&<-).
  - by rewrite Ho.
  - intros pid q Hq. destruct (Hb _ _ Hq) as [p Hp]. destruct (Hf _ _ Hp) as (q' & Hq' & Hsr). simplify_eq.
    destruct (Hc _ _ Hp) as (e & He & Hd). exists e. rewrite Ho. split; [done|]. by eapply describes_same.
Qed.

Lemma quiet_same_products d d' :
  products d' = products d → cat_outbox d' = cat_outbox d → next_product d' = next_product d → quiet d d'.
Proof.
  intros Hp Ho Hn. split_and!; [done..| |]; intros pid p; rewrite Hp; intros E; [by exists p|by eexists].
Qed.

Lemma quiet_refl d : quiet d d.
Proof. by apply quiet_same_products. Qed.

(** ** The blocks *)

(** Nothing but the outbox (and the clean-up queue) changed. *)
Definition only_emitted (e : CatalogEvent) (d d' : CatalogDB) : Prop :=
  products d' = products d ∧ cat_outbox d' = cat_outbox d ++ [e] ∧ next_product d' = next_product d.

Lemma only_emitted_rows e d d' : only_emitted e d d' → RowsOK d → RowsOK d' ∧ rows_evolve d d'.
Proof.
  intros (Hp & Ho & Hn) [Hr Hnx]. split; split.
  - intros pid p. rewrite Hp. apply Hr.
  - intros pid p. rewrite Hp, Hn. apply Hnx.
  - intros pid p Hp'. exists p. by rewrite Hp.
  - rewrite Ho. by apply prefix_app_r.
Qed.

Lemma write_product_spec p d :
  write_product p d = (Ok tt, set_products (<[p_id p := p]> (products d)) d) ∨
  ∃ e, write_product p d = (Err e, d).
Proof. unfold write_product. repeat case_decide; eauto. Qed.

(** What a flush left behind, given the row it found. *)
Inductive flushed (orm : Orm) (now : Z) (loaded target : Product) (d : CatalogDB)
    : result Product → CatalogDB → Prop :=
  | flush_refused e : flushed orm now loaded target d (Err e) d
  | flush_nothing row :
      products d !! p_id loaded = Some row → target = loaded → updates_unchanged orm = false →
      flushed orm now loaded target d (Ok row) d
  | flush_written row :
      products d !! p_id loaded = Some row → p_version row = p_version loaded →
      let row' := bump now (merge_columns loaded target row) in
      flushed orm now loaded target d (Ok row') (set_products (<[p_id row := row']> (products d)) d).

Lemma flush_product_spec orm now loaded target d :
  flushed orm now loaded target d (flush_product orm now loaded target d).1 (flush_product orm now loaded target d).2.
Proof.
  unfold flush_product. destruct (products d !! p_id loaded) as [row|] eqn:E; [|constructor].
  destruct (bool_decide (target = loaded) && negb (updates_unchanged orm)) eqn:Eb.
  - apply andb_true_iff in Eb as [E1%bool_decide_eq_true E2%negb_true_iff]. by eapply flush_nothing.
  - clear Eb. destruct (decide (p_version row = p_version loaded)) as [Hv|]; [|constructor].
    unfold mbind, ST_bind, mret, ST_ret.
    destruct (write_product_spec (bump now (merge_columns loaded target row)) d) as [->|[e ->]]; simpl.
    + by eapply flush_written.
    + constructor.
Qed.

Lemma bump_next now loaded target row :
  (is_Some (p_deleted_at loaded) → is_Some (p_deleted_at target)) →
  next_version row (bump now (merge_columns loaded target row)).
Proof.
  intros Hd. split_and!; try done. simpl. unfold changed_to. case_decide as E; [done|].
  intros _. destruct (p_deleted_at target) eqn:Et; [done|].
  destruct (p_deleted_at loaded) eqn:El; [|congruence]. destruct Hd; [done|congruence].
Qed.

(** The row as the flush's UPDATE left it, when nobody wrote in between. *)
Lemma merge_exact loaded target row :
  same_row loaded row → p_image_key target = p_image_key loaded → p_id target = p_id loaded →
  p_merchant target = p_merchant loaded →
  p_name (merge_columns loaded target row) = p_name target ∧
  p_price (merge_columns loaded target row) = p_price target ∧
  p_category (merge_columns loaded target row) = p_category target ∧
  p_deleted_at (merge_columns loaded target row) = p_deleted_at target ∧
  p_id (merge_columns loaded target row) = p_id target ∧
  p_merchant (merge_columns loaded target row) = p_merchant target.
Proof.
  intros (Hi&Hm&Hn&_&Hc&Hp&_&_&_&_&_&_&Hd)%same_row_fields Hk Hti Htm. simpl. unfold changed_to.
  split_and!; repeat case_decide; congruence.
Qed.

(** A commit through the ORM: refused, only announced, or written and announced. *)
Inductive committed_write (orm : Orm) (now : Z) (loaded target : Product) (e : CatalogEvent) (d : CatalogDB)
    : CatalogDB → Prop :=
  | cw_refused : committed_write orm now loaded target e d d
  | cw_only_event d' : target = loaded → updates_unchanged orm = false →
      only_emitted e d d' → committed_write orm now loaded target e d d'
  | cw_written row d' :
      products d !! p_id loaded = Some row → p_version row = p_version loaded →
      announced (p_id row) (bump now (merge_columns loaded target row)) e d d' →
      committed_write orm now loaded target e d d'.

Lemma commit_versioned_spec orm now loaded target e d :
  committed_write orm now loaded target e d (commit_versioned orm now loaded target e d).2 ∧
  reclaims (commit_versioned orm now loaded target e d).2 = reclaims d.
Proof.
  unfold commit_versioned, atomically, begin_nested, mbind, ST_bind, cat_emit, modify, mret, ST_ret.
  pose proof (flush_product_spec orm now loaded target d) as H.
  destruct (flush_product orm now loaded target d) as [r d1]. simpl in H.
  destruct H as [e'|row Hr Ht Hu|row Hr Hv row']; simpl; (split; [|done]).
  - constructor.
  - by apply cw_only_event.
  - by eapply cw_written.
Qed.

Lemma soft_delete_spec orm now at_ loaded e d :
  committed_write orm now loaded (with_deleted at_ loaded) e d (repo_soft_delete orm now at_ loaded e d).2 ∧
  (∀ r, r ∈ reclaims (repo_soft_delete orm now at_ loaded e d).2 →
     r ∈ reclaims d ∨
     (rc_product r = p_id loaded ∧ truthy (p_image_key loaded) = Some (rc_key r) ∧
      (repo_soft_delete orm now at_ loaded e d).1 = Ok tt)).
Proof.
  unfold repo_soft_delete, atomically, begin_nested, mbind, ST_bind, cat_emit, modify, mret, ST_ret.
  pose proof (flush_product_spec orm now loaded (with_deleted at_ loaded) d) as H.
  destruct (flush_product orm now loaded (with_deleted at_ loaded) d) as [r d1]. simpl in H.
  destruct H as [e'|row Hr Ht Hu|row Hr Hv row']; simpl; [split; [constructor|by left]|..].
  - destruct (truthy (p_image_key loaded)) as [key|] eqn:Ek; simpl.
    + unfold enqueue_reclaim. simpl. case_decide; simpl; (split; [by apply cw_only_event|]); [by left|].
      intros r0 [Hr0|Hr0]%elem_of_app; [by left|]. apply list_elem_of_singleton in Hr0 as ->. by right.
    + split; [by apply cw_only_event|by left].
  - destruct (truthy (p_image_key loaded)) as [key|] eqn:Ek; simpl.
    + unfold enqueue_reclaim. simpl. case_decide; simpl; (split; [by eapply cw_written|]); [by left|].
      intros r0 [Hr0|Hr0]%elem_of_app; [by left|]. apply list_elem_of_singleton in Hr0 as ->. by right.
    + split; [by eapply cw_written|by left].
Qed.

Lemma committed_rows orm now loaded target e d d' :
  committed_write orm now loaded target e d d' →
  (is_Some (p_deleted_at loaded) → is_Some (p_deleted_at target)) →
  RowsOK d → RowsOK d' ∧ rows_evolve d d'.
Proof.
  intros [|d1 _ _ He|row d1 Hr Hv Ha] Hd HR.
  - done.
  - by eapply only_emitted_rows.
  - eapply announced_rows; [done| |by apply bump_next|done]. by destruct (ro_row _ HR _ _ Hr) as (-> & _).
Qed.

(** With a strict ORM the event of a committed write describes the row written. *)
Lemma committed_events orm now loaded target e d d' :
  committed_write orm now loaded target e d d' → strict orm → snapshot_of loaded d →
  p_image_key target = p_image_key loaded → p_id target = p_id loaded → p_merchant target = p_merchant loaded →
  (is_Some (p_deleted_at loaded) → is_Some (p_deleted_at target)) →
  (∀ row', p_name row' = p_name target → p_price row' = p_price target → p_category row' = p_category target →
     p_deleted_at row' = p_deleted_at target → p_id row' = p_id loaded → p_merchant row' = p_merchant loaded →
     p_version row' = p_version loaded + 1 → describes e row') → is_created e = false →
  RowsOK d → EventsOK d → EventsOK d'.
Proof.
  intros [|d1 _ Hu _|row d1 Hr Hv Ha] [Hk Hs] Hsn Hik Hid Hm Hd Hde Hcr HR HE; [done|congruence|].
  pose proof (snapshot_version _ _ _ Hsn Hr Hv) as Hsame.
  destruct (merge_exact loaded target row Hsame Hik Hid Hm) as (?&?&?&?&?&?).
  eapply announced_events; [done| |by apply bump_next| |done|done|done].
  - by destruct (ro_row _ HR _ _ Hr) as (-> & _).
  - apply Hde; try done; simpl; [by destruct (ro_row _ HR _ _ Hr)|..]; try lia.
    destruct (same_row_fields _ _ Hsame) as (_&->&_). done.
Qed.

(** Creation *)
Lemma create_ok now m n ds c pr d :
  RowsOK d →
  let d' := (repo_create_product now m n ds c pr d).2 in
  RowsOK d' ∧ rows_evolve d d' ∧ (EventsOK d → EventsOK d') ∧ reclaims d' = reclaims d ∧
  (d' = d ∨ ∃ p, p_image_key p = None ∧ p_image_status p = ImgNone ∧ p_upload_token p = None ∧
                 products d !! next_product d = None ∧ products d' = <[next_product d := p]> (products d)).
Proof.
  intros [Hr Hnx]. unfold repo_create_product, atomically, begin_nested, guard_. st_simp.
  case_bool_decide as Hu; simpl; [|split_and!; [done..|by left]].
  set (p := MkProduct _ _ _ _ _ _ _ _ _ _ _ _ _ _).
  assert (products d !! next_product d = None) as Hfresh.
  { destruct (products d !! next_product d) eqn:E; [|done]. apply Hnx in E. lia. }
  match goal with |- context [write_product p ?x] => destruct (write_product_spec p x) as [->|[e ->]] end; simpl;
    [|split_and!; [done..|by left]].
  split; [|split; [|split; [|split; [done|]]]].
  - split; intros pid q; simpl; rewrite lookup_insert_Some; intros [[<- <-]|[? Hq]]; [done|by apply Hr|lia|].
    apply Hnx in Hq. lia.
  - split; [|by apply prefix_app_r]. intros pid q Hq. exists q. simpl. rewrite lookup_insert_ne; [done|congruence].
  - intros [Hs Hnu Hdl Hun Hc]. split; simpl.
    + intros e [He| ->%list_elem_of_singleton]%elem_of_app.
      * destruct (Hs _ He) as (q & Hq & ?). exists q. rewrite lookup_insert_ne; [done|congruence].
      * exists p. simpl. by rewrite lookup_insert_eq.
    + intros e [He| ->%list_elem_of_singleton]%elem_of_app; [by apply Hnu|done].
    + intros i mm v [He|He%list_elem_of_singleton]%elem_of_app; [|done].
      destruct (Hdl _ _ _ He) as (q & Hq & ?). exists q. rewrite lookup_insert_ne; [done|congruence].
    + rewrite fmap_app. apply NoDup_app. split; [done|]. split; [|apply NoDup_singleton].
      intros x (e1 & -> & He1)%list_elem_of_fmap Hx2%list_elem_of_singleton. injection Hx2 as E1 E2.
      destruct (Hs _ He1) as (q & Hq & _). rewrite E1 in Hq. simpl in Hq. congruence.
    + intros pid q. rewrite lookup_insert_Some. intros [[<- <-]|[Hne Hq]].
      * eexists. split; [apply elem_of_app; right; by apply list_elem_of_singleton|done].
      * destruct (Hc _ _ Hq) as (e1 & He1 & Hd1). exists e1. split; [set_solver|done].
  - right. by exists p.
Qed.
