(* ===== verification/ImageKeys.v ===== *)
(** * ImageKeys: the object-key layout of the image pipeline

    src/catalog/domain/image_keys.py.  Keys are texts; [tok] is the text of an
    upload token ([uuid4().hex]), [content_version] the truncated SHA-256 of the
    bytes.  The facts: an upload key parses back, and the renditions of two
    different main images never share an object. *)

From Stdlib Require Import Ascii String.
From S2P Require Import Prelude Text Parse Sha256.

(** [THUMBNAIL_SIZES] *)
Definition thumbnail_sizes : list (string * Z) := [("thumb_256", 256); ("thumb_64", 64)].

(** [new_upload_token]: the hex of the [n]-th uuid. *)
Definition tok (n : N) : string := hex_fixed 32 n.

(** [upload_key] *)
Definition upload_key (pid : N) (token : string) : string :=
  ("uploads/" +:+ uuid_str pid +:+ "/" +:+ token +:+ ".bin")%string.

(** [content_version] *)
Definition content_version (raw : byte_list) : string := String.substring 0 32 (hexdigest (sha256 raw)).

(** [public_main_key] *)
Definition public_main_key (pid : N) (token version : string) : string :=
  ("public/" +:+ uuid_str pid +:+ "/" +:+ token +:+ "_" +:+ version +:+ ".webp")%string.

(** [public_thumb_key] *)
Definition public_thumb_key (pid : N) (token version name : string) : string :=
  ("public/" +:+ uuid_str pid +:+ "/" +:+ token +:+ "_" +:+ version +:+ "_" +:+ name +:+ ".webp")%string.

(** [public_rendition_keys] *)
Definition public_rendition_keys (main_key : string) : list string :=
  if ends_with ".webp" main_key then
    let stem := remove_suffix ".webp" main_key in
    main_key :: ((λ x, (stem +:+ "_" +:+ x.1 +:+ ".webp")%string) <$> thumbnail_sizes)
  else [].

(** [parse_upload_key] *)
Definition parse_upload_key (key : string) : option (N * string) :=
  match split_on "/" key with
  | [prefix; pid_text; file] =>
      if decide (prefix = "uploads") then
        match uuid_parse pid_text with
        | Some pid => Some (pid, rsplit_head "." file)
        | None => None
        end
      else None
  | _ => None
  end.

(** ** Splitting back *)

Definition not_char (c : ascii) (x : ascii) : bool := negb (bool_decide (x = c)).

Lemma split_on_none c s : all_chars (not_char c) s = true → split_on c s = [s].
Proof.
  induction s as [|x s IH]; [done|]. simpl. intros [Hx Hs]%andb_true_iff.
  unfold not_char in Hx. apply negb_true_iff, bool_decide_eq_false in Hx.
  destruct (ascii_dec x c); [done|]. by rewrite IH.
Qed.

Lemma split_on_app c a s :
  all_chars (not_char c) a = true → split_on c (a +:+ String c s)%string = a :: split_on c s.
Proof.
  induction a as [|x a IH]; intros Ha.
  - simpl. by destruct (ascii_dec c c).
  - change (String x a +:+ String c s)%string with (String x (a +:+ String c s)). simpl in *.
    apply andb_true_iff in Ha as [Hx Ha]. unfold not_char in Hx. apply negb_true_iff, bool_decide_eq_false in Hx.
    destruct (ascii_dec x c); [done|]. by rewrite IH.
Qed.

Lemma before_last_none c s : all_chars (not_char c) s = true → before_last c s = None.
Proof.
  induction s as [|x s IH]; [done|]. simpl. intros [Hx Hs]%andb_true_iff. rewrite IH by done.
  unfold not_char in Hx. apply negb_true_iff, bool_decide_eq_false in Hx. by destruct (ascii_dec x c).
Qed.

Lemma before_last_app c a s :
  all_chars (not_char c) s = true → before_last c (a +:+ String c s)%string = Some a.
Proof.
  intros Hs. induction a as [|x a IH].
  - simpl. rewrite before_last_none by done. by destruct (ascii_dec c c).
  - change (String x a +:+ String c s)%string with (String x (a +:+ String c s)). simpl. by rewrite IH.
Qed.

Lemma tok_chars n : all_chars lower_hex (tok n) = true.
Proof. apply hex_fixed_chars. Qed.

Lemma hex_text_no c s : lower_hex c = false → all_chars lower_hex s = true → all_chars (not_char c) s = true.
Proof. intros Hc. apply all_chars_mono. intros x. by apply lower_hex_not. Qed.

(** [parse_upload_key(upload_key(pid, token)) == (pid, token)] *)
Lemma parse_upload_key_roundtrip pid n : is_uuid pid → parse_upload_key (upload_key pid (tok n)) = Some (pid, tok n).
Proof.
  intros Hp. unfold parse_upload_key, upload_key.
  change ("uploads/" +:+ uuid_str pid +:+ "/" +:+ tok n +:+ ".bin")%string
    with ("uploads" +:+ String "/" (uuid_str pid +:+ String "/" (tok n +:+ ".bin")))%string.
  rewrite split_on_app by done. rewrite split_on_app.
  2:{ eapply all_chars_mono; [|apply uuid_str_chars]. intros c Hc. by char_cases c. }
  rewrite split_on_none.
  2:{ rewrite all_chars_app, (hex_text_no "/") by (done || apply tok_chars). done. }
  rewrite decide_True by done. rewrite uuid_parse_str by done.
  unfold rsplit_head. change ".bin"%string with (String "." "bin"). by rewrite before_last_app.
Qed.

(** A public key is no upload. *)
Lemma parse_public_key s : parse_upload_key ("public/" +:+ s)%string = None.
Proof.
  unfold parse_upload_key. change ("public/" +:+ s)%string with ("public" +:+ String "/" s)%string.
  rewrite split_on_app by done. by destruct (split_on "/" s) as [|a [|b [|c l]]].
Qed.

(** ** Keys of equal shape *)

Lemma tok_inj n m : is_uuid n → is_uuid m → tok n = tok m → n = m.
Proof.
  unfold is_uuid, tok. intros Hn Hm H%hex_fixed_inj. change (16 ^ N.of_nat 32)%N with (2 ^ 128)%N in H.
  by rewrite !N.mod_small in H.
Qed.

Lemma tok_length n : String.length (tok n) = 32%nat.
Proof. apply hex_fixed_length. Qed.

Lemma substring_length n s : (n ≤ String.length s)%nat → String.length (String.substring 0 n s) = n.
Proof.
  revert n. induction s as [|c s IH]; intros [|n] Hn; simpl in *; try done; [lia|]. rewrite IH; lia.
Qed.

Lemma content_version_length raw : String.length (content_version raw) = 32%nat.
Proof.
  unfold content_version. apply substring_length. rewrite hexdigest_length, sha256_length. lia.
Qed.

#[global] Opaque content_version.

Lemma ends_with_app suffix a : ends_with suffix (a +:+ suffix)%string = true.
Proof.
  unfold ends_with. rewrite str_rev_app_distr. generalize (str_rev suffix) as s. intros s.
  induction s as [|c s IH]; [by destruct (str_rev a)|].
  change (String c s +:+ str_rev a)%string with (String c (s +:+ str_rev a)). cbn [String.prefix].
  destruct (ascii_dec c c); [exact IH|done].
Qed.

Lemma substring_app a b : String.substring 0 (String.length a) (a +:+ b)%string = a.
Proof.
  induction a as [|c a IH]; [by destruct b|].
  change (String c a +:+ b)%string with (String c (a +:+ b)). simpl. by rewrite IH.
Qed.

Lemma remove_suffix_app suffix a : remove_suffix suffix (a +:+ suffix)%string = a.
Proof.
  unfold remove_suffix. rewrite ends_with_app, str_length_app.
  replace (String.length a + String.length suffix - String.length suffix)%nat with (String.length a) by lia.
  apply substring_app.
Qed.

(** The objects the worker writes for one main key are the ones a reclaim deletes. *)
Lemma rendition_keys pid token version :
  public_rendition_keys (public_main_key pid token version) =
  public_main_key pid token version :: ((λ x, public_thumb_key pid token version x.1) <$> thumbnail_sizes).
Proof.
  unfold public_rendition_keys.
  assert (public_main_key pid token version =
    (("public/" +:+ uuid_str pid +:+ "/" +:+ token +:+ "_" +:+ version) +:+ ".webp")%string) as E.
  { unfold public_main_key. by rewrite !str_app_assoc. }
  rewrite E, ends_with_app, remove_suffix_app, <- E. f_equal. apply list_fmap_ext. intros i [name sz] _. simpl.
  unfold public_thumb_key. by rewrite !str_app_assoc.
Qed.

Definition key_shape (token version : string) : Prop :=
  String.length token = 32%nat ∧ String.length version = 32%nat.

Lemma main_key_inj p1 t1 v1 p2 t2 v2 :
  is_uuid p1 → is_uuid p2 → key_shape t1 v1 → key_shape t2 v2 →
  public_main_key p1 t1 v1 = public_main_key p2 t2 v2 → p1 = p2 ∧ t1 = t2 ∧ v1 = v2.
Proof.
  unfold public_main_key. intros Hp1 Hp2 [Ht1 Hv1] [Ht2 Hv2] H%str_app_inj_r.
  apply str_app_inj in H as [Hp H]; [|by rewrite !uuid_str_length]. apply str_app_inj_r in H.
  apply str_app_inj in H as [Ht H]; [|by rewrite Ht1, Ht2]. apply str_app_inj_r in H.
  apply str_app_inj in H as [Hv _]; [|by rewrite Hv1, Hv2].
  split; [by apply uuid_str_inj|done].
Qed.

Lemma main_key_length p t v : key_shape t v → String.length (public_main_key p t v) = 114%nat.
Proof. intros [Ht Hv]. unfold public_main_key. by rewrite !str_length_app, uuid_str_length, Ht, Hv. Qed.

Lemma thumb_key_length p t v name :
  key_shape t v → String.length (public_thumb_key p t v name) = (115 + String.length name)%nat.
Proof.
  intros [Ht Hv]. unfold public_thumb_key. rewrite !str_length_app, uuid_str_length, Ht, Hv. simpl. lia.
Qed.

Lemma thumb_key_inj p1 t1 v1 p2 t2 v2 name :
  is_uuid p1 → is_uuid p2 → key_shape t1 v1 → key_shape t2 v2 →
  public_thumb_key p1 t1 v1 name = public_thumb_key p2 t2 v2 name → p1 = p2 ∧ t1 = t2 ∧ v1 = v2.
Proof.
  unfold public_thumb_key. intros Hp1 Hp2 [Ht1 Hv1] [Ht2 Hv2] H%str_app_inj_r.
  apply str_app_inj in H as [Hp H]; [|by rewrite !uuid_str_length]. apply str_app_inj_r in H.
  apply str_app_inj in H as [Ht H]; [|by rewrite Ht1, Ht2]. apply str_app_inj_r in H.
  apply str_app_inj in H as [Hv _]; [|by rewrite Hv1, Hv2].
  split; [by apply uuid_str_inj|done].
Qed.

(** Different main images share no object. *)
Lemma renditions_disjoint p1 t1 v1 p2 t2 v2 key :
  is_uuid p1 → is_uuid p2 → key_shape t1 v1 → key_shape t2 v2 →
  key ∈ public_rendition_keys (public_main_key p1 t1 v1) →
  key ∈ public_rendition_keys (public_main_key p2 t2 v2) → p1 = p2 ∧ t1 = t2 ∧ v1 = v2.
Proof.
  intros Hp1 Hp2 H1 H2. rewrite !rendition_keys. unfold thumbnail_sizes. simpl.
  rewrite !elem_of_cons, !elem_of_nil.
  intros [->|[->|[->|[]]]] [H|[H|[H|[]]]];
    try (apply (f_equal String.length) in H; rewrite ?main_key_length, ?thumb_key_length in H by done;
         simpl in H; lia).
  - by apply main_key_inj.
  - by apply thumb_key_inj in H.
  - by apply thumb_key_inj in H.
Qed.
