(* ===== verification/CatalogService.v ===== *)
(** * CatalogService: product use-cases and the image pipeline

    The write use-cases of src/catalog/application/service.py, the image ingest of
    src/catalog/application/image_ingest.py over the S3 adapter
    (src/catalog/adapters/s3_images.py) and the pure part of
    src/catalog/application/image_processing.py, as coroutines over [CatWorld]:
    the catalog database, the bucket, the ingest dedup keys, the upload tickets
    handed out and the clock.

    libmagic, Pillow and S3's entity tags are parameters ([Imaging]).  An upload
    token is drawn from a counter when the product row records it: nothing
    stores it before, and a ticket leaves the process only afterwards. *)

From Stdlib Require Import Ascii String.
From S2P Require Import Prelude Errors UnitOfWork Text Parse Sha256 Effects.
From S2P Require Import Catalog ImageKeys.

(** ** The imaging libraries and the object store's tags *)

Class Imaging := {
  Raster : Type;
  sniff_mime : byte_list → string;
  (* [Image.open]: the size from the header, and the raster if it decodes *)
  pil_open : byte_list → option (Z * Z * option Raster);
  thumbnail : Z → Raster → Raster;
  webp : Raster → byte_list;
  s3_etag : byte_list → string;
  (* how the body of a response arrives *)
  s3_fragments : byte_list → list byte_list;
  exn_text : exn → string
}.

(** ** State *)

Record S3Object := MkObject { ob_data : byte_list; ob_type : option string }.

(** A ticket the service answered a presign request with. *)
Record Ticket := MkTicket { ti_product : N; ti_token : string; ti_type : string; ti_max_bytes : Z }.
#[export] Instance Ticket_eq_dec : EqDecision Ticket.
Proof. solve_decision. Defined.

Record CatWorld := MkCatWorld {
  cw_db : CatalogDB;
  cw_bucket : gmap string S3Object;
  cw_dedup : gmap string Z;
  cw_tokens : N;
  cw_tickets : list Ticket;
  cw_now : Z
}.

Definition set_cdb (x : CatalogDB) (w : CatWorld) : CatWorld :=
  MkCatWorld x (cw_bucket w) (cw_dedup w) (cw_tokens w) (cw_tickets w) (cw_now w).
Definition set_bucket (x : gmap string S3Object) (w : CatWorld) : CatWorld :=
  MkCatWorld (cw_db w) x (cw_dedup w) (cw_tokens w) (cw_tickets w) (cw_now w).
Definition set_dedup (x : gmap string Z) (w : CatWorld) : CatWorld :=
  MkCatWorld (cw_db w) (cw_bucket w) x (cw_tokens w) (cw_tickets w) (cw_now w).
Definition add_ticket (t : Ticket) (w : CatWorld) : CatWorld :=
  MkCatWorld (cw_db w) (cw_bucket w) (cw_dedup w) (cw_tokens w) (t :: cw_tickets w) (cw_now w).

Definition cdb_lens : Lens CatWorld CatalogDB := MkLens cw_db set_cdb.
Definition cat_op {A} (m : Z → ST CatalogDB A) : ST CatWorld A := λ w, zoom cdb_lens (m (cw_now w)) w.

(** The catalog's slice of the settings. *)
Record CatSettings := MkCatSettings {
  image_base_url : option string;
  image_max_upload_bytes : Z;
  image_upload_ttl : Z;
  image_max_dimension : Z;
  image_max_pixels : Z;
  ingest_dedup_ttl : Z;
  reaper_grace : Z
}.

(** ** Responses *)

(** [base.rstrip('/')] *)
Definition rstrip_slash (s : string) : string := str_rev (lstrip_chars (λ c, bool_decide (c = "/"%char)) (str_rev s)).

(** [public_image_url]; no base for a servable image is a [RuntimeError]. *)
Definition public_image_url (key : option string) (status : ImageStatus) (base : option string)
    : result (option string) :=
  match truthy key with
  | Some k =>
      if decide (status = ImgReady) then
        match truthy base with
        | None => Err RuntimeError
        | Some b => Ok (Some (rstrip_slash b +:+ "/" +:+ k)%string)
        end
      else Ok None
  | None => Ok None
  end.

(** [public_thumbnail_urls] *)
Definition public_thumbnail_urls (key : option string) (status : ImageStatus) (base : option string)
    : result (option (list (string * string))) :=
  match truthy key with
  | Some k =>
      if ends_with ".webp" k then
        match public_image_url key status base with
        | Err e => Err e
        | Ok None => Ok None
        | Ok (Some main) =>
            let stem := remove_suffix ".webp" main in
            Ok (Some ((λ x, (x.1, (stem +:+ "_" +:+ x.1 +:+ ".webp")%string)) <$> thumbnail_sizes))
        end
      else Ok None
  | None => Ok None
  end.

(** [ProductResponse] *)
Record ProductResponse := MkProductResponse {
  pr_product : Product;
  pr_image_url : option string;
  pr_thumbnails : option (list (string * string));
  pr_available : option Z
}.

(** [_to_response] *)
Definition to_product_response (base : option string) (p : Product) : result ProductResponse :=
  match public_image_url (p_image_key p) (p_image_status p) base with
  | Err e => Err e
  | Ok url =>
      match public_thumbnail_urls (p_image_key p) (p_image_status p) base with
      | Err e => Err e
      | Ok thumbs => Ok (MkProductResponse p url thumbs None)
      end
  end.

(** ** Image processing *)

Definition allowed_mime : list string := ["image/jpeg"; "image/png"; "image/webp"].

Record ProcessedImage := MkProcessed { im_main : byte_list; im_thumbnails : list (string * byte_list) }.

Section Images.
Context `{Imaging}.

(** [process_image] *)
Definition process_image (raw : byte_list) (max_dimension max_bytes max_pixels : Z) (claimed : option string)
    : result ProcessedImage :=
  if decide (max_bytes < Z.of_nat (length raw)) then Err UnsupportedImageError
  else
    let mime := sniff_mime raw in
    if negb (bool_decide (mime ∈ allowed_mime)) then Err UnsupportedImageError
    else if match claimed with Some c => negb (bool_decide (mime = c)) | None => false end then Err UnsupportedImageError
    else match pil_open raw with
    | None => Err UnsupportedImageError
    | Some (width, height, raster) =>
        if decide (max_pixels < width * height) then Err UnsupportedImageError
        else match raster with
        | None => Err UnsupportedImageError
        | Some rgb =>
            let main_image := thumbnail max_dimension rgb in
            Ok (MkProcessed (webp main_image)
                 ((λ x, (x.1, webp (thumbnail x.2 main_image))) <$> thumbnail_sizes))
        end
    end.

(** ** The object store *)

(** [_clean_etag] *)
Definition clean_etag (e : string) : string := strip_chars (λ c, bool_decide (c = ascii_of_N 34)) (strip e).

(** [resp["Body"]]: the fragments of the body that have not been read. *)
Definition body_read (n : nat) (frags : list byte_list) : byte_list * list byte_list :=
  match frags with
  | [] => ([], [])
  | f :: rest => (take n f, match drop n f with [] => rest | f' => f' :: rest end)
  end.

(** The read loop of [download]: bounded chunks to the end of the body. *)
Fixpoint read_body (fuel : nat) (max_bytes : Z) (frags : list byte_list) (acc : byte_list) : result byte_list :=
  match fuel with
  | O => Err TimeoutError
  | S f =>
      let n := Z.min 65536 (max_bytes - Z.of_nat (length acc) + 1) in
      let '(chunk, rest) := body_read (Z.to_nat n) frags in
      match chunk with
      | [] => Ok acc
      | _ =>
          let acc' := acc ++ chunk in
          if decide (max_bytes < Z.of_nat (length acc')) then Err ObjectTooLargeError
          else read_body f max_bytes rest acc'
      end
  end.

(** [download]; the declared length is that of the stored object. *)
Definition download (key : string) (max_bytes : Z) (expected_etag : option string) : ST CatWorld S3Object := λ w,
  match cw_bucket w !! key with
  | None => (Err ObjectNotFoundError, w)
  | Some o =>
      if match expected_etag with
         | Some e => negb (bool_decide (clean_etag e = s3_etag (ob_data o)))
         | None => false
         end then (Err ObjectChangedError, w)
      else if decide (max_bytes < Z.of_nat (length (ob_data o))) then (Err ObjectTooLargeError, w)
      else match read_body (S (length (ob_data o))) max_bytes (s3_fragments (ob_data o)) [] with
           | Ok data => (Ok (MkObject data (ob_type o)), w)
           | Err e => (Err e, w)
           end
  end.

(** [put_bytes], [exists] and [delete] *)
Definition put_bytes (key : string) (data : byte_list) : ST CatWorld unit :=
  modify (λ w, set_bucket (<[key := MkObject data (Some "image/webp")]> (cw_bucket w)) w).
Definition object_exists (key : string) : ST CatWorld bool := λ w, (Ok (bool_decide (is_Some (cw_bucket w !! key))), w).
Definition delete_object (key : string) : ST CatWorld unit :=
  modify (λ w, set_bucket (delete key (cw_bucket w)) w).

(** ** The ingest use-case *)

Inductive IngestOutcome := OutReady | OutFailed | OutDuplicate | OutSkipped | OutStale.

Context (cfg : CatSettings).

Definition ignoring_errors {L A} (a : A) (p : frame CatWorld L A) : frame CatWorld L A :=
  try_catch p (λ e, if is_Exception e then mret a else throw e).

(** [_seen] and [_remember] *)
Definition seen (dedup_key : string) : frame CatWorld unit bool :=
  ignoring_errors false (await (λ w, (Ok (match cw_dedup w !! dedup_key with
                                          | Some expires => bool_decide (cw_now w < expires)
                                          | None => false
                                          end), w))).
Definition remember_ingest (dedup_key : string) : frame CatWorld unit unit :=
  ignoring_errors tt (await (modify (λ w, set_dedup (<[dedup_key := cw_now w + ingest_dedup_ttl cfg]> (cw_dedup w)) w))).

(** [_fail] *)
Definition fail_ingest (pid : N) (token dedup_key : string) : frame CatWorld unit IngestOutcome :=
  failed ← await (cat_op (λ now, mark_image_failed now pid token));
  remember_ingest dedup_key ;;
  mret (if (failed : bool) then OutFailed else OutStale).

(** [_schedule_reclaim] *)
Definition schedule_reclaim (pid : N) (main_key : string) : frame CatWorld unit unit :=
  current ← await (cat_op (λ _, current_image_key pid));
  if decide (current = Some main_key) then mret tt
  else await (cat_op (λ now, schedule_image_reclaim now pid main_key)).

(** The tail of [ingest]: write the renditions, flip, clean up. *)
Definition publish_image (pid : N) (token version dedup_key : string) (img : ProcessedImage)
    : frame CatWorld unit IngestOutcome :=
  let main_key := public_main_key pid token version in
  await (put_bytes main_key (im_main img)) ;;
  iterate (im_thumbnails img) (λ x, await (put_bytes (public_thumb_key pid token version x.1) x.2)) ;;
  flip ← await (cat_op (λ now, mark_image_ready now pid token main_key));
  if negb (fl_applied flip) then
    schedule_reclaim pid main_key ;;
    remember_ingest dedup_key ;;
    mret OutStale
  else
    remember_ingest dedup_key ;;
    mret OutReady.

(** [ingest] *)
Definition ingest (key etag : string) : frame CatWorld unit IngestOutcome :=
  let dedup_key := ("image:" +:+ key +:+ ":" +:+ etag)%string in
  dup ← seen dedup_key;
  if (dup : bool) then mret OutDuplicate
  else match parse_upload_key key with
  | None => mret OutSkipped
  | Some (pid, token) =>
      got ← try_catch
        (o ← await (download key (image_max_upload_bytes cfg) (truthy (Some etag))); mret (inr o))
        (λ e, match e with
              | ObjectNotFoundError | ObjectTooLargeError => out ← fail_ingest pid token dedup_key; mret (inl out)
              | ObjectChangedError => remember_ingest dedup_key ;; mret (inl OutStale)
              | e => throw e
              end);
      match got with
      | inl out => mret out
      | inr o =>
          let version := content_version (ob_data o) in
          match process_image (ob_data o) (image_max_dimension cfg) (image_max_upload_bytes cfg)
                  (image_max_pixels cfg) (ob_type o) with
          | Err UnsupportedImageError => fail_ingest pid token dedup_key
          | Err e => throw e
          | Ok img => publish_image pid token version dedup_key img
          end
      end
  end.

(** ** Housekeeping *)

(** One candidate of [reap_abandoned_uploads]; the local is the count restored. *)
Definition reap_one (recheck : Z) (c : N * string) : frame CatWorld nat unit :=
  let '(pid, token) := c in
  probe ← try_catch (b ← await (object_exists (upload_key pid token)); mret (Some b))
                    (λ e, if is_Exception e then mret None else throw e);
  match probe with
  | None => mret tt
  | Some true => await (cat_op (λ now, defer_upload_expiry now pid token recheck))
  | Some false =>
      restored ← await (cat_op (λ now, expire_abandoned_upload now pid token));
      if (restored : bool) then set_locals S else mret tt
  end.

(** [reap_abandoned_uploads] *)
Definition reap_abandoned_uploads (batch : nat) (recheck : Z) : frame CatWorld nat nat :=
  candidates ← await (cat_op (λ now, due_pending_uploads now (reaper_grace cfg) batch));
  iterate candidates (reap_one recheck) ;;
  locals.

(** One task of [drain_reclaims]; the local is the list of finished ids. *)
Definition drain_one (backoff : Z) (t : ReclaimTask) : frame CatWorld (list N) unit :=
  try_catch
    (current ← await (cat_op (λ _, current_image_key (tk_product t)));
     (if decide (current = Some (tk_key t)) then mret tt
      else iterate (public_rendition_keys (tk_key t)) (λ key, await (delete_object key))) ;;
     set_locals (λ done, done ++ [tk_id t]))
    (λ e, if is_Exception e
          then await (cat_op (λ now, defer_image_reclaim now (tk_id t) backoff (exn_text e)))
          else throw e).

(** [drain_reclaims] *)
Definition drain_reclaims (batch : nat) (lease backoff : Z) (locked : N → bool) : frame CatWorld (list N) nat :=
  tasks ← await (cat_op (λ now, claim_image_reclaims now lease batch locked));
  match tasks with
  | [] => mret 0%nat
  | _ =>
      iterate tasks (drain_one backoff) ;;
      finished ← locals;
      (match finished with [] => mret tt | _ => await (cat_op (λ _, finish_image_reclaim finished)) end) ;;
      mret (length finished)
  end.

(** [ImageWorker._housekeeping] *)
Definition housekeeping (locked : N → bool) : frame CatWorld unit unit :=
  ignoring_errors tt (
    call [] (drain_reclaims 20 300 60 locked) ;;
    call 0%nat (reap_abandoned_uploads 100 3600) ;;
    mret tt).

(** ** The product use-cases *)

(** [_assert_owner] *)
Definition assert_product_owner {L} (owner caller : N) (is_admin : bool) : frame CatWorld L unit :=
  if negb (bool_decide (owner = caller)) && negb is_admin then throw AuthorizationError else mret tt.

Definition precondition_text : string :=
  "the product changed since it was read (If-Match mismatch); re-read it and re-apply".

(** [if if_match is not None and product.version != if_match] *)
Definition check_version {L} (version : Z) (if_match : option Z) : frame CatWorld L unit :=
  match if_match with
  | Some v => if decide (version = v) then mret tt else throw (PreconditionFailedError precondition_text)
  | None => mret tt
  end.

Definition of_result {L A} (r : result A) : frame CatWorld L A :=
  match r with Ok a => mret a | Err e => throw e end.

(** [create_product] *)
Definition svc_create_product (merchant : N) (name : string) (description category : option string) (price : Z)
    : frame CatWorld unit ProductResponse :=
  p ← await (cat_op (λ now, repo_create_product now merchant name description category price));
  of_result (to_product_response (image_base_url cfg) p).

(** [update_product] *)
Definition svc_update_product (orm : Orm) (pid caller : N) (is_admin : bool) (patch : ProductPatch)
    (if_match : option Z) : frame CatWorld unit (option ProductResponse) :=
  product ← await (cat_op (λ _, repo_get_product pid));
  match product with
  | None => mret None
  | Some p =>
      assert_product_owner (p_merchant p) caller is_admin ;;
      check_version (p_version p) if_match ;;
      let event := product_updated_outbox pid (p_merchant p) (default (p_name p) (pt_name patch))
                     (default (p_price p) (pt_price patch)) (default (p_category p) (pt_category patch))
                     (p_version p + 1) in
      loaded ← await (cat_op (λ _, load_aggregate orm p));
      row ← await (cat_op (λ now, repo_update_product orm now loaded patch event));
      resp ← of_result (to_product_response (image_base_url cfg) row);
      mret (Some resp)
  end.

(** [delete_product]; [deleted_at] is the process clock. *)
Definition svc_delete_product (orm : Orm) (pid caller : N) (is_admin : bool) (if_match : option Z) (deleted_at : Z)
    : frame CatWorld unit bool :=
  product ← await (cat_op (λ _, repo_get_product pid));
  match product with
  | None => mret false
  | Some p =>
      assert_product_owner (p_merchant p) caller is_admin ;;
      check_version (p_version p) if_match ;;
      loaded ← await (cat_op (λ _, load_aggregate orm p));
      await (cat_op (λ now, repo_soft_delete orm now deleted_at loaded
                              (ProductDeletedV2 pid (p_merchant p) (p_version p + 1)))) ;;
      mret true
  end.

(** The commit of a presign: a fresh token becomes the product's pending one. *)
Definition commit_pending (orm : Orm) (loaded : Product) (event : CatalogEvent) : ST CatWorld string := λ w,
  if decide (is_uuid (cw_tokens w)) then
    let token := tok (cw_tokens w) in
    let expires := cw_now w + image_upload_ttl cfg in
    match repo_set_image_pending orm (cw_now w) loaded token expires event (cw_db w) with
    | (Ok _, d) => (Ok token, MkCatWorld d (cw_bucket w) (cw_dedup w) (cw_tokens w + 1) (cw_tickets w) (cw_now w))
    | (Err e, d) => (Err e, set_cdb d w)
    end
  else (Err RuntimeError, w).

(** [presign_image_upload]; the ticket leaves with the answer. *)
Definition svc_presign (orm : Orm) (pid caller : N) (is_admin : bool) (content_type : string) (content_length : Z)
    : frame CatWorld unit (option Ticket) :=
  product ← await (cat_op (λ _, repo_get_product pid));
  match product with
  | None => mret None
  | Some p =>
      assert_product_owner (p_merchant p) caller is_admin ;;
      if negb (bool_decide (content_type ∈ allowed_mime)) then throw InvalidUploadError
      else if decide (image_max_upload_bytes cfg < content_length) then throw InvalidUploadError
      else
        let max_bytes := Z.min content_length (image_max_upload_bytes cfg) in
        let event := product_updated_outbox pid (p_merchant p) (p_name p) (p_price p) (p_category p)
                       (p_version p + 1) in
        loaded ← await (cat_op (λ _, load_aggregate orm p));
        token ← await (commit_pending orm loaded event);
        let ticket := MkTicket pid token content_type max_bytes in
        effect (add_ticket ticket) ;;
        mret (Some ticket)
  end.
End Images.
