(* ===== verification/CatalogInv.v ===== *)
(** * CatalogInv: the catalog's invariant and what its coroutines rely on

    [CatInv]: rows and events as in CatalogFacts; every stored image is served
    (a live row's renditions are in the bucket), every object is an upload
    somebody holds a ticket for or an output of [process_image], and every entry
    of the clean-up queue names an image that can never be served again ([dead]).
    [cat_evolves] is what one coroutine relies on of the others: above all, an
    object disappears only if it is an upload or belongs to a dead image.

    The blocks of CatalogService keep both; [catalog_safe] collects the
    coroutines that may arrive. *)

From stdpp Require Import sorting.
From Stdlib Require Import String.
From S2P Require Import Prelude Errors UnitOfWork Text Parse Sha256 Effects.
From S2P Require Import Catalog CatalogFacts ImageKeys CatalogService.

(** ** Images of one row *)

Definition pending (t : string) (p : Product) : Prop := p_image_status p = ImgPending ∧ p_upload_token p = Some t.

Definition main_key (pid k : N) (v : string) : string := public_main_key pid (tok k) v.

(** From a row to its successor while the token counter went from [n] to [n']:
    only a fresh token becomes pending, and only the image of a token that was
    pending (or is fresh) becomes the stored one. *)
Record img_evolves (n n' pid : N) (p q : Product) : Prop := {
  ie_pending : ∀ t, pending t q → pending t p ∨ ∃ m, (n ≤ m < n')%N ∧ is_uuid m ∧ t = tok m;
  ie_key : p_image_key q = p_image_key p ∨
    ∃ k v, p_image_key q = Some (main_key pid k v) ∧ is_uuid k ∧ String.length v = 32%nat ∧
           (pending (tok k) p ∨ (n ≤ k < n')%N)
}.

Lemma img_evolves_same n n' pid p q :
  p_image_key q = p_image_key p → (∀ t, pending t q → pending t p) → img_evolves n n' pid p q.
Proof. intros Hk Hp. split; [intros t Ht; left; by apply Hp|by left]. Qed.

Lemma same_row_img n n' pid p q : same_row p q → img_evolves n n' pid p q.
Proof.
  intros (_&_&_&_&_&_&Hk&Hs&Ht&_)%same_row_fields. apply img_evolves_same; [done|].
  unfold pending. intros t. by rewrite Hs, Ht.
Qed.

Lemma img_evolves_trans n1 n2 n3 pid p q r :
  (n1 ≤ n2)%N → (n2 ≤ n3)%N → img_evolves n1 n2 pid p q → img_evolves n2 n3 pid q r → img_evolves n1 n3 pid p r.
Proof.
  intros L1 L2 [P1 K1] [P2 K2]. split.
  - intros t Ht. destruct (P2 t Ht) as [Hq|(m & ? & ? & ->)]; [|right; exists m; split_and!; [lia..|done|done]].
    destruct (P1 t Hq) as [?|(m & ? & ? & ->)]; [by left|right; exists m; split_and!; [lia..|done|done]].
  - destruct K2 as [->|(k & v & Hr & Hu & Hv & Hor)].
    + destruct K1 as [->|(k & v & ? & ? & ? & Hor)]; [by left|]. right. exists k, v. split_and!; [done..|].
      destruct Hor as [?|?]; [by left|right; lia].
    + right. exists k, v. split_and!; [done..|]. destruct Hor as [Hq|?]; [|right; lia].
      destruct (P1 _ Hq) as [?|(m & ? & Hm & E)]; [by left|]. apply tok_inj in E as ->; [|done..]. right; lia.
Qed.

(** The image can never be served again. *)
Definition dead (n : N) (d : CatalogDB) (pid k : N) (v : string) : Prop :=
  is_uuid pid ∧ is_uuid k ∧ (k < n)%N ∧ String.length v = 32%nat ∧
  ∃ row, products d !! pid = Some row ∧
    (is_Some (p_deleted_at row) ∨ (¬ pending (tok k) row ∧ p_image_key row ≠ Some (main_key pid k v))).

(** ** The invariant *)

(** The stored image of a row and its pending token. *)
Record row_images_ok (n : N) (b : gmap string S3Object) (pid : N) (p : Product) : Prop := {
  ri_token : ∀ t, p_upload_token p = Some t → ∃ k, is_uuid k ∧ (k < n)%N ∧ t = tok k;
  ri_key : ∀ key, p_image_key p = Some key → p_deleted_at p = None →
    ∃ k v, is_uuid k ∧ (k < n)%N ∧ String.length v = 32%nat ∧ key = main_key pid k v ∧
           ∀ x, x ∈ public_rendition_keys key → is_Some (b !! x)
}.

Section Inv.
Context `{Imaging} (cfg : CatSettings).

(** An object is an upload with a ticket, or a rendition made by the worker. *)
Inductive object_ok (w : CatWorld) (x : string) (o : S3Object) : Prop :=
  | obj_upload t : t ∈ cw_tickets w → x = upload_key (ti_product t) (ti_token t) → object_ok w x o
  | obj_main pid k raw claimed img :
      process_image raw (image_max_dimension cfg) (image_max_upload_bytes cfg) (image_max_pixels cfg) claimed = Ok img →
      x = main_key pid k (content_version raw) → o = MkObject (im_main img) (Some "image/webp") → object_ok w x o
  | obj_thumb pid k raw claimed img name data :
      process_image raw (image_max_dimension cfg) (image_max_upload_bytes cfg) (image_max_pixels cfg) claimed = Ok img →
      (name, data) ∈ im_thumbnails img → x = public_thumb_key pid (tok k) (content_version raw) name →
      o = MkObject data (Some "image/webp") → object_ok w x o.

Definition ticket_ok (n : N) (d : CatalogDB) (t : Ticket) : Prop :=
  is_Some (products d !! ti_product t) ∧ ∃ k, is_uuid k ∧ (k < n)%N ∧ ti_token t = tok k.

Record CatInv (st : bool) (w : CatWorld) : Prop := {
  ci_rows : RowsOK (cw_db w);
  ci_events : st = true → EventsOK (cw_db w);
  ci_images : ∀ pid p, products (cw_db w) !! pid = Some p → row_images_ok (cw_tokens w) (cw_bucket w) pid p;
  ci_reclaims : ∀ r, r ∈ reclaims (cw_db w) →
    ∃ k v, rc_key r = main_key (rc_product r) k v ∧ dead (cw_tokens w) (cw_db w) (rc_product r) k v;
  ci_tickets : ∀ t, t ∈ cw_tickets w → ticket_ok (cw_tokens w) (cw_db w) t;
  ci_objects : ∀ x o, cw_bucket w !! x = Some o → object_ok w x o
}.

(** An object that may have gone. *)
Definition removable (w : CatWorld) (x : string) : Prop :=
  (∃ pid t, x = upload_key pid t) ∨
  (∃ pid k v, x ∈ public_rendition_keys (main_key pid k v) ∧ dead (cw_tokens w) (cw_db w) pid k v).

Record cat_evolves (w w' : CatWorld) : Prop := {
  ce_rows : rows_evolve (cw_db w) (cw_db w');
  ce_tokens : (cw_tokens w ≤ cw_tokens w')%N;
  ce_images : ∀ pid p q, products (cw_db w) !! pid = Some p → products (cw_db w') !! pid = Some q →
    img_evolves (cw_tokens w) (cw_tokens w') pid p q;
  ce_tickets : cw_tickets w ⊆ cw_tickets w';
  ce_bucket : ∀ x, is_Some (cw_bucket w !! x) → is_Some (cw_bucket w' !! x) ∨ removable w' x
}.

Lemma dead_stable w w' pid k v :
  cat_evolves w w' →
  dead (cw_tokens w) (cw_db w) pid k v → dead (cw_tokens w') (cw_db w') pid k v.
Proof.
  intros [[Hrows _] Hn Himg _ _] (Hpid & Hk & Hlt & Hv & row & Hrow & Hor).
  destruct (Hrows _ _ Hrow) as (q & Hq & He). pose proof (Himg _ _ _ Hrow Hq) as [Hp Hkey].
  split_and!; [done..|lia|done|]. exists q. split; [done|].
  destruct Hor as [Hd|[Hnp Hnk]]; [left; by apply (re_deleted _ _ He)|]. right. split.
  - intros Hpq. destruct (Hp _ Hpq) as [?|(m & Hm & Hum & E)]; [done|]. apply tok_inj in E; [|done..]. lia.
  - intros Hkq. destruct Hkey as [E|(k' & v' & E & Hu' & Hv' & Hor)]; [congruence|].
    rewrite E in Hkq. apply (inj Some) in Hkq. apply main_key_inj in Hkq as (_ & Ht & _);
      [|done|done|split; [apply tok_length|done]..].
    apply tok_inj in Ht as ->; [|done..]. destruct Hor; [done|lia].
Qed.

Lemma removable_stable w w' x : cat_evolves w w' → removable w x → removable w' x.
Proof.
  intros He [Hu|(pid & k & v & Hx & Hd)]; [by left|]. right. exists pid, k, v. split; [done|]. by eapply dead_stable.
Qed.

#[export] Instance cat_evolves_preorder : PreOrder cat_evolves.
Proof.
  split.
  - intros w. split; [done|lia| |done|by left]. intros pid p q Hp Hq. simplify_eq. by apply img_evolves_same.
  - intros w1 w2 w3 H12 H23. pose proof H12 as [[R1 O1] N1 I1 T1 B1]. pose proof H23 as [[R2 O2] N2 I2 T2 B2].
    split; [by etrans; [exact (ce_rows _ _ H12)|exact (ce_rows _ _ H23)]|lia| |set_solver|].
    + intros pid p r Hp Hr. destruct (R1 _ _ Hp) as (q & Hq & _).
      eapply img_evolves_trans; [exact N1|exact N2|by eapply I1|by eapply I2].
    + intros x Hx. destruct (B1 x Hx) as [Hx2|Hx2]; [by apply B2|]. right. by eapply removable_stable.
Qed.

(** ** Steps of the database *)

Lemma row_images_more n n' b pid p : (n ≤ n')%N → row_images_ok n b pid p → row_images_ok n' b pid p.
Proof.
  intros Hn [Ht Hk]. split.
  - intros t E. destruct (Ht t E) as (k & ? & ? & ?). exists k. split_and!; [done|lia|done].
  - intros key E Hd. destruct (Hk key E Hd) as (k & v & ? & ? & ?). exists k, v. split_and!; [done|lia|naive_solver..].
Qed.

Lemma object_ok_more w w' x o : cw_tickets w ⊆ cw_tickets w' → object_ok w x o → object_ok w' x o.
Proof. destruct 2 as [t Hin Hx|? ? ? ? ? ? ? ?|? ? ? ? ? ? ? ? ? ? ?]; [|by eapply obj_main|by eapply obj_thumb].
  eapply obj_upload; [by eauto|done]. Qed.

(** The bucket and the tickets stay. *)
Definition same_store (w w' : CatWorld) : Prop := cw_bucket w' = cw_bucket w ∧ cw_tickets w' = cw_tickets w.

Lemma db_step st w w' :
  CatInv st w → same_store w w' → (cw_tokens w ≤ cw_tokens w')%N →
  RowsOK (cw_db w') → rows_evolve (cw_db w) (cw_db w') → (st = true → EventsOK (cw_db w')) →
  (∀ pid q, products (cw_db w') !! pid = Some q →
     row_images_ok (cw_tokens w') (cw_bucket w) pid q ∧
     ∀ p, products (cw_db w) !! pid = Some p → img_evolves (cw_tokens w) (cw_tokens w') pid p q) →
  (∀ r, r ∈ reclaims (cw_db w') → r ∈ reclaims (cw_db w) ∨
     ∃ k v, rc_key r = main_key (rc_product r) k v ∧ dead (cw_tokens w') (cw_db w') (rc_product r) k v) →
  CatInv st w' ∧ cat_evolves w w'.
Proof.
  intros HI [Hb Ht] Hn HR Hre HE Hi Hrc.
  assert (cat_evolves w w') as Hev.
  { split; [done|done| |by rewrite Ht|rewrite Hb; by left]. intros pid p q Hp Hq. by apply (Hi _ _ Hq). }
  split; [|done]. split; [done|done|..].
  - intros pid p Hp. rewrite Hb. by apply (Hi _ _ Hp).
  - intros r Hr. destruct (Hrc r Hr) as [Hr'|?]; [|done].
    destruct (ci_reclaims _ _ HI r Hr') as (k & v & ? & ?). exists k, v. split; [done|]. by eapply dead_stable.
  - intros t. rewrite Ht. intros Htk. destruct (ci_tickets _ _ HI t Htk) as ([p Hp] & k & ? & ? & ?).
    destruct (proj1 Hre _ _ Hp) as (q & Hq & _). split; [by exists q|]. exists k. split_and!; [done|lia|done].
  - intros x o. rewrite Hb. intros Hx. eapply object_ok_more; [|by eapply (ci_objects _ _ HI)]. by rewrite Ht.
Qed.

(** One row changed. *)
Lemma row_step st w w' pid p p' :
  CatInv st w → same_store w w' → (cw_tokens w ≤ cw_tokens w')%N →
  products (cw_db w) !! pid = Some p → products (cw_db w') = <[pid := p']> (products (cw_db w)) →
  RowsOK (cw_db w') → rows_evolve (cw_db w) (cw_db w') → (st = true → EventsOK (cw_db w')) →
  row_images_ok (cw_tokens w') (cw_bucket w) pid p' →
  img_evolves (cw_tokens w) (cw_tokens w') pid p p' →
  (∀ r, r ∈ reclaims (cw_db w') → r ∈ reclaims (cw_db w) ∨
     ∃ k v, rc_key r = main_key (rc_product r) k v ∧ dead (cw_tokens w') (cw_db w') (rc_product r) k v) →
  CatInv st w' ∧ cat_evolves w w'.
Proof.
  intros HI Hs Hn Hp Hps HR Hre HE Hok Him Hrc. apply (db_step st w w'); try done.
  intros i q. rewrite Hps, lookup_insert_Some. intros [[<- <-]|[Hne Hq]].
  - split; [done|]. intros p0 Hp0. by simplify_eq.
  - split; [eapply row_images_more; [done|by eapply (ci_images _ _ HI)]|].
    intros p0 Hp0. simplify_eq. by apply img_evolves_same.
Qed.

(** No row changed, except for its deadline. *)
Lemma quiet_step st w w' :
  CatInv st w → same_store w w' → cw_tokens w' = cw_tokens w → quiet (cw_db w) (cw_db w') →
  (∀ r, r ∈ reclaims (cw_db w') → r ∈ reclaims (cw_db w) ∨
     ∃ k v, rc_key r = main_key (rc_product r) k v ∧ dead (cw_tokens w') (cw_db w') (rc_product r) k v) →
  CatInv st w' ∧ cat_evolves w w'.
Proof.
  intros HI Hs Hn Hq Hrc. destruct (quiet_rows _ _ Hq (ci_rows _ _ HI)) as [HR Hre].
  apply (db_step st w w'); try done.
  - by rewrite Hn.
  - intros E. eapply quiet_events; [done|]. by apply (ci_events _ _ HI).
  - intros pid q Hqr. destruct Hq as (_ & _ & Hf & Hb). destruct (Hb _ _ Hqr) as [p Hp].
    destruct (Hf _ _ Hp) as (q' & Hq' & Hsame). simplify_eq.
    split; [|intros p0 Hp0; simplify_eq; by apply same_row_img].
    destruct (ci_images _ _ HI _ _ Hp) as [Ht Hk].
    destruct (same_row_fields _ _ Hsame) as (_&_&_&_&_&_&Ek&_&Et&_&_&_&Ed). rewrite Hn.
    split; [rewrite <- Et; exact Ht|rewrite <- Ek, <- Ed; exact Hk].
Qed.

(** ** Commits through the ORM *)

Definition queue_ok (w w' : CatWorld) : Prop :=
  ∀ r, r ∈ reclaims (cw_db w') → r ∈ reclaims (cw_db w) ∨
    ∃ k v, rc_key r = main_key (rc_product r) k v ∧ dead (cw_tokens w') (cw_db w') (rc_product r) k v.

Definition announces (e : CatalogEvent) (loaded target : Product) : Prop :=
  is_created e = false ∧ ∀ row', p_name row' = p_name target → p_price row' = p_price target → p_category row' = p_category target →
     p_deleted_at row' = p_deleted_at target → p_id row' = p_id loaded → p_merchant row' = p_merchant loaded →
     p_version row' = p_version loaded + 1 → describes e row'.

Lemma commit_step st w w' orm now loaded target e :
  CatInv st w → same_store w w' → (cw_tokens w ≤ cw_tokens w')%N →
  committed_write orm now loaded target e (cw_db w) (cw_db w') →
  snapshot_of loaded (cw_db w) → p_deleted_at loaded = None →
  p_image_key target = p_image_key loaded → p_id target = p_id loaded → p_merchant target = p_merchant loaded →
  (st = true → strict orm ∧ announces e loaded target) →
  (target = loaded ∨ cw_db w' = cw_db w → reclaims (cw_db w') = reclaims (cw_db w)) →
  (∀ row, same_row loaded row → products (cw_db w) !! p_id loaded = Some row →
     let p' := bump now (merge_columns loaded target row) in
     products (cw_db w') !! p_id loaded = Some p' →
     row_images_ok (cw_tokens w') (cw_bucket w) (p_id loaded) p' ∧
     img_evolves (cw_tokens w) (cw_tokens w') (p_id loaded) row p' ∧ queue_ok w w') →
  CatInv st w' ∧ cat_evolves w w'.
Proof.
  intros HI Hs Hn Hcw Hsn Hdel Hik Hid Hm Hst Hq Hrow.
  assert (is_Some (p_deleted_at loaded) → is_Some (p_deleted_at target)) as Hd by (rewrite Hdel; by intros []).
  destruct (committed_rows _ _ _ _ _ _ _ Hcw Hd (ci_rows _ _ HI)) as [HR Hre].
  assert (st = true → EventsOK (cw_db w')) as HE.
  { intros E. destruct (Hst E) as [Hs' [Hcr Han]]. eapply committed_events; [done..|exact (ci_rows _ _ HI)|].
    by apply (ci_events _ _ HI). }
  assert (∀ pid q, products (cw_db w) !! pid = Some q →
     row_images_ok (cw_tokens w') (cw_bucket w) pid q ∧
     ∀ p, products (cw_db w) !! pid = Some p → img_evolves (cw_tokens w) (cw_tokens w') pid p q) as Hkeep.
  { intros pid q Hq'. split; [by eapply row_images_more, (ci_images _ _ HI)|].
    intros p Hp. simplify_eq. by apply img_evolves_same. }
  remember (cw_db w') as d' eqn:Ed.
  destruct Hcw as [|d' Ht Hu (Hps & _ & _)|row d' Hr Hv (Hps & _ & _)]; subst.
  - apply (db_step st w w'); rewrite <- ?Ed; try done. by left.
  - apply (db_step st w w'); try done; [rewrite Hps; exact Hkeep|]. rewrite Hq by by left. by left.
  - pose proof (snapshot_version _ _ _ Hsn Hr Hv) as Hsame. destruct (ro_row _ (ci_rows _ _ HI) _ _ Hr) as (Hi & _). rewrite Hi in Hps.
    destruct (Hrow row Hsame Hr) as (? & ? & ?); [by rewrite Hps, lookup_insert_eq|].
    by apply (row_step st w w' (p_id loaded) row (bump now (merge_columns loaded target row))).
Qed.

(** The image columns a write leaves alone. *)
Definition same_image (p q : Product) : Prop :=
  p_image_key q = p_image_key p ∧ p_image_status q = p_image_status p ∧ p_upload_token q = p_upload_token p.

Lemma merged_image loaded target row now :
  same_image loaded target → same_image row (bump now (merge_columns loaded target row)).
Proof. intros (_ & Hs & Ht). split_and!; [done|..]; simpl; unfold changed_to; by rewrite decide_True by done. Qed.

Lemma same_image_img n n' pid p q : same_image p q → img_evolves n n' pid p q.
Proof. intros (Hk & Hs & Ht). apply img_evolves_same; [done|]. unfold pending. intros t. by rewrite Hs, Ht. Qed.

Lemma same_image_ok n n' b pid p q :
  (n ≤ n')%N → same_image p q → (p_deleted_at q = None → p_deleted_at p = None) →
  row_images_ok n b pid p → row_images_ok n' b pid q.
Proof.
  intros Hn (Hk & _ & Ht) Hd Hok. apply (row_images_more _ _ _ _ _ Hn). destruct Hok as [Htk Hky].
  split; [by rewrite Ht|]. rewrite Hk. eauto.
Qed.

Lemma update_step st w orm loaded patch e :
  CatInv st w → snapshot_of loaded (cw_db w) → p_deleted_at loaded = None →
  (st = true → strict orm ∧ announces e loaded (apply_patch patch loaded)) →
  let w' := (cat_op (λ now, repo_update_product orm now loaded patch e) w).2 in CatInv st w' ∧ cat_evolves w w'.
Proof.
  intros HI Hsn Hd Hst. unfold cat_op, zoom, repo_update_product. simpl.
  destruct (commit_versioned_spec orm (cw_now w) loaded (apply_patch patch loaded) e (cw_db w)) as [Hcw Hrc].
  destruct (commit_versioned _ _ _ _ _ _) as [r d']; simpl in *.
  eapply (commit_step st w _ orm (cw_now w) loaded (apply_patch patch loaded) e); try done; simpl.
  intros row Hsame Hrow _.
  pose proof (merged_image loaded (apply_patch patch loaded) row (cw_now w) ltac:(done)) as Him.
  split_and!; [|by apply same_image_img|intros r0; simpl; rewrite Hrc; by left].
  eapply same_image_ok; [done|exact Him| |by eapply (ci_images _ _ HI)].
  destruct (same_row_fields _ _ Hsame) as (_&_&_&_&_&_&_&_&_&_&_&_&<-). done.
Qed.

Lemma truthy_Some o key : truthy o = Some key → o = Some key.
Proof. by destruct o as [[|c s]|]. Qed.

Lemma delete_step st w orm at_ loaded e :
  CatInv st w → snapshot_of loaded (cw_db w) → p_deleted_at loaded = None →
  (st = true → strict orm ∧ announces e loaded (with_deleted at_ loaded)) →
  let w' := (cat_op (λ now, repo_soft_delete orm now at_ loaded e) w).2 in CatInv st w' ∧ cat_evolves w w'.
Proof.
  intros HI Hsn Hd Hst. unfold cat_op, zoom. simpl.
  destruct (soft_delete_spec orm (cw_now w) at_ loaded e (cw_db w)) as [Hcw Hrc].
  destruct (repo_soft_delete _ _ _ _ _ _) as [r d'] eqn:Er; simpl in *.
  assert (with_deleted at_ loaded ≠ loaded) as Hne.
  { intros E. apply (f_equal p_deleted_at) in E. simpl in E. congruence. }
  eapply (commit_step st w _ orm (cw_now w) loaded (with_deleted at_ loaded) e); try done; simpl.
  - intros [?|E]; [done|]. by rewrite E.
  - intros row Hsame Hrow Hrow'.
    pose proof (merged_image loaded (with_deleted at_ loaded) row (cw_now w) ltac:(done)) as Him.
    destruct (same_row_fields _ _ Hsame) as (_&_&_&_&_&_&Hkey&_&_&_&_&_&Hdr).
    pose proof (ci_images _ _ HI _ _ Hrow) as Hok.
    split_and!; [|by apply same_image_img|].
    + eapply same_image_ok; [done|exact Him| |exact Hok]. by rewrite <- Hdr.
    + intros x Hx. destruct (Hrc x Hx) as [?|(Hpx & Hkx & _)]; [by left|right]. apply truthy_Some in Hkx.
      rewrite Hkey in Hkx. destruct (ri_key _ _ _ _ Hok _ Hkx) as (k & v & Hu & Hk & Hv & E & _); [by rewrite <- Hdr|].
      exists k, v. rewrite Hpx. split; [done|].
      destruct (ro_row _ (ci_rows _ _ HI) _ _ Hrow) as (_ & _ & Hpu).
      split_and!; [done..|]. eexists. split; [exact Hrow'|]. left. simpl. unfold changed_to. by rewrite Hd.
Qed.

Lemma pending_step st w orm loaded e :
  CatInv st w → snapshot_of loaded (cw_db w) → p_deleted_at loaded = None →
  (st = true → strict orm ∧ announces e loaded loaded) →
  let x := commit_pending cfg orm loaded e w in
  (CatInv st x.2 ∧ cat_evolves w x.2) ∧
  ∀ t, x.1 = Ok t → ∃ k, is_uuid k ∧ (k < cw_tokens x.2)%N ∧ t = tok k.
Proof.
  intros HI Hsn Hd Hst. unfold commit_pending. destruct (decide (is_uuid (cw_tokens w))) as [Hu|]; [|by split].
  set (token := tok (cw_tokens w)). set (ex := cw_now w + _). unfold repo_set_image_pending.
  destruct (commit_versioned_spec orm (cw_now w) loaded (with_pending token ex loaded) e (cw_db w)) as [Hcw Hrc].
  unfold mbind, ST_bind, mret, ST_ret. destruct (commit_versioned _ _ _ _ _ _) as [r d'] eqn:Ec; simpl in *.
  destruct r as [row0|err]; simpl.
  2:{ assert (d' = cw_db w) as -> by (eapply atomically_err; exact Ec). split; [|done]. by destruct w. }
  split; [|intros t [= <-]; exists (cw_tokens w); simpl; split_and!; [done|lia|done]].
  eapply (commit_step st w _ orm (cw_now w) loaded (with_pending token ex loaded) e); simpl; try done; [lia|].
  intros row Hsame Hrow _. pose proof (ci_images _ _ HI _ _ Hrow) as Hok.
  set (p' := bump _ _).
  destruct (same_row_fields _ _ Hsame) as (_&_&_&_&_&_&_&_&Ht&_&_&_&Hdr).
  assert (p_upload_token p' = Some token) as Etk.
  { simpl. unfold changed_to. case_decide; congruence. }
  split_and!.
  - split.
    + intros t. rewrite Etk. intros [= <-]. exists (cw_tokens w). split_and!; [done|lia|done].
    + intros key E Hdp. assert (cw_tokens w ≤ cw_tokens w + 1)%N as Hn by lia.
      eapply (ri_key _ _ _ _ (row_images_more _ _ _ _ _ Hn Hok) _ E). by rewrite <- Hdr.
  - split; [|by left]. intros t [_ Et]. right. exists (cw_tokens w). rewrite Etk in Et. simplify_eq.
    split_and!; [lia|lia|done|done].
  - intros r0. simpl. rewrite Hrc. by left.
Qed.
Lemma create_step st w m n ds c pr :
  CatInv st w →
  let w' := (cat_op (λ now, repo_create_product now m n ds c pr) w).2 in CatInv st w' ∧ cat_evolves w w'.
Proof.
  intros HI. unfold cat_op, zoom. simpl.
  destruct (create_ok (cw_now w) m n ds c pr (cw_db w) (ci_rows _ _ HI)) as (HR & Hre & HE & Hrc & Hor).
  destruct (repo_create_product _ _ _ _ _ _ _) as [r d']; simpl in *.
  apply (db_step st w (set_cdb d' w)); simpl; try done.
  - intros E. apply HE. by apply (ci_events _ _ HI).
  - intros pid q. destruct Hor as [->|(p & Hk & Hs & Ht & Hf & ->)].
    + intros Hq. split; [by apply (ci_images _ _ HI)|]. intros p Hp. simplify_eq. by apply img_evolves_same.
    + rewrite lookup_insert_Some. intros [[<- <-]|[Hne Hq]].
      * split; [split; [by rewrite Ht|by rewrite Hk]|]. intros p0. by rewrite Hf.
      * split; [by apply (ci_images _ _ HI)|]. intros p0 Hp0. simplify_eq. by apply img_evolves_same.
  - rewrite Hrc. by left.
Qed.

(** ** The worker's guarded flips *)

Lemma live_row_Some pid d p : live_row pid d = Some p ↔ products d !! pid = Some p ∧ p_deleted_at p = None.
Proof.
  unfold live_row. destruct (products d !! pid) as [q|]; [|naive_solver].
  destruct (p_deleted_at q) eqn:E; naive_solver.
Qed.

Lemma flip_pending_spec now pid t key s tk d (f := λ p, with_image (key p) (s p) (tk p) p) :
  RowsOK d →
  (∃ p, live_row pid d = Some p ∧ pending t p ∧
        flip_pending now pid t f d = (Ok (Some (p, bump now (f p))), set_products (<[pid := bump now (f p)]> (products d)) d)) ∨
  (∃ e, flip_pending now pid t f d = (Err e, d)) ∨
  (flip_pending now pid t f d = (Ok None, d) ∧ ∀ p, live_row pid d = Some p → ¬ pending t p).
Proof.
  intros HR. unfold flip_pending. destruct (live_row pid d) as [p|] eqn:E; [|right; right; done].
  case_decide as Hc; [|right; right; split; [done|]; unfold pending; naive_solver].
  pose proof E as [Hp _]%live_row_Some. destruct (ro_row _ HR _ _ Hp) as (Hid & _). unfold mbind, ST_bind.
  destruct (write_product_spec (bump now (f p)) d) as [->|[e ->]]; simpl; [left|right; left; by eexists].
  exists p. rewrite Hid. unfold pending. naive_solver.
Qed.

Lemma flip_step st w d' now pid p t key s tk (p' := bump now (with_image key s tk p)) :
  CatInv st w → live_row pid (cw_db w) = Some p → pending t p →
  announced pid p' (image_outbox p') (cw_db w) d' →
  row_images_ok (cw_tokens w) (cw_bucket w) pid p' → img_evolves (cw_tokens w) (cw_tokens w) pid p p' →
  queue_ok w (set_cdb d' w) →
  CatInv st (set_cdb d' w) ∧ cat_evolves w (set_cdb d' w).
Proof.
  intros HI [Hp Hd]%live_row_Some Hpe Ha Hok Him Hq. pose proof (ci_rows _ _ HI) as HR.
  assert (next_version p p') as Hv by by split_and!.
  destruct (announced_rows _ _ _ _ _ _ Ha Hp Hv HR) as [HR' Hre].
  eapply (row_step st w _ pid p p'); try done; [apply Ha|].
  intros E. eapply announced_events; [done..|exact HR|]. by apply (ci_events _ _ HI).
Qed.

(** Giving up an upload or restoring the row: the stored image stays. *)
Lemma flip_keeps_image n b pid p now s tk :
  s ≠ ImgPending → (tk = p_upload_token p ∨ tk = None) → p_deleted_at p = None → row_images_ok n b pid p →
  let p' := bump now (with_image (p_image_key p) s tk p) in
  row_images_ok n b pid p' ∧ img_evolves n n pid p p'.
Proof.
  intros Hs Htk Hd [Ht Hk]. split.
  - split; [|by simpl; eauto]. simpl. intros t E. destruct Htk as [->| ->]; [by apply Ht|done].
  - apply img_evolves_same; [done|]. by intros t [? _].
Qed.

Lemma flip_kept_step st w pid t s tk (f := λ p, with_image (p_image_key p) (s p) (tk p) p)
    (op : Z → ST CatalogDB bool) :
  CatInv st w → (∀ p, s p ≠ ImgPending) → (∀ p, tk p = p_upload_token p ∨ tk p = None) →
  (∀ now, op now = atomically (r ← flip_pending now pid t f; commit_image_flip r)) →
  let w' := (cat_op op w).2 in CatInv st w' ∧ cat_evolves w w'.
Proof.
  intros HI Hs Htk Hop. unfold cat_op, zoom. rewrite Hop. subst f. unfold atomically, begin_nested, mbind, ST_bind. simpl.
  assert (set_cdb (cw_db w) w = w) as Eid by by destruct w.
  destruct (flip_pending_spec (cw_now w) pid t p_image_key s tk (cw_db w) (ci_rows _ _ HI))
    as [(p & Hp & Hpe & ->)|[(e & ->)|[-> _]]]; simpl; [|by rewrite Eid..].
  pose proof Hp as [Hp' Hd]%live_row_Some.
  destruct (flip_keeps_image _ _ _ p (cw_now w) (s p) (tk p) (Hs p) (Htk p) Hd (ci_images _ _ HI _ _ Hp')).
  eapply flip_step; try done. by left.
Qed.

Lemma mark_failed_step st w pid t :
  CatInv st w → let w' := (cat_op (λ now, mark_image_failed now pid t) w).2 in CatInv st w' ∧ cat_evolves w w'.
Proof. intros HI. apply (flip_kept_step st w pid t (λ _, ImgFailed) p_upload_token); [done..|by left|done]. Qed.

Lemma expire_step st w pid t :
  CatInv st w → let w' := (cat_op (λ now, expire_abandoned_upload now pid t) w).2 in CatInv st w' ∧ cat_evolves w w'.
Proof.
  intros HI.
  apply (flip_kept_step st w pid t (λ p, match p_image_key p with None => ImgNone | Some _ => ImgReady end) (λ _, None));
    [done|intros p; by destruct (p_image_key p)|by right|done].
Qed.

(** The objects of an image are all there. *)
Definition stored (w : CatWorld) (key : string) : Prop :=
  ∀ x, x ∈ public_rendition_keys key → is_Some (cw_bucket w !! x).

Definition waiting (w : CatWorld) (pid : N) (t : string) : Prop :=
  ∃ p, live_row pid (cw_db w) = Some p ∧ pending t p.

Lemma elem_insert_reclaim now pid key d r :
  r ∈ reclaims (enqueue_reclaim now pid key d).2 → r ∈ reclaims d ∨ (rc_product r = pid ∧ rc_key r = key).
Proof. unfold enqueue_reclaim. case_decide; simpl; [by left|]. set_solver. Qed.

(** What [mark_image_ready] did, on every branch. *)
Inductive readied (now : Z) (pid : N) (t key : string) (d : CatalogDB) : result ImageFlip → CatalogDB → Prop :=
  | ready_err e : readied now pid t key d (Err e) d
  | ready_not fl : fl_applied fl = false → (∀ p, live_row pid d = Some p → ¬ pending t p) →
      readied now pid t key d (Ok fl) d
  | ready_done fl d' p (p' := bump now (with_image (Some key) ImgReady (p_upload_token p) p)) :
      fl_applied fl = true → live_row pid d = Some p → pending t p →
      announced pid p' (image_outbox p') d d' →
      (∀ r, r ∈ reclaims d' → r ∈ reclaims d ∨
         (rc_product r = pid ∧ p_image_key p = Some (rc_key r) ∧ rc_key r ≠ key)) →
      readied now pid t key d (Ok fl) d'.

Lemma mark_image_ready_spec now pid t key d :
  RowsOK d → readied now pid t key d (mark_image_ready now pid t key d).1 (mark_image_ready now pid t key d).2.
Proof.
  intros HR. unfold mark_image_ready, atomically, begin_nested, mbind, ST_bind.
  destruct (flip_pending_spec now pid t (λ _, Some key) (λ _, ImgReady) p_upload_token d HR)
    as [(p & Hp & Hpe & ->)|[(e & ->)|[-> Hno]]]; simpl; [|constructor|by constructor].
  destruct (truthy (p_image_key p)) as [old|] eqn:Eo; simpl; [|eapply ready_done; try done; by left].
  apply truthy_Some in Eo. case_decide as Hok; simpl; [eapply ready_done; try done; by left|].
  unfold insert_reclaim. simpl. case_decide; simpl; [constructor|].
  match goal with |- context [enqueue_reclaim ?n ?i ?o ?x] => pose proof (elem_insert_reclaim n i o x) as Hin;
    destruct (enqueue_reclaim n i o x) as [r d'] eqn:Ee end.
  unfold enqueue_reclaim in Ee. rewrite decide_False in Ee by done. simplify_eq/=.
  eapply ready_done; try done. intros r Hr. destruct (Hin r Hr) as [?|[? ?]]; [by left|right; naive_solver].
Qed.

Lemma mark_ready_step st w pid k v :
  CatInv st w → is_uuid k → (k < cw_tokens w)%N → String.length v = 32%nat →
  (waiting w pid (tok k) → stored w (main_key pid k v)) →
  let x := cat_op (λ now, mark_image_ready now pid (tok k) (main_key pid k v)) w in
  (CatInv st x.2 ∧ cat_evolves w x.2) ∧
  (∀ fl, x.1 = Ok fl → fl_applied fl = false → ¬ waiting x.2 pid (tok k)).
Proof.
  intros HI Hk Hlt Hv Hst. unfold cat_op, zoom. simpl.
  pose proof (mark_image_ready_spec (cw_now w) pid (tok k) (main_key pid k v) (cw_db w) (ci_rows _ _ HI)) as Hs.
  destruct (mark_image_ready _ _ _ _ _) as [r d']. simpl in *.
  destruct Hs as [e|fl Hf Hno|fl d' p p' Hf Hp Hpe Ha Hrc]; simpl.
  - by destruct w.
  - split; [by destruct w|]. intros _ _ _ (p & Hp & Hpp). by apply (Hno p).
  - split; [|intros ? [= <-]; congruence]. pose proof Hp as [Hp' Hd]%live_row_Some.
    pose proof (ci_images _ _ HI _ _ Hp') as Hok.
    eapply flip_step; try done.
    + split; [exact (ri_token _ _ _ _ Hok)|]. intros key [= <-] _. exists k, v. split_and!; [done..|].
      apply Hst. by exists p.
    + split; [by intros t [? _]|]. right. exists k, v. split_and!; [done..|by left].
    + intros r Hr. destruct (Hrc r Hr) as [?|(Hrp & Ho & Hne)]; [by left|right].
      destruct (ri_key _ _ _ _ Hok _ Ho Hd) as (k0 & v0 & Hu0 & Hl0 & Hv0 & E0 & _).
      exists k0, v0. rewrite Hrp. split; [done|]. destruct (ro_row _ (ci_rows _ _ HI) _ _ Hp') as (_ & _ & Hpu).
      split_and!; [done..|]. exists p'. destruct Ha as (Hps & _). simpl. rewrite Hps, lookup_insert_eq.
      split; [done|]. right. split; [by intros [? _]|]. rewrite <- E0. intros [= E]. by apply Hne.
Qed.

(** ** The clean-up queue, the bucket, the tickets *)

Lemma queue_step st w d' :
  CatInv st w → products d' = products (cw_db w) → cat_outbox d' = cat_outbox (cw_db w) →
  next_product d' = next_product (cw_db w) → queue_ok w (set_cdb d' w) →
  CatInv st (set_cdb d' w) ∧ cat_evolves w (set_cdb d' w).
Proof. intros HI Hp Ho Hn Hq. apply quiet_step; try done. by apply quiet_same_products. Qed.

Lemma schedule_step st w pid k v :
  CatInv st w → dead (cw_tokens w) (cw_db w) pid k v →
  let w' := (cat_op (λ now, schedule_image_reclaim now pid (main_key pid k v)) w).2 in CatInv st w' ∧ cat_evolves w w'.
Proof.
  intros HI Hd. unfold cat_op, zoom, schedule_image_reclaim. simpl.
  pose proof (elem_insert_reclaim (cw_now w) pid (main_key pid k v) (cw_db w)) as Hin.
  unfold enqueue_reclaim in *. case_decide; simpl in *; [by destruct w|].
  apply queue_step; try done. intros r Hr. destruct (Hin r Hr) as [?|[Hp Hk]]; [by left|right].
  exists k, v. by rewrite Hp.
Qed.

(** Rewriting entries without changing what they name. *)
Lemma requeue_ok w (g : ReclaimRow → ReclaimRow) :
  CatInv true w ∨ CatInv false w → (∀ r, rc_key (g r) = rc_key r ∧ rc_product (g r) = rc_product r) →
  queue_ok w (set_cdb (set_reclaims (g <$> reclaims (cw_db w)) (cw_db w)) w).
Proof.
  intros HI Hg r Hr. simpl in Hr. apply list_elem_of_fmap in Hr as (r0 & -> & Hr0).
  destruct (Hg r0) as [-> ->]. right. simpl.
  destruct HI as [HI|HI]; destruct (ci_reclaims _ _ HI r0 Hr0) as (k & v & ? & ?); by exists k, v.
Qed.

Lemma inv_some st w : CatInv st w → CatInv true w ∨ CatInv false w.
Proof. destruct st; [by left|by right]. Qed.

Lemma defer_reclaim_step st w id delay error :
  CatInv st w →
  let w' := (cat_op (λ now, defer_image_reclaim now id delay error) w).2 in CatInv st w' ∧ cat_evolves w w'.
Proof.
  intros HI. apply queue_step; try done. apply requeue_ok; [by eapply inv_some|].
  intros r. by case_decide.
Qed.

Lemma finish_reclaim_step st w ids :
  CatInv st w → let w' := (cat_op (λ _, finish_image_reclaim ids) w).2 in CatInv st w' ∧ cat_evolves w w'.
Proof.
  intros HI. apply queue_step; try done. intros r Hr. left. simpl in Hr. by apply list_elem_of_filter in Hr as [_ Hr].
Qed.

(** A claimed task names a dead image. *)
Definition task_ok (w : CatWorld) (t : ReclaimTask) : Prop :=
  ∃ k v, tk_key t = main_key (tk_product t) k v ∧ dead (cw_tokens w) (cw_db w) (tk_product t) k v.

Lemma claim_step st w lease batch locked :
  CatInv st w →
  let x := cat_op (λ now, claim_image_reclaims now lease batch locked) w in
  (CatInv st x.2 ∧ cat_evolves w x.2) ∧ ∀ ts, x.1 = Ok ts → Forall (task_ok w) ts.
Proof.
  intros HI. unfold cat_op, zoom, claim_image_reclaims. case_decide; simpl; [|by destruct w]. split.
  - apply queue_step; try done. apply requeue_ok; [by eapply inv_some|]. intros r. by case_decide.
  - intros ts [= <-]. apply Forall_fmap, Forall_forall. intros r Hr. unfold task_ok. simpl.
    destruct (ci_reclaims _ _ HI r) as (k & v & ? & ?); [|by exists k, v].
    assert (r ∈ merge_sort reclaim_le (filter (λ r, rc_next r ≤ cw_now w ∧ locked (rc_id r) = false) (reclaims (cw_db w)))) as Hm.
    { apply elem_of_take in Hr as (i & Hi & _). by eapply list_elem_of_lookup_2. }
    rewrite merge_sort_Permutation in Hm. by apply list_elem_of_filter in Hm as [_ ?].
Qed.

Lemma defer_upload_step st w pid t delay :
  CatInv st w → let w' := (cat_op (λ now, defer_upload_expiry now pid t delay) w).2 in CatInv st w' ∧ cat_evolves w w'.
Proof.
  intros HI. unfold cat_op, zoom, defer_upload_expiry. simpl.
  destruct (products (cw_db w) !! pid) as [p|] eqn:Ep; simpl; [|by destruct w]. case_decide; simpl; [|by destruct w].
  apply quiet_step; try done; [|by left]. split_and!; [done..| |]; simpl.
  - intros i q Hq. destruct (decide (i = pid)) as [->|Hne].
    + simplify_eq. eexists. rewrite lookup_insert_eq. split; [done|]. done.
    + exists q. by rewrite lookup_insert_ne.
  - intros i q. rewrite lookup_insert_Some. intros [[<- _]|[_ ?]]; by eexists.
Qed.

Lemma rendition_not_upload pid k v x i t : x ∈ public_rendition_keys (main_key pid k v) → x ≠ upload_key i t.
Proof.
  unfold main_key. rewrite rendition_keys. unfold thumbnail_sizes. simpl. rewrite !elem_of_cons, elem_of_nil.
  intros [->|[->|[->|[]]]]; unfold public_main_key, public_thumb_key, upload_key; simpl; discriminate.
Qed.

Lemma live_not_removable w pid p k v x :
  is_uuid pid → products (cw_db w) !! pid = Some p → p_deleted_at p = None →
  is_uuid k → String.length v = 32%nat → p_image_key p = Some (main_key pid k v) ∨ pending (tok k) p →
  x ∈ public_rendition_keys (main_key pid k v) → ¬ removable w x.
Proof.
  intros Hpu Hp Hd Hk Hv Hor Hx [(i & t & E)|(pid' & k' & v' & Hx' & Hpu' & Hku' & _ & Hv' & row & Hrow & Hdead)].
  - by eapply rendition_not_upload.
  - destruct (renditions_disjoint pid (tok k) v pid' (tok k') v' x) as (<- & Ht & <-); try done;
      [split; [apply tok_length|done]..|].
    apply tok_inj in Ht as <-; [|done..]. simplify_eq. rewrite Hd in Hdead.
    destruct Hdead as [[? ?]|[? ?]]; [done|]. by destruct Hor.
Qed.

Lemma store_step st w w' :
  CatInv st w → cw_db w' = cw_db w → cw_tokens w' = cw_tokens w → cw_tickets w ⊆ cw_tickets w' →
  (∀ t, t ∈ cw_tickets w' → t ∈ cw_tickets w ∨ ticket_ok (cw_tokens w) (cw_db w) t) →
  (∀ x o, cw_bucket w' !! x = Some o → cw_bucket w !! x = Some o ∨ object_ok w' x o) →
  (∀ x, is_Some (cw_bucket w !! x) → is_Some (cw_bucket w' !! x) ∨ removable w x) →
  CatInv st w' ∧ cat_evolves w w'.
Proof.
  intros HI Hd Hn Hts Htk Ho Hx.
  assert (∀ x, removable w x → removable w' x) as Hrm by (intros x; unfold removable; by rewrite Hd, Hn).
  split; split; rewrite ?Hd, ?Hn; try done; try apply HI.
  - intros pid p Hp. destruct (ci_images _ _ HI _ _ Hp) as [Ht Hk]. split; [done|].
    intros key E Hdel. destruct (Hk key E Hdel) as (k & v & Hu & Hlt & Hv & -> & Hin).
    exists k, v. split_and!; [done..|]. intros x Hxr. destruct (Hx x (Hin x Hxr)) as [?|Hr]; [done|exfalso].
    eapply (live_not_removable w pid p k v x); try done; [|by left].
    by destruct (ro_row _ (ci_rows _ _ HI) _ _ Hp) as (_ & _ & ?).
  - intros t Ht. destruct (Htk t Ht); [by apply (ci_tickets _ _ HI)|done].
  - intros x o Hxo. destruct (Ho x o Hxo) as [Hxo'|?]; [|done].
    eapply object_ok_more; [exact Hts|]. by apply (ci_objects _ _ HI).
  - intros pid p q Hp Hq. simplify_eq. by apply img_evolves_same.
  - intros x Hxs. destruct (Hx x Hxs); [by left|right; by apply Hrm].
Qed.
End Inv.

#[export] Existing Instance cat_evolves_preorder.
