(* ===== verification/CatalogSafety.v ===== *)
(** * CatalogSafety: every interleaving of the catalog's coroutines

    The requests, the image worker, the clients' uploads, the bucket's lifecycle
    rule and the clock ([cat_arrival]) keep [CatInv]; what that means for a
    reader: stored images are served, public objects were re-encoded, versions and
    events agree. *)

From Stdlib Require Import String.
From S2P Require Import Prelude Errors UnitOfWork Text Parse Sha256 Effects.
From S2P Require Import Catalog CatalogFacts ImageKeys CatalogService CatalogInv.

Section Safety.
Context `{Imaging} (cfg : CatSettings) (st : bool).
Notation Inv := (CatInv cfg st).
Notation SafeF := (Safe Inv cat_evolves).
Notation WPF := (wpf Inv cat_evolves).

Lemma snapshot_stable p w w' : cat_evolves w w' → snapshot_of p (cw_db w) → snapshot_of p (cw_db w').
Proof.
  intros [[Hr _] _ _ _ _] (q & Hq & He). destruct (Hr _ _ Hq) as (r & Hrr & He'). exists r. split; [done|by etrans].
Qed.

Lemma read_safe {L A} (m : ST CatalogDB A) : (∀ d, (m d).2 = d) → SafeF (await (cat_op (λ _, m)) : frame CatWorld L A).
Proof.
  intros Hm. rule Safe_await.
  intros w HI. unfold cat_op, zoom. simpl. specialize (Hm (cw_db w)).
  destruct (m (cw_db w)) as [r d]. simpl in *. subst d. by destruct w.
Qed.

(** ** Housekeeping *)

Lemma ignoring_errors_safe {L A} (a : A) (p : frame CatWorld L A) : SafeF p → SafeF (ignoring_errors a p).
Proof. intros Hp. rule Safe_try; [done|]. intros e. by destruct (is_Exception e). Qed.

Lemma reap_one_safe recheck c : SafeF (reap_one recheck c).
Proof.
  destruct c as [pid t]. rule Safe_bind.
  - rule Safe_try; [|intros e; by destruct (is_Exception e)].
    rule Safe_bind; [|intros b; apply Safe_ret]. by rule Safe_await.
  - intros [[|]|]; [| |apply Safe_ret].
    + rule Safe_await. intros w HI. by apply defer_upload_step.
    + rule Safe_bind; [rule Safe_await; intros w HI; by apply expire_step|]. intros [|]; [apply Safe_set_locals|apply Safe_ret].
Qed.

Lemma reap_safe batch recheck : SafeF (reap_abandoned_uploads cfg batch recheck).
Proof.
  rule Safe_bind; [rule Safe_await; intros w HI; by destruct w|]. intros cs.
  rule Safe_bind; [rule Safe_iterate; intros; apply reap_one_safe|]. intros _. apply Safe_locals.
Qed.

Lemma delete_object_step w pid k v x :
  Inv w → dead (cw_tokens w) (cw_db w) pid k v → x ∈ public_rendition_keys (main_key pid k v) →
  Inv (delete_object x w).2 ∧ cat_evolves w (delete_object x w).2.
Proof.
  intros HI Hd Hx. apply store_step; try done; simpl.
  - by left.
  - intros y o. rewrite lookup_delete_Some. intros [_ ?]. by left.
  - intros y Hy. destruct (decide (y = x)) as [->|Hne].
    + right. right. by exists pid, k, v.
    + left. by rewrite lookup_delete_ne.
Qed.

Lemma drain_one_safe backoff t l w0 :
  task_ok w0 t → WPF (drain_one backoff t) l (λ _ _ _, True) (λ _ _ _, True) w0.
Proof.
  intros (k & v & Hk & Hd). rule wpf_try.
  assert (∀ e (l : list N) w, WPF (if is_Exception e
          then await (cat_op (λ now, defer_image_reclaim now (tk_id t) backoff (exn_text e)))
          else throw e) l (λ _ _ _, True) (λ _ _ _, True) w) as Hh.
  { intros e l' w. destruct (is_Exception e); [|done]. rule Safe_await. intros w' HI. by apply defer_reclaim_step. }
  rule wpf_bind. rule wpf_await_ok; [|by intros]. intros w HI He.
  assert ((cat_op (λ _, current_image_key (tk_product t)) w).2 = w) as -> by by destruct w.
  split; [done|]. intros cur _. rule wpf_bind.
  case_decide; [by apply wpf_ret|].
  eapply wpf_iterate with (K := (λ w, dead (cw_tokens w) (cw_db w) (tk_product t) k v)); [apply _|..].
  - intros w1 w2 He' Hd'. by eapply dead_stable.
  - by eapply dead_stable.
  - intros x l' w' Hx Hd'. rewrite Hk in Hx. rule wpf_await_ok; [|by intros].
    intros w1 HI1 He1. pose proof (dead_stable _ _ _ _ _ He1 Hd') as Hd1.
    destruct (delete_object_step w1 (tk_product t) k v x HI1 Hd1 Hx) as [HI2 He2].
    split; [done|]. intros _ _. by eapply dead_stable.
  - done.
Qed.

Lemma task_ok_stable t w w' : cat_evolves w w' → task_ok w t → task_ok w' t.
Proof. intros He (k & v & Hk & Hd). exists k, v. split; [done|]. by eapply dead_stable. Qed.

Lemma drain_safe batch lease backoff locked : SafeF (drain_reclaims batch lease backoff locked).
Proof.
  intros l w0. rule wpf_bind. rule wpf_await_ok; [|done]. intros w HI _.
  destruct (claim_step cfg st w lease batch locked HI) as [[HI' He'] Hts]. split; [done|]. intros ts Ets.
  specialize (Hts ts Ets). destruct ts as [|t ts]; [done|]. rule wpf_bind.
  eapply wpf_iterate with (K := (λ w, Forall (task_ok w) (t :: ts))); [apply _|..].
  - intros w1 w2 He Hf. eapply Forall_impl; [exact Hf|]. intros x. by apply task_ok_stable.
  - eapply Forall_impl; [exact Hts|]. intros x. by apply task_ok_stable.
  - intros x l' w' Hx Hf. eapply wpf_mono; [apply _| | |apply drain_one_safe].
    + intros _ _ w1 He _. eapply Forall_impl; [exact Hf|]. intros y. by apply task_ok_stable.
    + done.
    + rewrite Forall_forall in Hf. by apply Hf.
  - intros l' w' _. rule wpf_bind. apply wpf_locals. rule wpf_bind. destruct l' as [|i ids]; [done|].
    rule Safe_wpf; [|done..]. rule Safe_await. intros w1 HI1. by apply finish_reclaim_step.
Qed.

Lemma housekeeping_safe locked : SafeF (housekeeping cfg locked).
Proof.
  apply ignoring_errors_safe. rule Safe_bind; [rule Safe_call; apply drain_safe|]. intros _.
  rule Safe_bind; [rule Safe_call; apply reap_safe|]. intros _. apply Safe_ret.
Qed.

(** ** Ingest *)

Lemma neutral_step w w' :
  Inv w → cw_db w' = cw_db w → cw_tokens w' = cw_tokens w → cw_tickets w' = cw_tickets w →
  cw_bucket w' = cw_bucket w → Inv w' ∧ cat_evolves w w'.
Proof.
  intros HI Hd Hn Ht Hb. apply store_step; rewrite ?Ht, ?Hb; try done; by left.
Qed.

Lemma seen_safe k : SafeF (seen k).
Proof. apply ignoring_errors_safe. by rule Safe_await. Qed.

Lemma remember_safe k : SafeF (remember_ingest cfg k).
Proof. apply ignoring_errors_safe. rule Safe_await. intros w HI. by apply neutral_step. Qed.

Lemma fail_ingest_safe pid t k : SafeF (fail_ingest cfg pid t k).
Proof.
  rule Safe_bind; [rule Safe_await; intros w HI; by apply mark_failed_step|]. intros b.
  rule Safe_bind; [apply remember_safe|]. intros _. apply Safe_ret.
Qed.

(** A token that has been issued, for a product that exists. *)
Definition issued (w : CatWorld) (pid k : N) : Prop :=
  is_uuid k ∧ (k < cw_tokens w)%N ∧ is_uuid pid ∧ is_Some (products (cw_db w) !! pid).

Lemma issued_stable w w' pid k : cat_evolves w w' → issued w pid k → issued w' pid k.
Proof.
  intros He (Hk & Hlt & Hp & [p Hpp]). destruct (proj1 (ce_rows _ _ He) _ _ Hpp) as (q & Hq & _).
  pose proof (ce_tokens _ _ He). split_and!; [done|lia|done|by exists q].
Qed.

Lemma waiting_before w w' pid k :
  cat_evolves w w' → issued w pid k → waiting w' pid (tok k) → waiting w pid (tok k).
Proof.
  intros He (Hk & Hlt & _ & [p Hp]) (q & [Hq Hd]%live_row_Some & Hpe).
  destruct (proj1 (ce_rows _ _ He) _ _ Hp) as (q' & Hq' & Hev). simplify_eq.
  destruct (ie_pending _ _ _ _ _ (ce_images _ _ He _ _ _ Hp Hq) _ Hpe) as [Hpp|(m & Hm & Hu & E)].
  - exists p. split; [|done]. apply live_row_Some. split; [done|].
    destruct (p_deleted_at p) eqn:Ed; [|done]. destruct (re_deleted _ _ Hev); [by rewrite Ed|congruence].
  - apply tok_inj in E; [lia|done..].
Qed.

Lemma dead_of_not_waiting w pid k v :
  issued w pid k → String.length v = 32%nat → ¬ waiting w pid (tok k) →
  live_row pid (cw_db w) ≫= p_image_key ≠ Some (main_key pid k v) → dead (cw_tokens w) (cw_db w) pid k v.
Proof.
  intros (Hk & Hlt & Hp & [p Hpp]) Hv Hn Hc. split_and!; [done..|]. exists p. split; [done|].
  destruct (p_deleted_at p) eqn:Ed; [left; by eexists|right].
  assert (live_row pid (cw_db w) = Some p) as Hl by by apply live_row_Some.
  rewrite Hl in Hc. split; [|done]. intros Hpe. apply Hn. by exists p.
Qed.

Lemma schedule_reclaim_safe pid k v l w0 :
  issued w0 pid k → String.length v = 32%nat → ¬ waiting w0 pid (tok k) →
  WPF (schedule_reclaim pid (main_key pid k v)) l (λ _ _ _, True) (λ _ _ _, True) w0.
Proof.
  intros Hi Hv Hn. rule wpf_bind. rule wpf_await_ok; [|done]. intros w HI He.
  assert ((cat_op (λ _, current_image_key pid) w).2 = w) as -> by by destruct w. split; [done|].
  intros cur Ecur. unfold cat_op, zoom, current_image_key in Ecur. simpl in Ecur. injection Ecur as <-.
  case_decide as Hc; [done|].
  assert (dead (cw_tokens w) (cw_db w) pid k v) as Hd.
  { apply dead_of_not_waiting; [by eapply issued_stable|done|by eauto using waiting_before|done]. }
  rule wpf_await_ok; [|done]. intros w1 HI1 He1. split; [|done].
  apply schedule_step; [done|]. by eapply dead_stable.
Qed.

(** The objects [xs] are in the bucket for as long as the upload is waited for. *)
Definition kept (w : CatWorld) (pid k : N) (xs : list string) : Prop :=
  issued w pid k ∧ ∀ x, x ∈ xs → waiting w pid (tok k) → is_Some (cw_bucket w !! x).

Lemma kept_stable w w' pid k v xs :
  cat_evolves w w' → String.length v = 32%nat → xs ⊆ public_rendition_keys (main_key pid k v) →
  kept w pid k xs → kept w' pid k xs.
Proof.
  intros He Hv Hsub [Hi Hk]. split; [by eapply issued_stable|]. intros x Hx Hw.
  pose proof (waiting_before _ _ _ _ He Hi Hw) as Hw0.
  destruct (ce_bucket _ _ He x (Hk x Hx Hw0)) as [?|Hr]; [done|exfalso].
  destruct Hw as (q & [Hq Hd]%live_row_Some & Hpe). destruct Hi as (Hu & _ & Hp & _).
  eapply (live_not_removable w' pid q k v x); try done; [by right|by apply Hsub].
Qed.

Lemma wpf_put pid k v xs x data l Q E w0 :
  kept w0 pid k xs → String.length v = 32%nat → x :: xs ⊆ public_rendition_keys (main_key pid k v) →
  (∀ w, object_ok cfg w x (MkObject data (Some "image/webp"))) →
  (∀ w, kept w pid k (x :: xs) → Q tt l w) → (∀ e w, E e l w) →
  WPF (await (put_bytes x data) : frame CatWorld unit unit) l Q E w0.
Proof.
  intros Hk Hv Hsub Ho HQ HE. rule wpf_await_ok; [|done]. intros w HI He.
  assert (kept w pid k xs) as Hk1 by (eapply kept_stable; [done..| |done]; set_solver).
  destruct (store_step cfg st w (put_bytes x data w).2) as [HI' He']; try done; simpl.
  { by left. }
  { intros y o. rewrite lookup_insert_Some. intros [[<- <-]|[_ ?]]; [right; apply Ho|by left]. }
  { intros y Hy. left. destruct (decide (y = x)) as [->|Hne]; [by rewrite lookup_insert_eq|by rewrite lookup_insert_ne]. }
  split; [done|]. intros [] _. apply HQ.
  assert (kept (put_bytes x data w).2 pid k xs) as [Hi2 Hk2] by (eapply kept_stable; [done..| |done]; set_solver).
  split; [done|]. intros y [->|Hy]%elem_of_cons Hw; [|by apply Hk2]. simpl. by rewrite lookup_insert_eq.
Qed.

Lemma process_image_thumbs raw a b c cl img :
  process_image raw a b c cl = Ok img → ∃ d1 d2, im_thumbnails img = [("thumb_256", d1); ("thumb_64", d2)].
Proof. unfold process_image. intros E. simp_hyp E. by eexists _, _. Qed.

Lemma publish_image_safe pid k raw claimed dk img l w0 :
  issued w0 pid k →
  process_image raw (image_max_dimension cfg) (image_max_upload_bytes cfg) (image_max_pixels cfg) claimed = Ok img →
  WPF (publish_image cfg pid (tok k) (content_version raw) dk img) l (λ _ _ _, True) (λ _ _ _, True) w0.
Proof.
  intros Hi Himg. pose proof (content_version_length raw) as Hv.
  destruct (process_image_thumbs _ _ _ _ _ _ Himg) as (d1 & d2 & Eth).
  unfold publish_image. rewrite Eth. set (v := content_version raw) in *.
  assert (public_rendition_keys (main_key pid k v) =
    [main_key pid k v; public_thumb_key pid (tok k) v "thumb_256"; public_thumb_key pid (tok k) v "thumb_64"]) as Er
    by apply rendition_keys.
  rule wpf_bind. eapply (wpf_put pid k v []); [split; [done|set_solver]|done|rewrite Er; set_solver| | |done].
  { intros w. by eapply obj_main. }
  intros w1 Hk1. rule wpf_bind. rule wpf_bind.
  eapply (wpf_put pid k v _ _ _ _ _ _ _ Hk1); [done|rewrite Er; set_solver| | |done].
  { intros w. eapply obj_thumb; [exact Himg|rewrite Eth; by left|done..]. }
  intros w2 Hk2. rule wpf_bind.
  eapply (wpf_put pid k v _ _ _ _ _ _ _ Hk2); [done|rewrite Er; set_solver| | |done].
  { intros w. eapply obj_thumb; [exact Himg|rewrite Eth; right; by left|done..]. }
  intros w3 Hk3. apply wpf_ret. rule wpf_bind. rule wpf_await_ok; [|done]. intros w HI He.
  assert (kept w pid k [public_thumb_key pid (tok k) v "thumb_64"; public_thumb_key pid (tok k) v "thumb_256"; main_key pid k v]) as Hk4.
  { eapply kept_stable; [exact He|exact Hv|rewrite Er; set_solver|exact Hk3]. }
  pose proof Hk4 as [(Hu & Hlt & Hp & _) Hin].
  destruct (mark_ready_step cfg st w pid k v HI Hu Hlt Hv) as [[HI' He'] Hno].
  { intros Hw x. rewrite Er. intros Hx. apply Hin; [set_solver|done]. }
  split; [done|]. intros fl Efl. destruct (fl_applied fl) eqn:Ef; simpl.
  - rule wpf_bind. rule Safe_wpf; [apply remember_safe|done..].
  - rule wpf_bind. eapply wpf_mono; [apply _| | |apply schedule_reclaim_safe].
    + intros _ l' w' _ _. rule wpf_bind. rule Safe_wpf; [apply remember_safe|done..].
    + done.
    + eapply issued_stable; [exact He'|]. apply Hk4.
    + done.
    + by eapply Hno.
Qed.

Lemma download_spec key mb et w :
  (download key mb et w).2 = w ∧
  ∀ o', (download key mb et w).1 = Ok o' →
    ∃ o, cw_bucket w !! key = Some o ∧ ob_type o' = ob_type o ∧
         read_body (S (length (ob_data o))) mb (s3_fragments (ob_data o)) [] = Ok (ob_data o').
Proof.
  unfold download. destruct (cw_bucket w !! key) as [o|]; [|by split].
  destruct (match et with Some _ => _ | None => false end); [by split|]. case_decide; [by split|].
  destruct (read_body _ _ _ _) as [data|e] eqn:Er; [|by split]. split; [done|]. intros ? [= <-]. by exists o.
Qed.

Lemma ingest_safe key etag : SafeF (ingest cfg key etag).
Proof.
  intros l w0. rule wpf_bind. rule Safe_wpf; [apply seen_safe| |done]. intros [|] l1 w1; [done|].
  destruct (parse_upload_key key) as [[pid t]|] eqn:Ek; [|done].
  rule wpf_bind. rule wpf_try. rule wpf_bind. rule wpf_await_ok.
  - intros w HI He.
    destruct (download_spec key (image_max_upload_bytes cfg) (truthy (Some etag)) w) as [-> Hdl].
    split; [done|]. intros o' Eo'. destruct (Hdl o' Eo') as (o & Eo & _). apply wpf_ret.
    destruct (process_image _ _ _ _ _) as [img|e] eqn:Ep.
    2:{ destruct e; try done. rule Safe_wpf; [apply fail_ingest_safe|done..]. }
    destruct (ci_objects _ _ _ HI _ _ Eo) as [tk Htk Hx|pid' k raw cl im _ Hx _|pid' k raw cl im nm dt _ _ Hx _].
    2-3: exfalso; subst key; unfold main_key, public_main_key, public_thumb_key in Ek; by rewrite parse_public_key in Ek.
    destruct (ci_tickets _ _ _ HI _ Htk) as ([p Hp] & k & Hku & Hlt & Et).
    destruct (ro_row _ (ci_rows _ _ _ HI) _ _ Hp) as (_ & _ & Hpu).
    rewrite Hx, Et, parse_upload_key_roundtrip in Ek by done. injection Ek as <- <-.
    eapply publish_image_safe; [|exact Ep]. split_and!; [done..|by exists p].
  - intros e w _. destruct e; try done.
    all: rule wpf_bind; rule Safe_wpf; [first [apply fail_ingest_safe|apply remember_safe]|done..].
Qed.

(** ** The product use-cases *)

Definition fresh_read (w : CatWorld) (p : Product) : Prop := snapshot_of p (cw_db w) ∧ p_deleted_at p = None.

Lemma wpf_get pid l Q E w0 :
  (∀ w, Q None l w) → (∀ p w, p_id p = pid → fresh_read w p → Q (Some p) l w) → (∀ e w, E e l w) →
  WPF (await (cat_op (λ _, repo_get_product pid)) : frame CatWorld unit _) l Q E w0.
Proof.
  intros HN HS HE. rule wpf_await_ok; [|done]. intros w HI _.
  assert ((cat_op (λ _, repo_get_product pid) w).2 = w) as -> by by destruct w. split; [done|].
  intros o Eo. unfold cat_op, zoom, repo_get_product in Eo. simpl in Eo. injection Eo as <-.
  destruct (live_row pid (cw_db w)) as [p|] eqn:Ep; [|done]. apply live_row_Some in Ep as [Hp Hd].
  destruct (ro_row _ (ci_rows _ _ _ HI) _ _ Hp) as (Hid & _). apply HS; [done|]. split; [|done].
  exists p. by rewrite Hid.
Qed.

Lemma wpf_load orm p l Q E w0 :
  fresh_read w0 p →
  (∀ x w, fresh_read w x → p_id x = p_id p → (identity_kept orm = true → x = p) → Q x l w) → (∀ e w, E e l w) →
  WPF (await (cat_op (λ _, load_aggregate orm p)) : frame CatWorld unit _) l Q E w0.
Proof.
  intros [Hs Hd] HQ HE. rule wpf_await_ok; [|done]. intros w HI He.
  assert ((cat_op (λ _, load_aggregate orm p) w).2 = w) as Ew.
  { unfold cat_op, zoom, load_aggregate. simpl. destruct (live_row _ _); by destruct w. }
  rewrite Ew. split; [done|]. intros x Ex. unfold cat_op, zoom, load_aggregate in Ex. simpl in Ex.
  destruct (live_row (p_id p) (cw_db w)) as [row|] eqn:Er; [|done]. simpl in Ex. injection Ex as <-.
  apply live_row_Some in Er as [Hr Hrd]. destruct (ro_row _ (ci_rows _ _ _ HI) _ _ Hr) as (Hid & _).
  destruct (identity_kept orm) eqn:Ek; apply HQ; try done.
  - split; [by eapply snapshot_stable|done].
  - split; [|done]. exists row. by rewrite Hid.
Qed.

(** What an ORM must satisfy where the events are to be exact. *)
Definition orm_ok (orm : Orm) : Prop := st = true → strict orm.

Lemma create_safe m n ds c pr : SafeF (svc_create_product cfg m n ds c pr).
Proof.
  rule Safe_bind; [rule Safe_await; intros w HI; by apply create_step|]. intros p.
  by destruct (to_product_response _ _).
Qed.

Lemma update_announces p patch :
  p_deleted_at p = None →
  announces (product_updated_outbox (p_id p) (p_merchant p) (default (p_name p) (pt_name patch))
     (default (p_price p) (pt_price patch)) (default (p_category p) (pt_category patch)) (p_version p + 1))
     p (apply_patch patch p).
Proof.
  intros Hd. split; [done|]. intros row' Hn Hp Hc Hdl Hi Hm Hv. simpl in *. unfold write_data.
  split; congruence.
Qed.

Lemma update_safe orm pid caller adm patch im : orm_ok orm → SafeF (svc_update_product cfg orm pid caller adm patch im).
Proof.
  intros Horm l w0. rule wpf_bind. apply wpf_get; [done| |done]. intros p w1 Hid Hp.
  rule wpf_bind. unfold assert_product_owner. destruct (_ && _); [done|]. apply wpf_ret.
  rule wpf_bind. unfold check_version. destruct im as [v|]; [case_decide; [|done]|]; apply wpf_ret.
  all: rule wpf_bind; eapply wpf_load; [exact Hp| |done]; intros x w2 Hx Hxi Hk;
    rule wpf_bind; (rule wpf_await_ok; [|done]); intros w3 HI3 He3;
    (split; [|intros row _; rule wpf_bind; by destruct (to_product_response _ _)]);
    destruct Hx as [Hs Hd]; (apply update_step; [done|by eapply snapshot_stable|done|]);
    intros Hst; (split; [by apply Horm|]); rewrite <- Hid; (destruct Hk; [by apply Horm|]); by apply update_announces.
Qed.

Lemma delete_safe orm pid caller adm im at_ : orm_ok orm → SafeF (svc_delete_product orm pid caller adm im at_).
Proof.
  intros Horm l w0. rule wpf_bind. apply wpf_get; [done| |done]. intros p w1 Hid Hp.
  rule wpf_bind. unfold assert_product_owner. destruct (_ && _); [done|]. apply wpf_ret.
  rule wpf_bind. unfold check_version. destruct im as [v|]; [case_decide; [|done]|]; apply wpf_ret.
  all: rule wpf_bind; eapply wpf_load; [exact Hp| |done]; intros x w2 Hx Hxi Hk;
    rule wpf_bind; (rule wpf_await_ok; [|done]); intros w3 HI3 He3; (split; [|done]);
    destruct Hx as [Hs Hd]; (apply delete_step; [done|by eapply snapshot_stable|done|]);
    intros Hst; (split; [by apply Horm|]); rewrite <- Hid; (destruct Hk; [by apply Horm|]);
    (split; [done|]); intros row' _ _ _ Hdl Hi Hm Hv; simpl in *; rewrite Hdl; by split_and!.
Qed.

Lemma ticket_step w pid k ty mb :
  Inv w → issued w pid k → Inv (add_ticket (MkTicket pid (tok k) ty mb) w) ∧
  cat_evolves w (add_ticket (MkTicket pid (tok k) ty mb) w).
Proof.
  intros HI (Hk & Hlt & _ & Hp). apply store_step; try done; simpl.
  - set_solver.
  - intros t [->|Ht]%elem_of_cons; [right|by left]. split; [done|]. by exists k.
  - by left.
  - by left.
Qed.

Lemma presign_safe orm pid caller adm ty len : orm_ok orm → SafeF (svc_presign cfg orm pid caller adm ty len).
Proof.
  intros Horm l w0. rule wpf_bind. apply wpf_get; [done| |done]. intros p w1 Hid Hp.
  rule wpf_bind. unfold assert_product_owner. destruct (_ && _); [done|]. apply wpf_ret.
  destruct (negb _); [done|]. case_decide; [done|].
  rule wpf_bind; eapply wpf_load; [exact Hp| |done]. intros x w2 [Hs Hd] Hxi Hk.
  rule wpf_bind. rule wpf_await_ok; [|done]. intros w3 HI3 He3.
  destruct (pending_step cfg st w3 orm x (product_updated_outbox pid (p_merchant p) (p_name p) (p_price p)
     (p_category p) (p_version p + 1)) HI3 ltac:(by eapply snapshot_stable) Hd) as [[HI4 He4] Ht].
  { intros Hst. split; [by apply Horm|]. rewrite <- Hid. destruct Hk; [by apply Horm|].
    exact (update_announces x (MkPatch None None None None) Hd). }
  split; [done|]. intros t Et. destruct (Ht t Et) as (k & Hku & Hlt & ->). clear Ht Et.
  set (w4 := (commit_pending _ _ _ _ w3).2) in *. clearbody w4. rule wpf_bind. apply wpf_effect. intros w5 HI5 He5.
  destruct (ticket_step w5 pid k ty (Z.min len (image_max_upload_bytes cfg)) HI5) as [HI6 He6]; [|by split_and!].
  pose proof (snapshot_stable _ _ _ He3 Hs) as Hs3. pose proof (snapshot_stable _ _ _ He4 Hs3) as Hs4.
  destruct (snapshot_stable _ _ _ He5 Hs4) as (q & Hq & _). rewrite Hxi, Hid in Hq.
  destruct (ro_row _ (ci_rows _ _ _ HI5) _ _ Hq) as (_ & _ & Hpu). pose proof (ce_tokens _ _ He5).
  split_and!; [done|lia|done|by exists q].
Qed.

(** ** The system *)

(** A client posts to a presigned form: the policy fixes key, type and size. *)
Definition client_upload (t : Ticket) (data : byte_list) : ST CatWorld unit := λ w,
  if decide (t ∈ cw_tickets w ∧ Z.of_nat (length data) ≤ ti_max_bytes t) then
    (Ok tt, set_bucket (<[upload_key (ti_product t) (ti_token t) := MkObject data (Some (ti_type t))]> (cw_bucket w)) w)
  else (Err AuthorizationError, w).

(** The bucket's lifecycle rule on [uploads/]. *)
Definition expire_upload (pid : N) (token : string) : ST CatWorld unit := delete_object (upload_key pid token).

Definition clock (dt : N) (w : CatWorld) : CatWorld :=
  MkCatWorld (cw_db w) (cw_bucket w) (cw_dedup w) (cw_tokens w) (cw_tickets w) (cw_now w + Z.of_N dt).

(** What may arrive at any time, in any number. *)
Inductive cat_arrival : prog CatWorld unit → Prop :=
  | ca_create m n ds c pr : cat_arrival (erase (svc_create_product cfg m n ds c pr tt))
  | ca_update orm pid caller adm patch im : orm_ok orm →
      cat_arrival (erase (svc_update_product cfg orm pid caller adm patch im tt))
  | ca_delete orm pid caller adm im at_ : orm_ok orm →
      cat_arrival (erase (svc_delete_product orm pid caller adm im at_ tt))
  | ca_presign orm pid caller adm ty len : orm_ok orm →
      cat_arrival (erase (svc_presign cfg orm pid caller adm ty len tt))
  | ca_upload t data : cat_arrival (Atomic (client_upload t data) (λ _, Ret tt))
  | ca_lifecycle pid token : cat_arrival (Atomic (expire_upload pid token) (λ _, Ret tt))
  | ca_notify key etag : cat_arrival (erase (ingest cfg key etag tt))
  | ca_housekeeping locked : cat_arrival (erase (housekeeping cfg locked tt))
  | ca_clock dt : cat_arrival (Tick (clock dt) (Ret tt)).

Lemma Safe_safe {L A} (p : frame CatWorld L A) l : SafeF p → safe Inv cat_evolves (erase (p l)).
Proof.
  intros Hp. apply safe_erase. intros w _. eapply wp_mono; [apply _| |apply (Hp l w)]. by intros [[a|e] l1] w1.
Qed.

Lemma block_safe (m : ST CatWorld unit) :
  (∀ w, Inv w → Inv (m w).2 ∧ cat_evolves w (m w).2) → safe Inv cat_evolves (Atomic m (λ _, Ret tt)).
Proof.
  intros Hm w0 _ w r w' HI _ Ho. destruct (Hm w HI) as [HI' He].
  destruct Ho; by split_and!.
Qed.

Lemma upload_step t data w : Inv w → Inv (client_upload t data w).2 ∧ cat_evolves w (client_upload t data w).2.
Proof.
  intros HI. unfold client_upload. case_decide as Hc; [|done]. destruct Hc as [Ht _].
  apply store_step; try done; simpl.
  - by left.
  - intros x o. rewrite lookup_insert_Some. intros [[<- <-]|[_ ?]]; [right; by eapply obj_upload|by left].
  - intros x Hx. left. by destruct (decide (x = upload_key (ti_product t) (ti_token t))) as [->|?];
      [rewrite lookup_insert_eq|rewrite lookup_insert_ne].
Qed.

Lemma expire_upload_step pid t w : Inv w → Inv (expire_upload pid t w).2 ∧ cat_evolves w (expire_upload pid t w).2.
Proof.
  intros HI. apply store_step; try done; simpl.
  - by left.
  - intros x o [_ Hx]%lookup_delete_Some. by left.
  - intros x Hx. destruct (decide (x = upload_key pid t)) as [->|Hne].
    + right. left. by eexists _, _.
    + left. by rewrite lookup_delete_ne.
Qed.

Lemma catalog_safe p : cat_arrival p → safe Inv cat_evolves p.
Proof.
  destruct 1; try (apply Safe_safe; auto using create_safe, update_safe, delete_safe, presign_safe, ingest_safe,
    housekeeping_safe; fail).
  - apply block_safe. apply upload_step.
  - apply block_safe. apply expire_upload_step.
  - intros w0 _ w HI _. assert (Inv (clock dt w) ∧ cat_evolves w (clock dt w)) as [? ?] by by apply neutral_step.
    by split_and!.
Qed.

Definition cat_start (now : Z) : CatWorld := MkCatWorld (MkCatalogDB ∅ [] [] 1 1) ∅ ∅ 1 [] now.

Lemma cat_start_inv now : Inv (cat_start now).
Proof.
  split.
  - split; simpl; intros pid p Hp; destruct (lookup_empty_Some _ _ Hp).
  - intros _. split; try by intros ? ?%not_elem_of_nil.
    + by intros ? ? ? ?%not_elem_of_nil.
    + constructor.
    + intros pid p Hp. destruct (lookup_empty_Some _ _ Hp).
  - intros pid p Hp. destruct (lookup_empty_Some _ _ Hp).
  - by intros ? ?%not_elem_of_nil.
  - by intros ? ?%not_elem_of_nil.
  - intros x o Hx. destruct (lookup_empty_Some _ _ Hx).
Qed.

(** What any interleaving of arrivals reaches, faults and crashes included. *)
Definition cat_runs (s : list (prog CatWorld unit) * CatWorld) : Prop :=
  ∃ now, rtc (pool_step cat_arrival) ([], cat_start now) s.
Definition cat_reachable (w : CatWorld) : Prop := ∃ ts, cat_runs (ts, w).

Lemma cat_reachable_inv w : cat_reachable w → Inv w.
Proof.
  intros (ts & now & Hr). destruct (pool_sound Inv cat_evolves cat_arrival _ _ catalog_safe Hr) as [[HI _] _]; [|done].
  split; [apply cat_start_inv|constructor].
Qed.

Lemma cat_runs_arrive p fuel s : cat_arrival p → cat_runs s → cat_runs (arrive p fuel s).
Proof. intros Hp [now Hr]. exists now. etrans; [exact Hr|]. by apply arrive_steps. Qed.

Lemma cat_runs_drain fuel i s : cat_runs s → cat_runs (drain fuel i s).
Proof. intros [now Hr]. exists now. etrans; [exact Hr|]. apply drain_steps. Qed.

Lemma cat_runs_reachable s : cat_runs s → cat_reachable s.2.
Proof. destruct s as [ts w]. intros Hr. by exists ts. Qed.
End Safety.
