(* ===== verification/CatalogTheorems.v ===== *)
(** * CatalogTheorems: what the catalog promises

    Read off the invariant of CatalogInv, for every world that any interleaving of
    requests, image workers, uploads, faults and crashes reaches: stored images
    are served and re-encoded, product events carry each version once and describe
    the row, the carts' projections converge to the rows, and a download is the
    whole object or a refusal however the transport cuts it. *)

From Stdlib Require Import Ascii String.
From S2P Require Import Prelude Errors UnitOfWork Text Parse Sha256 Effects.
From S2P Require Import Cart CartFacts Catalog CatalogFacts ImageKeys CatalogService CatalogInv.
From S2P Require Import CatalogSafety.

(** ** The carts' projections *)

(** An outbox row as the cart's subscription sees it; [ProductCreated] is not
    subscribed to. *)
Definition cart_event (e : CatalogEvent) : option ProductEvent :=
  match e with
  | ProductCreatedV2 _ => None
  | ProductUpdatedV2 d =>
      Some (ProductUpdated (wd_product d) (wd_name d) (price_str (wd_price d)) (Some (wd_version d)))
  | ProductDeletedV2 p _ _ => Some (ProductDeleted p)
  end.

(** What a cart should know of a product: nothing before its first change. *)
Definition expected_projection (p : Product) : option Projection :=
  match p_deleted_at p with
  | Some _ => Some Tombstone
  | None => if decide (p_version p = 1) then None
            else Some (Live (Some (p_version p)) (p_name p) (price_str (p_price p)))
  end.

Definition merge_at (pid : N) (o : option Projection) (e : ProductEvent) : option Projection :=
  if decide (product_of e = pid) then merge_event e o else o.

Lemma deliver_lookup es s pid :
  projections (deliver es s) !! pid = foldl (merge_at pid) (projections s !! pid) es.
Proof.
  revert s. induction es as [|e es IH]; intros s; [done|]. simpl. unfold deliver in *. simpl.
  rewrite IH, handler_merge. simpl. f_equal. unfold merge_at. case_decide as E.
  - rewrite E. by rewrite lookup_partial_alter_eq.
  - by rewrite lookup_partial_alter_ne.
Qed.

Lemma fold_tombstone pid es : foldl (merge_at pid) (Some Tombstone) es = Some Tombstone.
Proof. induction es as [|e es IH]; [done|]. simpl. unfold merge_at at 2. case_decide; by destruct e. Qed.

Lemma fold_deleted pid es o : ProductDeleted pid ∈ es → foldl (merge_at pid) o es = Some Tombstone.
Proof.
  intros Hin. apply list_elem_of_split in Hin as (l1 & l2 & ->). rewrite foldl_app. simpl.
  unfold merge_at at 2. rewrite decide_True by done. simpl.
  destruct (foldl (merge_at pid) o l1) as [[|]|]; apply fold_tombstone.
Qed.

(** The latest of the versioned updates [es]. *)
Definition latest (pid : N) (es : list ProductEvent) (o : option Projection) : Prop :=
  match o with
  | None => ∀ e, e ∈ es → product_of e ≠ pid
  | Some (Live (Some v) n pr) =>
      ProductUpdated pid n pr (Some v) ∈ es ∧
      ∀ n' pr' v', ProductUpdated pid n' pr' (Some v') ∈ es → v' ≤ v
  | _ => False
  end.

Lemma fold_latest pid es :
  (∀ p n pr v, ProductUpdated p n pr v ∈ es → is_Some v) → ProductDeleted pid ∉ es →
  latest pid es (foldl (merge_at pid) None es).
Proof.
  induction es as [|e es IH] using rev_ind; intros Hv Hd; [by intros e ?%not_elem_of_nil|].
  rewrite foldl_app. simpl. specialize (IH ltac:(set_solver) ltac:(set_solver)).
  unfold merge_at at 1. case_decide as E.
  2:{ destruct (foldl (merge_at pid) None es) as [[|[v|] n pr]|]; simpl in *; try done.
      - destruct IH as [IH1 IH2]. split; [set_solver|]. intros n' pr' v' [?|Hs%list_elem_of_singleton]%elem_of_app; [by eapply IH2|].
        subst e. done.
      - intros e1 [?|Hs%list_elem_of_singleton]%elem_of_app; [by apply IH|]. by subst e1. }
  destruct e as [p n pr v|p]; simpl in E; subst p; [|set_solver].
  destruct (Hv pid n pr v) as [i ->]; [set_solver|].
  destruct (foldl (merge_at pid) None es) as [[|[w|] n0 pr0]|]; simpl in *; try done.
  - destruct IH as [IH1 IH2]. case_decide; simpl.
    + split; [set_solver|]. intros n' pr' v' [?|Hs%list_elem_of_singleton]%elem_of_app; [by eapply IH2|]. by simplify_eq.
    + split; [set_solver|]. intros n' pr' v' [Hin|Hs%list_elem_of_singleton]%elem_of_app; [|by simplify_eq].
      apply IH2 in Hin. lia.
  - split; [set_solver|]. intros n' pr' v' [Hin|Hs%list_elem_of_singleton]%elem_of_app; [|by simplify_eq].
    by apply IH in Hin.
Qed.

Section Projections.
Context (d : CatalogDB) (HR : RowsOK d) (HE : EventsOK d).
Context (es : list ProductEvent) (Hes : ∀ e, e ∈ es ↔ e ∈ omap cart_event (cat_outbox d)).

Lemma delivered_update pid n pr v :
  ProductUpdated pid n pr v ∈ es ↔
  ∃ wd, ProductUpdatedV2 wd ∈ cat_outbox d ∧ wd_product wd = pid ∧ wd_name wd = n ∧ price_str (wd_price wd) = pr ∧
        v = Some (wd_version wd).
Proof.
  rewrite Hes, list_elem_of_omap. split.
  - intros ([wd|wd|p m v'] & Hin & E); simpl in E; simplify_eq. by exists wd.
  - intros (wd & Hin & <- & <- & <- & ->). by exists (ProductUpdatedV2 wd).
Qed.

Lemma delivered_delete pid : ProductDeleted pid ∈ es ↔ ∃ m v, ProductDeletedV2 pid m v ∈ cat_outbox d.
Proof.
  rewrite Hes, list_elem_of_omap. split.
  - intros ([wd|wd|p m v'] & Hin & E); simpl in E; simplify_eq. eauto.
  - intros (m & v & Hin). by exists (ProductDeletedV2 pid m v).
Qed.

Lemma delivered_versions p n pr v : ProductUpdated p n pr v ∈ es → is_Some v.
Proof. intros (wd & _ & _ & _ & _ & ->)%delivered_update. by eexists. Qed.

(** A live product's carts know its latest update. *)
Lemma live_projection pid p :
  products d !! pid = Some p → p_deleted_at p = None → foldl (merge_at pid) None es = expected_projection p.
Proof.
  intros Hp Hd. unfold expected_projection. rewrite Hd.
  assert (ProductDeleted pid ∉ es) as Hnd.
  { intros (m & v & Hin)%delivered_delete. destruct (eo_deleted _ HE _ _ _ Hin) as (q & Hq & Hqd).
    simplify_eq. rewrite Hd in Hqd. by destruct Hqd. }
  pose proof (fold_latest pid es delivered_versions Hnd) as Hl.
  destruct (eo_complete _ HE _ _ Hp) as (e & He & Hde). pose proof (eo_numbered _ HE _ He) as Hnum.
  destruct (foldl (merge_at pid) None es) as [[|[v|] n pr]|]; simpl in Hl; try done.
  - destruct Hl as [Hin Hmax]. apply delivered_update in Hin as (wd & Hwd & Hwp & Hwn & Hwpr & [= ->]).
    destruct (eo_sound _ HE _ Hwd) as (q & Hq & Hle & Hds). pose proof (eo_numbered _ HE _ Hwd) as Hwnum.
    simpl in *. rewrite Hwp, Hp in Hq. simplify_eq. rewrite decide_False by lia.
    assert (wd_version wd = p_version q) as Hv.
    { destruct e as [d0|d0|? ? ?]; simpl in *; [destruct Hde as [-> _]; simpl in *; lia| |by rewrite Hd in Hde; destruct_and?; destruct (is_Some_None (A:=Z))].
      destruct Hde as [-> _]. assert (p_version q ≤ wd_version wd); [|lia].
      eapply (Hmax (p_name q) (price_str (p_price q))). apply delivered_update. exists (write_data q).
      destruct (ro_row _ HR _ _ Hp) as (Hid & _). simpl. by rewrite Hid. }
    destruct (Hds Hv) as [-> _]. simpl in *. done.
  - destruct e as [d0|d0|? ? ?]; simpl in *.
    + destruct Hde as [-> _]. simpl in Hnum. by rewrite decide_True.
    + destruct Hde as [-> _]. exfalso. eapply (Hl (ProductUpdated pid (p_name p) (price_str (p_price p)) (Some (p_version p)))); [|done].
      apply delivered_update. exists (write_data p). destruct (ro_row _ HR _ _ Hp) as (Hid & _). simpl. by rewrite Hid.
    + rewrite Hd in Hde. destruct_and?. by destruct (is_Some_None (A:=Z)).
Qed.

Lemma projection_of pid : foldl (merge_at pid) None es = products d !! pid ≫= expected_projection.
Proof.
  destruct (products d !! pid) as [p|] eqn:Hp; simpl.
  - destruct (p_deleted_at p) as [at_|] eqn:Hd; [|by apply live_projection].
    unfold expected_projection. rewrite Hd. apply fold_deleted, delivered_delete.
    destruct (eo_complete _ HE _ _ Hp) as ([wd|wd|i m v] & He & Hde); simpl in Hde; [destruct_and!; congruence..|].
    destruct Hde as (-> & -> & -> & _). destruct (ro_row _ HR _ _ Hp) as (<- & _). eauto.
  - assert (ProductDeleted pid ∉ es) as Hnd.
    { intros (m & v & Hin)%delivered_delete. destruct (eo_deleted _ HE _ _ _ Hin) as (q & Hq & _). congruence. }
    pose proof (fold_latest pid es delivered_versions Hnd) as Hl.
    destruct (foldl (merge_at pid) None es) as [[|[v|] n pr]|]; simpl in Hl; try done.
    destruct Hl as [Hin _]. apply delivered_update in Hin as (wd & Hwd & Hwp & _).
    destruct (eo_sound _ HE _ Hwd) as (q & Hq & _). simpl in Hq. congruence.
Qed.
End Projections.

Section Theorems.
Context `{Imaging} (cfg : CatSettings).


(** An object a reader may be given: the worker's output for bytes that passed
    every check, not the bytes themselves. *)
Definition re_encoded (o : S3Object) : Prop :=
  ob_type o = Some "image/webp" ∧
  ∃ raw claimed img,
    process_image raw (image_max_dimension cfg) (image_max_upload_bytes cfg) (image_max_pixels cfg) claimed = Ok img ∧
    Z.of_nat (length raw) ≤ image_max_upload_bytes cfg ∧ sniff_mime raw ∈ allowed_mime ∧
    (∀ c, claimed = Some c → sniff_mime raw = c) ∧
    ob_data o ∈ im_main img :: (im_thumbnails img).*2.

Lemma process_image_checks raw md mb mp claimed img :
  process_image raw md mb mp claimed = Ok img →
  Z.of_nat (length raw) ≤ mb ∧ sniff_mime raw ∈ allowed_mime ∧ (∀ c, claimed = Some c → sniff_mime raw = c).
Proof.
  unfold process_image. case_decide; [done|]. case_bool_decide as Hm; [|done]. simpl.
  destruct claimed as [c|]; [case_bool_decide; [|done]|]; intros _; split_and!; try lia; try done; naive_solver.
Qed.

Lemma public_object_ok w x o :
  object_ok cfg w x o → (∀ pid t, x ≠ upload_key pid t) → re_encoded o.
Proof.
  intros [t Ht ->|pid k raw claimed img Hp -> ->|pid k raw claimed img name data Hp Hin -> ->] Hne;
    [by destruct (Hne (ti_product t) (ti_token t))|..];
    (split; [done|]); exists raw, claimed, img; destruct (process_image_checks _ _ _ _ _ _ Hp) as (? & ? & ?);
    split_and!; try done; simpl; [by left|right]. apply list_elem_of_fmap. by exists (name, data).
Qed.

(** C15: Whatever requests, image workers, uploads, retries, crashes and lifecycle
    deletions interleave: the stored image of every product on sale is there - the
    main object and both thumbnails - and every public object is the re-encoding
    of an upload that passed the size, type and pixel checks. *)
Theorem live_images_are_served (st : bool) (w : CatWorld) (Hw : cat_reachable cfg st w) :
  (∀ pid p key, live_row pid (cw_db w) = Some p → p_image_key p = Some key →
     length (public_rendition_keys key) = 3%nat ∧
     ∀ x, x ∈ public_rendition_keys key → ∃ o, cw_bucket w !! x = Some o ∧ re_encoded o) ∧
  (∀ s o, cw_bucket w !! ("public/" +:+ s)%string = Some o → re_encoded o).
Proof.
  pose proof (cat_reachable_inv _ _ _ Hw) as HI. split.
  - intros pid p key [Hp Hd]%live_row_Some Hk.
    destruct (ri_key _ _ _ _ (ci_images _ _ _ HI _ _ Hp) _ Hk Hd) as (k & v & _ & _ & _ & -> & Hin).
    split; [unfold main_key; by rewrite rendition_keys|]. intros x Hx. destruct (Hin x Hx) as [o Ho].
    exists o. split; [done|]. eapply public_object_ok; [by apply (ci_objects _ _ _ HI)|].
    intros i t. by apply (rendition_not_upload pid k v).
  - intros s o Ho. eapply public_object_ok; [by apply (ci_objects _ _ _ HI)|]. intros pid t E.
    unfold upload_key in E. simpl in E. discriminate.
Qed.
End Theorems.

(** ** Downloads *)

Lemma body_read_split n frags :
  (0 < n)%nat → Forall (λ f, f ≠ []) frags →
  (body_read n frags).1 ++ concat (body_read n frags).2 = concat frags ∧
  Forall (λ f, f ≠ []) (body_read n frags).2 ∧ (frags ≠ [] → (body_read n frags).1 ≠ []).
Proof.
  intros Hn Hf. destruct frags as [|f rest]; [done|]. apply Forall_cons in Hf as [Hf Hr]. simpl.
  destruct (drop n f) as [|b f'] eqn:Ed; simpl.
  - rewrite <- (take_drop n f) at 2. rewrite Ed, app_nil_r. split_and!; [done..|].
    intros _ Et. apply Hf. by rewrite <- (take_drop n f), Et, Ed.
  - split_and!; [by rewrite <- (take_drop n f) at 2; rewrite Ed, <- app_assoc|by constructor|].
    intros _ Et. destruct f; [done|]. destruct n; [lia|done].
Qed.

Lemma read_body_spec fuel mb frags acc :
  Forall (λ f, f ≠ []) frags → (length (concat frags) < fuel)%nat → Z.of_nat (length acc) ≤ mb →
  read_body fuel mb frags acc =
    if decide (mb < Z.of_nat (length (acc ++ concat frags))) then Err ObjectTooLargeError
    else Ok (acc ++ concat frags).
Proof.
  revert frags acc. induction fuel as [|fuel IH]; intros frags acc Hf Hl Ha; [lia|]. simpl.
  set (n := Z.to_nat _). assert (0 < n)%nat as Hn by lia.
  destruct (body_read_split n frags Hn Hf) as (Hcat & Hf' & Hne).
  destruct (body_read n frags) as [chunk rest]. simpl in *. destruct chunk as [|c chunk].
  - assert (frags = []) as -> by (destruct frags; [done|by destruct Hne]).
    simpl. rewrite app_nil_r. by rewrite decide_False by lia.
  - rewrite <- Hcat, (app_assoc acc). case_decide as Hbig.
    + rewrite decide_True; [done|]. rewrite length_app. lia.
    + apply IH; [done| |lia]. rewrite <- Hcat, length_app in Hl. simpl in Hl. lia.
Qed.

(** The reference: the object itself, unless it changed or is too large. *)
Definition expected_download `{Imaging} (max_bytes : Z) (expected : option string) (o : S3Object) : result S3Object :=
  if decide (expected = None ∨ clean_etag <$> expected = Some (s3_etag (ob_data o))) then
    if decide (max_bytes < Z.of_nat (length (ob_data o))) then Err ObjectTooLargeError else Ok o
  else Err ObjectChangedError.

(** A download is the stored object, byte for byte, whatever pieces the transport
    delivers it in, and the read loop ends; an object over the limit, or one that
    is no longer the one announced, is refused. *)
Theorem download_is_exact `{Imaging} (key : string) (max_bytes : Z) (expected : option string) (w : CatWorld)
    (o : S3Object) (Hmax : 0 ≤ max_bytes) (Ho : cw_bucket w !! key = Some o)
    (Hparts : concat (s3_fragments (ob_data o)) = ob_data o) (Hpart : Forall (λ f, f ≠ []) (s3_fragments (ob_data o))) :
  download key max_bytes expected w = (expected_download max_bytes expected o, w).
Proof.
  assert (¬ max_bytes < Z.of_nat (length (ob_data o)) →
    read_body (S (length (ob_data o))) max_bytes (s3_fragments (ob_data o)) [] = Ok (ob_data o)) as Hr.
  { intros Hs. rewrite read_body_spec; [|done|rewrite Hparts; lia|simpl; lia]. rewrite app_nil_l, Hparts.
    by rewrite decide_False. }
  unfold download, expected_download. rewrite Ho. destruct expected as [e|].
  - destruct (decide (clean_etag e = s3_etag (ob_data o))) as [He|He].
    + rewrite bool_decide_true by done. cbn [negb].
      destruct (decide (Some e = None ∨ _)) as [_|Hn]; [|destruct Hn; right; simpl; by rewrite He]. case_decide; [done|]. rewrite Hr by done. by destruct o.
    + rewrite bool_decide_false by done. destruct (decide (Some e = None ∨ _)) as [[?|[=]]|_]; done.
  - destruct (decide (None = None ∨ _)) as [_|[]]; [|by left]. case_decide; [done|]. rewrite Hr by done. by destruct o.
Qed.
