(* ===== verification/CatalogScenarios.v ===== *)
(** * CatalogScenarios: concrete runs of the catalog

    A merchant with one product over a small imaging library; the witnesses of
    CatalogTheorems; and three behaviours that differ from what the comments
    promise: an edit without a net change spends a version it does not take, a
    session that forgot its instance overwrites a concurrent edit, and a redelivered
    notification can leave objects nobody will ever delete. *)

From Stdlib Require Import Ascii String.
From S2P Require Import Prelude Errors UnitOfWork Text Parse Sha256 Effects.
From S2P Require Import Cart CartFacts Catalog CatalogFacts ImageKeys CatalogService CatalogInv.
From S2P Require Import CatalogSafety CatalogTheorems.

(** ** The imaging library of the examples *)

Definition demo_imaging : Imaging := {|
  Raster := byte_list;
  sniff_mime := λ raw, match raw with 137 :: _ => "image/png" | _ => "text/plain" end;
  pil_open := λ raw, Some (Z.of_nat (length raw), 1, Some raw);
  thumbnail := λ n r, take (Z.to_nat n) r;
  webp := λ r, 82 :: r;
  s3_etag := λ b, nat_str (N.of_nat (length b));
  s3_fragments := λ b, (λ x, [x]) <$> b;
  exn_text := λ _, "error"
|}.
#[local] Existing Instance demo_imaging.

Definition demo_cat : CatSettings :=
  MkCatSettings (Some "https://cdn.example.org/") 1000 900 1600 40000 86400 3600.

Definition png : byte_list := [137; 80; 78; 71].
Definition merchant : N := 7.
Definition item : N := 1.

(** The ORM the comments describe, the one that skips an UPDATE without a net
    change, and the one whose identity map lost the instance. *)
Definition exact_orm : Orm := MkOrm true true.
Definition sqlalchemy : Orm := MkOrm true false.
Definition forgetful_orm : Orm := MkOrm false true.

Definition cat_state : Type := list (prog CatWorld unit) * CatWorld.
Definition reprice (price : Z) : ProductPatch := MkPatch None None None (Some price).

Definition add_mug : prog CatWorld unit := erase (svc_create_product demo_cat merchant "mug" None None 1250 tt).
Definition patch_mug (orm : Orm) (price : Z) (if_match : option Z) : prog CatWorld unit :=
  erase (svc_update_product demo_cat orm item merchant false (reprice price) if_match tt).
Definition drop_mug : prog CatWorld unit := erase (svc_delete_product exact_orm item merchant false None 5 tt).
Definition ask_upload : prog CatWorld unit :=
  erase (svc_presign demo_cat exact_orm item merchant false "image/png" 4 tt).
Definition send_png : prog CatWorld unit :=
  Atomic (client_upload (MkTicket item (tok 1) "image/png" 4) png) (λ _, Ret tt).
Definition notify : prog CatWorld unit := erase (ingest demo_cat (upload_key item (tok 1)) "4" tt).
Definition sweep : prog CatWorld unit := erase (housekeeping demo_cat (λ _, false) tt).

Definition with_mug : cat_state := arrive add_mug 10 ([], cat_start 1000).
Definition uploaded : cat_state := arrive send_png 1 (arrive ask_upload 10 with_mug).

(** The image is processed and the price changes. *)
Definition on_sale : cat_state := arrive (patch_mug exact_orm 999 (Some 3)) 10 (arrive notify 20 uploaded).

Lemma start_runs st : cat_runs demo_cat st ([], cat_start 1000).
Proof. by exists 1000. Qed.

Lemma exact_ok st : orm_ok st exact_orm.
Proof. by intros _. Qed.

Lemma on_sale_runs st : cat_runs demo_cat st on_sale.
Proof.
  unfold on_sale, uploaded, with_mug.
  do 5 (apply cat_runs_arrive; [constructor; apply exact_ok || constructor|]). apply start_runs.
Qed.

Definition mug_key : string := public_main_key item (tok 1) (content_version png).

Lemma live_images_are_served_witness :
  ∃ p o, live_row item (cw_db on_sale.2) = Some p ∧ p_image_key p = Some mug_key ∧ p_image_status p = ImgReady ∧
         cw_bucket on_sale.2 !! mug_key = Some o ∧ re_encoded demo_cat o.
Proof.
  destruct (live_images_are_served demo_cat true on_sale.2 (cat_runs_reachable _ _ _ (on_sale_runs true))) as [Hl _].
  assert (∃ p, live_row item (cw_db on_sale.2) = Some p ∧ p_image_key p = Some mug_key ∧ p_image_status p = ImgReady)
    as (p & Hp & Hk & Hs) by (eexists; split_and!; vm_compute; reflexivity).
  destruct (Hl item p mug_key Hp Hk) as [_ Ho].
  assert (mug_key ∈ public_rendition_keys mug_key) as Hin by (unfold mug_key; rewrite rendition_keys; apply elem_of_cons; left; reflexivity).
  destruct (Ho mug_key Hin) as (o & Hb & He). exact (ex_intro _ p (ex_intro _ o (conj Hp (conj Hk (conj Hs (conj Hb He)))))).
Defined.

(** The events of [on_sale], last first and repeated. *)
Definition late_events : list ProductEvent :=
  let es := omap cart_event (cat_outbox (cw_db on_sale.2)) in reverse es ++ es.

Lemma late_events_same e : e ∈ late_events ↔ e ∈ omap cart_event (cat_outbox (cw_db on_sale.2)).
Proof. unfold late_events. rewrite elem_of_app, elem_of_reverse. tauto. Qed.


Lemma download_is_exact_witness :
  download (upload_key item (tok 1)) 1000 (Some "4") uploaded.2 = (Ok (MkObject png (Some "image/png")), uploaded.2).
Proof.
  assert (cw_bucket uploaded.2 !! upload_key item (tok 1) = Some (MkObject png (Some "image/png"))) as Ho
    by (vm_compute; reflexivity).
  assert (concat (s3_fragments png) = png) as Hc by reflexivity.
  assert (Forall (λ f, f ≠ []) (s3_fragments png)) as Hn by (repeat constructor; discriminate).
  rewrite (download_is_exact (upload_key item (tok 1)) 1000 (Some "4") uploaded.2 (MkObject png (Some "image/png"))
    ltac:(lia) Ho Hc Hn). reflexivity.
Defined.

(** ** Divergences *)

Definition after_noop : cat_state :=
  arrive (patch_mug sqlalchemy 999 None) 10 (arrive (patch_mug sqlalchemy 1250 None) 10 with_mug).

(** A PATCH that changes nothing is not written, so the version stays; its event
    has announced the next version all the same.  The next real edit takes that
    version, and carts that saw the first event ignore the second: they keep the
    old price although the events arrived in order. *)
Theorem noop_edit_hides_the_next :
  cat_runs demo_cat false after_noop ∧
  option_map (λ p, (p_price p, p_version p)) (live_row item (cw_db after_noop.2)) = Some (999, 2) ∧
  projections (deliver (omap cart_event (cat_outbox (cw_db after_noop.2))) (MkStore ∅ ∅)) !! item =
    Some (Live (Some 2) "mug" "12.50").
Proof.
  split; [|split; vm_compute; reflexivity]. unfold after_noop, with_mug.
  do 3 (apply cat_runs_arrive; [constructor; discriminate || constructor|]). apply start_runs.
Qed.

Definition overwritten : cat_state :=
  drain 10 1 (arrive (patch_mug forgetful_orm 800 (Some 1)) 10
    (arrive (patch_mug forgetful_orm 700 (Some 1)) 1 with_mug)).

(** A session whose first read was forgotten reloads the row a concurrent edit has
    already advanced: an edit made under [If-Match: 1] overwrites version 2 without
    a 409, and two events carry version 2. *)
Theorem forgotten_instance_loses_update :
  cat_runs demo_cat false overwritten ∧
  option_map (λ p, (p_price p, p_version p)) (live_row item (cw_db overwritten.2)) = Some (700, 3) ∧
  (λ e, (event_version e)) <$> cat_outbox (cw_db overwritten.2) = [1; 2; 2].
Proof.
  split; [|split; vm_compute; reflexivity]. unfold overwritten, with_mug. apply cat_runs_drain.
  do 3 (apply cat_runs_arrive; [constructor; discriminate || constructor|]). apply start_runs.
Qed.

Definition leaked : cat_state :=
  drain 5 1 (arrive notify 20 (arrive sweep 5 (arrive notify 8 (arrive drop_mug 10 uploaded)))).

(** The product is deleted while its image is processed; the worker queues the
    renditions and dies.  While the sweep that deleted them has not yet removed its
    entry, the redelivered notification writes them again and finds the entry still
    there; the sweep then removes it.  The objects stay for good. *)
Theorem redelivery_leaks_renditions :
  cat_runs demo_cat true leaked ∧
  live_row item (cw_db leaked.2) = None ∧ reclaims (cw_db leaked.2) = [] ∧
  bool_decide (is_Some (cw_bucket leaked.2 !! mug_key)) = true.
Proof.
  split; [|split_and!; vm_compute; reflexivity]. unfold leaked, uploaded, with_mug. apply cat_runs_drain.
  do 7 (apply cat_runs_arrive; [constructor; apply exact_ok || constructor|]). apply start_runs.
Qed.
