(* ===== verification/ProductCache.v ===== *)
(** * ProductCache: the cache-aside product read

    [ValkeyProductCache] (src/catalog/adapters/cache.py), the read path of
    src/catalog/application/service.py ([get_product] and everything below it) and
    the invalidation handler of src/catalog/adapters/cache_worker.py, as coroutines
    over the product rows, the cache keys, the fill locks and the clock.

    The JSON of a response is a parameter ([ResponseCodec]).  The waits have no
    bound of their own (a waiter may be promoted and lose again): [fuel] bounds the
    polls and rounds, and a request that outlives it is one whose client went away.
    [Choices] are what the environment decides in a round: how often the lock is
    renewed before and after the row is read, and the jitter.

    [kw_floor] is a ghost: the rows as they were when the last invalidation of a
    product was handled.  The theorem about the file says that no read and no
    cached value is older than that. *)

From Stdlib Require Import String.
From S2P Require Import Prelude Errors UnitOfWork Text Parse Sha256 Effects.
From S2P Require Import Catalog CatalogFacts ImageKeys CatalogService.

(** [model_dump_json(exclude={"available"})] and [model_validate_json] *)
Class ResponseCodec := {
  dump_response : ProductResponse → string;
  parse_response : string → option ProductResponse
}.

(** [MISS] *)
Definition MISS : string := String (Ascii.ascii_of_N 0) "miss".

(** [CacheOutcome] *)
Inductive CacheOutcome := HIT | MISSED | BYPASS.

(** Keys [product:{id}] and [product:lock:{id}], each with its expiry. *)
Record CacheStore := MkCache {
  cs_values : gmap N (string * Z);
  cs_locks : gmap N (N * Z);
  cs_tokens : N
}.

Record CacheWorld := MkCacheWorld {
  kw_db : CatalogDB;
  kw_stock : gmap string Z;
  kw_cache : CacheStore;
  kw_now : Z;
  kw_floor : gmap N CatalogDB
}.

Definition set_cache (c : CacheStore) (w : CacheWorld) : CacheWorld :=
  MkCacheWorld (kw_db w) (kw_stock w) c (kw_now w) (kw_floor w).

Definition cache_lens : Lens CacheWorld CacheStore := MkLens kw_cache set_cache.
Definition cache_op {A} (m : Z → ST CacheStore A) : ST CacheWorld A := λ w, zoom cache_lens (m (kw_now w)) w.

Definition set_values (v : gmap N (string * Z)) (c : CacheStore) : CacheStore := MkCache v (cs_locks c) (cs_tokens c).
Definition set_locks (l : gmap N (N * Z)) (c : CacheStore) : CacheStore := MkCache (cs_values c) l (cs_tokens c).

(** ** The commands *)

(** [get] *)
Definition cache_get (now : Z) (pid : N) : ST CacheStore (option string) := λ c, (Ok (alive now (cs_values c !! pid)), c).

Definition owns (now : Z) (pid token : N) (c : CacheStore) : Prop := alive now (cs_locks c !! pid) = Some token.
#[export] Instance owns_dec now pid token c : Decision (owns now pid token c).
Proof. unfold owns. apply _. Defined.

(** [_STORE_IF_OWNER_LUA] *)
Definition store_if_owner (now : Z) (pid : N) (payload : string) (token : N) (ttl : Z) : ST CacheStore bool := λ c,
  if decide (owns now pid token c) then (Ok true, set_values (<[pid := (payload, now + ttl)]> (cs_values c)) c)
  else (Ok false, c).

(** [_INVALIDATE_LUA] *)
Definition invalidate (pid : N) : ST CacheStore unit :=
  modify (λ c, MkCache (delete pid (cs_values c)) (delete pid (cs_locks c)) (cs_tokens c)).

(** [_EVICT_VALUE_LUA] *)
Definition evict_value (now : Z) (pid : N) (expected : string) : ST CacheStore unit := λ c,
  if decide (alive now (cs_values c !! pid) = Some expected) then (Ok tt, set_values (delete pid (cs_values c)) c)
  else (Ok tt, c).

(** [acquire_fill_lock] with the token [uuid4().hex] drawn for it. *)
Definition acquire_fill_lock (now : Z) (pid : N) (lock_ttl : Z) : ST CacheStore (option N) := λ c,
  match alive now (cs_locks c !! pid) with
  | Some _ => (Ok None, c)
  | None => (Ok (Some (cs_tokens c)),
             MkCache (cs_values c) (<[pid := (cs_tokens c, now + lock_ttl)]> (cs_locks c)) (cs_tokens c + 1))
  end.

(** [_RENEW_LOCK_LUA] *)
Definition renew_fill_lock (now : Z) (pid token : N) (lock_ttl : Z) : ST CacheStore bool := λ c,
  if decide (owns now pid token c) then (Ok true, set_locks (<[pid := (token, now + lock_ttl)]> (cs_locks c)) c)
  else (Ok false, c).

(** [_RELEASE_LOCK_LUA] *)
Definition release_fill_lock (now : Z) (pid token : N) : ST CacheStore unit := λ c,
  if decide (owns now pid token c) then (Ok tt, set_locks (delete pid (cs_locks c)) c) else (Ok tt, c).

(** [fill_lock_held] *)
Definition fill_lock_held (now : Z) (pid : N) : ST CacheStore bool := λ c,
  (Ok (match alive now (cs_locks c !! pid) with Some _ => true | None => false end), c).

(** ** The read path *)

Record CacheSettings := MkCacheSettings {
  kc_base : option string;
  kc_ttl : Z;
  kc_negative_ttl : Z;
  kc_lock_ttl : Z;
  kc_max_fill_wait : Z
}.

Record Choices := MkChoices { ch_renew_before : nat; ch_renew_after : nat; ch_jitter : Z }.

Section Read.
Context `{ResponseCodec} (cfg : CacheSettings) (choices : nat → Choices) (pid : N).

(** The local is [cache_read.outcome]. *)
Notation reader := (frame CacheWorld (option CacheOutcome)).

Definition record_outcome (o : CacheOutcome) : reader unit := set_locals (λ _, Some o).

Definition lift {A} (r : result A) : reader A := match r with Ok a => mret a | Err e => throw e end.

(** [_load_product] *)
Definition load_product : reader (option ProductResponse) :=
  try_catch
    (p ← await (λ w, (Ok (live_row pid (kw_db w)), w));
     match p with
     | None => mret None
     | Some p => r ← lift (to_product_response (kc_base cfg) p); mret (Some r)
     end)
    (λ e, if is_Exception e then throw (RepositoryFailure e) else throw e).

(** [_decode_or_evict] *)
Definition decode_or_evict (cached : string) : reader (bool * option ProductResponse) :=
  if decide (cached = MISS) then mret (true, None)
  else match parse_response cached with
  | Some r => r' ← lift (to_product_response (kc_base cfg) (pr_product r)); mret (true, Some r')
  | None => await (cache_op (λ now, evict_value now pid cached)) ;; mret (false, None)
  end.

(** [cached = await get; if cached is not None: hit, value = decode_or_evict] *)
Definition try_cache : reader (option (bool * option ProductResponse)) :=
  cached ← await (cache_op (λ now, cache_get now pid));
  match cached with
  | None => mret None
  | Some payload => d ← decode_or_evict payload; mret (Some d)
  end.

Definition renew (token : N) : reader unit :=
  await (cache_op (λ now, renew_fill_lock now pid token (kc_lock_ttl cfg))) ;; mret tt.

(** [_fill_holding_lock] *)
Definition fill_holding_lock (ch : Choices) (token : N) : reader (option ProductResponse) :=
  iterate (repeat tt (ch_renew_before ch)) (λ _, renew token) ;;
  response ← load_product;
  iterate (repeat tt (ch_renew_after ch)) (λ _, renew token) ;;
  (match response with
   | Some r => await (cache_op (λ now, store_if_owner now pid (dump_response r) token (kc_ttl cfg + ch_jitter ch)))
   | None => await (cache_op (λ now, store_if_owner now pid MISS token (kc_negative_ttl cfg)))
   end) ;;
  mret response.

(** What the body of [_read_through] does under the lock. *)
Definition fill_under_lock (ch : Choices) (token : N) : reader (option ProductResponse) :=
  try_finally
    (again ← try_cache;
     match again with
     | Some (true, value) => record_outcome HIT ;; mret value
     | _ =>
         response ← fill_holding_lock ch token;
         record_outcome MISSED ;;
         mret response
     end)
    (try_catch (await (cache_op (λ now, release_fill_lock now pid token)))
               (λ e, if is_Exception e then mret tt else throw e)).

(** The [while] of [_await_fill]; [None] leaves it. *)
Fixpoint poll_fill (polls : nat) (deadline : Z) : reader (option (option ProductResponse)) :=
  match polls with
  | O => throw (CancelledError OutsideCancel)
  | S n =>
      held ← await (cache_op (λ now, fill_lock_held now pid));
      if negb held then mret None
      else
        got ← try_cache;
        match got with
        | Some (true, value) => record_outcome HIT ;; mret (Some value)
        | Some (false, _) => mret None
        | None =>
            now ← await (λ w, (Ok (kw_now w), w));
            if decide (deadline ≤ now) then
              response ← load_product;
              record_outcome BYPASS ;;
              mret (Some response)
            else
              await (mret tt) ;;
              poll_fill n deadline
        end
  end.

(** [_await_fill] *)
Definition await_fill (polls : nat) (promote : reader (option ProductResponse)) : reader (option ProductResponse) :=
  start ← await (λ w, (Ok (kw_now w), w));
  answer ← poll_fill polls (start + kc_max_fill_wait cfg);
  match answer with
  | Some value => mret value
  | None =>
      got ← try_cache;
      match got with
      | Some (true, value) => record_outcome HIT ;; mret value
      | _ => promote
      end
  end.

(** [_read_through] *)
Fixpoint read_through (fuel : nat) : reader (option ProductResponse) :=
  match fuel with
  | O => throw (CancelledError OutsideCancel)
  | S n =>
      won ← await (cache_op (λ now, acquire_fill_lock now pid (kc_lock_ttl cfg)));
      match won with
      | Some token => fill_under_lock (choices n) token
      | None => await_fill n (read_through n)
      end
  end.

(** [_get_product_cached] *)
Definition get_product_cached (fuel : nat) : reader (option ProductResponse) :=
  try_catch
    (got ← try_cache;
     match got with
     | Some (true, value) => record_outcome HIT ;; mret value
     | _ => read_through fuel
     end)
    (λ e, match e with
          | RepositoryFailure _ => throw e
          | _ => if is_Exception e then record_outcome BYPASS ;; load_product else throw e
          end).

(** [_attach_availability] for the items of one answer *)
Definition with_available (stock : gmap string Z) (r : ProductResponse) : ProductResponse :=
  MkProductResponse (pr_product r) (pr_image_url r) (pr_thumbnails r) (stock !! uuid_str (p_id (pr_product r))).

Definition attach_availability (items : list ProductResponse) : reader (list ProductResponse) :=
  match items with
  | [] => mret []
  | _ => stocked ← await (λ w, (Ok (kw_stock w), w)); mret (with_available stocked <$> items)
  end.

(** [get_product] *)
Definition svc_get_product (fuel : nat) : reader (option ProductResponse) :=
  response ← try_catch (get_product_cached fuel)
               (λ e, match e with RepositoryFailure cause => throw cause | e => throw e end);
  match response with
  | None => mret None
  | Some r => items ← attach_availability [r]; mret (head items)
  end.
End Read.

(** [make_invalidation_handler]; the ghost notes the rows. *)
Definition handle_invalidation (pid : N) : ST CacheWorld unit := λ w,
  let '(r, c) := invalidate pid (kw_cache w) in
  (r, MkCacheWorld (kw_db w) (kw_stock w) c (kw_now w) (<[pid := kw_db w]> (kw_floor w))).
