(* ===== verification/ProductCacheFacts.v ===== *)
(** * ProductCacheFacts: no read is older than the last handled invalidation

    The invariant of the cache: every value under a key is what a read of the rows
    made at some moment after the last handled invalidation of that product would
    answer.  It is kept by any number of concurrent readers, fillers, renewals,
    lapsed locks, corrupt entries, invalidations and product writes. *)

From Stdlib Require Import String.
From S2P Require Import Prelude Errors UnitOfWork Text Parse Sha256 Effects.
From S2P Require Import Catalog CatalogFacts ImageKeys CatalogService ProductCache.

Section Facts.
Context `{ResponseCodec} (cfg : CacheSettings).

(** What a read of the rows [d] answers. *)
Definition answers (d : CatalogDB) (pid : N) (a : option ProductResponse) : Prop :=
  match live_row pid d, a with
  | None, None => True
  | Some p, Some r => to_product_response (kc_base cfg) p = Ok r
  | _, _ => False
  end.

(** Rows seen after the last handled invalidation of [pid]. *)
Definition fresh_for (w : CacheWorld) (pid : N) (d : CatalogDB) : Prop :=
  (∀ F, kw_floor w !! pid = Some F → rows_evolve F d) ∧ rows_evolve d (kw_db w).

Definition encodes (payload : string) (a : option ProductResponse) : Prop :=
  match a with None => payload = MISS | Some r => payload = dump_response r end.

Definition value_ok (w : CacheWorld) (pid : N) (payload : string) : Prop :=
  (∃ d a, fresh_for w pid d ∧ answers d pid a ∧ encodes payload a) ∨
  (payload ≠ MISS ∧ parse_response payload = None).

Record KInv (w : CacheWorld) : Prop := {
  ki_tokens : ∀ pid t e, cs_locks (kw_cache w) !! pid = Some (t, e) → (t < cs_tokens (kw_cache w))%N;
  ki_floor : ∀ pid F, kw_floor w !! pid = Some F → rows_evolve F (kw_db w);
  ki_values : ∀ pid s e, cs_values (kw_cache w) !! pid = Some (s, e) → value_ok w pid s
}.

Definition token_of (w : CacheWorld) (pid : N) : option N := fst <$> cs_locks (kw_cache w) !! pid.

(** A lock that outlives a step was not invalidated. *)
Record kevolves (w w' : CacheWorld) : Prop := {
  ke_rows : rows_evolve (kw_db w) (kw_db w');
  ke_tokens : (cs_tokens (kw_cache w) ≤ cs_tokens (kw_cache w'))%N;
  ke_floor : ∀ pid F, kw_floor w !! pid = Some F → ∃ F', kw_floor w' !! pid = Some F' ∧ rows_evolve F F';
  ke_lock : ∀ pid t, (t < cs_tokens (kw_cache w))%N → token_of w' pid = Some t →
    token_of w pid = Some t ∧ kw_floor w' !! pid = kw_floor w !! pid
}.

#[local] Instance kevolves_preorder : PreOrder kevolves.
Proof.
  split.
  - intros w. split; [done|lia| |done]. intros pid F HF. by exists F.
  - intros w1 w2 w3 [R1 T1 F1 L1] [R2 T2 F2 L2]. split; [by etrans|lia|..].
    + intros pid F HF. destruct (F1 _ _ HF) as (G & HG & ?). destruct (F2 _ _ HG) as (K & HK & ?).
      exists K. split; [done|by etrans].
    + intros pid t Ht Hl. destruct (L2 pid t ltac:(lia) Hl) as [Hl2 HF2]. destruct (L1 pid t Ht Hl2) as [Hl1 HF1].
      split; [done|congruence].
Qed.

(** ** Steps *)

(** A step of the cache keys alone. *)
Lemma cache_step w c :
  KInv w → (cs_tokens (kw_cache w) ≤ cs_tokens c)%N →
  (∀ pid t e, cs_locks c !! pid = Some (t, e) →
     ((t < cs_tokens (kw_cache w))%N → ∃ e', cs_locks (kw_cache w) !! pid = Some (t, e')) ∧ (t < cs_tokens c)%N) →
  (∀ pid s e, cs_values c !! pid = Some (s, e) → cs_values (kw_cache w) !! pid = Some (s, e) ∨ value_ok w pid s) →
  KInv (set_cache c w) ∧ kevolves w (set_cache c w).
Proof.
  intros [Ht Hf Hv] Hle Hl Hnv. split; split; simpl; try done.
  - intros pid t e He. by apply (Hl pid t e).
  - intros pid s e Hs. destruct (Hnv _ _ _ Hs) as [Hold|?]; [|done]. exact (Hv _ _ _ Hold).
  - intros pid F HF. by exists F.
  - intros pid t Hlt Htk. split; [|done]. unfold token_of in *. simpl in Htk.
    destruct (cs_locks c !! pid) as [[t' e]|] eqn:E; [|done]. simpl in Htk. injection Htk as ->.
    destruct (Hl _ _ _ E) as [Ho _]. destruct (Ho Hlt) as [e' ->]. done.
Qed.

Lemma same_cache_step w : KInv w → KInv (set_cache (kw_cache w) w) ∧ kevolves w (set_cache (kw_cache w) w).
Proof. by destruct w. Qed.

Lemma locks_keep w : KInv w → ∀ pid t e, cs_locks (kw_cache w) !! pid = Some (t, e) →
  ((t < cs_tokens (kw_cache w))%N → ∃ e', cs_locks (kw_cache w) !! pid = Some (t, e')) ∧ (t < cs_tokens (kw_cache w))%N.
Proof. intros HI pid t e He. split; [by eauto|]. by eapply (ki_tokens _ HI). Qed.

Lemma value_store_step w pid payload token ttl :
  KInv w → (owns (kw_now w) pid token (kw_cache w) → value_ok w pid payload) →
  let w' := (cache_op (λ now, store_if_owner now pid payload token ttl) w).2 in KInv w' ∧ kevolves w w'.
Proof.
  intros HI Hok. unfold cache_op, zoom, store_if_owner. simpl. case_decide; simpl; [|by apply same_cache_step].
  apply cache_step; [done|done|by apply locks_keep|]. simpl. intros i s e.
  rewrite lookup_insert_Some. intros [[<- [= <- _]]|[_ ?]]; [right; by apply Hok|by left].
Qed.

Lemma evict_step w pid s :
  KInv w → let w' := (cache_op (λ now, evict_value now pid s) w).2 in KInv w' ∧ kevolves w w'.
Proof.
  intros HI. unfold cache_op, zoom, evict_value. simpl. case_decide; simpl; [|by apply same_cache_step].
  apply cache_step; [done|done|by apply locks_keep|]. simpl. intros i s' e [_ ?]%lookup_delete_Some. by left.
Qed.

Lemma renew_step w pid token ttl :
  KInv w → let w' := (cache_op (λ now, renew_fill_lock now pid token ttl) w).2 in KInv w' ∧ kevolves w w'.
Proof.
  intros HI. unfold cache_op, zoom, renew_fill_lock. simpl. case_decide as Ho; simpl; [|by apply same_cache_step].
  apply alive_Some in Ho as [e Ho]. apply cache_step; [done|done| |by left]. simpl. intros i t e'.
  rewrite lookup_insert_Some. intros [[<- [= <- _]]|[_ ?]]; [|by eapply locks_keep].
  split; [by eauto|]. by eapply (ki_tokens _ HI).
Qed.

Lemma release_step w pid token :
  KInv w → let w' := (cache_op (λ now, release_fill_lock now pid token) w).2 in KInv w' ∧ kevolves w w'.
Proof.
  intros HI. unfold cache_op, zoom, release_fill_lock. simpl. case_decide as Ho; simpl; [|by apply same_cache_step].
  apply cache_step; [done|done| |by left]. simpl. intros i t e' [_ ?]%lookup_delete_Some. by eapply locks_keep.
Qed.

(** Winning the lock: its token is new. *)
Lemma acquire_step w pid ttl :
  KInv w →
  let x := cache_op (λ now, acquire_fill_lock now pid ttl) w in
  (KInv x.2 ∧ kevolves w x.2) ∧
  ∀ t, x.1 = Ok (Some t) → (t < cs_tokens (kw_cache x.2))%N ∧ kw_db x.2 = kw_db w ∧ kw_floor x.2 = kw_floor w.
Proof.
  intros HI. unfold cache_op, zoom, acquire_fill_lock. simpl.
  destruct (alive _ _) eqn:Ea; simpl; [split; [by apply same_cache_step|done]|].
  split; [|intros t [= <-]; split_and!; simpl; [lia|done|done]].
  apply cache_step; simpl; [done|lia| |by left]. intros i t e. rewrite lookup_insert_Some.
  intros [[<- [= <- _]]|[_ Hi]]; [lia|]. split; [by eauto|]. pose proof (ki_tokens _ HI _ _ _ Hi). lia.
Qed.

Lemma invalidation_step w pid : KInv w → let w' := (handle_invalidation pid w).2 in KInv w' ∧ kevolves w w'.
Proof.
  intros [Ht Hf Hv]. unfold handle_invalidation, invalidate, modify. simpl. split; split; simpl; try done.
  - intros i t e [_ Hi]%lookup_delete_Some. by eapply Ht.
  - intros i F. rewrite lookup_insert_Some. intros [[<- <-]|[_ HF]]; [done|by eapply Hf].
  - intros i s e [Hne Hi]%lookup_delete_Some. destruct (Hv _ _ _ Hi) as [(d & a & [Hfd Hd] & Ha)|?]; [|by right].
    left. exists d, a. split; [|done]. split; [|done]. simpl. intros F. rewrite lookup_insert_ne by done. apply Hfd.
  - intros i F HF. destruct (decide (i = pid)) as [->|Hne].
    + exists (kw_db w). rewrite lookup_insert_eq. split; [done|]. by eapply Hf.
    + exists F. by rewrite lookup_insert_ne.
  - intros i t _ Htk. unfold token_of in *. simpl in Htk. destruct (decide (i = pid)) as [->|Hne].
    + by rewrite lookup_delete_eq in Htk.
    + rewrite lookup_delete_ne in Htk by done. by rewrite lookup_insert_ne.
Qed.

(** A product write by anybody. *)
Lemma write_step w d' :
  KInv w → rows_evolve (kw_db w) d' →
  let w' := MkCacheWorld d' (kw_stock w) (kw_cache w) (kw_now w) (kw_floor w) in KInv w' ∧ kevolves w w'.
Proof.
  intros [Ht Hf Hv] Hd. split; split; simpl; try done.
  - intros pid F HF. etrans; [by eapply Hf|done].
  - intros pid s e Hs. destruct (Hv _ _ _ Hs) as [(d & a & [Hfd Hdd] & Ha)|?]; [|by right].
    left. exists d, a. split; [|done]. split; [done|]. simpl. by etrans.
  - intros pid F HF. by exists F.
Qed.

(** ** One read *)

Context (dump_parse : ∀ r, pr_available r = None → parse_response (dump_response r) = Some r).
Context (dump_not_MISS : ∀ r, dump_response r ≠ MISS).
Context (choices : nat → Choices) (pid : N).
Context (w0 : CacheWorld) (Hw0 : KInv w0).
Notation WPT := (wpt KInv kevolves).

(** An answer no older than the last invalidation handled before [w0]. *)
Definition served (a : option ProductResponse) (w : CacheWorld) : Prop :=
  ∃ d, (∀ F, kw_floor w0 !! pid = Some F → rows_evolve F d) ∧ rows_evolve d (kw_db w) ∧ answers d pid a.

Lemma served_stable a w w' : kevolves w w' → served a w → served a w'.
Proof. intros He (d & HF & Hd & Ha). exists d. split_and!; [done| |done]. etrans; [exact Hd|exact (ke_rows _ _ He)]. Qed.

Lemma response_of p r : to_product_response (kc_base cfg) p = Ok r → pr_product r = p ∧ pr_available r = None.
Proof. unfold to_product_response. intros E. simp_hyp E. done. Qed.

Lemma fresh_served w d a : kevolves w0 w → fresh_for w pid d → answers d pid a → served a w.
Proof.
  intros He [HF Hd] Ha. exists d. split_and!; [|done|done]. intros F HF0.
  destruct (ke_floor _ _ He _ _ HF0) as (F' & HF' & Hev). etrans; [exact Hev|by apply HF].
Qed.

Lemma value_decodes w payload :
  kevolves w0 w → value_ok w pid payload →
  (payload = MISS → served None w) ∧
  (∀ r, payload ≠ MISS → parse_response payload = Some r →
     to_product_response (kc_base cfg) (pr_product r) = Ok r ∧ served (Some r) w).
Proof.
  intros He [(d & a & Hf & Ha & Hen)|[Hne Hp]]; [|split; [done|congruence]]. split.
  - intros ->. destruct a as [r|]; simpl in Hen; [by destruct (dump_not_MISS r)|]. by eapply fresh_served.
  - intros r Hne Hp. destruct a as [r0|]; simpl in Hen; [|done]. subst payload.
    assert (∃ p, live_row pid d = Some p ∧ to_product_response (kc_base cfg) p = Ok r0) as (p & Hl & Hr).
    { unfold answers in Ha. destruct (live_row pid d) as [p|]; [by exists p|done]. }
    destruct (response_of _ _ Hr) as [E1 E2]. rewrite dump_parse in Hp by done. injection Hp as <-.
    rewrite E1. split; [done|]. by eapply fresh_served.
Qed.

Definition got_ok (g : option (bool * option ProductResponse)) (w : CacheWorld) : Prop :=
  match g with Some (true, a) => served a w | _ => True end.

Lemma read_step {A} (m : ST CacheStore A) (w : CacheWorld) :
  (m (kw_cache w)).2 = kw_cache w → (zoom cache_lens m w).2 = w.
Proof. unfold zoom. simpl. destruct (m (kw_cache w)). simpl. intros ->. by destruct w. Qed.

Lemma try_cache_ok l w : kevolves w0 w → WPT (try_cache cfg pid) l got_ok w.
Proof.
  intros He. bind_with (λ o w', match o with Some p => value_ok w' pid p | None => True end).
  { rule wpt_await. intros w1 HI He1. assert ((cache_op (λ now, cache_get now pid) w1).2 = w1) as ->.
    { by apply read_step. }
    split; [done|]. intros o Eo. unfold cache_op, zoom, cache_get in Eo. simpl in Eo. injection Eo as <-.
    destruct (alive _ _) as [p|] eqn:Ea; [|done]. apply alive_Some in Ea as [e Ee]. by eapply (ki_values _ HI). }
  intros [payload|] l1 w1 He1 Hv; [|done].
  assert (kevolves w0 w1) as He01 by by etrans. destruct (value_decodes w1 payload He01 Hv) as [Hm Hr].
  bind_with (λ x w', got_ok (Some x) w').
  - unfold decode_or_evict. case_decide as Hc; [by apply Hm|].
    destruct (parse_response payload) as [r|] eqn:Ep.
    + destruct (Hr r Hc eq_refl) as [Et Hs]. bind_with (λ x w', x = r ∧ w' = w1); [by rewrite Et|].
      intros x l2 w2 _ [-> ->]. exact Hs.
    + bind_with (λ _ _, True); [|done]. rule wpt_await. intros w2 HI2 _. split; [by apply evict_step|done].
  - intros x l2 w2 _ Hx. exact Hx.
Qed.

(** Reading the rows. *)
Lemma load_ok l w :
  kevolves w0 w →
  WPT (load_product cfg pid) l (λ a w', ∃ d, rows_evolve (kw_db w) d ∧ rows_evolve d (kw_db w') ∧ answers d pid a) w.
Proof.
  intros He. rule wpt_try; [|intros e l' w' _; by destruct (is_Exception e)].
  bind_with (λ o w', rows_evolve (kw_db w) (kw_db w') ∧ o = live_row pid (kw_db w')).
  { rule wpt_await. intros w1 HI He1. split; [done|]. simpl. intros o [= <-]. split; [exact (ke_rows _ _ He1)|done]. }
  intros o l1 w1 _ [Hd ->]. destruct (live_row pid (kw_db w1)) as [p|] eqn:El.
  - bind_with (λ r w', to_product_response (kc_base cfg) p = Ok r ∧ w' = w1).
    { unfold lift. by destruct (to_product_response _ _). }
    intros r l2 w2 _ [Er ->]. exists (kw_db w1). split_and!; [done..|]. unfold answers. by rewrite El.
  - exists (kw_db w1). split_and!; [done..|]. unfold answers. by rewrite El.
Qed.

Lemma load_served l w : kevolves w0 w → WPT (load_product cfg pid) l served w.
Proof.
  intros He. eapply wpt_mono; [apply _| |by apply load_ok]. intros a w' _ (d & Hd & Hd' & Ha).
  exists d. split_and!; [|done|done]. intros F HF. etrans; [by eapply (ki_floor _ Hw0)|].
  etrans; [exact (ke_rows _ _ He)|done].
Qed.

Lemma renews_ok n t l w : WPT (iterate (repeat tt n) (λ _, renew cfg pid t)) l (λ _ _, True) w.
Proof.
  assert (Safe KInv kevolves (iterate (repeat tt n) (λ _, renew cfg pid t))) as Hs; [|apply Hs].
  rule Safe_iterate. intros x _. rule Safe_bind; [|intros ?; apply Safe_ret]. rule Safe_await.
  intros w1 HI. by apply renew_step.
Qed.

Lemma owner_fresh w w' t d :
  kevolves w w' → (t < cs_tokens (kw_cache w))%N → owns (kw_now w') pid t (kw_cache w') →
  (∀ F, kw_floor w !! pid = Some F → rows_evolve F d) → rows_evolve d (kw_db w') → fresh_for w' pid d.
Proof.
  intros He Ht [e Ho]%alive_Some HF Hd. split; [|done]. intros F HF'.
  assert (token_of w' pid = Some t) as Htk by (unfold token_of; by rewrite Ho).
  destruct (ke_lock _ _ He pid t Ht Htk) as [_ Hfl]. apply HF. by rewrite <- Hfl.
Qed.

Lemma fill_ok wa ch t l w :
  kevolves w0 wa → kevolves wa w → (t < cs_tokens (kw_cache wa))%N →
  (∀ F, kw_floor wa !! pid = Some F → rows_evolve F (kw_db wa)) →
  WPT (fill_holding_lock cfg pid ch t) l served w.
Proof.
  intros He0 He Ht HF. bind_with (λ _ _, True); [apply renews_ok|]. intros _ l1 w1 Hew1 _.
  assert (kevolves wa w1) as He1 by by etrans. assert (kevolves w0 w1) as He01 by by etrans.
  bind_with (λ a w', ∃ d, rows_evolve (kw_db w1) d ∧ rows_evolve d (kw_db w') ∧ answers d pid a); [by apply load_ok|].
  intros a l2 w2 He2 (d & Hd1 & Hd2 & Ha). bind_with (λ _ _, True); [apply renews_ok|]. intros _ l3 w3 He3 _.
  assert (∀ F, kw_floor wa !! pid = Some F → rows_evolve F d) as HFd.
  { intros F HF'. etrans; [by apply HF|]. etrans; [exact (ke_rows _ _ He1)|done]. }
  assert (∀ F, kw_floor w0 !! pid = Some F → rows_evolve F d) as HFd0.
  { intros F HF'. etrans; [by eapply (ki_floor _ Hw0)|]. etrans; [exact (ke_rows _ _ He01)|done]. }
  assert (∀ w4, kevolves w3 w4 → rows_evolve d (kw_db w4)) as Hdb.
  { intros w4 He4. etrans; [exact Hd2|]. etrans; [exact (ke_rows _ _ He3)|exact (ke_rows _ _ He4)]. }
  assert (∀ payload ttl l w', kevolves w3 w' → encodes payload a →
    WPT (await (cache_op (λ now, store_if_owner now pid payload t ttl)) : frame CacheWorld (option CacheOutcome) bool) l
      (λ _ w', rows_evolve d (kw_db w')) w') as Hst.
  { intros payload ttl l' w' He' Hen. rule wpt_await. intros w4 HI4 He4. assert (kevolves w3 w4) as He34 by by etrans.
    assert (kevolves wa w4) as Hw4 by (etrans; [exact He1|]; etrans; [exact He2|]; by etrans).
    destruct (value_store_step w4 pid payload t ttl HI4) as [HI5 He5].
    { intros Hown. left. exists d, a. split; [|done]. eapply (owner_fresh wa w4); [done..|]. by apply Hdb. }
    split; [done|]. intros _ _. etrans; [by apply Hdb|exact (ke_rows _ _ He5)]. }
  bind_with (λ _ w', rows_evolve d (kw_db w')); [destruct a; by apply Hst|].
  intros _ l4 w4 _ Hd4. by exists d.
Qed.

Lemma under_lock_ok ch t l w :
  kevolves w0 w → (t < cs_tokens (kw_cache w))%N → (∀ F, kw_floor w !! pid = Some F → rows_evolve F (kw_db w)) →
  WPT (fill_under_lock cfg pid ch t) l served w.
Proof.
  intros He Ht HF. rule wpt_finally.
  - intros a w1 w2. apply served_stable.
  - bind_with got_ok; [by apply try_cache_ok|]. intros g l1 w1 He1 Hg.
    assert (WPT (fill_holding_lock cfg pid ch t ≫= λ response, record_outcome MISSED ;; mret response) l1 served w1) as Hfill.
    { bind_with served; [|by intros a l2 w2 _ Hs].
      by apply (fill_ok w). }
    destruct g as [[[|] a]|]; [exact Hg|exact Hfill|exact Hfill].
  - intros l1 w1 _. rule wpt_try; [|intros e l2 w2 _; by destruct (is_Exception e)].
    rule wpt_await. intros w2 HI2 _. split; [by apply release_step|done].
Qed.

Lemma poll_ok polls deadline l w :
  kevolves w0 w → WPT (poll_fill cfg pid polls deadline) l (λ o w', match o with Some a => served a w' | None => True end) w.
Proof.
  revert l w. induction polls as [|n IH]; intros l w He; simpl; [done|].
  bind_with (λ _ _, True).
  { rule wpt_await. intros w1 HI _. split; [|done].
    assert ((cache_op (λ now, fill_lock_held now pid) w1).2 = w1) as -> by by apply read_step. done. }
  intros [|] l1 w1 He1 _; simpl; [|done]. assert (kevolves w0 w1) as He01 by by etrans.
  bind_with got_ok; [by apply try_cache_ok|]. intros [[[|] a]|] l2 w2 He2 Hg; [exact Hg|done|].
  assert (kevolves w0 w2) as He02 by by etrans.
  bind_with (λ _ _, True); [by rule wpt_await|]. intros now l3 w3 He3 _. assert (kevolves w0 w3) as He03 by by etrans.
  case_decide.
  - bind_with served; [by apply load_served|]. by intros a l4 w4 _ Hs.
  - bind_with (λ _ _, True); [by rule wpt_await|]. intros _ l4 w4 He4 _. apply IH. by etrans.
Qed.

Lemma read_through_ok fuel l w : kevolves w0 w → WPT (read_through cfg choices pid fuel) l served w.
Proof.
  revert l w. induction fuel as [|n IH]; intros l w He; simpl; [done|].
  bind_with (λ o w', match o with
    | Some t => (t < cs_tokens (kw_cache w'))%N ∧ ∀ F, kw_floor w' !! pid = Some F → rows_evolve F (kw_db w')
    | None => True end).
  { rule wpt_await. intros w1 HI He1. destruct (acquire_step w1 pid (kc_lock_ttl cfg) HI) as [[HI2 He2] Ht].
    split; [done|]. intros [t|] Et; [|done]. destruct (Ht t Et) as (Hlt & Hdb & Hfl). split; [done|].
    rewrite Hdb, Hfl. by apply (ki_floor _ HI). }
  intros [t|] l1 w1 He1 Ho; assert (kevolves w0 w1) as He01 by by etrans.
  - destruct Ho as [Hlt HF]. by apply under_lock_ok.
  - unfold await_fill. bind_with (λ _ _, True); [by rule wpt_await|]. intros start l2 w2 He2 _.
    assert (kevolves w0 w2) as He02 by by etrans.
    bind_with (λ o w', match o with Some a => served a w' | None => True end); [by apply poll_ok|].
    intros [a|] l3 w3 He3 Ha; [exact Ha|]. assert (kevolves w0 w3) as He03 by by etrans.
    bind_with got_ok; [by apply try_cache_ok|]. intros g l4 w4 He4 Hg.
    assert (kevolves w0 w4) as He04 by by etrans.
    destruct g as [[[|] a]|]; [exact Hg|by apply IH|by apply IH].
Qed.

Lemma get_cached_ok fuel l w : kevolves w0 w → WPT (get_product_cached cfg choices pid fuel) l served w.
Proof.
  intros He. rule wpt_try.
  - bind_with got_ok; [by apply try_cache_ok|]. intros g l1 w1 He1 Hg. assert (kevolves w0 w1) as He01 by by etrans.
    destruct g as [[[|] a]|]; [exact Hg|by apply read_through_ok|by apply read_through_ok].
  - intros e l1 w1 He1. assert (kevolves w0 w1) as He01 by by etrans.
    assert (WPT (record_outcome BYPASS ;; load_product cfg pid) l1 served w1) as Hb.
    { bind_with (λ _ w', w' = w1); [done|]. intros _ l2 w2 _ ->. by apply load_served. }
    destruct e; first [exact Hb|done].
Qed.

(** The answer of [get_product]: the row, with its images, and any stock figure. *)
Definition served_row (a : option ProductResponse) (w : CacheWorld) : Prop :=
  ∃ d, (∀ F, kw_floor w0 !! pid = Some F → rows_evolve F d) ∧ rows_evolve d (kw_db w) ∧
    match live_row pid d, a with
    | None, None => True
    | Some p, Some r => ∃ n, to_product_response (kc_base cfg) p = Ok (MkProductResponse (pr_product r) (pr_image_url r) (pr_thumbnails r) n)
    | _, _ => False
    end.

Lemma get_product_ok fuel l w : kevolves w0 w → WPT (svc_get_product cfg choices pid fuel) l served_row w.
Proof.
  intros He. bind_with served.
  { rule wpt_try; [by apply get_cached_ok|]. intros e l1 w1 _. by destruct e. }
  intros [r|] l1 w1 He1 (d & HF & Hd & Ha).
  2:{ exists d. by split_and!. }
  unfold answers in Ha. destruct (live_row pid d) as [p|] eqn:El; [|done].
  bind_with (λ xs w', rows_evolve d (kw_db w') ∧ ∃ st, xs = [with_available st r]).
  { simpl. bind_with (λ _ w', rows_evolve d (kw_db w')).
    - rule wpt_await. intros w2 HI2 He2. split; [done|]. intros _ _. etrans; [exact Hd|exact (ke_rows _ _ He2)].
    - intros st l2 w2 _ Hd2. split; [done|by exists st]. }
  intros xs l2 w2 _ [Hd2 [st ->]]. exists d. rewrite El. split_and!; [done..|]. simpl. exists (pr_available r).
  rewrite Ha. by destruct r.
Qed.
End Facts.

#[export] Existing Instance kevolves_preorder.

(** ** The system *)

Section System.
Context `{ResponseCodec} (cfg : CacheSettings).
Context (dump_parse : ∀ r, pr_available r = None → parse_response (dump_response r) = Some r).
Context (dump_not_MISS : ∀ r, dump_response r ≠ MISS).

(** A committed product write, as CatalogFacts describes it. *)
Definition product_write (f : CatalogDB → CatalogDB) : ST CacheWorld unit := λ w,
  (Ok tt, MkCacheWorld (f (kw_db w)) (kw_stock w) (kw_cache w) (kw_now w) (kw_floor w)).

(** A value that does not validate (another release's schema). *)
Definition poison (pid : N) (payload : string) (expires : Z) : ST CacheWorld unit :=
  cache_op (λ _, modify (λ c, set_values (<[pid := (payload, expires)]> (cs_values c)) c)).

(** Time passes, stock changes. *)
Definition meanwhile (dt : N) (stock : gmap string Z) (w : CacheWorld) : CacheWorld :=
  MkCacheWorld (kw_db w) stock (kw_cache w) (kw_now w + Z.of_N dt) (kw_floor w).

Inductive cache_arrival : prog CacheWorld unit → Prop :=
  | ka_read choices pid fuel : cache_arrival (erase (svc_get_product cfg choices pid fuel None))
  | ka_invalidate pid : cache_arrival (Atomic (handle_invalidation pid) (λ _, Ret tt))
  | ka_write f : (∀ d, rows_evolve d (f d)) → cache_arrival (Atomic (product_write f) (λ _, Ret tt))
  | ka_poison pid payload expires : payload ≠ MISS → parse_response payload = None →
      cache_arrival (Atomic (poison pid payload expires) (λ _, Ret tt))
  | ka_meanwhile dt stock : cache_arrival (Tick (meanwhile dt stock) (Ret tt)).

Lemma one_block (m : ST CacheWorld unit) :
  (∀ w, KInv cfg w → KInv cfg (m w).2 ∧ kevolves w (m w).2) → safe (KInv cfg) kevolves (Atomic m (λ _, Ret tt)).
Proof. intros Hm w0 _ w r w' HI _ Ho. destruct (Hm w HI). destruct Ho; by split_and!. Qed.

Lemma cache_safe p : cache_arrival p → safe (KInv cfg) kevolves p.
Proof.
  destruct 1 as [choices pid fuel|pid|f Hf|pid payload ex Hne Hp|dt stock].
  - apply safe_erase. intros w HI. eapply wp_mono; [apply _| |].
    2:{ apply (get_product_ok cfg dump_parse dump_not_MISS choices pid w HI fuel None w). done. }
    by intros [[a|e] l'] w'.
  - apply one_block. intros w HI. by apply invalidation_step.
  - apply one_block. intros w HI. by apply write_step.
  - apply one_block. intros w HI. apply cache_step; simpl; [done|done|by eapply locks_keep|].
    intros i s e. rewrite lookup_insert_Some. intros [[<- [= <- _]]|[_ ?]]; [right; by right|by left].
  - intros w0 _ w [Ht Hf Hv] _. split_and!; [|split; simpl; try done; intros pid F HF; by exists F|done]. by split.
Qed.

Definition empty_cache (d : CatalogDB) (stock : gmap string Z) (now : Z) : CacheWorld :=
  MkCacheWorld d stock (MkCache ∅ ∅ 0) now ∅.

Lemma empty_cache_inv d stock now : KInv cfg (empty_cache d stock now).
Proof.
  split.
  - intros pid t e E. destruct (lookup_empty_Some _ _ E).
  - intros pid F E. destruct (lookup_empty_Some _ _ E).
  - intros pid s e E. destruct (lookup_empty_Some _ _ E).
Qed.

Definition cache_runs (s : list (prog CacheWorld unit) * CacheWorld) : Prop :=
  ∃ d stock now, rtc (pool_step cache_arrival) ([], empty_cache d stock now) s.

Lemma cache_runs_ok s : cache_runs s → pool_ok (KInv cfg) kevolves s.
Proof.
  intros (d & stock & now & Hr). destruct (pool_sound _ kevolves cache_arrival _ _ cache_safe Hr) as [? _]; [|done].
  split; [apply empty_cache_inv|constructor].
Qed.

(** C17: A product read never answers with anything older than the last invalidation
    handled before it began, whatever readers, fillers, slow loads, lapsed locks,
    corrupt entries, faults, invalidations and writes run beside it: if the rows
    [F] of that moment held [q], the answer is [q] itself or a later version of it,
    and it is a 404 only if the product is deleted by now. *)
Theorem reads_not_older_than_invalidation choices pid fuel l ts w0 a ts' w' F q
    (Hstart : cache_runs (ts, w0))
    (Hrun : rtc (observed_step cache_arrival) (svc_get_product cfg choices pid fuel None, (ts, w0)) (Ret (Ok a, l), (ts', w')))
    (HF : kw_floor w0 !! pid = Some F) (Hq : products F !! pid = Some q) :
  match a with
  | Some r => p_deleted_at q = None ∧ row_evolves q (pr_product r)
  | None => ∃ row, products (kw_db w') !! pid = Some row ∧ is_Some (p_deleted_at row)
  end.
Proof.
  pose proof (cache_runs_ok _ Hstart) as Hok. pose proof Hok as [HI _]. simpl in HI.
  pose (Q := λ (rl : result (option ProductResponse) * option CacheOutcome) w,
    match rl with (Ok a, _) => served_row cfg pid w0 a w | _ => True end).
  assert (observed_ok (KInv cfg) kevolves Q (Ret (Ok a, l), (ts', w'))) as [_ Hs].
  { eapply (observed_sound _ _ Q cache_arrival); [exact cache_safe| |exact Hrun|].
    - intros [[a0|e] l0] w1 w2; [|done]. intros (d & ? & Hd & ?) He. exists d. split_and!; [done| |done].
      etrans; [exact Hd|exact (ke_rows _ _ He)].
    - split; [done|]. eapply wp_mono; [apply _| |].
      2:{ apply (get_product_ok cfg dump_parse dump_not_MISS choices pid w0 HI fuel None w0). done. }
      by intros [[a0|e] l0] w1. }
  destruct Hs as (d & Hd0 & Hd1 & Hans). destruct (proj1 (Hd0 F HF) _ _ Hq) as (q' & Hq' & Hev).
  unfold live_row in Hans. rewrite Hq' in Hans.
  destruct (p_deleted_at q') eqn:Ed; destruct a as [r|]; try done.
  - destruct (proj1 Hd1 _ _ Hq') as (row & Hrow & Hev'). exists row. split; [done|].
    apply (re_deleted _ _ Hev'). by rewrite Ed.
  - destruct Hans as [n Hn]. apply response_of in Hn as [E _]. simpl in E. rewrite E. split; [|done].
    destruct (p_deleted_at q) eqn:Eq; [|done]. destruct (re_deleted _ _ Hev) as [? ?]; [by rewrite Eq|congruence].
Qed.
End System.

(** ** At a concrete product *)

#[local] Instance ImageStatus_countable : Countable ImageStatus.
Proof.
  refine (inj_countable' (λ s, match s with ImgNone => 0 | ImgPending => 1 | ImgReady => 2 | ImgFailed => 3 end%N)
    (λ n, if decide (n = 0)%N then ImgNone else if decide (n = 1)%N then ImgPending
          else if decide (n = 2)%N then ImgReady else ImgFailed) _). by intros [].
Defined.

#[local] Instance Product_countable : Countable Product.
Proof.
  refine (inj_countable'
    (λ p, (p_id p, p_merchant p, p_name p, p_description p, p_category p, p_price p, p_image_key p,
           (p_image_status p, p_upload_token p, p_upload_expires p, p_created_at p, p_updated_at p, p_version p, p_deleted_at p)))
    (λ '(a, b, c, d, e, f, g, (h, i, j, k, l, m, n)), MkProduct a b c d e f g h i j k l m n) _). by intros [].
Defined.

#[local] Instance ProductResponse_eq_dec : EqDecision ProductResponse.
Proof. solve_decision. Defined.
#[local] Instance ProductResponse_countable : Countable ProductResponse.
Proof.
  refine (inj_countable' (λ r, (pr_product r, pr_image_url r, pr_thumbnails r, pr_available r))
    (λ '(a, b, c, d), MkProductResponse a b c d) _). by intros [].
Defined.

(** A codec with the law: the text of the code of the response. *)
Definition numeral_codec : ResponseCodec := {|
  dump_response := λ r, nat_str (Npos (countable.encode r));
  parse_response := λ s, match digits_value 0 s with Some (Npos p) => countable.decode p | _ => None end
|}.
#[local] Existing Instance numeral_codec.

Lemma numeral_parse r : pr_available r = None → parse_response (dump_response r) = Some r.
Proof. intros _. simpl. rewrite nat_str_value. apply decode_encode. Qed.

Lemma numeral_not_MISS r : dump_response r ≠ MISS.
Proof. intros E. simpl in E. pose proof (nat_str_digits (Npos (countable.encode r))) as Hd. rewrite E in Hd. discriminate. Qed.

Definition demo_cache : CacheSettings := MkCacheSettings None 300 10 5 3.
Definition demo_choices : nat → Choices := λ _, MkChoices 1 1 7.
Definition lamp : Product := MkProduct 9 7 "lamp" None None 4500 None ImgNone None None 0 0 1 None.
Definition lamp_db : CatalogDB := MkCatalogDB {[9%N := lamp]} [] [] 10 1.
Definition touch_all (d : CatalogDB) : CatalogDB := set_products (bump 5 <$> products d) d.

Lemma touch_all_evolves d : rows_evolve d (touch_all d).
Proof.
  split; [|done]. intros pid p Hp. exists (bump 5 p). simpl. rewrite lookup_fmap, Hp. split; [done|].
  apply next_version_evolves. by split_and!.
Qed.

Definition demo_read : frame CacheWorld (option CacheOutcome) (option ProductResponse) :=
  svc_get_product demo_cache demo_choices 9 3.

(** A read fills the cache; the product changes; the invalidation is handled. *)
Definition invalidated : list (prog CacheWorld unit) * CacheWorld :=
  arrive (Atomic (handle_invalidation 9) (λ _, Ret tt)) 1
    (arrive (Atomic (product_write touch_all) (λ _, Ret tt)) 1
      (arrive (erase (demo_read None)) 50 ([], empty_cache lamp_db {["x" := 3]} 100))).

Lemma invalidated_runs : cache_runs demo_cache invalidated.
Proof.
  exists lamp_db, {["x" := 3]}, 100. unfold invalidated.
  etrans; [|apply arrive_steps, ka_invalidate]. etrans; [|apply arrive_steps, ka_write, touch_all_evolves].
  apply arrive_steps, ka_read.
Qed.

Lemma reads_not_older_than_invalidation_witness :
  ∃ r, (run (demo_read None) invalidated.2).1 = (Ok (Some r), Some MISSED) ∧ row_evolves (bump 5 lamp) (pr_product r).
Proof.
  assert (kw_floor invalidated.2 !! 9%N = Some (touch_all lamp_db)) as HF by (vm_compute; reflexivity).
  assert (products (touch_all lamp_db) !! 9%N = Some (bump 5 lamp)) as Hq by (vm_compute; reflexivity).
  assert (∃ r, (run (demo_read None) invalidated.2).1 = (Ok (Some r), Some MISSED)) as [r Hr]
    by (eexists; vm_compute; reflexivity).
  exists r. split; [exact Hr|].
  pose proof (run_observed (cache_arrival demo_cache) (demo_read None) invalidated.1 invalidated.2) as Hrun.
  rewrite Hr in Hrun. rewrite <- (surjective_pairing invalidated) in Hrun.
  exact (proj2 (reads_not_older_than_invalidation demo_cache numeral_parse numeral_not_MISS demo_choices 9 3
    _ invalidated.1 invalidated.2 _ _ _ _ _
    (eq_ind _ (cache_runs demo_cache) invalidated_runs _ (surjective_pairing invalidated)) Hrun HF Hq)).
Defined.
