(* ===== verification/Listings.v ===== *)
(** * Listings: the paginated reads of catalog, orders and payments

    [list_products] (src/catalog/adapters/db/repository.py and the service over
    it), [list_orders] (src/orders) and [list_by_order_id] (src/payments): the
    whitelists, the filters, the literal substring search and the keyset page. *)

From Stdlib Require Import Ascii String.
From S2P Require Import Prelude Errors Text Effects Base64 Keyset.
From S2P Require Import Pagination.
From S2P Require Import Orders Payments World Catalog CatalogService ProductCache.

(** ** [ILIKE] *)

Inductive LikeToken := AnyRun | AnyOne | Literal (c : ascii).

(** A pattern, read with the default escape character; a pattern that ends in it
    is an error. *)
Fixpoint like_tokens (s : string) : option (list LikeToken) :=
  match s with
  | EmptyString => Some []
  | String "\" EmptyString => None
  | String "\" (String c rest) => cons (Literal c) <$> like_tokens rest
  | String "%" rest => cons AnyRun <$> like_tokens rest
  | String "_" rest => cons AnyOne <$> like_tokens rest
  | String c rest => cons (Literal c) <$> like_tokens rest
  end.

Fixpoint like_match (p : list LikeToken) (s : string) : bool :=
  match p with
  | [] => bool_decide (s = EmptyString)
  | Literal c :: p => match s with String x r => bool_decide (x = c) && like_match p r | EmptyString => false end
  | AnyOne :: p => match s with String _ r => like_match p r | EmptyString => false end
  | AnyRun :: p =>
      (fix any (s : string) : bool :=
         like_match p s || match s with String _ r => any r | EmptyString => false end) s
  end.

(** The lower-casing of the database's locale, character by character; it leaves
    the three special characters apart from all others. *)
Class Folding := {
  fold_char : ascii → ascii;
  fold_special c : c ∈ ["\"%char; "%"%char; "_"%char] → fold_char c = c;
  fold_plain c : fold_char c ∈ ["\"%char; "%"%char; "_"%char] → fold_char c = c
}.

Fixpoint map_str (f : ascii → ascii) (s : string) : string :=
  match s with EmptyString => EmptyString | String c r => String (f c) (map_str f r) end.

Definition ilike `{Folding} (s pattern : string) : option bool :=
  (λ p, like_match p (map_str fold_char s)) <$> like_tokens (map_str fold_char pattern).

(** [s.replace(c, t)] for a one-character [c] *)
Fixpoint replace_char (c : ascii) (t s : string) : string :=
  match s with
  | EmptyString => EmptyString
  | String x r => if decide (x = c) then (t +:+ replace_char c t r)%string else String x (replace_char c t r)
  end.

(** The escaping of the search term, and the pattern. *)
Definition escape_like (s : string) : string :=
  replace_char "_" "\_" (replace_char "%" "\%" (replace_char "\" "\\" s)).
Definition search_pattern (search : string) : string := ("%" +:+ escape_like search +:+ "%")%string.

(** ** [CatalogRepository.list_products] *)

Inductive FilterValue := FText (s : string) | FUuid (u : N).
Inductive ProductSort := ByCreated | ByPrice | ByName.

(** [_SORT_COLUMNS], [_FILTERS] *)
Definition product_sort_columns : list (string * ProductSort) :=
  [("created_at", ByCreated); ("price", ByPrice); ("name", ByName)].
Definition product_filters : list string := ["category"; "merchant_id"].

(** A value of another type than its column is refused by the driver. *)
Definition well_typed (f : string * FilterValue) : bool :=
  match f.2 with
  | FText _ => bool_decide (f.1 = "category"%string)
  | FUuid _ => bool_decide (f.1 = "merchant_id"%string)
  end.

(** [key = :key]; NULL equals nothing. *)
Definition filter_holds (p : Product) (f : string * FilterValue) : bool :=
  match f.2 with
  | FText c => bool_decide (p_category p = Some c)
  | FUuid m => bool_decide (p_merchant p = m)
  end.

Definition filters_hold (filters : list (string * FilterValue)) (p : Product) : bool := forallb (filter_holds p) filters.

(** [name ILIKE :search OR description ILIKE :search]; NULL never matches. *)
Definition search_holds `{Folding} (search : option string) (p : Product) : bool :=
  match truthy search with
  | None => true
  | Some term =>
      bool_decide (ilike (p_name p) (search_pattern term) = Some true) ||
      match p_description p with
      | Some d => bool_decide (ilike d (search_pattern term) = Some true)
      | None => false
      end
  end.

Section Products.
Context {numeric : Type} `{SortParsers} `{JsonLists} `{PgCasts numeric} `{Folding}.

(** The rows of the [WHERE] before the cursor. *)
Definition listed_products (filters : list (string * FilterValue)) (search : option string) (d : CatalogDB) : list Product :=
  filter (λ p, p_deleted_at p = None ∧ filters_hold filters p = true ∧ search_holds search p = true) (map_to_list (products d)).*2.

Definition repo_list_products (params : PageParams) (filters : list (string * FilterValue)) (search : option string)
    (d : CatalogDB) : result (Page Product) :=
  check_filters filters.*1 product_filters ;;
  by_ ← resolve_sort_column (sort_field params) product_sort_columns;
  if forallb well_typed filters then
    let rows := listed_products filters search d in
    match by_ with
    | ByCreated => keyset_page (timestamptz_column p_created_at) p_id params rows
    | ByPrice => keyset_page (numeric_column p_price) p_id params rows
    | ByName => keyset_page (text_column p_name) p_id params rows
    end
  else Err DataError.

(** [[f(x) for x in xs]] where [f] may raise *)
Fixpoint map_result {A B} (f : A → result B) (xs : list A) : result (list B) :=
  match xs with
  | [] => Ok []
  | x :: rest => y ← f x; ys ← map_result f rest; Ok (y :: ys)
  end.

(** [CatalogService.list_products] *)
Definition svc_list_products (cfg : CacheSettings) (params : PageParams) (filters : list (string * FilterValue))
    (search : option string) : frame CacheWorld (option CacheOutcome) (Page ProductResponse) :=
  page ← await (λ w, (repo_list_products params filters search (kw_db w), w));
  items ← lift (map_result (to_product_response (kc_base cfg)) (pg_items page));
  items ← attach_availability items;
  mret (MkPage items (pg_next page)).
End Products.

(** ** [OrdersRepository.list_orders], [PaymentsRepository.list_by_order_id] *)

Section Rows.
Context {numeric : Type} `{SortParsers} `{JsonLists} `{PgCasts numeric}.

(** [_order_select(Order.user_id == user_id)] with the optional status *)
Definition listed_orders (user_id : N) (status : option OrderStatus) (d : OrdDB) : list Order :=
  filter (λ o, ord_user o = user_id ∧ (status = None ∨ status = Some (ord_status o))) (map_to_list (orders d)).*2.

Definition repo_list_orders (user_id : N) (params : PageParams) (status : option OrderStatus) (d : OrdDB) : result (Page Order) :=
  resolve_sort_column (sort_field params) [("created_at"%string, tt)] ;;
  keyset_page (timestamptz_column ord_created_at) ord_id params (listed_orders user_id status d).

(** [OrdersService.list_orders] *)
Definition svc_list_orders (user_id : N) (params : PageParams) (status : option OrderStatus) (d : OrdDB)
    : result (Page OrderResponse) :=
  page ← repo_list_orders user_id params status d; Ok (MkPage (order_response <$> pg_items page) (pg_next page)).

Definition listed_payments (order_id : N) (d : PayDB) : list Payment :=
  filter (λ p, pay_order p = order_id) (map_to_list (payments d)).*2.

Definition repo_list_by_order_id (order_id : N) (params : PageParams) (d : PayDB) : result (Page Payment) :=
  resolve_sort_column (sort_field params) [("created_at"%string, tt)] ;;
  keyset_page (timestamptz_column pay_created_at) pay_id params (listed_payments order_id d).
End Rows.
