(* ===== verification/ListingFacts.v ===== *)
(** * ListingFacts: every row once, in order, while the tables change

    What following the cursors of a listing returns, on tables at rest and on
    tables that change between the requests; and that a search term is matched
    literally. *)

From Stdlib Require Import Ascii String Sorting.Sorted.
From S2P Require Import Prelude Errors Text Parse Base64 Datetime.
From S2P Require Import Keyset Pagination Orders Payments Catalog Listings.

(** ** Rows of a table *)

Lemma table_elem {A} (m : gmap N A) x : x ∈ (map_to_list m).*2 ↔ ∃ i, m !! i = Some x.
Proof.
  rewrite list_elem_of_fmap. split.
  - intros ([i y] & -> & Hy%elem_of_map_to_list). by exists i.
  - intros [i Hi]. exists (i, x). split; [done|]. by apply elem_of_map_to_list.
Qed.

Lemma table_ids {A} (m : gmap N A) (id : A → N) (P : A → Prop) `{∀ x, Decision (P x)} :
  (∀ i x, m !! i = Some x → id x = i) → NoDup (id <$> filter P (map_to_list m).*2).
Proof.
  intros Hid. assert (id <$> (map_to_list m).*2 = (map_to_list m).*1) as E.
  { rewrite <- list_fmap_compose. apply list_fmap_ext. intros k [i x] Hx. simpl. apply Hid, elem_of_map_to_list.
    by apply list_elem_of_lookup_2 in Hx. }
  assert (NoDup (id <$> (map_to_list m).*2)) as Hn by (rewrite E; apply NoDup_fst_map_to_list).
  revert Hn. generalize ((map_to_list m).*2). intros l. induction l as [|x l IH]; [done|].
  rewrite fmap_cons, NoDup_cons. intros [Hx Hl]. rewrite filter_cons. destruct (decide (P x)); [|by apply IH].
  rewrite fmap_cons, NoDup_cons. split; [|by apply IH]. intros (y & Ey & [_ Hy]%list_elem_of_filter)%list_elem_of_fmap.
  apply Hx. rewrite Ey. by apply list_elem_of_fmap_2.
Qed.

Lemma sorted_rows {A B} (R : relation B) (f : A → B) xs :
  StronglySorted R (f <$> xs) → StronglySorted (λ x y, R (f x) (f y)) xs.
Proof.
  induction xs as [|x xs IH]; simpl; [constructor|]. intros Hs. apply StronglySorted_inv in Hs as [Hs Hx].
  constructor; [by apply IH|]. by rewrite Forall_fmap in Hx.
Qed.

Lemma filter_everything {A} (P : A → Prop) `{∀ x, Decision (P x)} (xs : list A) : (∀ x, P x) → filter P xs = xs.
Proof. intros HP. induction xs as [|x xs IH]; [done|]. rewrite filter_cons, decide_True by done. by rewrite IH. Qed.

(** ** Any listing *)

Section Exact.
Context {numeric : Type} `{SortParsers} `{JsonLists} `{PgCasts numeric} {T V D : Type}.
Context (col : SortColumn T V) (id : T → N) (list_page : PageParams → D → result (Page T)) (rows_of : D → list T).
Context (limit : Z) (sort : string) (Hlimit : 1 ≤ limit).
Context (Hpage : ∀ c d, list_page (MkParams limit sort c) d = keyset_page col id (MkParams limit sort c) (rows_of d)).
Notation before := (λ x y, row_before (sc_before col) (descending (MkParams limit sort None)) (row_key col id x) (row_key col id y)).

Definition listable (d : D) : Prop := NoDup (id <$> rows_of d) ∧ Forall (row_ok col id) (rows_of d).

Lemma listable_keys d : listable d → NoDup (row_key col id <$> rows_of d).
Proof.
  intros [Hn _]. apply (NoDup_fmap_1 snd). rewrite <- list_fmap_compose. exact Hn.
Qed.

Lemma follow_exact states :
  (∀ d, d ∈ states → listable d) →
  ∃ got fin, follow list_page (MkParams limit sort None) states = Ok (got, fin) ∧
    StronglySorted before got ∧
    (∀ x, x ∈ got → ∃ d, d ∈ states ∧ x ∈ rows_of d) ∧
    (fin = true → ∀ x, (∀ d, d ∈ states → x ∈ rows_of d) → x ∈ got).
Proof.
  intros Hok. pose proof (follow_walk col id list_page rows_of limit sort None states Hpage ltac:(done)
    (λ d Hd, proj2 (Hok d Hd))) as E. cbn [fmap option_fmap option_map] in E.
  destruct (walk_ok (row_key col id) (row_before (sc_before col) (descending (MkParams limit sort None))) (Z.to_nat limit) None
    (rows_of <$> states)) as (Hs & Hin & Hall); [lia| |].
  { apply Forall_fmap, Forall_forall. intros d Hd. by apply listable_keys, Hok. }
  destruct (walk _ _ _ _ _) as [got fin]. exists got, fin. simpl in *. split_and!; [done|by apply sorted_rows| |].
  - intros x Hx. destruct (Hin x Hx) as [_ (rows & (d & -> & Hd)%list_elem_of_fmap & ?)]. by exists d.
  - intros Hf x Hx. apply Hall; [done..|]. intros rows (d & -> & Hd)%list_elem_of_fmap. by apply Hx.
Qed.

Lemma follow_at_rest d n :
  listable d → (length (rows_of d) ≤ Z.to_nat limit * n)%nat → (0 < n)%nat →
  ∃ got, follow list_page (MkParams limit sort None) (replicate n d) = Ok (got, true) ∧
    got ≡ₚ rows_of d ∧ StronglySorted before got.
Proof.
  intros Hok Hlen Hn.
  set (key := row_key col id). set (R := row_before (sc_before col) (descending (MkParams limit sort None))).
  assert (ordered key R None (rows_of d) ≡ₚ rows_of d) as Hperm.
  { unfold ordered. by rewrite sorting.merge_sort_Permutation, filter_everything. }
  exists (ordered key R None (rows_of d)). split_and!; [|done|].
  - pose proof (follow_walk col id list_page rows_of limit sort None (replicate n d) Hpage ltac:(done)) as E.
    cbn [fmap option_fmap option_map] in E. rewrite E; [|intros d' [-> _]%elem_of_replicate; apply Hok].
    f_equal. rewrite fmap_replicate. assert (1 ≤ Z.to_nat limit)%nat as H1l by (clear -Hlimit; lia).
    apply (walk_static key R); [done|by apply listable_keys|]. right. split; [|done]. by rewrite (Permutation_length Hperm).
  - apply (sorted_rows R key). apply (ordered_sorted key R). by apply listable_keys.
Qed.
End Exact.

(** ** Products *)

Section Products.
Context {numeric : Type} `{SortParsers} `{JsonLists} `{PgCasts numeric} `{Folding}.

(** The order of a listing. *)
Definition product_before (by_ : ProductSort) (desc : bool) (x y : Product) : Prop :=
  match by_ with
  | ByCreated => row_before Z.lt desc (p_created_at x, p_id x) (p_created_at y, p_id y)
  | ByPrice => row_before numeric_before desc (of_cents (p_price x), p_id x) (of_cents (p_price y), p_id y)
  | ByName => row_before collated_before desc (p_name x, p_id x) (p_name y, p_id y)
  end.

(** What PostgreSQL guarantees of the stored rows: keys are identifiers,
    timestamps are in range and a text has no NUL. *)
Definition catalog_rows_ok (d : CatalogDB) : Prop :=
  ∀ i p, products d !! i = Some p →
    p_id p = i ∧ is_uuid i ∧ datetime_ok (p_created_at p) ∧ contains (String (ascii_of_N 0) EmptyString) (p_name p) = false.

Lemma listed_products_elem filters search d p :
  p ∈ listed_products filters search d → ∃ i, products d !! i = Some p.
Proof. unfold listed_products. intros [_ Hp]%list_elem_of_filter. by apply table_elem. Qed.

Lemma listed_products_listable {V} (col : SortColumn Product V) filters search d :
  (∀ p, datetime_ok (p_created_at p) → contains (String (ascii_of_N 0) EmptyString) (p_name p) = false →
     sc_cast col (sc_text col p) = Some (sc_value col p) ∧
     ∃ accepts, sort_value_parser (sc_kind col) = Some accepts ∧ accepts (sc_text col p) = true) →
  catalog_rows_ok d → listable col p_id (listed_products filters search) d.
Proof.
  intros Hcol Hd. split.
  - apply table_ids. intros i p Hp. by apply Hd.
  - apply Forall_forall. intros p (i & Hp)%listed_products_elem. destruct (Hd i p Hp) as (<- & Hu & Ht & Hn).
    split; [done|]. by apply Hcol.
Qed.

(** The codec promises that a cursor whose value could never be cast is refused as a
    bad cursor before it reaches SQL; a text cursor with a NUL passes it - [str]
    accepts everything - and fails in the statement, as a server error. *)
Theorem nul_cursor_reaches_the_statement (limit : Z) (desc : bool) (d : CatalogDB) :
  let cursor := encode_cursor (String (ascii_of_N 0) EmptyString) (uuid_str 0) in
  decode_cursor cursor "text" = Ok (String (ascii_of_N 0) EmptyString, uuid_str 0) ∧
  repo_list_products (MkParams limit (if desc then "-name" else "name") (Some cursor)) [] None d = Err DataError.
Proof.
  intros cursor.
  assert (decode_cursor cursor "text" = Ok (String (ascii_of_N 0) EmptyString, uuid_str 0)) as Hd.
  { unfold cursor, decode_cursor, encode_cursor. rewrite b64_roundtrip. cbn -[json_items]. by rewrite json_items_dumps. }
  split; [done|]. destruct (encode_cursor_cons (String (ascii_of_N 0) EmptyString) (uuid_str 0)) as (c & s & E).
  assert (keyset_page (text_column p_name) p_id (MkParams limit (if desc then "-name" else "name") (Some cursor))
    (listed_products [] None d) = Err DataError) as Hk.
  { unfold keyset_page, cursor_of. cbn [pp_cursor]. unfold cursor in *. rewrite E, <- E. cbn [sc_kind text_column]. rewrite Hd.
    cbn [fmap result_fmap mbind result_bind]. unfold apply_keyset. cbn [sc_cast text_column]. by rewrite cast_text_nul. }
  unfold repo_list_products. by destruct desc.
Qed.
End Products.

(** ** Orders and payments *)

Section Rows.
Context {numeric : Type} `{SortParsers} `{JsonLists} `{PgCasts numeric}.

Definition order_rows_ok (d : OrdDB) : Prop :=
  ∀ i o, orders d !! i = Some o → ord_id o = i ∧ is_uuid i ∧ datetime_ok (ord_created_at o).

Lemma timestamptz_row {T} (value : T → Z) (id : T → N) x :
  is_uuid (id x) → datetime_ok (value x) → row_ok (timestamptz_column value) id x.
Proof.
  intros Hu Ht. split; [done|]. split; [by apply cast_timestamptz_str|]. eexists. split; [done|]. by apply fromisoformat_str.
Qed.

Lemma listed_orders_listable user status d :
  order_rows_ok d → listable (timestamptz_column ord_created_at) ord_id (listed_orders user status) d.
Proof.
  intros Hd. split.
  - apply table_ids. intros i o Ho. by apply Hd.
  - apply Forall_forall. intros o [_ (i & Ho)%table_elem]%list_elem_of_filter. destruct (Hd i o Ho) as (<- & Hu & Ht).
    by apply timestamptz_row.
Qed.

(** Following the cursors of a user's orders at rest comes to its end: after as many
    requests as pages are needed the client has every order of the user with the
    status asked for, each once, by creation time and then identifier. *)
Theorem order_pages_complete (limit : Z) (sort : string) (user : N) (status : option OrderStatus) (d : OrdDB) (n : nat)
    (Hlimit : 1 ≤ limit) (Hsort : sort_field (MkParams limit sort None) = "created_at"%string)
    (Hrows : order_rows_ok d) (Hn : (length (listed_orders user status d) ≤ Z.to_nat limit * n)%nat) (Hpos : (0 < n)%nat) :
  ∃ got,
    follow (λ p, repo_list_orders user p status) (MkParams limit sort None) (replicate n d) = Ok (got, true) ∧
    got ≡ₚ listed_orders user status d ∧
    StronglySorted (λ x y, row_before Z.lt (descending (MkParams limit sort None)) (ord_created_at x, ord_id x) (ord_created_at y, ord_id y)) got.
Proof.
  apply (follow_at_rest (timestamptz_column ord_created_at) ord_id); [done| |by apply listed_orders_listable|done..].
  intros c d'. unfold repo_list_orders.
  change (sort_field (MkParams limit sort c)) with (sort_field (MkParams limit sort None)). by rewrite Hsort.
Qed.

Definition payment_rows_ok (d : PayDB) : Prop :=
  ∀ i p, payments d !! i = Some p → pay_id p = i ∧ is_uuid i ∧ datetime_ok (pay_created_at p).

(** The same for the attempts of an order. *)
Lemma payment_pages_complete limit sort order d n :
  1 ≤ limit → sort_field (MkParams limit sort None) = "created_at"%string → payment_rows_ok d →
  (length (listed_payments order d) ≤ Z.to_nat limit * n)%nat → (0 < n)%nat →
  ∃ got, follow (repo_list_by_order_id order) (MkParams limit sort None) (replicate n d) = Ok (got, true) ∧
    got ≡ₚ listed_payments order d ∧
    StronglySorted (λ x y, row_before Z.lt (descending (MkParams limit sort None)) (pay_created_at x, pay_id x) (pay_created_at y, pay_id y)) got.
Proof.
  intros Hlimit Hsort Hd Hn Hpos. apply (follow_at_rest (timestamptz_column pay_created_at) pay_id); [done| | |done..].
  - intros c d'. unfold repo_list_by_order_id.
    change (sort_field (MkParams limit sort c)) with (sort_field (MkParams limit sort None)). by rewrite Hsort.
  - split; [apply table_ids; intros i p Hp; by apply Hd|]. apply Forall_forall.
    intros p [_ (i & Hp)%table_elem]%list_elem_of_filter. destruct (Hd i p Hp) as (<- & Hu & Ht). by apply timestamptz_row.
Qed.
End Rows.

(** ** The search term is literal *)

Definition special (c : ascii) : Prop := c ∈ ["\"%char; "%"%char; "_"%char].
#[export] Instance special_dec c : Decision (special c).
Proof. unfold special. apply _. Defined.

(** What the three replacements do to one character. *)
Definition escaped (c : ascii) : string := if decide (special c) then String "\" (String c EmptyString) else String c EmptyString.

Lemma replace_char_app c t a b : replace_char c t (a +:+ b) = (replace_char c t a +:+ replace_char c t b)%string.
Proof.
  induction a as [|x a IH]; [done|]. rewrite str_cons_app. simpl. case_decide; rewrite IH; [by rewrite str_app_assoc|done].
Qed.

Lemma escape_like_cons c s : escape_like (String c s) = (escaped c +:+ escape_like s)%string.
Proof.
  unfold escape_like, escaped. change (String c s) with (String c EmptyString +:+ s)%string.
  rewrite !replace_char_app. f_equal. destruct c as [[] [] [] [] [] [] [] []]; reflexivity.
Qed.

(** [a in s] *)
Definition occurs_in (a s : string) : Prop := ∃ x y, s = (x +:+ a +:+ y)%string.

Section Search.
Context `{Folding}.

Lemma map_str_app f a b : map_str f (a +:+ b) = (map_str f a +:+ map_str f b)%string.
Proof. induction a as [|c a IH]; [done|]. rewrite str_cons_app. simpl. by rewrite IH. Qed.

Lemma tokens_plain c rest : ¬ special c → like_tokens (String c rest) = cons (Literal c) <$> like_tokens rest.
Proof. intros Hc. destruct c as [[] [] [] [] [] [] [] []]; try reflexivity; destruct Hc; vm_compute; set_solver. Qed.

Fixpoint chars (s : string) : list ascii := match s with EmptyString => [] | String c r => c :: chars r end.

Lemma tokens_escaped s rest :
  like_tokens (map_str fold_char (escape_like s) +:+ rest)%string =
  app (Literal <$> chars (map_str fold_char s)) <$> like_tokens rest.
Proof.
  induction s as [|c s IH].
  { change (map_str fold_char (escape_like EmptyString)) with EmptyString. rewrite str_app_nil_l. cbn [map_str chars fmap list_fmap].
    by destruct (like_tokens rest). }
  rewrite escape_like_cons, map_str_app. unfold escaped. case_decide as Hc.
  - cbn [map_str]. rewrite (fold_special "\"%char) by (vm_compute; left). rewrite (fold_special c) by done.
    rewrite !str_cons_app, !str_app_nil_l. cbn [like_tokens]. rewrite IH. by destruct (like_tokens rest).
  - cbn [map_str]. rewrite !str_cons_app, !str_app_nil_l, tokens_plain;
      [|intros Hf; apply Hc; unfold special; by rewrite <- (fold_plain c)].
    rewrite IH. by destruct (like_tokens rest).
Qed.

Lemma match_any p s : like_match (AnyRun :: p) s = true ↔ ∃ a b, s = (a +:+ b)%string ∧ like_match p b = true.
Proof.
  induction s as [|c s IH].
  - cbn. rewrite orb_false_r. split.
    + intros Hm. by exists EmptyString, EmptyString.
    + intros ([|] & b & E & Hm); [|done]. rewrite str_app_nil_l in E. by subst b.
  - change (like_match (AnyRun :: p) (String c s)) with (like_match p (String c s) || like_match (AnyRun :: p) s).
    rewrite orb_true_iff, IH. split.
    + intros [Hm|(a & b & -> & Hm)]; [by exists EmptyString, (String c s)|by exists (String c a), b].
    + intros ([|x a] & b & E & Hm); rewrite ?str_cons_app, ?str_app_nil_l in E; [left; by subst b|right]. injection E as -> ->. by exists a, b.
Qed.

Lemma match_literals t p s :
  like_match ((Literal <$> chars t) ++ p) s = true ↔ ∃ b, s = (t +:+ b)%string ∧ like_match p b = true.
Proof.
  revert s. induction t as [|c t IH]; intros s; simpl.
  - split; [intros Hm; by exists s|]. by intros (b & -> & Hm).
  - destruct s as [|x s]; [split; [done|by intros (b & E & _)]|]. rewrite andb_true_iff, bool_decide_eq_true, IH. split.
    + intros [-> (b & -> & Hm)]. by exists b.
    + intros (b & E & Hm). injection E as -> ->. split; [done|]. by exists b.
Qed.

(** C19: A product matches a search exactly when the term - read literally, percent
    signs, underscores and backslashes included - occurs in its name or description
    up to case. *)
Theorem search_is_literal (term s : string) :
  ilike s (search_pattern term) = Some true ↔ occurs_in (map_str fold_char term) (map_str fold_char s).
Proof.
  assert (fold_char "%" = "%"%char) as E by (apply fold_special; vm_compute; right; left).
  unfold ilike, search_pattern. rewrite !map_str_app. cbn [map_str]. rewrite E, str_cons_app, str_app_nil_l. cbn [like_tokens].
  rewrite tokens_escaped. cbn [like_tokens fmap option_fmap option_map].
  split.
  - intros [= (a & b & -> & (b' & -> & _)%match_literals)%match_any]. by exists a, b'.
  - intros (a & b & ->). f_equal. apply match_any. exists a, (map_str fold_char term +:+ b)%string. split; [done|].
    apply match_literals. exists b. split; [done|]. apply match_any. exists b, EmptyString. by rewrite str_app_nil_r.
Qed.
End Search.

(** ** At concrete tables *)

(** The readers of the canonical texts as parsers and casts. *)
#[local] Instance canonical_parsers : SortParsers.
Proof.
  refine {| fromisoformat_ok := λ s, bool_decide (is_Some (read_datetime s));
            decimal_ok := λ s, bool_decide (is_Some (decimal_cents s)) |}.
  - intros t Ht. by rewrite read_datetime_str.
  - intros c. by rewrite decimal_cents_price.
Defined.

(** Any strict total order of texts will do for a collation. *)
Definition text_before (a b : string) : Prop := (encode a < encode b)%positive.

#[local] Instance canonical_casts : PgCasts Z.
Proof.
  unshelve refine {| numeric_before := Z.lt; of_cents := λ c, c; collated_before := text_before;
     cast_timestamptz := read_datetime; cast_numeric := decimal_cents;
     cast_text := λ s, if contains (String (ascii_of_N 0) EmptyString) s then None else Some s; cast_uuid := uuid_parse |};
    try apply _.
  - unfold text_before. intros a b. apply _.
  - unfold text_before. intros a b c. lia.
  - unfold text_before. intros a. unfold complement. lia.
  - unfold text_before. intros a b. destruct (Pos.lt_total (encode a) (encode b)) as [?|[?%encode_inj|?]]; auto.
  - apply read_datetime_str.
  - apply decimal_cents_price.
  - by intros s ->.
  - by intros s ->.
  - apply uuid_parse_str.
Defined.

#[local] Instance ascii_folding : Folding.
Proof.
  refine {| fold_char := lower_ascii |}; intros c; destruct c as [[] [] [] [] [] [] [] []]; vm_compute; try reflexivity;
    intros Hc; repeat (apply elem_of_cons in Hc as [Hc|Hc]; [discriminate|]); destruct (not_elem_of_nil _ Hc).
Defined.

Definition demo_product (i : N) (name : string) (price : Z) : Product :=
  MkProduct i 1 name None None price None ImgNone None None (1709210096000000 + Z.of_N i) 0 1 None.
Definition shelf (ps : list Product) : CatalogDB := MkCatalogDB (list_to_map ((λ p, (p_id p, p)) <$> ps)) [] [] 9 0.

(** Three mugs; then the first is sold off and a fourth arrives. *)
Definition shelves : list CatalogDB :=
  [shelf [demo_product 1 "mug" 900; demo_product 2 "mug" 700; demo_product 3 "mug" 800];
   shelf [demo_product 2 "mug" 700; demo_product 3 "mug" 800; demo_product 4 "mug" 600]].

Definition row_check (i : N) (p : Product) : bool :=
  bool_decide (p_id p = i ∧ (i < 2 ^ 128)%N ∧ datetime_ok (p_created_at p) ∧
               contains (String (ascii_of_N 0) EmptyString) (p_name p) = false).

Lemma shelves_ok d : d ∈ shelves → catalog_rows_ok d.
Proof.
  intros Hd i p Hp. assert (row_check i p = true) as Hc.
  { repeat (apply elem_of_cons in Hd as [->|Hd]; [|]); [| |destruct (not_elem_of_nil _ Hd)];
      unfold shelf in Hp; simpl in Hp;
      repeat (apply lookup_insert_Some in Hp as [[<- <-]|[_ Hp]]; [vm_compute; reflexivity|]); by rewrite lookup_empty in Hp. }
  unfold row_check in Hc. apply bool_decide_eq_true in Hc as (? & ? & ? & ?). by split_and!.
Qed.


Definition demo_order (i : N) : Order := MkOrder i 5 PENDING 100 [] (1709210096000000 - Z.of_N i) 0 "" "" "".
Definition demo_orders : OrdDB :=
  MkOrdDB (list_to_map ((λ i, (i, demo_order i)) <$> [1; 2; 3]%N)) [] [] 4.

Lemma demo_orders_ok : order_rows_ok demo_orders.
Proof.
  intros i o Ho. unfold demo_orders in Ho. simpl in Ho.
  repeat (apply lookup_insert_Some in Ho as [[<- <-]|[_ Ho]]; [by vm_compute|]). by rewrite lookup_empty in Ho.
Qed.

Lemma order_pages_complete_witness :
  ∃ got, follow (λ p, repo_list_orders 5 p (Some PENDING)) (MkParams 2 "created_at" None) (replicate 2 demo_orders) = Ok (got, true) ∧
    got ≡ₚ listed_orders 5 (Some PENDING) demo_orders.
Proof.
  destruct (order_pages_complete 2 "created_at" 5 (Some PENDING) demo_orders 2 ltac:(lia) eq_refl demo_orders_ok
    ltac:(vm_compute; lia) ltac:(lia)) as (got & E & Hp & _).
  exists got. split; [exact E|exact Hp].
Defined.

Example search_ex : ilike "Blue Mug 50%"  (search_pattern "mug 50%") = Some true ∧ ilike "mug 500" (search_pattern "50%") = Some false.
Proof. split; vm_compute; reflexivity. Qed.

Lemma search_is_literal_witness : occurs_in (map_str fold_char "MUG 50%") (map_str fold_char "Mug 50% off").
Proof. apply (search_is_literal "MUG 50%" "Mug 50% off"). vm_compute. reflexivity. Defined.
