(* ===== verification/Bus.v ===== *)
(** * Bus: the outbox relay and the idempotent consumer

    src/shared/bus: [OutboxRelay] (relay.py) with its publisher and the trace
    context it attaches, and [SqsConsumer] (consumer.py), as coroutines over
    [BusWorld]: the outbox tables, what SNS accepted, one subscription's queue and
    dead-letter queue, the dedup markers and the handler's own state.

    The event contract (pydantic, JSON) is the class [EventContract]; the handler is
    the class [EventHandler], and [HandlerLaws] is what the bus promises a handler
    and asks of it.  SNS hands a copy to the subscription; SQS keeps it until it is
    deleted or moved to the dead-letter queue.  The messages of one batch are
    processed concurrently, so one delivery is one coroutine ([consume]).
    [bw_produced] is a ghost: every event ever written to an outbox. *)

From stdpp Require Import sorting.
From Stdlib Require Import Ascii String.
From S2P Require Import Prelude Errors UnitOfWork Text Parse Effects.

(** ** Trace context (tracecontext.py) *)

Fixpoint zeros (n : nat) : string := match n with O => EmptyString | S k => String "0" (zeros k) end.

(** [s.strip("0")] is empty *)
Definition all_zero (s : string) : bool := all_chars (λ c, bool_decide (c = "0"%char)) s.

(** [_normalise_trace_id]; [random] is what [secrets.token_hex(16)] gives. *)
Definition normalise_trace_id (trace_id random : string) : string :=
  let hex_only := keep_chars lower_hex (lower_str trace_id) in
  let normalised := String.substring 0 32 (hex_only +:+ zeros (32 - String.length hex_only)) in
  if all_zero normalised then random else normalised.

(** [format_traceparent] *)
Definition format_traceparent (trace_id random span : string) : string :=
  ("00-" +:+ normalise_trace_id trace_id random +:+ "-" +:+ span +:+ "-01")%string.

(** [parse_trace_id] *)
Definition parse_trace_id (traceparent : option string) : option string :=
  match traceparent with
  | None | Some EmptyString => None
  | Some t =>
      match split_on "-" t with
      | _ :: trace_id :: _ :: _ :: _ =>
          if decide (String.length trace_id = 32%nat) then
            if all_chars lower_hex trace_id && negb (all_zero trace_id) then Some trace_id else None
          else None
      | _ => None
      end
  end.

(** ** The contract and the handler *)

Class EventContract (E : Type) := {
  validate_event : string → result E;
  event_id : E → N;
  payload_trace : string → result string
}.

(** A subscriber: its state, what it does with an event, and what it means that
    the event has been dealt with. *)
Class EventHandler (D E : Type) := {
  handle : E → prog D (result unit);
  h_inv : D → Prop;
  h_evolves : D → D → Prop;
  h_done : E → D → Prop
}.

Class HandlerLaws (D E : Type) `{EventHandler D E} := {
  h_preorder :: PreOrder h_evolves;
  h_done_stable : ∀ e d d', h_evolves d d' → h_done e d → h_done e d';
  h_handles : ∀ e d, wp h_inv h_evolves (handle e) (λ r d', r = Ok tt → h_done e d') d
}.

(** ** State *)

Record OutboxRow := MkRow {
  ox_type : string;
  ox_payload : string;
  ox_occurred : Z;
  ox_published : option Z
}.

Record Message := MkMessage { ms_receipt : N; ms_body : string; ms_trace : string }.
#[export] Instance Message_eq_dec : EqDecision Message.
Proof. solve_decision. Defined.

Inductive Mark := Lease (token : N) | DoneMark.
#[export] Instance Mark_eq_dec : EqDecision Mark.
Proof. solve_decision. Defined.

Record BusWorld (D : Type) := MkBus {
  bw_outbox : gmap (string * N) OutboxRow;
  bw_next : N;
  bw_produced : list string;
  bw_topics : gset string;
  bw_sent : list (string * string);
  bw_queue : list Message;
  bw_dlq : list Message;
  bw_marks : gmap N (Mark * Z);
  bw_tokens : N;
  bw_now : Z;
  bw_data : D
}.
Arguments MkBus {D} _ _ _ _ _ _ _ _ _ _ _.
Arguments bw_outbox {D} _.
Arguments bw_next {D} _.
Arguments bw_produced {D} _.
Arguments bw_topics {D} _.
Arguments bw_sent {D} _.
Arguments bw_queue {D} _.
Arguments bw_dlq {D} _.
Arguments bw_marks {D} _.
Arguments bw_tokens {D} _.
Arguments bw_now {D} _.
Arguments bw_data {D} _.

Record BusSettings := MkBusSettings {
  bc_topic_prefix : string;
  bc_arn_prefix : option string;
  bc_batch : nat;
  bc_schemas : list string;
  bc_subscribed : string → bool;
  bc_lease_ttl : Z;
  bc_dedup_ttl : Z
}.

Section Bus.
Context {D E : Type} `{EventContract E} `{EventHandler D E} (cfg : BusSettings).
Notation W := (BusWorld D).

Definition set_outbox (x : gmap (string * N) OutboxRow) (w : W) : W :=
  MkBus x (bw_next w) (bw_produced w) (bw_topics w) (bw_sent w) (bw_queue w) (bw_dlq w) (bw_marks w) (bw_tokens w) (bw_now w) (bw_data w).
Definition set_marks (x : gmap N (Mark * Z)) (t : N) (w : W) : W :=
  MkBus (bw_outbox w) (bw_next w) (bw_produced w) (bw_topics w) (bw_sent w) (bw_queue w) (bw_dlq w) x t (bw_now w) (bw_data w).
Definition set_queue (q dlq : list Message) (w : W) : W :=
  MkBus (bw_outbox w) (bw_next w) (bw_produced w) (bw_topics w) (bw_sent w) q dlq (bw_marks w) (bw_tokens w) (bw_now w) (bw_data w).
Definition set_data (d : D) (w : W) : W :=
  MkBus (bw_outbox w) (bw_next w) (bw_produced w) (bw_topics w) (bw_sent w) (bw_queue w) (bw_dlq w) (bw_marks w) (bw_tokens w) (bw_now w) d.

Definition data_lens : Lens W D := MkLens bw_data set_data.

(** ** The relay *)

(** [topic_name] *)
Definition topic_name (event_type : string) : string := (bc_topic_prefix cfg +:+ event_type)%string.

(** [SnsPublisher.publish]: the verbatim payload goes to its type's topic; SNS
    copies it to the queue of every subscription. *)
Definition sns_publish (event_type payload trace : string) : ST W unit := λ w,
  if decide (topic_name event_type ∈ bw_topics w) then
    let random := hex_fixed 32 (bw_next w + 1) in
    let m := MkMessage (bw_next w) payload (format_traceparent trace random (hex_fixed 16 (bw_next w))) in
    (Ok tt, MkBus (bw_outbox w) (bw_next w + 1) (bw_produced w) (bw_topics w) (bw_sent w ++ [(event_type, payload)])
              (if bc_subscribed cfg event_type then bw_queue w ++ [m] else bw_queue w) (bw_dlq w)
              (bw_marks w) (bw_tokens w) (bw_now w) (bw_data w))
  else (Err (ProviderError 404), w).

(** [create_topic], where no ARN prefix is configured; it is idempotent, so the
    per-process cache of ARNs only saves calls. *)
Definition create_topic (event_type : string) : ST W unit := λ w,
  (Ok tt, MkBus (bw_outbox w) (bw_next w) (bw_produced w) ({[topic_name event_type]} ∪ bw_topics w) (bw_sent w)
            (bw_queue w) (bw_dlq w) (bw_marks w) (bw_tokens w) (bw_now w) (bw_data w)).

Definition publish {L} (event_type payload : string) : frame W L unit :=
  match payload_trace payload with
  | Err e => throw e
  | Ok trace =>
      (match bc_arn_prefix cfg with Some (String _ _) => mret tt | _ => await (create_topic event_type) end) ;;
      await (sns_publish event_type payload trace)
  end.

(** [SELECT ... WHERE published_at IS NULL ORDER BY occurred_at FOR UPDATE SKIP
    LOCKED LIMIT :batch]; [locked] are the rows other relays hold. *)
Definition occurred_le (x y : N * OutboxRow) : Prop := ox_occurred x.2 ≤ ox_occurred y.2.
#[local] Instance occurred_le_dec : RelDecision occurred_le.
Proof. intros x y. unfold occurred_le. apply _. Defined.

Definition claimable (schema : string) (locked : N → bool) (x : (string * N) * OutboxRow) : option (N * OutboxRow) :=
  let '((s, i), r) := x in
  if decide (s = schema ∧ ox_published r = None ∧ locked i = false) then Some (i, r) else None.

Definition claim_rows (schema : string) (locked : N → bool) : ST W (list (N * OutboxRow)) := λ w,
  (Ok (take (bc_batch cfg) (merge_sort occurred_le (omap (claimable schema locked) (map_to_list (bw_outbox w))))), w).

(** [UPDATE ... SET published_at = now() WHERE id = ANY(:ids)] *)
Definition stamp (now : Z) (r : OutboxRow) : OutboxRow := MkRow (ox_type r) (ox_payload r) (ox_occurred r) (Some now).

Definition mark_published (schema : string) (ids : list N) : ST W unit := λ w,
  (Ok tt, set_outbox (map_imap (λ k r, Some (if decide (k.1 = schema ∧ k.2 ∈ ids) then stamp (bw_now w) r else r)) (bw_outbox w)) w).

(** The task group: every task is started; it fails if one of them did, and is
    cancelled if only cancellation reached them. *)
Definition group_failure (failures : list exn) : option exn :=
  match failures with
  | [] => None
  | e :: _ => if existsb is_Exception failures then Some ExceptionGroup else Some e
  end.

(** [_drain_schema]; the local collects the failures of the group's tasks. *)
Definition drain_schema (schema : string) (locked : N → bool) : frame W (list exn) nat :=
  rows ← await (claim_rows schema locked);
  match rows with
  | [] => mret 0%nat
  | _ =>
      iterate rows (λ x, try_catch (publish (ox_type x.2) (ox_payload x.2)) (λ e, set_locals (λ fs, fs ++ [e]))) ;;
      failures ← locals;
      match group_failure failures with
      | Some e => throw e
      | None => await (mark_published schema rows.*1) ;; mret (length rows)
      end
  end.

(** [drain_once]; the locals are [published] and [failures]. *)
Definition drain_once (locked : N → bool) : frame W (nat * list exn) nat :=
  iterate (bc_schemas cfg) (λ schema,
    try_catch (n ← call [] (drain_schema schema locked); set_locals (λ l, (l.1 + n, l.2)%nat))
              (λ e, if is_Exception e then set_locals (λ l, (l.1, l.2 ++ [e])) else throw e)) ;;
  l ← locals;
  match l with
  | (O, e :: _) => throw e
  | (n, _) => mret n
  end.

(** ** The consumer *)

(** [_is_done] *)
Definition is_done (id : N) : ST W bool := λ w,
  (Ok (bool_decide (alive (bw_now w) (bw_marks w !! id) = Some DoneMark)), w).

(** [SET key token NX EX lease_ttl] with a fresh token *)
Definition claim_lease (id : N) : ST W (option N) := λ w,
  match alive (bw_now w) (bw_marks w !! id) with
  | Some _ => (Ok None, w)
  | None => (Ok (Some (bw_tokens w)),
             set_marks (<[id := (Lease (bw_tokens w), bw_now w + bc_lease_ttl cfg)]> (bw_marks w)) (bw_tokens w + 1) w)
  end.

(** [_COMPLETE_IF_OWNER_LUA] *)
Definition complete_if_owner (id token : N) : ST W bool := λ w,
  if decide (alive (bw_now w) (bw_marks w !! id) = Some (Lease token)) then
    (Ok true, set_marks (<[id := (DoneMark, bw_now w + bc_dedup_ttl cfg)]> (bw_marks w)) (bw_tokens w) w)
  else (Ok false, w).

(** [_RELEASE_IF_OWNER_LUA] *)
Definition release_if_owner (id token : N) : ST W unit := λ w,
  if decide (alive (bw_now w) (bw_marks w !! id) = Some (Lease token)) then
    (Ok tt, set_marks (delete id (bw_marks w)) (bw_tokens w) w)
  else (Ok tt, w).

(** The handler, run on its own part of the world. *)
Definition run_handler {L} (e : E) : frame W L unit := λ l,
  pbind (pzoom data_lens (handle e)) (λ r, Ret (r, l)).

(** [_process] *)
Definition process (m : Message) : frame W unit bool :=
  match validate_event (ms_body m) with
  | Err e => throw e
  | Ok event =>
      let id := event_id event in
      dup ← await (is_done id);
      if (dup : bool) then mret true
      else
        won ← await (claim_lease id);
        match won with
        | None => again ← await (is_done id); mret again
        | Some token =>
            try_catch (run_handler event)
              (λ e, try_catch (await (release_if_owner id token)) (λ _, mret tt) ;; throw e) ;;
            completed ← await (complete_if_owner id token);
            mret completed
        end
  end.

(** [delete_message] *)
Definition delete_message (m : Message) : ST W unit := λ w,
  (Ok tt, set_queue (filter (λ x, x ≠ m) (bw_queue w)) (bw_dlq w) w).

(** [_process_and_ack] *)
Definition process_and_ack (m : Message) : frame W unit bool :=
  acked ← try_catch (process m) (λ e, if is_Exception e then mret false else throw e);
  if (acked : bool) then
    try_catch (await (delete_message m) ;; mret true) (λ e, if is_Exception e then mret false else throw e)
  else mret false.

(** One delivery of [poll_once]: a message SQS hands out, and its processing. *)
Definition consume (pick : nat) : frame W unit bool :=
  m ← await (λ w, (Ok (bw_queue w !! pick), w));
  match m with
  | None => mret false
  | Some m => process_and_ack m
  end.

(** ** Dead-letter replay (scripts/dlq_replay.py) *)

(** SQS caps [ReceiveMessage] at 10. *)
Definition REPLAY_BATCH : nat := 10.
Definition DEFAULT_LIMIT : nat := 1000.

(** [receive_message] on the dead-letter queue; [visible] are the receipts SQS shows. *)
Definition receive_dead (visible : N → bool) (n : nat) : ST W (list Message) := λ w,
  (Ok (take n (filter (λ m, visible (ms_receipt m) = true) (bw_dlq w))), w).

(** [send_message] to the source queue, body and attributes as they were *)
Definition send_back (m : Message) : ST W unit := λ w,
  (Ok tt, MkBus (bw_outbox w) (bw_next w + 1) (bw_produced w) (bw_topics w) (bw_sent w)
            (bw_queue w ++ [MkMessage (bw_next w) (ms_body m) (ms_trace m)]) (bw_dlq w)
            (bw_marks w) (bw_tokens w) (bw_now w) (bw_data w)).

Definition delete_dead (m : Message) : ST W unit := λ w,
  (Ok tt, set_queue (bw_queue w) (filter (λ x, x ≠ m) (bw_dlq w)) w).

(** The body of the inner loop; the local is [moved]. *)
Definition replay_message (m : Message) : frame W nat unit :=
  await (send_back m) ;; await (delete_dead m) ;; set_locals S.

(** [while moved < limit]: [None] when the fuel did not suffice. *)
Fixpoint replay_rounds (fuel limit : nat) (visible : nat → N → bool) : frame W nat (option nat) :=
  match fuel with
  | O => mret None
  | S fuel =>
      moved ← locals;
      if decide (moved < limit)%nat then
        messages ← await (receive_dead (visible fuel) (Nat.min REPLAY_BATCH (limit - moved)));
        match messages with
        | [] => mret (Some moved)
        | _ => iterate messages replay_message ;; replay_rounds fuel limit visible
        end
      else mret (Some moved)
  end.

(** [replay_queue]; [exist]: both queues do. *)
Definition replay_queue (fuel : nat) (exist : bool) (limit : nat) (visible : nat → N → bool) : frame W unit (option nat) :=
  if exist then call 0%nat (replay_rounds fuel limit visible) else mret (Some 0%nat).
End Bus.

(** ** The poll loop's backoff (polling.py) *)

(** The sleep after [failures] failed passes in a row, in tenths of a second. *)
Fixpoint next_backoff (failures : nat) (initial max : Z) : Z :=
  match failures with
  | O => initial
  | S n => Z.min (next_backoff n initial max * 2) max
  end.
