(* ===== verification/BusFacts.v ===== *)
(** * BusFacts: no event is lost on the way to its subscriber

    The invariant of the bus and its consequences: what is stamped published was
    accepted by SNS; a message leaves the queue only when its event has been dealt
    with, in the handler's own terms; and every published event of a subscribed type
    waits in the queue, lies in the dead-letter queue, or has been dealt with.
    Proved against [HandlerLaws], for any number of relays, workers, redeliveries,
    crashes and lapsed leases. *)

From stdpp Require Import sorting.
From Stdlib Require Import Ascii String.
From S2P Require Import Prelude Errors UnitOfWork Text Parse ImageKeys Effects Bus.

(** ** Trace context *)

Lemma zeros_length n : String.length (zeros n) = n.
Proof. induction n; simpl; congruence. Qed.

Lemma zeros_hex n : all_chars lower_hex (zeros n) = true.
Proof. induction n; [done|]. by simpl. Qed.

Lemma substring_chars f n s : all_chars f s = true → all_chars f (String.substring 0 n s) = true.
Proof.
  revert n. induction s as [|c s IH]; intros [|n]; simpl; try done. intros [-> Hs]%andb_true_iff. by rewrite IH.
Qed.

(** A W3C trace id: 32 lower-case hexadecimal digits, not all zero. *)
Definition valid_trace_id (t : string) : Prop :=
  all_chars lower_hex t = true ∧ String.length t = 32%nat ∧ all_zero t = false.

Lemma normalise_shape t random : valid_trace_id random → valid_trace_id (normalise_trace_id t random).
Proof.
  intros (Hr & Hl & Hz). unfold valid_trace_id. unfold normalise_trace_id. set (h := keep_chars _ _).
  set (x := String.substring _ _ _). destruct (all_zero x) eqn:E; [by split_and!|]. split_and!; [..|done].
  - apply substring_chars. rewrite all_chars_app, zeros_hex. unfold h. by rewrite keep_chars_all.
  - apply substring_length. rewrite str_length_app, zeros_length. lia.
Qed.

(** Reading back the trace of a message gives the normalised id of the event it
    came from, always a valid one. *)
Theorem traceparent_roundtrip (trace_id random span : string)
    (Hr : valid_trace_id random) (Hs : all_chars lower_hex span = true) :
  parse_trace_id (Some (format_traceparent trace_id random span)) = Some (normalise_trace_id trace_id random) ∧
  valid_trace_id (normalise_trace_id trace_id random).
Proof.
  pose proof (normalise_shape trace_id random Hr) as Hv. split; [|exact Hv]. destruct Hv as (Hc & Hn & Hnz).
  unfold parse_trace_id, format_traceparent. set (t := normalise_trace_id _ _) in *.
  change ("00-" +:+ t +:+ "-" +:+ span +:+ "-01")%string
    with ("00" +:+ String "-" (t +:+ String "-" (span +:+ String "-" "01")))%string.
  change ("00" +:+ String "-" (t +:+ String "-" (span +:+ String "-" "01")))%string
    with (String "0" (String "0" (String "-" (t +:+ String "-" (span +:+ String "-" "01"))))) at 1. cbv iota beta.
  rewrite split_on_app by done. rewrite split_on_app by (by apply (hex_text_no "-")).
  rewrite split_on_app by (by apply (hex_text_no "-")). rewrite split_on_none by done.
  rewrite decide_True by done. by rewrite Hc, Hnz.
Qed.

Lemma traceparent_roundtrip_witness :
  parse_trace_id (Some (format_traceparent "0AF7-651916cd43dd8448eb211c80319c" "00000000000000000000000000000001" "b7ad6b7169203331")) =
  Some "0af7651916cd43dd8448eb211c80319c"%string.
Proof.
  assert (valid_trace_id "00000000000000000000000000000001") as Hr by (vm_compute; repeat split).
  exact (proj1 (traceparent_roundtrip "0AF7-651916cd43dd8448eb211c80319c" "00000000000000000000000000000001"
    "b7ad6b7169203331" Hr eq_refl)).
Defined.

(** ** The invariant *)

Section Facts.
Context {D E : Type} {EC : EventContract E} {EH : EventHandler D E} {HL : HandlerLaws D E} (cfg : BusSettings).
Notation W := (BusWorld D).
Implicit Types (w : W).

Definition valid_in (w : W) (p : string) (e : E) : Prop := p ∈ bw_produced w ∧ validate_event p = Ok e.

Definition dealt_with (w : W) (p : string) : Prop := ∃ e, validate_event p = Ok e ∧ h_done e (bw_data w).

(** On the queue or its dead-letter queue; and a body carried by a message of receipt
    [n] or later. *)
Definition held (w : W) (m : Message) : Prop := m ∈ bw_queue w ∨ m ∈ bw_dlq w.
Definition pending (w : W) (n : N) (p : string) : Prop := ∃ m, held w m ∧ ms_body m = p ∧ (n ≤ ms_receipt m)%N.

Record BusInv (w : W) : Prop := {
  bi_data : h_inv (bw_data w);
  bi_sent : ∀ t p, (t, p) ∈ bw_sent w → p ∈ bw_produced w;
  bi_queue : ∀ m e, held w m → validate_event (ms_body m) = Ok e → ms_body m ∈ bw_produced w;
  bi_receipts : ∀ m, held w m → (ms_receipt m < bw_next w)%N;
  bi_unique : ∀ p1 p2 e1 e2, valid_in w p1 e1 → valid_in w p2 e2 → event_id e1 = event_id e2 → p1 = p2;
  bi_marks : ∀ id ex, bw_marks w !! id = Some (DoneMark, ex) →
    ∃ p e, valid_in w p e ∧ event_id e = id ∧ h_done e (bw_data w);
  bi_rows : ∀ k r, bw_outbox w !! k = Some r →
    ox_payload r ∈ bw_produced w ∧ (is_Some (ox_published r) → (ox_type r, ox_payload r) ∈ bw_sent w);
  bi_next : ∀ k r, bw_outbox w !! k = Some r → (k.2 < bw_next w)%N;
  bi_delivered : ∀ t p, (t, p) ∈ bw_sent w → bc_subscribed cfg t = true → pending w 0 p ∨ dealt_with w p
}.

Record bus_evolves (w w' : W) : Prop := {
  be_produced : bw_produced w ⊆ bw_produced w';
  be_sent : bw_sent w ⊆ bw_sent w';
  be_data : h_evolves (bw_data w) (bw_data w');
  be_next : (bw_next w ≤ bw_next w')%N;
  be_pending : ∀ n p, pending w n p → pending w' n p ∨ dealt_with w' p;
  be_rows : ∀ k r', bw_outbox w' !! k = Some r' → (k.2 < bw_next w)%N →
    ∃ r, bw_outbox w !! k = Some r ∧ ox_type r' = ox_type r ∧ ox_payload r' = ox_payload r
}.

Lemma dealt_with_stable w w' p : h_evolves (bw_data w) (bw_data w') → dealt_with w p → dealt_with w' p.
Proof. intros He (e & Hv & Hd). exists e. split; [done|]. by eapply h_done_stable. Qed.

#[local] Instance bus_evolves_preorder : PreOrder bus_evolves.
Proof.
  split.
  - intros w. split; [done|done|done|done|by left|]. intros k r' Hr _. by exists r'.
  - intros w1 w2 w3 [P1 S1 D1 N1 Q1 R1] [P2 S2 D2 N2 Q2 R2].
    split; [set_solver|set_solver|by etrans|lia| |].
    + intros n p [Hp|Hp]%Q1; [by apply Q2|right; by eapply dealt_with_stable].
    + intros k r3 Hr3 Hk.
      destruct (R2 k r3 Hr3 ltac:(lia)) as (r2 & Hr2 & Et & Ep). destruct (R1 k r2 Hr2 Hk) as (r1 & Hr1 & Et' & Ep').
      exists r1. split_and!; [done|congruence..].
Qed.

Lemma pending_stable w w' n p :
  bus_evolves w w' → pending w n p ∨ dealt_with w p → pending w' n p ∨ dealt_with w' p.
Proof. intros He [Hp|Hd]; [by apply (be_pending _ _ He)|right]. by eapply dealt_with_stable, Hd; apply He. Qed.

(** Where a sent event of a subscribed type is. *)
Lemma whereabouts w t p :
  BusInv w → (t, p) ∈ bw_sent w → bc_subscribed cfg t = true →
  p ∈ ms_body <$> bw_queue w ∨ p ∈ ms_body <$> bw_dlq w ∨ dealt_with w p.
Proof.
  intros HI Hs Hsub. destruct (bi_delivered _ HI t p Hs Hsub) as [(m & [Hm|Hm] & <- & _)|Hd]; [left|right; left|by right; right];
    apply list_elem_of_fmap; eauto.
Qed.

Lemma same_event w p1 p2 e1 e2 :
  BusInv w → valid_in w p1 e1 → valid_in w p2 e2 → event_id e1 = event_id e2 → e1 = e2.
Proof.
  intros HI H1 H2 Hid. pose proof (bi_unique _ HI _ _ _ _ H1 H2 Hid) as ->.
  destruct H1 as [_ E1], H2 as [_ E2]. congruence.
Qed.

(** ** Steps *)

(** Queues, markers and the handler's state change; the rest stays. *)
Lemma inner_step w w' :
  BusInv w → bw_outbox w' = bw_outbox w → (bw_next w ≤ bw_next w')%N → bw_produced w' = bw_produced w →
  bw_sent w' = bw_sent w → h_inv (bw_data w') → h_evolves (bw_data w) (bw_data w') →
  (∀ m, held w' m → held w m ∨
     ((ms_receipt m < bw_next w')%N ∧ ∀ e, validate_event (ms_body m) = Ok e → ms_body m ∈ bw_produced w)) →
  (∀ n p, pending w n p → pending w' n p ∨ dealt_with w' p) →
  (∀ id ex, bw_marks w' !! id = Some (DoneMark, ex) → bw_marks w !! id = Some (DoneMark, ex) ∨
     ∃ p e, valid_in w p e ∧ event_id e = id ∧ h_done e (bw_data w')) →
  BusInv w' ∧ bus_evolves w w'.
Proof.
  intros HI Ho Hn Hp Hs Hd He Hq Hqd Hm. split; split; rewrite ?Ho, ?Hp, ?Hs; try done; try apply HI.
  - intros m e Hh Hv. destruct (Hq m Hh) as [Hold|[_ Hnew]]; [by eapply (bi_queue _ HI)|by eapply Hnew].
  - intros m Hh. destruct (Hq m Hh) as [Hold%(bi_receipts _ HI)|[? _]]; [lia|done].
  - unfold valid_in. rewrite Hp. apply (bi_unique _ HI).
  - intros id ex Hmk. destruct (Hm id ex Hmk) as [Hold|(p & e & Hv & Hid & Hdn)].
    + destruct (bi_marks _ HI _ _ Hold) as (p & e & Hv & Hid & Hdn). exists p, e. unfold valid_in. rewrite Hp.
      split_and!; [apply Hv|apply Hv|done|]. by eapply h_done_stable.
    + exists p, e. unfold valid_in. rewrite Hp. split_and!; [apply Hv|apply Hv|done|done].
  - intros k r Hr. pose proof (bi_next _ HI k r Hr). lia.
  - intros t p Htp Hsub. destruct (bi_delivered _ HI t p Htp Hsub) as [Hin|Hdw]; [by apply Hqd|].
    right. by eapply dealt_with_stable.
  - intros k r' Hr _. by exists r'.
Qed.

Lemma marks_step w marks t :
  BusInv w →
  (∀ id ex, marks !! id = Some (DoneMark, ex) → bw_marks w !! id = Some (DoneMark, ex) ∨
     ∃ p e, valid_in w p e ∧ event_id e = id ∧ h_done e (bw_data w)) →
  BusInv (set_marks marks t w) ∧ bus_evolves w (set_marks marks t w).
Proof. intros HI Hm. apply inner_step; simpl; try done; [apply HI|by left|by left]. Qed.

Lemma data_step w d :
  BusInv w → h_inv d → h_evolves (bw_data w) d → BusInv (set_data d w) ∧ bus_evolves w (set_data d w).
Proof. intros HI Hd He. apply inner_step; simpl; try done; by left. Qed.

Lemma claim_lease_step w id : BusInv w → BusInv (claim_lease cfg id w).2 ∧ bus_evolves w (claim_lease cfg id w).2.
Proof.
  intros HI. unfold claim_lease. destruct (alive _ _); simpl; [done|]. apply marks_step; [done|].
  intros i ex. rewrite lookup_insert_Some. intros [[_ ?]|[_ ?]]; [done|by left].
Qed.

Lemma lease_release_step w id t : BusInv w → BusInv (release_if_owner id t w).2 ∧ bus_evolves w (release_if_owner id t w).2.
Proof.
  intros HI. unfold release_if_owner. case_decide; simpl; [|done]. apply marks_step; [done|].
  intros i ex [_ ?]%lookup_delete_Some. by left.
Qed.

Lemma complete_step w p e t :
  BusInv w → valid_in w p e → h_done e (bw_data w) →
  BusInv (complete_if_owner cfg (event_id e) t w).2 ∧ bus_evolves w (complete_if_owner cfg (event_id e) t w).2.
Proof.
  intros HI Hv Hd. unfold complete_if_owner. case_decide; simpl; [|done]. apply marks_step; [done|].
  intros i ex. rewrite lookup_insert_Some. intros [[<- _]|[_ ?]]; [right|by left]. by exists p, e.
Qed.

Lemma delete_message_step w m e :
  BusInv w → validate_event (ms_body m) = Ok e → h_done e (bw_data w) →
  BusInv (delete_message m w).2 ∧ bus_evolves w (delete_message m w).2.
Proof.
  intros HI Hv Hd. apply inner_step; simpl; try done; [apply HI|..|by left].
  - intros m' [[_ Hm']%list_elem_of_filter|Hm']; left; [by left|by right].
  - intros n p (m' & Hh & <- & Hn). destruct (decide (m' = m)) as [->|Hne]; [right; by exists e|left]. exists m'. split; [|done].
    destruct Hh; [left; by apply list_elem_of_filter|by right].
Qed.

(** ** The consumer *)

Notation WPT := (wpt BusInv bus_evolves).

Lemma valid_stable w w' p e : bus_evolves w w' → valid_in w p e → valid_in w' p e.
Proof. intros He [Hp Hv]. split; [by apply (be_produced _ _ He)|done]. Qed.

Lemma done_stable w w' e : bus_evolves w w' → h_done e (bw_data w) → h_done e (bw_data w').
Proof. intros He. apply h_done_stable, He. Qed.

Lemma run_handler_ok {L} e (l : L) w : WPT (run_handler e) l (λ _ w', h_done e (bw_data w')) w.
Proof.
  apply wp_pbind. eapply wp_mono; [apply _| |apply (wp_pzoom data_lens BusInv bus_evolves h_inv h_evolves)].
  7: apply h_handles.
  - intros r w' _ Hr. destruct r as [[]|]; [by apply Hr|done].
  - intros w1 HI. apply HI.
  - intros w1 w2 He. apply He.
  - done.
  - by intros [].
  - intros w1 d HI Hd He. by apply data_step.
Qed.

Lemma is_done_ok {L} p e (l : L) w :
  valid_in w p e → WPT (await (is_done (event_id e))) l (λ b w', b = true → h_done e (bw_data w')) w.
Proof.
  intros Hv. rule wpt_await. intros w1 HI He. split; [done|]. intros b [= <-] Hb. simpl.
  apply bool_decide_eq_true, alive_Some in Hb as [ex Hm].
  destruct (bi_marks _ HI _ _ Hm) as (p' & e' & Hv' & Hid & Hd).
  by rewrite (same_event w1 p p' e e' HI (valid_stable _ _ _ _ He Hv) Hv' (eq_sym Hid)).
Qed.

Lemma process_ok m l w :
  (∀ e, validate_event (ms_body m) = Ok e → ms_body m ∈ bw_produced w) →
  WPT (process cfg m) l (λ b w', b = true → dealt_with w' (ms_body m)) w.
Proof.
  intros Hin. unfold process. destruct (validate_event (ms_body m)) as [e|err] eqn:Ev; [|done].
  assert (valid_in w (ms_body m) e) as Hv by (split; [by eapply Hin|done]).
  assert (∀ w', h_done e (bw_data w') → dealt_with w' (ms_body m)) as Hdw by (intros w' Hd; by exists e).
  bind_with (λ b w', b = true → h_done e (bw_data w')); [by eapply is_done_ok|].
  intros [|] l1 w1 He1 Hb; [intros _; by apply Hdw, Hb|].
  bind_with (λ _ _, True); [rule wpt_await; intros w2 HI2 _; split; [by apply claim_lease_step|done]|].
  intros [t|] l2 w2 He2 _.
  2:{ bind_with (λ b w', b = true → h_done e (bw_data w')).
      - eapply is_done_ok, valid_stable; [exact He2|]. by eapply valid_stable.
      - intros b l3 w3 _ Hd Hbt. by apply Hdw, Hd. }
  bind_with (λ _ w', h_done e (bw_data w')).
  { rule wpt_try; [apply run_handler_ok|]. intros e' l3 w3 _. bind_with (λ _ _, True); [|done].
    rule wpt_try; [|done]. rule wpt_await. intros w4 HI4 _. split; [by apply lease_release_step|done]. }
  intros _ l3 w3 He3 Hd3.
  bind_with (λ _ w', h_done e (bw_data w')).
  { rule wpt_await. intros w4 HI4 He4. pose proof (done_stable _ _ _ He4 Hd3) as Hd4.
    assert (valid_in w4 (ms_body m) e) as Hv4.
    { do 4 (eapply valid_stable; [eassumption|]). done. }
    destruct (complete_step w4 _ e t HI4 Hv4 Hd4) as [HI5 He5]. split; [done|]. intros _ _. by eapply done_stable. }
  intros b l4 w4 _ Hd4 _. by apply Hdw.
Qed.

Lemma process_and_ack_ok m l w :
  (∀ e, validate_event (ms_body m) = Ok e → ms_body m ∈ bw_produced w) →
  WPT (process_and_ack cfg m) l (λ _ _, True) w.
Proof.
  intros Hin. bind_with (λ b w', b = true → dealt_with w' (ms_body m)).
  { rule wpt_try; [by apply process_ok|]. intros e l1 w1 _. by destruct (is_Exception e). }
  intros [|] l1 w1 He1 Hb; [|done]. destruct (Hb eq_refl) as (e & Hv & Hd).
  rule wpt_try; [|intros e' l2 w2 _; by destruct (is_Exception e')].
  bind_with (λ _ _, True); [|done]. rule wpt_await. intros w2 HI2 He2. split; [|done].
  eapply delete_message_step; [done|exact Hv|]. by eapply done_stable.
Qed.

Lemma consume_ok pick l w : WPT (consume cfg pick) l (λ _ _, True) w.
Proof.
  bind_with (λ m w', match m with
    | Some m => ∀ e, validate_event (ms_body m) = Ok e → ms_body m ∈ bw_produced w'
    | None => True end).
  - rule wpt_await. intros w1 HI _. split; [done|]. intros m [= <-]. simpl.
    destruct (bw_queue w1 !! pick) as [m|] eqn:Em; [|done]. intros e Hv.
    eapply (bi_queue _ HI); [left; by eapply list_elem_of_lookup_2|done].
  - intros [m|] l1 w1 _ Hm; [by apply process_and_ack_ok|done].
Qed.

(** ** The relay *)

Lemma publish_step w t p tr :
  BusInv w → p ∈ bw_produced w →
  (BusInv (sns_publish cfg t p tr w).2 ∧ bus_evolves w (sns_publish cfg t p tr w).2) ∧
  ((sns_publish cfg t p tr w).1 = Ok tt → (t, p) ∈ bw_sent (sns_publish cfg t p tr w).2).
Proof.
  intros HI Hp. unfold sns_publish. case_decide; simpl; [|done]. split; [|intros _; set_solver]. set (m0 := MkMessage _ _ _).
  set (w' := MkBus _ _ _ _ _ _ _ _ _ _ _).
  assert (∀ m, held w' m → held w m ∨ m = m0) as Hheld.
  { unfold held, w'. simpl. intros m. destruct (bc_subscribed cfg t); set_solver. }
  assert (∀ m, held w m → held w' m) as Hkeep by (unfold held, w'; simpl; intros m; destruct (bc_subscribed cfg t); set_solver).
  assert (∀ n p', pending w n p' → pending w' n p') as Hpend by (intros n p' (m & Hm & ? & ?); exists m; auto).
  assert (bc_subscribed cfg t = true → held w' m0) as Hfresh by (unfold held, w'; simpl; intros ->; set_solver).
  split; split; simpl; try apply HI.
  - intros t' p' [?|Es%list_elem_of_singleton]%elem_of_app; [by eapply (bi_sent _ HI)|by simplify_eq].
  - intros m e Hh. destruct (Hheld m Hh) as [Hold| ->]; [by apply (bi_queue _ HI)|done].
  - intros m Hh. destruct (Hheld m Hh) as [Hold%(bi_receipts _ HI)| ->]; simpl; lia.
  - intros k r Hr. destruct (bi_rows _ HI k r Hr) as [? Hs]. split; [done|]. intros Hpub. apply elem_of_app. left. by apply Hs.
  - intros k r Hr. pose proof (bi_next _ HI k r Hr). lia.
  - intros t' p' [Hin|Es%list_elem_of_singleton]%elem_of_app Hsub; [|injection Es as -> ->].
    + destruct (bi_delivered _ HI t' p' Hin Hsub); [left; by apply Hpend|by right].
    + left. rewrite Hsub in Hfresh. eexists. split; [exact (Hfresh eq_refl)|]. split; [done|]. simpl. lia.
  - done.
  - set_solver.
  - done.
  - lia.
  - intros n p' Hp'. left. by apply Hpend.
  - intros k r' Hr _. by exists r'.
Qed.

Lemma topic_step w t : BusInv w → BusInv (create_topic cfg t w).2 ∧ bus_evolves w (create_topic cfg t w).2.
Proof. intros HI. apply inner_step; simpl; try done; [apply HI|by left..]. Qed.

(** [publish] does not touch the locals of its task. *)
Lemma publish_frame {L} t p (l : L) w :
  p ∈ bw_produced w →
  wpf BusInv bus_evolves (publish cfg t p) l (λ _ l' w', l' = l ∧ (t, p) ∈ bw_sent w') (λ _ l' _, l' = l) w.
Proof.
  intros Hp. unfold publish. destruct (payload_trace p) as [tr|]; [|done].
  assert (∀ w1, bus_evolves w w1 → wpf BusInv bus_evolves (await (sns_publish cfg t p tr)) l
    (λ _ l' w', l' = l ∧ (t, p) ∈ bw_sent w') (λ _ l' _, l' = l) w1) as Hpub.
  { intros w1 He1. rule wpf_await_ok; [|done]. intros w2 HI2 He2.
    destruct (publish_step w2 t p tr HI2) as [Hst Hs]; [|split; [done|]; intros [] Ha; split; [done|by apply Hs]].
    apply (be_produced _ _ He2). by apply (be_produced _ _ He1). }
  assert (wpf BusInv bus_evolves (await (create_topic cfg t)) l
    (λ _ l', wpf BusInv bus_evolves (await (sns_publish cfg t p tr)) l' (λ _ l' w', l' = l ∧ (t, p) ∈ bw_sent w') (λ _ l' _, l' = l))
    (λ _ l' _, l' = l) w) as Hnew.
  { rule wpf_await_ok; [|done]. intros w1 HI1 He1. destruct (topic_step w1 t HI1) as [? ?]. split; [done|].
    intros _ _. apply Hpub. by etrans. }
  rule wpf_bind. destruct (bc_arn_prefix cfg) as [[|c s]|]; [exact Hnew|by apply Hpub|exact Hnew].
Qed.

(** A claimed row, as it was at the claim. *)
Definition claimed (w : W) (schema : string) (x : N * OutboxRow) : Prop :=
  (x.1 < bw_next w)%N ∧ ox_payload x.2 ∈ bw_produced w ∧
  ∀ r, bw_outbox w !! (schema, x.1) = Some r → ox_type r = ox_type x.2 ∧ ox_payload r = ox_payload x.2.

Lemma claimed_stable w w' schema x : bus_evolves w w' → claimed w schema x → claimed w' schema x.
Proof.
  intros He (Hn & Hp & Hr). pose proof (be_next _ _ He). split_and!; [lia|by apply (be_produced _ _ He)|].
  intros r' Hr'. destruct (be_rows _ _ He _ _ Hr' Hn) as (r & Hro & -> & ->). by apply Hr.
Qed.

Lemma claim_rows_ok w schema locked rows :
  BusInv w → (claim_rows cfg schema locked w).1 = Ok rows → Forall (claimed w schema) rows.
Proof.
  intros HI [= <-]. apply Forall_forall. intros [i r] Hx. apply elem_of_take in Hx as (j & Hj & _).
  apply list_elem_of_lookup_2 in Hj. rewrite merge_sort_Permutation in Hj.
  apply list_elem_of_omap in Hj as ([[s k] r'] & Hin & Hc). apply elem_of_map_to_list in Hin. unfold claimable in Hc.
  case_decide as Hd; [|done]. injection Hc as -> ->. destruct Hd as (-> & _ & _).
  split_and!; simpl; [by apply (bi_next _ HI _ _ Hin)|by apply (bi_rows _ HI _ _ Hin)|].
  intros r'' Hr''. by simplify_eq.
Qed.

(** The task group: no failure means every row was accepted. *)
Lemma publish_all_ok rows l w :
  Forall (λ x, ox_payload x.2 ∈ bw_produced w) rows →
  wpf BusInv bus_evolves
    (iterate rows (λ x : N * OutboxRow, try_catch (publish cfg (ox_type x.2) (ox_payload x.2)) (λ e, set_locals (λ fs, fs ++ [e]))))
    l (λ _ l' w', l' = [] → l = [] ∧ ∀ x, x ∈ rows → (ox_type x.2, ox_payload x.2) ∈ bw_sent w') (λ _ _ _, True) w.
Proof.
  revert l w. induction rows as [|x rows IH]; intros l w Hf; simpl.
  { apply wpf_ret. intros ->. split; [done|]. by intros ? ?%not_elem_of_nil. }
  apply Forall_cons in Hf as [Hx Hf].
  assert (∀ l1 w1, bus_evolves w w1 → (l1 = [] → l = [] ∧ (ox_type x.2, ox_payload x.2) ∈ bw_sent w1) →
    wpf BusInv bus_evolves
      (iterate rows (λ x : N * OutboxRow, try_catch (publish cfg (ox_type x.2) (ox_payload x.2)) (λ e, set_locals (λ fs, fs ++ [e]))))
      l1 (λ _ l' w', l' = [] → l = [] ∧ ∀ y, y ∈ x :: rows → (ox_type y.2, ox_payload y.2) ∈ bw_sent w') (λ _ _ _, True) w1) as Hrest.
  { intros l1 w1 He1 Hl1. eapply wpf_mono; [apply _| | |apply IH].
    - intros [] l2 w2 He2 Hq ->. destruct (Hq eq_refl) as [Enil Hall]. destruct (Hl1 Enil) as [El Hs]. split; [done|].
      intros y [->|Hy]%elem_of_cons; [by apply (be_sent _ _ He2)|by apply Hall].
    - done.
    - eapply Forall_impl; [exact Hf|]. intros y. apply (be_produced _ _ He1). }
  rule wpf_bind. rule wpf_try. eapply wpf_mono; [apply _| | |apply (publish_frame (ox_type x.2) (ox_payload x.2) l w Hx)].
  - intros [] l1 w1 He1 [-> Hs]. apply Hrest; [done|]. by intros ->.
  - intros e l1 w1 He1 ->. apply wpf_set_locals. apply Hrest; [done|]. intros Enil. by apply app_nil in Enil as [_ ?].
Qed.

Lemma mark_published_step w schema rows :
  BusInv w → Forall (claimed w schema) rows → (∀ x, x ∈ rows → (ox_type x.2, ox_payload x.2) ∈ bw_sent w) →
  BusInv (mark_published schema rows.*1 w).2 ∧ bus_evolves w (mark_published schema rows.*1 w).2.
Proof.
  intros HI Hc Hs. unfold mark_published. simpl.
  assert (∀ k r', map_imap (λ k r, Some (if decide (k.1 = schema ∧ k.2 ∈ rows.*1) then stamp (bw_now w) r else r)) (bw_outbox w) !! k = Some r' →
    ∃ r, bw_outbox w !! k = Some r ∧ ox_type r' = ox_type r ∧ ox_payload r' = ox_payload r ∧
      (is_Some (ox_published r') → is_Some (ox_published r) ∨ (ox_type r, ox_payload r) ∈ bw_sent w)) as Hrow.
  { intros k r' Hr'. rewrite map_lookup_imap in Hr'. destruct (bw_outbox w !! k) as [r|] eqn:Er; [|done].
    simpl in Hr'. injection Hr' as <-. exists r. split; [done|]. case_decide as Hd; simpl; [|split_and!; [done..|by left]].
    split_and!; [done..|]. intros _. right. destruct k as [s i], Hd as [Hs0 Hi]. simpl in *. subst s.
    apply list_elem_of_fmap in Hi as (x & -> & Hx). rewrite Forall_forall in Hc.
    destruct (Hc x Hx) as (_ & _ & Hsame). destruct (Hsame r Er) as [-> ->]. by apply Hs. }
  split; split; simpl; try apply HI; try done.
  - intros k r' Hr'. destruct (Hrow k r' Hr') as (r & Er & -> & -> & Hpub). destruct (bi_rows _ HI k r Er) as [? Hp].
    split; [done|]. intros Hr. destruct (Hpub Hr); [by apply Hp|done].
  - intros k r' Hr'. destruct (Hrow k r' Hr') as (r & Er & _). by apply (bi_next _ HI k r).
  - by left.
  - intros k r' Hr' _. destruct (Hrow k r' Hr') as (r & Er & ? & ? & _). by exists r.
Qed.

Lemma drain_schema_ok schema locked w :
  wpf BusInv bus_evolves (drain_schema cfg schema locked) [] (λ _ _ _, True) (λ _ _ _, True) w.
Proof.
  rule wpf_bind. rule wpf_await_ok; [|done]. intros w1 HI1 _. split; [done|]. intros rows Er.
  pose proof (claim_rows_ok w1 schema locked rows HI1 Er) as Hc. cbn [snd claim_rows]. clear Er.
  destruct rows as [|x rows]; [done|]. rule wpf_bind.
  eapply wpf_mono; [apply _| | |apply publish_all_ok].
  - intros [] l2 w2 He2 Hall. rule wpf_bind. apply wpf_locals. destruct l2 as [|e l2]; simpl.
    2:{ destruct (is_Exception e || existsb is_Exception l2); done. }
    rule wpf_bind. rule wpf_await_ok; [|done]. intros w3 HI3 He3. split; [|done].
    apply (mark_published_step w3 schema (x :: rows)); [done|..].
    + eapply Forall_impl; [exact Hc|]. intros y Hy. eapply claimed_stable; [exact He3|]. by eapply claimed_stable.
    + intros y Hy. apply (be_sent _ _ He3). by apply Hall.
  - done.
  - eapply Forall_impl; [exact Hc|]. by intros y (_ & ? & _).
Qed.

Lemma drain_once_safe locked : Safe BusInv bus_evolves (drain_once cfg locked).
Proof.
  rule Safe_bind.
  - rule Safe_iterate. intros schema _. rule Safe_try; [|intros e; by destruct (is_Exception e)].
    rule Safe_bind; [|intros n; apply Safe_set_locals]. intros l w. rule wpf_call. by apply drain_schema_ok.
  - intros _. rule Safe_bind; [apply Safe_locals|]. by intros [[|n] [|e es]].
Qed.

(** ** The replay *)

Lemma send_back_step w m :
  BusInv w → (∀ e, validate_event (ms_body m) = Ok e → ms_body m ∈ bw_produced w) → (ms_receipt m < bw_next w)%N →
  (BusInv (send_back m w).2 ∧ bus_evolves w (send_back m w).2) ∧ pending (send_back m w).2 (ms_receipt m + 1) (ms_body m).
Proof.
  intros HI Hv Hr. split.
  - apply inner_step; simpl; try done; [lia|apply HI|..|by left].
    + intros m' [[?| ->%list_elem_of_singleton]%elem_of_app|?]; [left; by left| |left; by right]. right. split; [simpl; lia|done].
    + intros n p (m' & Hh & <- & Hn). left. exists m'. split; [|done]. unfold held in *. simpl. set_solver.
  - exists (MkMessage (bw_next w) (ms_body m) (ms_trace m)). split; [|split; [done|simpl; lia]]. left. simpl. set_solver.
Qed.

(** A dead letter may be deleted once a later copy of it is on its way. *)
Lemma delete_dead_step w m :
  BusInv w → pending w (ms_receipt m + 1) (ms_body m) ∨ dealt_with w (ms_body m) →
  BusInv (delete_dead m w).2 ∧ bus_evolves w (delete_dead m w).2.
Proof.
  intros HI Hcopy. apply inner_step; simpl; try done; [apply HI|..|by left].
  - intros m' [?|[_ ?]%list_elem_of_filter]; left; [by left|by right].
  - assert (∀ m', held w m' → m' ≠ m → held (delete_dead m w).2 m') as Hkeep.
    { intros m' [?|?] Hne; [by left|right]. by apply list_elem_of_filter. }
    intros n p (m' & Hh & <- & Hn). destruct (decide (m' = m)) as [->|Hne]; [|left; exists m'; auto].
    destruct Hcopy as [(c & Hc & Eb & Hrc)|Hd]; [left|by right]. exists c. split; [|split; [done|lia]].
    apply Hkeep; [done|]. intros ->. lia.
Qed.

Lemma replay_message_ok m l w :
  (∀ e, validate_event (ms_body m) = Ok e → ms_body m ∈ bw_produced w) → (ms_receipt m < bw_next w)%N →
  WPT (replay_message m) l (λ _ _, True) w.
Proof.
  intros Hv Hr. bind_with (λ _ w', pending w' (ms_receipt m + 1) (ms_body m) ∨ dealt_with w' (ms_body m)).
  - rule wpt_await. intros w1 HI1 He1. pose proof (be_next _ _ He1).
    destruct (send_back_step w1 m HI1) as [Hst Hp]; [|lia|by split; [|intros; left]].
    intros e Hve. apply (be_produced _ _ He1). by eapply Hv.
  - intros _ l1 w1 _ Hc. bind_with (λ _ _, True); [|intros; by apply wpf_set_locals].
    rule wpt_await. intros w2 HI2 He2. split; [|done]. apply delete_dead_step; [done|]. by eapply pending_stable.
Qed.

Lemma replay_batch_ok ms l w :
  (∀ m, m ∈ ms → (∀ e, validate_event (ms_body m) = Ok e → ms_body m ∈ bw_produced w) ∧ (ms_receipt m < bw_next w)%N) →
  WPT (iterate ms replay_message) l (λ _ _, True) w.
Proof.
  revert l w. induction ms as [|m ms IH]; intros l w Hm; simpl; [by apply wpf_ret|].
  bind_with (λ _ _, True); [apply replay_message_ok; apply (Hm m); by left|]. intros _ l1 w1 He _. apply IH.
  intros m' Hm'. destruct (Hm m' ltac:(by right)) as [Hv Hr]. pose proof (be_next _ _ He). split; [|lia].
  intros e Hve. apply (be_produced _ _ He). by eapply Hv.
Qed.

Lemma replay_rounds_ok fuel limit visible l w : WPT (replay_rounds fuel limit visible) l (λ _ _, True) w.
Proof.
  revert l w. induction fuel as [|fuel IH]; intros l w; simpl; [by apply wpf_ret|].
  bind_with (λ _ _, True); [by apply wpf_locals|]. intros moved l1 w1 _ _. case_decide; [|by apply wpf_ret].
  bind_with (λ ms w', ∀ m, m ∈ ms → (∀ e, validate_event (ms_body m) = Ok e → ms_body m ∈ bw_produced w') ∧ (ms_receipt m < bw_next w')%N).
  - rule wpt_await. intros w2 HI2 _. split; [done|]. intros ms [= <-] m Hm. simpl.
    assert (held w2 m) as Hh.
    { right. apply elem_of_take in Hm as (j & Hj%list_elem_of_lookup_2 & _). by apply list_elem_of_filter in Hj as [_ ?]. }
    split; [intros e; by apply (bi_queue _ HI2)|by apply (bi_receipts _ HI2)].
  - intros ms l2 w2 _ Hms. destruct ms as [|m ms]; [by apply wpf_ret|].
    bind_with (λ _ _, True); [by apply replay_batch_ok|]. intros; apply IH.
Qed.

Lemma replay_queue_ok fuel exist limit visible l w : WPT (replay_queue fuel exist limit visible) l (λ _ _, True) w.
Proof.
  unfold replay_queue. destruct exist; [|by apply wpf_ret]. rule wpf_call.
  eapply wpf_mono; [apply _|..|apply replay_rounds_ok]; done.
Qed.

(** ** The system *)

(** A use-case commits an outbox row; the event id is a fresh [uuid4]. *)
Definition fresh_payload (w : W) (p : string) : bool :=
  match validate_event p with
  | Ok e => forallb (λ p', match validate_event p' with Ok e' => negb (bool_decide (event_id e' = event_id e)) | Err _ => true end)
              (bw_produced w)
  | Err _ => true
  end.

Definition produce (schema t p : string) : ST W unit := λ w,
  if fresh_payload w p then
    (Ok tt, MkBus (<[(schema, bw_next w) := MkRow t p (bw_now w) None]> (bw_outbox w)) (bw_next w + 1) (p :: bw_produced w)
              (bw_topics w) (bw_sent w) (bw_queue w) (bw_dlq w) (bw_marks w) (bw_tokens w) (bw_now w) (bw_data w))
  else (Err RuntimeError, w).

(** SQS gives up on a message ([maxReceiveCount]). *)
Definition redrive_to_dlq (pick : nat) : ST W unit := λ w,
  match bw_queue w !! pick with
  | Some m => (Ok tt, set_queue (filter (λ x, x ≠ m) (bw_queue w)) (m :: bw_dlq w) w)
  | None => (Ok tt, w)
  end.

(** A foreign message, not one of the registered events. *)
Definition intrude (body trace : string) : ST W unit := λ w,
  (Ok tt, MkBus (bw_outbox w) (bw_next w + 1) (bw_produced w) (bw_topics w) (bw_sent w)
            (bw_queue w ++ [MkMessage (bw_next w) body trace]) (bw_dlq w) (bw_marks w) (bw_tokens w) (bw_now w) (bw_data w)).

(** The retention job removes published rows. *)
Definition purge_published (cutoff : Z) : ST W unit := λ w,
  (Ok tt, set_outbox (map_imap (λ _ r, match ox_published r with
                                       | Some t => if decide (t < cutoff) then None else Some r
                                       | None => Some r
                                       end) (bw_outbox w)) w).

Definition pass_time (dt : N) (w : W) : W :=
  MkBus (bw_outbox w) (bw_next w) (bw_produced w) (bw_topics w) (bw_sent w) (bw_queue w) (bw_dlq w) (bw_marks w)
    (bw_tokens w) (bw_now w + Z.of_N dt) (bw_data w).

Inductive bus_arrival : prog W unit → Prop :=
  | ba_produce schema t p : bus_arrival (Atomic (produce schema t p) (λ _, Ret tt))
  | ba_relay locked : bus_arrival (erase (drain_once cfg locked (0%nat, [])))
  | ba_consume pick : bus_arrival (erase (consume cfg pick tt))
  | ba_dlq pick : bus_arrival (Atomic (redrive_to_dlq pick) (λ _, Ret tt))
  | ba_replay fuel exist limit visible : bus_arrival (erase (replay_queue fuel exist limit visible tt))
  | ba_intrude body trace : is_ok (validate_event body) = false → bus_arrival (Atomic (intrude body trace) (λ _, Ret tt))
  | ba_purge cutoff : bus_arrival (Atomic (purge_published cutoff) (λ _, Ret tt))
  | ba_data f : (∀ d, h_inv d → h_inv (f d) ∧ h_evolves d (f d)) →
      bus_arrival (Tick (λ w, set_data (f (bw_data w)) w) (Ret tt))
  | ba_time dt : bus_arrival (Tick (pass_time dt) (Ret tt)).

Lemma produce_step schema t p w : BusInv w → BusInv (produce schema t p w).2 ∧ bus_evolves w (produce schema t p w).2.
Proof.
  intros HI. unfold produce. destruct (fresh_payload w p) eqn:Ef; [|done].
  assert (∀ e p' e', validate_event p = Ok e → p' ∈ bw_produced w → validate_event p' = Ok e' → event_id e' ≠ event_id e) as Hfr.
  { intros e p' e' Hv Hin Hv'. unfold fresh_payload in Ef. rewrite Hv, forallb_forall in Ef.
    specialize (Ef p' (proj1 (list_elem_of_In _ _) Hin)). rewrite Hv' in Ef. by case_bool_decide. }
  split; split; simpl; try apply HI; try done.
  - intros t' p' Htp. right. by eapply (bi_sent _ HI).
  - intros m e Hm Hv. right. by eapply (bi_queue _ HI).
  - intros m Hm. pose proof (bi_receipts _ HI m Hm). lia.
  - intros p1 p2 e1 e2 [[->|Hp1]%elem_of_cons Hv1] [[->|Hp2]%elem_of_cons Hv2] Hid; [done|..].
    + by destruct (Hfr e1 p2 e2).
    + by destruct (Hfr e2 p1 e1).
    + by eapply (bi_unique _ HI).
  - intros id ex Hm. destruct (bi_marks _ HI _ _ Hm) as (p' & e & [? ?] & ? & ?). exists p', e. by split_and!; [split; [right|]|..].
  - intros k r. rewrite lookup_insert_Some. intros [[<- <-]|[_ Hr]]; simpl; [split; [by left|by intros []]|].
    destruct (bi_rows _ HI k r Hr). split; [by right|done].
  - intros k r. rewrite lookup_insert_Some. intros [[<- <-]|[_ Hr]]; simpl; [lia|]. pose proof (bi_next _ HI k r Hr). lia.
  - set_solver.
  - lia.
  - by left.
  - intros k r' Hr' Hk. rewrite lookup_insert_ne in Hr'; [by exists r'|]. intros <-. simpl in Hk. lia.
Qed.

Lemma dlq_step pick w : BusInv w → BusInv (redrive_to_dlq pick w).2 ∧ bus_evolves w (redrive_to_dlq pick w).2.
Proof.
  intros HI. unfold redrive_to_dlq. destruct (bw_queue w !! pick) as [m|] eqn:Em; [|done]. apply list_elem_of_lookup_2 in Em.
  apply inner_step; simpl; try done; [apply HI|..|by left].
  - intros m' [[_ Hm']%list_elem_of_filter|[->|Hm']%elem_of_cons]; left; [by left|by left|by right].
  - intros n p (m' & Hh & <- & Hn). left. exists m'. split; [|done]. unfold held. simpl.
    destruct (decide (m' = m)) as [->|Hne]; [right; by left|]. destruct Hh; [left; by apply list_elem_of_filter|right; by right].
Qed.

Lemma intrude_step body trace w :
  is_ok (validate_event body) = false → BusInv w → BusInv (intrude body trace w).2 ∧ bus_evolves w (intrude body trace w).2.
Proof.
  intros Hm HI. apply inner_step; simpl; try done; [lia|apply HI|..|by left].
  - intros m' [[?| ->%list_elem_of_singleton]%elem_of_app|?]; [left; by left| |left; by right].
    right. split; [simpl; lia|]. intros e Hv. simpl in Hv. by rewrite Hv in Hm.
  - intros n p (m' & Hh & <- & Hn). left. exists m'. split; [|done]. unfold held in *. simpl. set_solver.
Qed.

Lemma purge_step cutoff w : BusInv w → BusInv (purge_published cutoff w).2 ∧ bus_evolves w (purge_published cutoff w).2.
Proof.
  intros HI. unfold purge_published. simpl.
  assert (∀ k r', map_imap (λ _ r, match ox_published r with Some t => if decide (t < cutoff) then None else Some r | None => Some r end)
    (bw_outbox w) !! k = Some r' → bw_outbox w !! k = Some r') as Hrow.
  { intros k r'. rewrite map_lookup_imap. destruct (bw_outbox w !! k) as [r|]; [|done]. simpl.
    destruct (ox_published r); [case_decide|]; congruence. }
  split; split; simpl; try apply HI; try done.
  - intros k r Hr. exact (bi_rows _ HI k r (Hrow _ _ Hr)).
  - intros k r Hr. exact (bi_next _ HI k r (Hrow _ _ Hr)).
  - by left.
  - intros k r Hr _. exists r. by split; [apply Hrow|].
Qed.

Lemma bus_block_safe (m : ST W unit) :
  (∀ w, BusInv w → BusInv (m w).2 ∧ bus_evolves w (m w).2) → safe BusInv bus_evolves (Atomic m (λ _, Ret tt)).
Proof. intros Hm w0 _ w r w' HI _ Ho. destruct (Hm w HI). destruct Ho; by split_and!. Qed.

Lemma bus_safe p : bus_arrival p → safe BusInv bus_evolves p.
Proof.
  destruct 1 as [schema t p|locked|pick|pick|fuel ex limit visible|body trace Hm|cutoff|f Hf|dt].
  - apply bus_block_safe. apply produce_step.
  - apply safe_erase. intros w _. eapply wp_mono; [apply _| |apply (drain_once_safe locked (0%nat, []) w)].
    by intros [[n|e] l] w'.
  - apply safe_erase. intros w _. eapply wp_mono; [apply _| |apply (consume_ok pick tt w)]. by intros [[n|e] l] w'.
  - apply bus_block_safe. apply dlq_step.
  - apply safe_erase. intros w _. eapply wp_mono; [apply _| |apply (replay_queue_ok fuel ex limit visible tt w)].
    by intros [[n|e] l] w'.
  - apply bus_block_safe. intros w. by apply intrude_step.
  - apply bus_block_safe. apply purge_step.
  - intros w0 _ w HI _. destruct (Hf (bw_data w)) as [? ?]; [apply HI|]. destruct (data_step w (f (bw_data w)) HI); [done..|].
    by split_and!.
  - intros w0 _ w HI _. assert (BusInv (pass_time dt w) ∧ bus_evolves w (pass_time dt w)) as [? ?]; [|by split_and!].
    apply inner_step; simpl; try done; [apply HI|by left..].
Qed.

(** An empty bus over a subscriber's consistent state. *)
Definition bus_start (d : D) (topics : gset string) (now : Z) : W := MkBus ∅ 0 [] topics [] [] [] ∅ 0 now d.

Lemma bus_start_inv d topics now : h_inv d → BusInv (bus_start d topics now).
Proof.
  intros Hd. split; simpl.
  - done.
  - by intros ? ? ?%not_elem_of_nil.
  - by intros ? ? [?%not_elem_of_nil|?%not_elem_of_nil].
  - by intros ? [?%not_elem_of_nil|?%not_elem_of_nil].
  - intros ? ? ? ? [Hin _]. by apply not_elem_of_nil in Hin.
  - intros id ex Hm. destruct (lookup_empty_Some _ _ Hm).
  - intros k r Hm. destruct (lookup_empty_Some _ _ Hm).
  - intros k r Hm. destruct (lookup_empty_Some _ _ Hm).
  - by intros ? ? ?%not_elem_of_nil.
Qed.

Definition bus_runs (s : list (prog W unit) * W) : Prop :=
  ∃ d topics now, h_inv d ∧ rtc (pool_step bus_arrival) ([], bus_start d topics now) s.

Lemma bus_runs_inv s : bus_runs s → BusInv s.2.
Proof.
  intros (d & topics & now & Hd & Hr). destruct (pool_sound _ bus_evolves bus_arrival _ _ bus_safe Hr) as [[HI _] _]; [|done].
  split; [by apply bus_start_inv|constructor].
Qed.

(** C11: At-least-once delivery, end to end: in every world that producers, relays,
    workers, redeliveries, crashes, lost answers, lapsed leases and expired markers
    reach, an outbox row stamped published was accepted by SNS, and if its type is
    subscribed to, its message still waits in the queue, lies in the dead-letter
    queue, or its event has been dealt with - in the subscriber's own terms. *)
Theorem published_events_arrive (ts : list (prog W unit)) (w : W) (schema : string) (i : N) (r : OutboxRow)
    (Hw : bus_runs (ts, w)) (Hr : bw_outbox w !! (schema, i) = Some r) (Hp : is_Some (ox_published r)) :
  (ox_type r, ox_payload r) ∈ bw_sent w ∧
  (bc_subscribed cfg (ox_type r) = true →
     ox_payload r ∈ ms_body <$> bw_queue w ∨ ox_payload r ∈ ms_body <$> bw_dlq w ∨ dealt_with w (ox_payload r)).
Proof.
  pose proof (bus_runs_inv _ Hw) as HI. destruct (bi_rows _ HI _ _ Hr) as [_ Hs]. split; [by apply Hs|].
  intros Hsub. by apply (whereabouts w (ox_type r)); [|apply Hs|].
Qed.
End Facts.

#[export] Existing Instance bus_evolves_preorder.
