(* ===== verification/DlqReplay.v ===== *)
(** * DlqReplay: what a replay of the dead-letter queue moves

    [replay_queue] of scripts/dlq_replay.py, run to its end: it stops, it moves no more
    than its limit, and what it moves is on the source queue as it was dead-lettered.
    That nothing is lost when it fails half-way, and while workers and relays run, is
    part of the bus's invariant ([BusFacts.replay_queue_ok]). *)

From Stdlib Require Import String.
From S2P Require Import Prelude Errors UnitOfWork Effects Bus.

Section Replay.
Context {D : Type}.
Notation W := (BusWorld D).
Implicit Types (w : W).

(** What the two queues carry. *)
Definition letter (m : Message) : string * string := (ms_body m, ms_trace m).
Definition carried (w : W) : list (string * string) := letter <$> bw_queue w ++ bw_dlq w.

(** One message sent back and deleted. *)
Definition moved_back (w : W) (m : Message) : W := (delete_dead m (send_back m w).2).2.

Lemma run_replay_message m (l : nat) w : run (replay_message m l) w = ((Ok tt, S l), moved_back w m).
Proof. reflexivity. Qed.

Lemma run_replay_batch ms (l : nat) w :
  run (iterate ms replay_message l) w = ((Ok tt, (l + length ms)%nat), foldl moved_back w ms).
Proof.
  revert l w. induction ms as [|m ms IH]; intros l w; cbn [iterate length foldl].
  - by rewrite Nat.add_0_r.
  - rewrite run_bind, run_replay_message, IH. by rewrite Nat.add_succ_r.
Qed.

Lemma dead_letter_split m (dlq : list Message) : NoDup dlq → m ∈ dlq → dlq ≡ₚ m :: filter (λ x, x ≠ m) dlq.
Proof.
  induction 1 as [|x dlq Hx Hn IH]; [by intros ?%not_elem_of_nil|]. rewrite filter_cons.
  intros [->|Hm]%elem_of_cons.
  - rewrite decide_False by tauto. rewrite filter_all; [done|]. by intros y Hy ->.
  - rewrite decide_True by (by intros ->). rewrite (IH Hm) at 1. apply Permutation_swap.
Qed.

(** What a batch does to the queues. *)
Record replayed (w : W) (n : nat) (w' : W) : Prop := {
  rp_unique : NoDup (bw_dlq w) → NoDup (bw_dlq w');
  rp_carried : carried w' ≡ₚ carried w;
  rp_count : (length (bw_dlq w') + n = length (bw_dlq w))%nat;
  rp_prefix : bw_queue w `prefix_of` bw_queue w'
}.

Lemma replayed_refl w : replayed w 0 w.
Proof. split; [done|done|lia|done]. Qed.

Lemma replayed_trans w n w1 k w2 : replayed w n w1 → replayed w1 k w2 → replayed w (n + k) w2.
Proof.
  intros [U1 C1 L1 P1] [U2 C2 L2 P2]. split; [tauto|by rewrite C2|lia|by etrans].
Qed.

Lemma moved_back_one w m : NoDup (bw_dlq w) → m ∈ bw_dlq w → replayed w 1 (moved_back w m).
Proof.
  intros Hn Hm. pose proof (dead_letter_split m _ Hn Hm) as Hs. split; simpl.
  - intros _. by apply NoDup_filter.
  - unfold carried, moved_back, delete_dead, send_back. simpl. rewrite Hs at 2.
    rewrite <- (assoc (++)), !fmap_app. simpl. done.
  - rewrite Hs at 2. simpl. lia.
  - by eexists.
Qed.

Lemma moved_back_batch ms w :
  NoDup (bw_dlq w) → NoDup ms → (∀ m, m ∈ ms → m ∈ bw_dlq w) → replayed w (length ms) (foldl moved_back w ms).
Proof.
  revert w. induction ms as [|m ms IH]; intros w Hn Hms Hin; simpl; [apply replayed_refl|].
  apply NoDup_cons in Hms as [Hm Hms].
  assert (replayed w 1 (moved_back w m)) as H1 by (apply moved_back_one; [done|apply Hin; by left]).
  apply (replayed_trans w 1 _ (length ms) _ H1). apply IH; [by apply (rp_unique _ _ _ H1)|done|].
  intros m' Hm'. apply list_elem_of_filter. split; [by intros ->|]. apply Hin. by right.
Qed.

(** Fuel: every round that goes on moves a message. *)
Lemma replay_rounds_exact fuel limit visible (moved : nat) w :
  (moved ≤ limit)%nat → (limit - moved < fuel)%nat → NoDup (bw_dlq w) →
  ∃ n w', run (replay_rounds fuel limit visible moved) w = ((Ok (Some (moved + n)%nat), (moved + n)%nat), w') ∧
    (moved + n ≤ limit)%nat ∧ replayed w n w' ∧
    ((∀ k r, visible k r = true) → (moved + n = limit)%nat ∨ bw_dlq w' = []).
Proof.
  revert moved w. induction fuel as [|fuel IH]; intros moved w Hl Hf Hn; [lia|]. cbn [replay_rounds].
  rewrite run_bind. cbn [locals run]. destruct (decide (moved < limit)%nat) as [Hlt|Hge].
  2:{ exists 0%nat, w. rewrite Nat.add_0_r. split_and!; [done|lia|apply replayed_refl|]. intros _. left. lia. }
  rewrite run_bind. cbn [await run receive_dead fst snd].
  set (seen := filter _ (bw_dlq w)). set (ms := take _ seen).
  assert (NoDup ms ∧ ∀ m, m ∈ ms → m ∈ bw_dlq w) as [Hms Hin].
  { split; [apply (sublist_NoDup _ seen); [by apply NoDup_filter|apply sublist_take]|].
    intros m (j & Hj%list_elem_of_lookup_2 & _)%elem_of_take. by apply list_elem_of_filter in Hj as [_ ?]. }
  assert (length ms ≤ limit - moved)%nat as Hle by (unfold ms; rewrite length_take; lia).
  destruct ms as [|m ms0] eqn:Ems.
  - exists 0%nat, w. rewrite Nat.add_0_r. split_and!; [done|lia|apply replayed_refl|]. intros Hv. right.
    assert (seen = bw_dlq w) as <- by (apply filter_all; intros; apply Hv).
    unfold ms in Ems. destruct seen; [done|]. replace (min REPLAY_BATCH (limit - moved)) with (S (pred (min REPLAY_BATCH (limit - moved)))) in Ems by (unfold REPLAY_BATCH; lia). done.
  - rewrite run_bind, run_replay_batch. rewrite <- Ems in *.
    pose proof (moved_back_batch ms w Hn Hms Hin) as Hb.
    assert (1 ≤ length ms)%nat by (rewrite Ems; simpl; lia).
    destruct (IH (moved + length ms)%nat (foldl moved_back w ms)) as (n & w' & Hrun & Hlim & Hrep & Hall);
      [lia|lia|by apply (rp_unique _ _ _ Hb)|].
    exists (length ms + n)%nat, w'. rewrite Nat.add_assoc. split_and!; [exact Hrun|lia|by eapply replayed_trans|done].
Qed.

End Replay.

Section Demo.
Definition stranded : BusWorld unit :=
  MkBus ∅ 5 [] ∅ [] [MkMessage 4 "fresh" "t4"] [MkMessage 1 "a" "t1"; MkMessage 2 "b" "t2"; MkMessage 3 "c" "t3"] ∅ 0 0 ().

End Demo.
