(* ===== verification/ImageWorker.v ===== *)
(** * ImageWorker: the SQS transport of the image pipeline

    src/catalog/adapters/image_worker.py: the worker polls the queue of the bucket's
    notifications, reads each S3 record and hands the object to the ingest of
    [CatalogService].  [ImageBus] is the catalog's world with that queue and its
    dead-letter queue.  [unquote_plus] is urllib's; like all texts, a key has code
    points below 256.  An [eTag] is a text, as S3's message structure has it. *)

From Stdlib Require Import Ascii String.
From S2P Require Import Prelude Errors UnitOfWork Text Parse Sha256 Json Effects Bus.
From S2P Require Import Catalog ImageKeys CatalogService CatalogInv CatalogSafety CatalogTheorems CatalogScenarios.

(** ** [urllib.parse.unquote_plus] *)

(** [unquote_to_bytes]: an escape that is none stays. *)
Fixpoint percent_bytes (s : string) : string :=
  match s with
  | EmptyString => EmptyString
  | String c rest =>
      match rest with
      | String h (String l rest') =>
          match hex_char h, hex_char l with
          | Some x, Some y => if ascii_dec c "%" then String (ascii_of_N (x * 16 + y)) (percent_bytes rest') else String c (percent_bytes rest)
          | _, _ => String c (percent_bytes rest)
          end
      | _ => String c (percent_bytes rest)
      end
  end.

(** [unquote]: every run of ASCII characters is decoded by itself; [run] is the one
    being read. *)
Fixpoint unquote_from (run s : string) : option string :=
  match s with
  | EmptyString => utf8_decode (percent_bytes run)
  | String c rest =>
      if ascii7 c then unquote_from (run +:+ String c EmptyString)%string rest
      else a ← utf8_decode (percent_bytes run); t ← unquote_from EmptyString rest; Some (a +:+ String c t)%string
  end.

Definition plus_to_space (c : ascii) : ascii := if ascii_dec c "+" then " "%char else c.
Fixpoint map_chars (f : ascii → ascii) (s : string) : string :=
  match s with EmptyString => EmptyString | String c rest => String (f c) (map_chars f rest) end.
Definition unquote_plus (s : string) : option string := unquote_from EmptyString (map_chars plus_to_space s).

(** ** The worker *)

Record ImageBus := MkImageBus { ib_cat : CatWorld; ib_queue : list Message; ib_dlq : list Message }.
Definition set_cat (c : CatWorld) (w : ImageBus) : ImageBus := MkImageBus c (ib_queue w) (ib_dlq w).
Definition cat_lens : Lens ImageBus CatWorld := MkLens ib_cat set_cat.

(** [not x] *)
Definition falsy (j : json) : bool :=
  match j with
  | JNull | JBool false | JString EmptyString | JArray [] | JObject [] => true
  | JInt z => bool_decide (z = 0)
  | _ => false
  end.

(** [j[key]] *)
Definition subscript (key : string) (j : json) : result json :=
  match j with
  | JObject d => match dict_get key d with Some v => Ok v | None => Err KeyError end
  | _ => Err TypeError
  end.

(** Key and tag of a record; [None]: not an S3 record. *)
Definition record_target (record : json) : result (option (string * string)) :=
  match record with
  | JObject d =>
      match dict_get "s3" d with
      | None => Ok None
      | Some s3 =>
          if falsy s3 then Ok None
          else
            object ← subscript "object" s3;
            quoted ← subscript "key" object;
            match quoted with
            | JString q =>
                match unquote_plus q with
                | None => Err ValueError
                | Some key =>
                    match object with
                    | JObject o =>
                        match dict_get "eTag" o with
                        | None => Ok (Some (key, EmptyString))
                        | Some (JString etag) => Ok (Some (key, etag))
                        | Some _ => Err TypeError
                        end
                    | _ => Err TypeError
                    end
                end
            | _ => Err AttributeError
            end
      end
  | _ => Err AttributeError
  end.

(** [json.loads(body).get("Records", [])] as the loop runs over it: the keys of a dict
    and the characters of a text are no records. *)
Definition records_of (body : string) : result (list json) :=
  match loads body with
  | None => Err ValueError
  | Some (JObject d) =>
      match dict_get "Records" d with
      | None => Ok []
      | Some (JArray rs) => Ok rs
      | Some (JObject o) => Ok ((λ kv, JString kv.1) <$> o)
      | Some (JString s) => Ok ((λ c, JString (String c EmptyString)) <$> list_ascii_of_string s)
      | Some _ => Err TypeError
      end
  | Some _ => Err AttributeError
  end.

Section Worker.
Context `{Imaging} (cfg : CatSettings).
Notation W := ImageBus.

(** A coroutine of the catalog. *)
Definition on_catalog {L A} (p : frame CatWorld unit A) : frame W L A := λ l,
  pbind (pzoom cat_lens (p tt)) (λ rl, Ret (rl.1, l)).

(** [_process_record] *)
Definition process_record (record : json) : frame W unit unit :=
  target ← Effects.of_result (record_target record);
  match target with
  | None => mret tt
  | Some (key, etag) => on_catalog (ingest cfg key etag) ;; mret tt
  end.

(** [_process_message] *)
Definition process_message (m : Message) : frame W unit unit :=
  records ← Effects.of_result (records_of (ms_body m));
  iterate records process_record.

Definition delete_image_message (m : Message) : ST W unit := λ w,
  (Ok tt, MkImageBus (ib_cat w) (filter (λ x, x ≠ m) (ib_queue w)) (ib_dlq w)).

(** [receive_message]: the positions SQS picks *)
Definition receive_images (picks : list nat) : ST W (list Message) := λ w, (Ok (omap (λ i, ib_queue w !! i) picks), w).

(** The body of the loop; the local is [handled]. *)
Definition handle_image (m : Message) : frame W nat unit :=
  ok ← try_catch (call tt (process_message m) ;; mret true) (λ e, if is_Exception e then mret false else throw e);
  if (ok : bool) then await (delete_image_message m) ;; set_locals S else mret tt.

(** [poll_once] *)
Definition poll_once (picks : list nat) (locked : N → bool) : frame W unit nat :=
  call 0%nat (
    messages ← await (receive_images picks);
    iterate messages handle_image ;;
    on_catalog (housekeeping cfg locked) ;;
    locals).
End Worker.

(** ** Keys survive S3's escaping *)

(** How a key may be written in a notification: as it is, a space as [+], or escaped. *)
Inductive quoted : string → string → Prop :=
  | quoted_end : quoted EmptyString EmptyString
  | quoted_plain c k s : ascii7 c = true → c ≠ "%"%char → c ≠ "+"%char → quoted k s → quoted (String c k) (String c s)
  | quoted_space k s : quoted k s → quoted (String " " k) (String "+" s)
  | quoted_hex c h l x y k s : ascii7 c = true → hex_char h = Some x → hex_char l = Some y → c = ascii_of_N (x * 16 + y) →
      quoted k s → quoted (String c k) (String "%" (String h (String l s))).

Lemma unquote_from_ascii run s : all_chars ascii7 s = true → unquote_from run s = utf8_decode (percent_bytes (run +:+ s)%string).
Proof.
  revert run. induction s as [|c s IH]; intros run; simpl; [by rewrite str_app_nil_r|].
  intros [Hc Hs]%andb_true_iff. rewrite Hc, IH by done. by rewrite <- str_app_assoc, str_cons_app, str_app_nil_l.
Qed.

Lemma percent_plain c s : c ≠ "%"%char → percent_bytes (String c s) = String c (percent_bytes s).
Proof.
  intros Hc. cbn [percent_bytes]. destruct s as [|h [|l s]]; [done|done|]. destruct (hex_char h), (hex_char l); try done.
  by destruct (ascii_dec c "%").
Qed.

Lemma hex_char_ascii h x : hex_char h = Some x → ascii7 h = true ∧ h ≠ "+"%char.
Proof. destruct h as [[] [] [] [] [] [] [] []]; vm_compute; intros ?; try discriminate; done. Qed.

Lemma quoted_bytes k s : quoted k s →
  all_chars ascii7 k = true ∧ all_chars ascii7 (map_chars plus_to_space s) = true ∧ percent_bytes (map_chars plus_to_space s) = k.
Proof.
  induction 1 as [|c k s Hc Hp Hpl _ (IHk & IHs & IHb)|k s _ (IHk & IHs & IHb)|c h l x y k s Hc Hh Hl -> _ (IHk & IHs & IHb)]; [done|..].
  - cbn [map_chars]. assert (plus_to_space c = c) as -> by (unfold plus_to_space; by destruct (ascii_dec c "+")).
    split_and!; [simpl; by rewrite Hc|simpl; by rewrite Hc|]. rewrite percent_plain by done. by rewrite IHb.
  - cbn [map_chars]. split_and!; [done|done|]. change (plus_to_space "+") with " "%char. rewrite percent_plain by done. by rewrite IHb.
  - destruct (hex_char_ascii h x Hh) as [Ah Ph], (hex_char_ascii l y Hl) as [Al Pl]. assert (∀ c, c ≠ "+"%char → plus_to_space c = c) as Hps.
    { intros a Ha. unfold plus_to_space. by destruct (ascii_dec a "+"). }
    cbn [map_chars]. rewrite !Hps by done. split_and!.
    + simpl. by rewrite Hc.
    + simpl. by rewrite Ah, Al.
    + cbn [percent_bytes]. rewrite Hh, Hl, IHb. done.
Qed.

Lemma unquote_quoted k s : quoted k s → unquote_plus s = Some k.
Proof.
  intros (Hk & Hs & Hb)%quoted_bytes. unfold unquote_plus. rewrite unquote_from_ascii by done. rewrite str_app_nil_l, Hb.
  by apply utf8_decode_ascii.
Qed.

(** ** What a readable notification does *)

(** A record of S3's message structure, for the object [key]. *)
Definition names_object (record : json) (target : string * string) : Prop :=
  ∃ d s o q, record = JObject d ∧ dict_get "s3" d = Some (JObject s) ∧ dict_get "object" s = Some (JObject o) ∧
    dict_get "key" o = Some (JString q) ∧ quoted target.1 q ∧ dict_get "eTag" o = Some (JString target.2).

Lemma record_target_of record target : names_object record target → record_target record = Ok (Some target).
Proof.
  intros (d & s & o & q & -> & Hs & Ho & Hk & Hq & He). cbn [record_target]. rewrite Hs.
  destruct s as [|kv s]; [done|]. cbn [falsy subscript]. rewrite Ho. cbn [mbind result_bind subscript]. rewrite Hk.
  cbn [mbind result_bind]. rewrite (unquote_quoted _ _ Hq), He. by destruct target.
Qed.

Section Facts.
Context `{Imaging} (cfg : CatSettings).

Lemma run_on_catalog {L A} (p : frame CatWorld unit A) (l : L) w :
  run (on_catalog p l) w = ((run (p tt) (ib_cat w)).1.1, l, set_cat (run (p tt) (ib_cat w)).2 w).
Proof.
  unfold on_catalog. rewrite run_pbind.
  assert (∀ B (q : prog CatWorld B) w, run (pzoom cat_lens q) w = ((run q (ib_cat w)).1, set_cat (run q (ib_cat w)).2 w)) as Hz.
  { intros B q. induction q as [b|f k IH|X m k IH]; intros v; simpl.
    - by destruct v.
    - rewrite IH. by destruct v.
    - unfold zoom. simpl. destruct (m (ib_cat v)) as [r c]. rewrite IH. by destruct v. }
  rewrite Hz. simpl. by destruct (run (p tt) (ib_cat w)) as [[r l'] c].
Qed.

(** C37: However S3 writes the keys - as they are, with [+], or escaped - a notification
    that names objects does to the catalog exactly what ingesting these objects in
    turn does, with the keys and tags of the objects, and fails exactly when that
    fails; the message is otherwise left alone. *)
Theorem notifications_reach_ingest (m : Message) (d : list (string * json)) (records : list json) (targets : list (string * string))
    (w : ImageBus) (Hbody : loads (ms_body m) = Some (JObject d)) (Hrecords : dict_get "Records" d = Some (JArray records))
    (Hnamed : Forall2 names_object records targets) :
  let ingested := run (iterate targets (λ t, ingest cfg t.1 t.2 ;; mret tt) tt) (ib_cat w) in
  run (process_message cfg m tt) w = ((ingested.1.1, tt), set_cat ingested.2 w).
Proof.
  unfold process_message, records_of. rewrite Hbody, Hrecords. rewrite run_bind. cbn [Effects.of_result run]. clear m d Hbody Hrecords.
  revert w. induction Hnamed as [|r t rs ts Hr Hrest IH]; intros w; cbn [iterate]; [by destruct w|].
  rewrite !run_bind. unfold process_record. rewrite run_bind, (record_target_of r t Hr). cbn [Effects.of_result run].
  destruct t as [key etag]. rewrite !run_bind, run_on_catalog. cbn [fst snd].
  destruct (run (ingest cfg key etag tt) (ib_cat w)) as [[[out|e] []] c]; cbn [fst snd run mret frame_ret]; [|done].
  rewrite IH. by destruct w.
Qed.

(** ** Any number of workers *)

Context (st : bool).
Notation Inv := (λ w, CatInv cfg st (ib_cat w)).

(** Nothing of it is ingested. *)
Definition unreadable (m : Message) : bool :=
  match records_of (ms_body m) with
  | Err _ => true
  | Ok [] => false
  | Ok (r :: _) => negb (is_ok (record_target r))
  end.

Definition kept (w : ImageBus) (m : Message) : Prop := m ∈ ib_queue w ∨ m ∈ ib_dlq w.
Definition image_evolves (w w' : ImageBus) : Prop :=
  cat_evolves (ib_cat w) (ib_cat w') ∧ ∀ m, unreadable m = true → kept w m → kept w' m.
#[local] Instance image_evolves_preorder : PreOrder image_evolves.
Proof. split; [by intros w; split|]. intros w1 w2 w3 [C1 K1] [C2 K2]. split; [by etrans|auto]. Qed.
Notation SafeI := (Safe Inv image_evolves).

Lemma on_catalog_safe {L A} (p : frame CatWorld unit A) : Safe (CatInv cfg st) cat_evolves p → SafeI (on_catalog p : frame ImageBus L A).
Proof.
  intros Hp l w. apply wp_pbind. eapply wp_mono; [apply _| |apply (wp_pzoom cat_lens Inv image_evolves (CatInv cfg st) cat_evolves)].
  7: apply (Hp tt).
  - intros [[a|e] l'] w' _ _; done.
  - done.
  - by intros w1 w2 [? _].
  - done.
  - by intros [].
  - intros w1 c HI Hc He. split; [done|]. by split.
Qed.

Lemma process_record_safe r : SafeI (process_record cfg r).
Proof.
  rule Safe_bind; [apply Safe_of_result|]. intros [[key etag]|]; [|apply Safe_ret].
  rule Safe_bind; [apply on_catalog_safe, ingest_safe|intros; apply Safe_ret].
Qed.

Lemma process_message_ok m w :
  wpf Inv image_evolves (process_message cfg m) tt (λ _ _ _, unreadable m = false) (λ _ _ _, True) w.
Proof.
  unfold process_message. rule wpf_bind. unfold unreadable. destruct (records_of (ms_body m)) as [[|r rs]|e]; [done| |done].
  simpl. apply wpf_bind; [apply _|]. destruct (record_target r) as [t|e] eqn:Et.
  - eapply wpf_mono; [apply _| | |apply (process_record_safe r tt w)]; [|done].
    intros _ [] w1 _ _. rule Safe_wpf; [rule Safe_iterate; intros; apply process_record_safe|done|done].
  - unfold process_record. rewrite Et. done.
Qed.

Lemma handle_image_safe m : SafeI (handle_image cfg m).
Proof.
  intros l w. rule wpf_bind. rule wpf_try. rule wpf_bind. rule wpf_call.
  eapply wpf_mono; [apply _| | |apply process_message_ok]; cbv beta.
  - intros _ _ w1 _ Hm. apply wpf_ret. rule wpf_bind. rule wpf_await_ok; [|done]. intros w2 HI _. split; [|done]. split; [exact HI|].
    split; [done|]. intros m' Hu [Hin|Hin]; [left|by right]. apply list_elem_of_filter. split; [|done]. intros ->. congruence.
  - intros e _ w1 _ _. destruct (is_Exception e); [by apply wpf_ret|done].
Qed.

Lemma poll_once_safe picks locked : SafeI (poll_once cfg picks locked).
Proof.
  rule Safe_call. rule Safe_bind; [rule Safe_await; intros w HI; done|]. intros ms.
  rule Safe_bind; [rule Safe_iterate; intros; apply handle_image_safe|]. intros _.
  rule Safe_bind; [apply on_catalog_safe, housekeeping_safe|]. intros _. apply Safe_locals.
Qed.

(** The catalog's own arrivals, the pollers, the bucket's notifications and SQS. *)
Inductive image_arrival : prog ImageBus unit → Prop :=
  | ia_catalog p : cat_arrival cfg st p → image_arrival (pzoom cat_lens p)
  | ia_poll picks locked : image_arrival (erase (poll_once cfg picks locked tt))
  | ia_notify m : image_arrival (Tick (λ w, MkImageBus (ib_cat w) (ib_queue w ++ [m]) (ib_dlq w)) (Ret tt))
  | ia_redrive m : image_arrival (Tick (λ w, MkImageBus (ib_cat w) (filter (λ x, x ≠ m) (ib_queue w))
                                               (if decide (m ∈ ib_queue w) then m :: ib_dlq w else ib_dlq w)) (Ret tt)).

Lemma image_safe p : image_arrival p → safe Inv image_evolves p.
Proof.
  destruct 1 as [p Hp|picks locked|m|m].
  - intros w HI. eapply wp_mono; [apply _|by intros|].
    apply (wp_pzoom cat_lens Inv image_evolves (CatInv cfg st) cat_evolves) with (Q := λ _ _, True); try done.
    + by intros w1 w2 [? _].
    + by intros [].
    + by apply (catalog_safe cfg st p Hp (ib_cat w)).
  - apply safe_erase. intros w _. eapply wp_mono; [apply _| |apply (poll_once_safe picks locked tt w)]. by intros [[n|e] l] w'.
  - intros w0 _ w HI _. split_and!; [exact HI|split; [done|]|done]. intros m' _ [?|?]; [left; simpl; set_solver|by right].
  - intros w0 _ w HI _. split_and!; [exact HI|split; [done|]|done]. intros m' _ [Hin|Hin]; unfold kept; simpl.
    + destruct (decide (m' = m)) as [->|Hne]; [right; rewrite decide_True by done; by left|left; by apply list_elem_of_filter].
    + right. case_decide; [by right|done].
Qed.

Definition image_runs (s : list (prog ImageBus unit) * ImageBus) : Prop :=
  ∃ now, rtc (pool_step image_arrival) ([], MkImageBus (cat_start now) [] []) s.

(** The catalog's invariant holds under the transport too, and what no worker can
    read is never dropped: it waits in the queue or lies in the dead-letter queue. *)
Theorem image_transport_is_safe ts w ts' w'
    (Hw : image_runs (ts, w)) (Hr : rtc (pool_step image_arrival) (ts, w) (ts', w')) :
  CatInv cfg st (ib_cat w') ∧ ∀ m, unreadable m = true → kept w m → kept w' m.
Proof.
  destruct Hw as [now Hw]. assert (pool_ok Inv image_evolves ([], MkImageBus (cat_start now) [] [])) as H0.
  { split; [apply cat_start_inv|constructor]. }
  destruct (pool_sound Inv image_evolves image_arrival _ _ image_safe Hw H0) as [H1 _].
  destruct (pool_sound Inv image_evolves image_arrival _ _ image_safe Hr H1) as [[HI _] [_ He]]. split; [exact HI|exact He].
Qed.
End Facts.

(** ** At a concrete notification *)

Section Demo.
(** A record with the slashes and a space of the key escaped. *)
Definition s3_record (quoted_key etag : string) : json :=
  JObject [("eventName", JString "ObjectCreated:Post");
           ("s3", JObject [("object", JObject [("key", JString quoted_key); ("size", JInt 9); ("eTag", JString etag)])])]%string.
Definition notification : Message := MkMessage 1 (dumps (JObject [("Records"%string, JArray [s3_record "uploads%2Fa+b" "tag1"])])) "".

Lemma demo_named : Forall2 names_object [s3_record "uploads%2Fa+b" "tag1"] [("uploads/a b"%string, "tag1"%string)].
Proof.
  repeat constructor. do 4 eexists. split; [reflexivity|]. split_and!; try reflexivity. simpl.
  do 7 (apply quoted_plain; [done|done|done|]). eapply (quoted_hex "/"); [done|reflexivity|reflexivity|reflexivity|].
  apply quoted_plain; [done|done|done|]. apply quoted_space. apply quoted_plain; [done|done|done|]. constructor.
Qed.

#[local] Existing Instance demo_imaging.

Lemma notifications_reach_ingest_witness :
  let w := MkImageBus (cat_start 100) [notification] [] in
  run (process_message demo_cat notification tt) w =
    (((run (iterate [("uploads/a b"%string, "tag1"%string)] (λ t, ingest demo_cat t.1 t.2 ;; mret tt) tt) (cat_start 100)).1.1, tt), w).
Proof.
  intros w.
  assert (loads (ms_body notification) = Some (JObject [("Records"%string, JArray [s3_record "uploads%2Fa+b" "tag1"])])) as Hb
    by (vm_compute; reflexivity).
  rewrite (notifications_reach_ingest demo_cat notification _ _ _ w Hb eq_refl demo_named). cbv zeta.
  f_equal.
Defined.
End Demo.
