(* ===== verification/AppConfigFacts.v ===== *)
(** * AppConfigFacts: what a process that started can rely on

    Accepted settings satisfy every field bound and every relation between fields,
    in the form the components use them (the rate limiter's bucket configuration,
    the saga's deadlines, the windows of reconciliation and retention), and a topic
    ARN built from the accepted namespace has the six parts of an SNS ARN. *)

From Stdlib Require Import Ascii String QArith.
From S2P Require Import Prelude Errors Text Parse Url AppConfig Effects Bus RateLimit.

(** ** Reading a verdict *)

Section Accepted.
Context (postgres_dsn netloc_ok : string → bool).
Notation validate := (validate postgres_dsn netloc_ok).
Notation field_checks := (field_checks postgres_dsn).
Notation model_validators := (model_validators netloc_ok).

Lemma validate_accepted raw s : validate raw = Accepted s ↔
  (∀ name b, (name, b) ∈ field_checks raw → b = true) ∧
  s = set_topic_arn_prefix (default None (topic_arn_prefix (bus_topic_arn_prefix raw))) raw ∧
  (∀ name check, (name, check) ∈ model_validators → check s = true).
Proof.
  unfold validate. destruct (filter _ (field_checks raw)).*1 as [|e es] eqn:E.
  - apply fmap_nil_inv in E. assert (∀ name b, (name, b) ∈ field_checks raw → b = true) as Hf.
    { intros name b Hb. destruct b; [done|]. assert ((name, false) ∈ filter (λ c, c.2 = false) (field_checks raw)) as Hx
        by by apply list_elem_of_filter. rewrite E in Hx. by apply not_elem_of_nil in Hx. }
    set (s' := set_topic_arn_prefix _ raw). destruct (filter _ model_validators) as [|[n c] r] eqn:Em.
    + split; [intros [= <-]|by intros (_ & -> & _)]. split_and!; [done|done|]. intros name check Hc.
      destruct (check s') eqn:Hv; [done|]. assert ((name, check) ∈ filter (λ c, c.2 s' = false) model_validators) as Hx
        by by apply list_elem_of_filter. rewrite Em in Hx. by apply not_elem_of_nil in Hx.
    + split; [done|]. intros (_ & -> & Hm). exfalso.
      assert ((n, c) ∈ filter (λ c, c.2 s' = false) model_validators) as [Hx Hy]%list_elem_of_filter by (rewrite Em; set_solver).
      simpl in Hx. specialize (Hm n c Hy). rewrite Hm in Hx. done.
  - split; [done|]. intros (Hf & _). exfalso.
    assert (e ∈ (filter (λ c, c.2 = false) (field_checks raw)).*1) as He by (rewrite E; set_solver).
    apply list_elem_of_fmap in He as ([n b] & _ & [Hb Hin]%list_elem_of_filter). simpl in Hb.
    specialize (Hf n b Hin). congruence.
Qed.
End Accepted.

(** The position of a constrained field, or of a validator, in its list. *)
Ltac listed :=
  unfold field_checks, api_checks, payment_image_checks, bus_cart_checks, saga_resilience_checks, model_validators; cbn [app];
  repeat first [apply list_elem_of_here | apply list_elem_of_further].
Ltac checked H := eapply H; listed.

(** ** The topic namespace *)

Lemma split_on_join c a b : split_on c (a +:+ String c b) = split_on c a ++ split_on c b.
Proof.
  induction a as [|x a IH]; simpl.
  - destruct (ascii_dec c c); [|done]. done.
  - destruct (ascii_dec x c); [by rewrite IH|]. rewrite IH. destruct (split_on c a) eqn:E; [|done].
    exfalso. revert E. clear. destruct a; simpl; [done|]. by repeat case_match.
Qed.

Lemma split_on_plain c s : all_chars (λ x, negb (is_char c x)) s = true → split_on c s = [s].
Proof.
  induction s as [|x s IH]; simpl; [done|]. intros [Hx Hs]%andb_true_iff.
  unfold is_char in Hx. apply negb_true_iff, bool_decide_eq_false in Hx.
  destruct (ascii_dec x c); [done|]. by rewrite IH.
Qed.

Lemma ends_with_snoc c s : ends_with (String c "") s = true → ∃ q, s = (q +:+ String c "")%string.
Proof.
  unfold ends_with. simpl. intros Hp. destruct (str_rev s) as [|x r] eqn:E; [done|].
  cbn in Hp. destruct (ascii_dec c x) as [<-|]; [|done]. exists (str_rev r).
  rewrite <- (str_rev_involutive s), E. apply str_rev_cons.
Qed.

(** A text [strip] leaves alone: no white space at either end. *)
Definition starts_bare (s : string) : Prop := match s with EmptyString => True | String c _ => is_space c = false end.
Definition trimmed (s : string) : Prop := starts_bare s ∧ starts_bare (str_rev s).

Lemma lstrip_bare s : starts_bare (lstrip s).
Proof. induction s as [|c s IH]; simpl; [done|]. by destruct (is_space c) eqn:E. Qed.
Lemma lstrip_id s : starts_bare s → lstrip s = s.
Proof. destruct s as [|c s]; simpl; [done|]. by intros ->. Qed.
Lemma strip_id s : trimmed s → strip s = s.
Proof. intros [H1 H2]. unfold strip. rewrite (lstrip_id s) by done. rewrite lstrip_id by done. apply str_rev_involutive. Qed.

Lemma lstrip_suffix s : ∃ a, s = (a +:+ lstrip s)%string.
Proof.
  induction s as [|c s [a IH]]; simpl; [by exists ""%string|]. destruct (is_space c); [|by exists ""%string].
  exists (String c a). rewrite IH at 1. reflexivity.
Qed.

Lemma strip_trimmed s : trimmed (strip s).
Proof.
  unfold strip. set (l := lstrip s). split; [|rewrite str_rev_involutive; apply lstrip_bare].
  destruct (lstrip_suffix (str_rev l)) as [a Ha]. pose proof (lstrip_bare s) as Hl. fold l in Hl.
  assert (l = str_rev (lstrip (str_rev l)) +:+ str_rev a)%string as E
    by by rewrite <- str_rev_app_distr, <- Ha, str_rev_involutive.
  destruct (str_rev (lstrip (str_rev l))) as [|c r]; [done|]. rewrite E in Hl. done.
Qed.

Lemma trimmed_snoc s c : s ≠ ""%string → trimmed s → is_space c = false → trimmed (s +:+ String c "")%string.
Proof.
  intros Hs [H1 _] Hc. split; [by destruct s|]. rewrite str_rev_app_distr. done.
Qed.

(** What an accepted namespace looks like. *)
Lemma topic_prefix_shape v p : topic_arn_prefix v = Some (Some p) →
  trimmed p ∧ ∃ q part region account, p = (q +:+ ":")%string ∧
    split_on ":" q = ["arn"; part; "sns"; region; account]%string ∧ region ≠ ""%string ∧ account ≠ ""%string.
Proof.
  destruct v as [v|]; [|done]. simpl. destruct (decide _) as [|Hne]; [done|].
  set (prefix := if ends_with ":" (strip v) then _ else _).
  assert (trimmed prefix ∧ ∃ q, prefix = (q +:+ ":")%string) as [Ht [q Hq]].
  { unfold prefix. destruct (ends_with ":" (strip v)) eqn:He.
    - split; [apply strip_trimmed|]. by apply ends_with_snoc.
    - split; [|by eexists]. apply trimmed_snoc; [done|apply strip_trimmed|done]. }
  destruct (split_on ":" prefix) as [|a [|b [|c [|d [|e [|f [|]]]]]]] eqn:E; try done.
  destruct (decide _) as [(-> & -> & Hd & He)|]; [|done]. intros [= <-]. split; [done|]. exists q, b, d, e.
  split_and!; try done. rewrite Hq, split_on_join in E. simpl in E.
  destruct (split_on ":" q) as [|q1 [|q2 [|q3 [|q4 [|q5 [|]]]]]]; simpl in E; simplify_eq; try done; by discriminate_list.
Qed.

Lemma topic_prefix_stable v p : topic_arn_prefix v = Some (Some p) → topic_arn_prefix (Some p) = Some (Some p).
Proof.
  intros Hv. destruct (topic_prefix_shape v p Hv) as (Ht & q & part & region & account & -> & Hs & Hr & Ha).
  unfold topic_arn_prefix. rewrite strip_id by done. rewrite decide_False by by destruct q.
  assert (ends_with ":" (q +:+ ":") = true) as ->.
  { unfold ends_with. rewrite str_rev_app_distr. simpl. by destruct (str_rev q). }
  rewrite split_on_join, Hs. simpl. by rewrite decide_True.
Qed.

(** The ARN [SnsPublisher] publishes to, where a namespace is configured. *)
Definition topic_arn (s : AppSettings) (event_type : string) : option string :=
  (λ p, (p +:+ bus_topic_prefix s +:+ event_type)%string) <$> bus_topic_arn_prefix s.

(** ** What the components get *)

(** The three buckets [config_for] reads. *)
Definition rate_settings (s : AppSettings) : RateSettings :=
  MkRateSettings (AppConfig.rate_limit_enabled s)
    (MkRate (rate_limit_checkout_capacity s) (rate_limit_checkout_refill s) (rate_limit_checkout_refill_seconds s))
    (MkRate (rate_limit_write_capacity s) (rate_limit_write_refill s) (rate_limit_write_refill_seconds s))
    (MkRate (rate_limit_upload_capacity s) (rate_limit_upload_refill s) (rate_limit_upload_refill_seconds s)).

(** The relations between fields the comments rely on. *)
Record Coherent (s : AppSettings) : Prop := {
  co_saga : 0 < checkout_saga_step_timeout_seconds s < checkout_saga_overall_timeout_seconds s ∧
            checkout_saga_overall_timeout_seconds s < reservation_ttl_seconds s;
  co_reconciliation : 0 < payment_reconciliation_grace_seconds s < payment_reconciliation_max_age_seconds s;
  co_retention : payment_reconciliation_max_age_seconds s < 86400 * reservation_retention_days s ∧
                 payment_reconciliation_max_age_seconds s < 86400 * saga_log_retention_days s;
  co_uploads : 0 < image_visibility_timeout_seconds s < image_upload_reaper_grace_seconds s;
  co_exposed : environment s = staging ∨ environment s = prod →
               verbose_error_details s = false ∧ payment_stub_pending_token_substring s = ""%string;
  co_images : truthy (s3_bucket s) = true → s3_endpoint_url s ≠ Some ""%string → is_Some (image_public_base_url s);
  co_batches : 0 < retention_prune_batch_size s ∧ 0 < relay_batch_size s ∧ 0 < checkout_saga_recovery_batch_size s ∧
               0 < payment_reconciliation_batch_size s ∧ 0 < reservation_reaper_batch_size s;
  co_resilience : 1 ≤ resilience_max_attempts s ≤ 6 ∧ 1 ≤ resilience_breaker_failure_threshold s ∧
                  1 ≤ resilience_dependency_max_concurrent s
}.

Lemma beyond_window_days s days :
  beyond_window s days = true → payment_reconciliation_max_age_seconds s < 86400 * days.
Proof.
  unfold beyond_window. rewrite negb_true_iff. intros Hq. destruct (Z.lt_ge_cases (payment_reconciliation_max_age_seconds s) (86400 * days)) as [|Hge]; [done|].
  enough (Qle_bool (inject_Z days) (inject_Z (payment_reconciliation_max_age_seconds s) / 86400) = true) by congruence.
  apply Qle_bool_iff. apply Qle_shift_div_l; [reflexivity|]. change 86400%Q with (inject_Z 86400). rewrite <- inject_Z_mult, <- Zle_Qle. lia.
Qed.

Ltac verdict := repeat match goal with
  | H : positive _ = true |- _ => apply bool_decide_eq_true in H
  | H : bool_decide _ = true |- _ => apply bool_decide_eq_true in H
  | H : _ && _ = true |- _ => apply andb_true_iff in H as [? ?]
  end.

Section Coherence.
Context (postgres_dsn netloc_ok : string → bool).
Notation validate := (validate postgres_dsn netloc_ok).

Lemma image_base_known s :
  public_image_base_in_cloud s = true → truthy (s3_bucket s) = true → s3_endpoint_url s ≠ Some ""%string →
  is_Some (image_public_base_url s).
Proof.
  unfold public_image_base_in_cloud, image_public_base_url. intros Hc Hb He. rewrite Hb in Hc.
  destruct (truthy (s3_public_base_url s)) eqn:Hp; [by destruct (s3_public_base_url s)|].
  rewrite andb_true_r in Hc. apply negb_true_iff, andb_false_iff in Hc as [Hc|Hc]; [done|].
  apply bool_decide_eq_false in Hc. destruct (s3_endpoint_url s) as [[|c e]|]; try done.
  destruct (s3_bucket s) as [[|c' b]|]; done.
Qed.

Lemma accepted_coherent raw s : validate raw = Accepted s → Coherent s.
Proof.
  intros (Hf & -> & Hm)%validate_accepted. set (s := set_topic_arn_prefix _ raw) in *.
  assert (positive (checkout_saga_step_timeout_seconds s) = true) by checked Hf.
  assert (positive (payment_reconciliation_grace_seconds s) = true) by checked Hf.
  assert (positive (image_visibility_timeout_seconds s) = true) by checked Hf.
  assert (positive (retention_prune_batch_size s) = true) by checked Hf.
  assert (positive (relay_batch_size s) = true) by checked Hf.
  assert (positive (checkout_saga_recovery_batch_size s) = true) by checked Hf.
  assert (positive (payment_reconciliation_batch_size s) = true) by checked Hf.
  assert (positive (reservation_reaper_batch_size s) = true) by checked Hf.
  assert (bool_decide (1 ≤ resilience_max_attempts s ∧ resilience_max_attempts s ≤ 6) = true) by checked Hf.
  assert (bool_decide (1 ≤ resilience_breaker_failure_threshold s) = true) by checked Hf.
  assert (bool_decide (1 ≤ resilience_dependency_max_concurrent s) = true) by checked Hf.
  assert (saga_overall_timeout_below_reservation_ttl s = true) as Hv1 by checked Hm.
  assert (reconciliation_max_age_above_grace s = true) as Hv2 by checked Hm.
  assert (retention_beyond_reconciliation_window s = true) as Hv3 by checked Hm.
  assert (reaper_grace_above_visibility_timeout s = true) as Hv4 by checked Hm.
  assert (no_verbose_errors_outside_dev s = true) as Hv5 by checked Hm.
  assert (no_pending_trigger_outside_dev s = true) as Hv6 by checked Hm.
  assert (public_image_base_in_cloud s = true) as Hv7 by checked Hm.
  unfold saga_overall_timeout_below_reservation_ttl, reconciliation_max_age_above_grace, reaper_grace_above_visibility_timeout in *.
  unfold retention_beyond_reconciliation_window in Hv3. verdict.
  split; try lia.
  - split; by apply beyond_window_days.
  - unfold no_verbose_errors_outside_dev, no_pending_trigger_outside_dev, in_dev in *.
    intros [He|He]; rewrite He in *; simpl in *; verdict; (split; [by apply negb_true_iff|done]).
  - by apply image_base_known.
Qed.

(** Only one check reads the field the validation rewrites. *)
Lemma field_checks_set p raw name b :
  (name, b) ∈ field_checks postgres_dsn (set_topic_arn_prefix p raw) →
  (name, b) ∈ field_checks postgres_dsn raw ∨ b = bool_decide (is_Some (topic_arn_prefix p)).
Proof.
  intros [i Hi]%list_elem_of_lookup.
  enough (field_checks postgres_dsn raw !! i = Some (name, b) ∨ b = bool_decide (is_Some (topic_arn_prefix p))) as [H|H];
    [left; by eapply list_elem_of_lookup_2|by right|].
  do 70 (destruct i as [|i]; [first [left; exact Hi | right; by injection Hi as _ <-]|]). left. exact Hi.
Qed.

Lemma accepted_prefix raw s p : validate raw = Accepted s → bus_topic_arn_prefix s = Some p →
  ∃ v, topic_arn_prefix v = Some (Some p).
Proof.
  intros (_ & -> & _)%validate_accepted. change (bus_topic_arn_prefix (set_topic_arn_prefix ?p _)) with p. intros Hp.
  exists (bus_topic_arn_prefix raw). by destruct (topic_arn_prefix (bus_topic_arn_prefix raw)) as [q|]; [rewrite <- Hp|].
Qed.

(** Validating what was accepted changes nothing. *)
Lemma accepted_stable raw s : validate raw = Accepted s → validate s = Accepted s.
Proof.
  intros Ha. pose proof Ha as (Hf & Hs & Hm)%validate_accepted.
  assert (topic_arn_prefix (bus_topic_arn_prefix s) = Some (bus_topic_arn_prefix s)) as Hstable.
  { destruct (bus_topic_arn_prefix s) as [p|] eqn:Hp; [|done].
    destruct (accepted_prefix raw s p Ha Hp) as [v Hv]. by eapply topic_prefix_stable. }
  apply validate_accepted. split_and!; [| |exact Hm].
  - intros name b Hb. rewrite Hs in Hb. apply field_checks_set in Hb as [Hb| ->]; [by eapply Hf|].
    apply bool_decide_eq_true. rewrite Hs in Hstable. by eexists.
  - rewrite Hstable. simpl. rewrite Hs at 2. rewrite Hs. by destruct raw.
Qed.

(** C33: A process that started has coherent settings, whatever the environment said:
    a saga step ends before the whole checkout and the checkout before its holds
    expire, a charge is asked about before it is abandoned, history outlives the
    settlement window, an upload in flight is not reaped, no exposed environment
    leaks errors or defers charges, every rate bucket can fill, every topic ARN has
    the six parts of one - and validating the accepted settings again accepts them
    unchanged. *)
Theorem accepted_settings_are_coherent (raw s : AppSettings) (Hv : validate raw = Accepted s) :
  Coherent s ∧ validate s = Accepted s ∧
  (∀ bucket c, config_for (rate_settings s) bucket = Ok c → rate_ok c) ∧
  (∀ event_type arn, topic_arn s event_type = Some arn →
     all_chars (λ x, negb (is_char ":" x)) (bus_topic_prefix s +:+ event_type) = true →
     ∃ part region account, region ≠ ""%string ∧ account ≠ ""%string ∧
       split_on ":" arn = ["arn"; part; "sns"; region; account; (bus_topic_prefix s +:+ event_type)]%string).
Proof.
  split_and!; [by eapply accepted_coherent|by eapply accepted_stable|..].
  - apply validate_accepted in Hv as (Hf & -> & _). intros bucket c. unfold config_for.
    repeat case_decide; intros [= <-]; split_and!; refine (proj1 (bool_decide_eq_true _) _); checked Hf.
  - intros event_type arn Harn Hname. unfold topic_arn in Harn. destruct (bus_topic_arn_prefix s) as [p|] eqn:Hp; [|done].
    injection Harn as <-. destruct (accepted_prefix raw s p Hv Hp) as [v Hpv].
    destruct (topic_prefix_shape v p Hpv) as (_ & q & part & region & account & -> & Hs & Hr & Ha).
    exists part, region, account. split_and!; [done..|].
    rewrite <- str_app_assoc. change (":" +:+ ?x)%string with (String ":" x). rewrite split_on_join, Hs. simpl. rewrite split_on_plain by done. done.
Qed.
End Coherence.

(** The declared defaults start. *)
Definition demo_settings : AppSettings := default_settings "postgresql+asyncpg://u:p@db:5432/shop".

Lemma accepted_settings_are_coherent_witness :
  let any := λ _ : string, true in
  AppConfig.validate any any demo_settings = Accepted demo_settings ∧ Coherent demo_settings.
Proof.
  assert (AppConfig.validate (λ _, true) (λ _, true) demo_settings = Accepted demo_settings) as H by (vm_compute; reflexivity).
  split; [exact H|]. exact (proj1 (accepted_settings_are_coherent (λ _, true) (λ _, true) demo_settings demo_settings H)).
Defined.
