(* ===== verification/Retention.v ===== *)
(** * Retention: the prune of terminal history

    scripts/retention_prune.py over the tables it deletes from: the outbox of every
    schema, the reservations with their [updated_at], the orders and their journal.
    One [DELETE] with its commit is one [await].  Where [ORDER BY ... LIMIT] meets
    ties the rows come in the order of the model's table.  [make_interval(days => n)]
    is [86400 * n] seconds: the sessions of a deployment run in UTC. *)

From Stdlib Require Import String.
From stdpp Require Import sorting.
From S2P Require Import Prelude Errors Inventory Effects Orders Bus AppConfig.

(** [OUTBOX_SCHEMAS] (src/bootstrap/outbox.py) *)
Definition OUTBOX_SCHEMAS : list string := ["identity"; "catalog"; "inventory"; "orders"; "payments"]%string.

Record RetentionWorld := MkRetention {
  rt_outbox : list ((string * N) * OutboxRow);
  rt_reservations : list (Reservation * Z);
  rt_ord : OrdDB;
  rt_pruned : gmap string nat;
  rt_now : Z
}.
#[local] Notation W := RetentionWorld.

Definition set_rt_outbox (x : list ((string * N) * OutboxRow)) (w : W) : W :=
  MkRetention x (rt_reservations w) (rt_ord w) (rt_pruned w) (rt_now w).
Definition set_rt_reservations (x : list (Reservation * Z)) (w : W) : W :=
  MkRetention (rt_outbox w) x (rt_ord w) (rt_pruned w) (rt_now w).
Definition set_journal (x : list SagaLog) (w : W) : W :=
  MkRetention (rt_outbox w) (rt_reservations w) (MkOrdDB (orders (rt_ord w)) x (ord_outbox (rt_ord w)) (next_uuid (rt_ord w)))
    (rt_pruned w) (rt_now w).

(** ** [SELECT ... ORDER BY ... LIMIT] and [DELETE ... WHERE id IN (...)] *)

Section Table.
Context {X K : Type} `{EqDecision K} (key : X → K) (age : X → Z).

Definition age_le (x y : X) : Prop := age x ≤ age y.
#[global] Instance age_le_dec x y : Decision (age_le x y).
Proof. unfold age_le. apply _. Defined.
#[global] Instance age_le_total : Total age_le.
Proof. intros x y. unfold age_le. lia. Qed.

Definition oldest (batch : nat) (rows : list X) : list X := take batch (merge_sort age_le rows).

Context (eligible : X → Prop) `{∀ x, Decision (eligible x)}.

Definition victims (batch : nat) (table : list X) : list K := key <$> oldest batch (filter eligible table).
Definition survivors (batch : nat) (table : list X) : list X := filter (λ x, key x ∉ victims batch table) table.
Definition rowcount (batch : nat) (table : list X) : nat := length (filter (λ x, key x ∈ victims batch table) table).
End Table.

(** ** The three statements *)

Definition cutoff (now days : Z) : Z := now - 86400 * days.

Definition shipped (schema : string) (before : Z) (x : (string * N) * OutboxRow) : Prop :=
  x.1.1 = schema ∧ is_Some (ox_published x.2) ∧ ox_occurred x.2 < before.
#[export] Instance shipped_dec schema before x : Decision (shipped schema before x).
Proof. unfold shipped. apply _. Defined.

(** [_TERMINAL_RESERVATION_STATUSES]: everything but [HELD]. *)
Definition over (before : Z) (x : Reservation * Z) : Prop := res_status x.1 ≠ HELD ∧ x.2 < before.
#[export] Instance over_dec before x : Decision (over before x).
Proof. unfold over. apply _. Defined.

(** [_TERMINAL_ORDER_STATUSES]: everything but [PENDING]. *)
Definition settled_order (before : Z) (o : Order) : Prop := ord_status o ≠ PENDING ∧ ord_updated_at o < before.
#[export] Instance settled_order_dec before o : Decision (settled_order before o).
Proof. unfold settled_order. apply _. Defined.

(** [_OUTBOX_SQL] *)
Definition outbox_sql (schema : string) (days : Z) (batch : nat) : ST W nat := λ w,
  let old := shipped schema (cutoff (rt_now w) days) in
  (Ok (rowcount fst (λ x, ox_occurred x.2) old batch (rt_outbox w)),
   set_rt_outbox (survivors fst (λ x, ox_occurred x.2) old batch (rt_outbox w)) w).

(** [_RESERVATIONS_SQL] *)
Definition reservations_sql (days : Z) (batch : nat) : ST W nat := λ w,
  let old := over (cutoff (rt_now w) days) in
  (Ok (rowcount (λ x, res_id x.1) snd old batch (rt_reservations w)),
   set_rt_reservations (survivors (λ x, res_id x.1) snd old batch (rt_reservations w)) w).

(** [_SAGA_LOG_SQL]: the limit is on the orders, the deleted rows are the journal's. *)
Definition settled_orders (days : Z) (batch : nat) (w : W) : list N :=
  victims ord_id ord_updated_at (settled_order (cutoff (rt_now w) days)) batch (map_to_list (orders (rt_ord w))).*2.
Definition saga_log_sql (days : Z) (batch : nat) : ST W nat := λ w,
  let ids := settled_orders days batch w in
  (Ok (length (filter (λ e, log_order e ∈ ids) (saga_log (rt_ord w)))),
   set_journal (filter (λ e, log_order e ∉ ids) (saga_log (rt_ord w))) w).

(** ** [_prune_batched], [prune_once], [run_prune] *)

(** [while True]: [None] when the fuel did not suffice. *)
Fixpoint prune_batched (fuel : nat) (sql : ST W nat) (batch : nat) : frame W unit (option nat) :=
  match fuel with
  | O => mret None
  | S fuel =>
      deleted ← await sql;
      if decide (deleted < batch)%nat then mret (Some deleted)
      else total ← prune_batched fuel sql batch; mret (Nat.add deleted <$> total)
  end.

Definition retention_tables (s : AppSettings) : list (string * ST W nat) :=
  let batch := Z.to_nat (retention_prune_batch_size s) in
  ((λ schema, ((schema +:+ ".outbox")%string, outbox_sql schema (outbox_retention_days s) batch)) <$> OUTBOX_SCHEMAS) ++
  [("inventory.reservations"%string, reservations_sql (reservation_retention_days s) batch);
   ("orders.saga_log"%string, saga_log_sql (saga_log_retention_days s) batch)].

Fixpoint prune_tables (fuel batch : nat) (tables : list (string * ST W nat)) : frame W unit (option (list (string * nat))) :=
  match tables with
  | [] => mret (Some [])
  | (label, sql) :: rest =>
      n ← prune_batched fuel sql batch;
      match n with
      | None => mret None
      | Some n => counts ← prune_tables fuel batch rest; mret (cons (label, n) <$> counts)
      end
  end.

(** [pruned_total.labels(table=label).inc(deleted)] *)
Definition inc_pruned (counts : list (string * nat)) (w : W) : W :=
  MkRetention (rt_outbox w) (rt_reservations w) (rt_ord w)
    (foldl (λ m c, if decide (c.2 = 0)%nat then m else <[c.1 := (default 0 (m !! c.1) + c.2)%nat]> m) (rt_pruned w) counts)
    (rt_now w).

Definition prune_once (fuel : nat) (s : AppSettings) : frame W unit (option (list (string * nat))) :=
  counts ← prune_tables fuel (Z.to_nat (retention_prune_batch_size s)) (retention_tables s);
  match counts with
  | None => mret None
  | Some counts => effect (inc_pruned counts) ;; mret (Some counts)
  end.

(** [run_prune] without [once]: a pass, whatever it raises short of a cancellation,
    for every time the loop finds [stop] unset. *)
Fixpoint run_prune (fuel : nat) (s : AppSettings) (stop : list bool) : frame W unit unit :=
  match stop with
  | false :: stop =>
      try_catch (prune_once fuel s ;; mret tt) (λ e, if is_Exception e then mret tt else throw e) ;;
      run_prune fuel s stop
  | _ => mret tt
  end.
