(* ===== verification/RetentionFacts.v ===== *)
(** * RetentionFacts: a prune pass is exact, and spares what settlement still reads

    A pass ends, after deleting every shipped outbox row and every finished
    reservation past its retention and nothing else; under settings the start-up
    validation accepted, no interleaving of passes removes a reservation or a journal
    row inside the payment reconciliation window.  The journal's prune, though, never
    gets past the oldest batch of settled orders. *)

From Stdlib Require Import String QArith.
From stdpp Require Import sorting.
From S2P Require Import Prelude Errors Inventory Effects Orders Bus AppConfig AppConfigFacts Retention.
#[local] Notation W := RetentionWorld.
#[local] Open Scope nat_scope.

Lemma filter_iff_in {A} (P Q : A → Prop) `{∀ x, Decision (P x)} `{∀ x, Decision (Q x)} (l : list A) :
  (∀ x, x ∈ l → P x ↔ Q x) → filter P l = filter Q l.
Proof.
  induction l as [|x l IH]; intros Hl; [done|]. rewrite !filter_cons.
  rewrite IH by (intros y Hy; apply Hl; set_solver). specialize (Hl x ltac:(set_solver)). by repeat case_decide; naive_solver.
Qed.

(** ** One statement *)

Section TableFacts.
Context {X K : Type} `{EqDecision K} (key : X → K) (age : X → Z).
Context (eligible : X → Prop) `{∀ x, Decision (eligible x)}.

Lemma oldest_elem batch rows x : x ∈ oldest age batch rows → x ∈ rows.
Proof.
  unfold oldest. intros Hx. rewrite <- (merge_sort_Permutation (age_le age) rows).
  by eapply elem_of_take in Hx as (i & Hi & _); [apply list_elem_of_lookup_2 in Hi].
Qed.

Lemma oldest_length batch rows : length (oldest age batch rows) = Nat.min batch (length rows).
Proof. unfold oldest. by rewrite length_take, (Permutation_length (merge_sort_Permutation (age_le age) rows)). Qed.

Context (table : list X) (Hkey : NoDup (key <$> table)).

Lemma same_key x y : x ∈ table → y ∈ table → key x = key y → x = y.
Proof.
  intros [i Hi]%list_elem_of_lookup [j Hj]%list_elem_of_lookup Hk.
  enough (i = j) as -> by congruence. eapply (NoDup_lookup (key <$> table)); [done| |].
  - by rewrite list_lookup_fmap, Hi.
  - by rewrite list_lookup_fmap, Hj, Hk.
Qed.

Lemma victims_eligible batch x : x ∈ table → key x ∈ victims key age eligible batch table → eligible x.
Proof.
  intros Hx (y & Hk & Hy)%list_elem_of_fmap. apply oldest_elem, list_elem_of_filter in Hy as [He Hy].
  by rewrite (same_key x y).
Qed.

Lemma rowcount_min batch :
  rowcount key age eligible batch table = Nat.min batch (length (filter eligible table)).
Proof.
  unfold rowcount. rewrite <- oldest_length.
  assert (NoDup table) as Hnd by by eapply NoDup_fmap_1.
  apply Permutation_length, NoDup_Permutation; [by apply NoDup_filter| |].
  - unfold oldest. eapply sublist_NoDup; [|apply sublist_take].
    rewrite merge_sort_Permutation. by apply NoDup_filter.
  - intros x. rewrite list_elem_of_filter. split.
    + intros [(y & Hk & Hy)%list_elem_of_fmap Hx]. rewrite (same_key x y); [done|done| |done].
      by apply oldest_elem, list_elem_of_filter in Hy as [_ ?].
    + intros Hx. split; [by apply list_elem_of_fmap_2|]. by apply oldest_elem, list_elem_of_filter in Hx as [_ ?].
Qed.

Lemma survivors_rest batch :
  filter (λ x, ¬ eligible x) (survivors key age eligible batch table) = filter (λ x, ¬ eligible x) table.
Proof.
  unfold survivors. rewrite list_filter_filter. apply filter_iff_in.
  intros x Hx. split; [by intros [? _]|]. intros Hn. split; [done|]. contradict Hn. by eapply victims_eligible.
Qed.

Lemma survivors_count batch :
  length table = rowcount key age eligible batch table + length (survivors key age eligible batch table).
Proof.
  unfold rowcount, survivors. symmetry. rewrite <- length_app.
  apply Permutation_length. apply filter_app_complement.
Qed.

(** A short batch was the last one. *)
Lemma survivors_last batch :
  rowcount key age eligible batch table < batch →
  survivors key age eligible batch table = filter (λ x, ¬ eligible x) table.
Proof.
  rewrite rowcount_min. intros Hlt. unfold survivors. apply filter_iff_in. intros x Hx. split.
  - intros Hn He. apply Hn. apply list_elem_of_fmap_2. unfold oldest. rewrite take_ge.
    + rewrite merge_sort_Permutation. by apply list_elem_of_filter.
    + rewrite (Permutation_length (merge_sort_Permutation (age_le age) _)). lia.
  - intros Hn Hv. apply Hn. by eapply victims_eligible.
Qed.
End TableFacts.

(** ** The loop around it *)

Section Loop.
Context {X K : Type} `{EqDecision K} (key : X → K) (age : X → Z).
Context (get : W → list X) (set : list X → W → W) (eligible : Z → X → Prop) `{∀ now x, Decision (eligible now x)}.
Context (get_set : ∀ x w, get (set x w) = x) (set_set : ∀ x y w, set x (set y w) = set x w).
Context (now_set : ∀ x w, rt_now (set x w) = rt_now w).

Definition table_sql (batch : nat) : ST W nat := λ w,
  (Ok (rowcount key age (eligible (rt_now w)) batch (get w)), set (survivors key age (eligible (rt_now w)) batch (get w)) w).

Lemma batched_exact fuel batch w :
  NoDup (key <$> get w) → 0 < batch → length (filter (eligible (rt_now w)) (get w)) < fuel →
  run (prune_batched fuel (table_sql batch) batch tt) w
  = (Ok (Some (length (filter (eligible (rt_now w)) (get w)))), tt, set (filter (λ x, ¬ eligible (rt_now w) x) (get w)) w).
Proof.
  intros Hk Hb. revert w Hk. induction fuel as [|fuel IH]; intros w Hk Hf; [lia|]. simpl.
  pose proof (rowcount_min key age (eligible (rt_now w)) (get w) Hk batch) as Hn.
  destruct (decide _) as [Hlt|Hge]; simpl.
  - rewrite (survivors_last key age) by done. do 4 f_equal. lia.
  - set (w' := set (survivors key age (eligible (rt_now w)) batch (get w)) w).
    assert (get w' = survivors key age (eligible (rt_now w)) batch (get w)) as Hg by apply get_set.
    assert (rt_now w' = rt_now w) as Hnow by apply now_set.
    pose proof (survivors_rest key age (eligible (rt_now w)) (get w) Hk batch) as Hr.
    pose proof (survivors_count key age (eligible (rt_now w)) (get w) batch) as Hc.
    pose proof (Permutation_length (filter_app_complement (eligible (rt_now w)) (get w))) as H1.
    pose proof (Permutation_length (filter_app_complement (eligible (rt_now w)) (get w'))) as H2.
    rewrite length_app in H1, H2. rewrite Hg, Hr in H2.
    rewrite run_bind, IH; rewrite ?Hnow, ?Hg; [|..].
    + simpl. rewrite Hr. unfold w'. rewrite set_set. do 4 f_equal. simpl. lia.
    + unfold survivors. eapply sublist_NoDup; [exact Hk|]. apply fmap_sublist, sublist_filter.
    + lia.
Qed.
End Loop.

(** ** A pass *)

Definition unique_ids (w : W) : Prop :=
  NoDup (fst <$> rt_outbox w) ∧ NoDup ((λ x, res_id x.1) <$> rt_reservations w).

Definition unshipped (schemas : list string) (before : Z) (x : (string * N) * OutboxRow) : Prop :=
  ¬ (x.1.1 ∈ schemas ∧ is_Some (ox_published x.2) ∧ (ox_occurred x.2 < before)%Z).
#[local] Instance unshipped_dec schemas before x : Decision (unshipped schemas before x).
Proof. unfold unshipped. apply _. Defined.

Lemma unshipped_one schema before x : ¬ shipped schema before x ↔ unshipped [schema] before x.
Proof. unfold unshipped, shipped. set_solver. Qed.

Lemma outbox_batched fuel schema days batch w :
  NoDup (fst <$> rt_outbox w) → 0 < batch → length (rt_outbox w) < fuel →
  run (prune_batched fuel (outbox_sql schema days batch) batch tt) w
  = (Ok (Some (length (filter (shipped schema (cutoff (rt_now w) days)) (rt_outbox w)))), tt,
     set_rt_outbox (filter (unshipped [schema] (cutoff (rt_now w) days)) (rt_outbox w)) w).
Proof.
  intros Hk Hb Hf.
  change (outbox_sql schema days batch)
    with (table_sql fst (λ x, ox_occurred x.2) rt_outbox set_rt_outbox (λ now, shipped schema (cutoff now days)) batch).
  rewrite batched_exact; [|done..|].
  - do 2 f_equal. apply list_filter_iff. intros x. apply unshipped_one.
  - eapply Nat.le_lt_trans; [apply length_filter|done].
Qed.

Lemma reservations_batched fuel days batch w :
  NoDup ((λ x, res_id x.1) <$> rt_reservations w) → 0 < batch → length (rt_reservations w) < fuel →
  run (prune_batched fuel (reservations_sql days batch) batch tt) w
  = (Ok (Some (length (filter (over (cutoff (rt_now w) days)) (rt_reservations w)))), tt,
     set_rt_reservations (filter (λ x, ¬ over (cutoff (rt_now w) days) x) (rt_reservations w)) w).
Proof.
  intros Hk Hb Hf.
  change (reservations_sql days batch)
    with (table_sql (λ x : Reservation * Z, res_id x.1) snd rt_reservations set_rt_reservations (λ now, over (cutoff now days)) batch).
  rewrite batched_exact; [done..|].
  eapply Nat.le_lt_trans; [apply length_filter|done].
Qed.

(** The journal's loop: a second statement finds the same orders, now without rows. *)
Lemma journal_batched fuel days batch w :
  0 < batch → 2 ≤ fuel →
  run (prune_batched fuel (saga_log_sql days batch) batch tt) w
  = (Ok (Some (length (filter (λ e, log_order e ∈ settled_orders days batch w) (saga_log (rt_ord w))))), tt,
     set_journal (filter (λ e, log_order e ∉ settled_orders days batch w) (saga_log (rt_ord w))) w).
Proof.
  intros Hb Hf. destruct fuel as [|[|fuel]]; [lia|lia|]. simpl. destruct (decide _) as [Hlt|Hge]; [done|]. simpl.
  set (ids := settled_orders days batch w).
  assert (filter (λ e, log_order e ∈ ids) (filter (λ e, log_order e ∉ ids) (saga_log (rt_ord w))) = []) as Hnil.
  { rewrite list_filter_filter. apply filter_none. intros x _. tauto. }
  change (settled_orders days batch (set_journal _ w)) with ids. rewrite Hnil. simpl.
  rewrite decide_True by lia. simpl. rewrite Nat.add_0_r. f_equal. unfold set_journal; simpl. do 2 f_equal.
  rewrite list_filter_filter. apply list_filter_iff. tauto.
Qed.

(** The statements on the outboxes, one schema after the other. *)
Lemma outbox_tables fuel batch days schemas rest w :
  NoDup (fst <$> rt_outbox w) → 0 < batch → length (rt_outbox w) < fuel →
  let w' := set_rt_outbox (filter (unshipped schemas (cutoff (rt_now w) days)) (rt_outbox w)) w in
  ∃ counts, length (rt_outbox w) = sum_list counts.*2 + length (rt_outbox w') ∧
    run (prune_tables fuel batch (((λ schema, ((schema +:+ ".outbox")%string, outbox_sql schema days batch)) <$> schemas) ++ rest) tt) w
    = match run (prune_tables fuel batch rest tt) w' with
      | (Ok r, l, w2) => (Ok (app counts <$> r), l, w2)
      | (Err e, l, w2) => (Err e, l, w2)
      end.
Proof.
  intros Hk Hb Hf. revert w Hk Hf. induction schemas as [|schema schemas IH]; intros w Hk Hf; cbn zeta.
  - assert (filter (unshipped [] (cutoff (rt_now w) days)) (rt_outbox w) = rt_outbox w) as ->.
    { apply filter_all. intros x _ [Hx _]. by apply not_elem_of_nil in Hx. }
    exists []. split; [done|]. destruct w as [ob rs od pr now]. simpl.
    destruct (run _ _) as [[[[r|]|e] l] w2]; done.
  - rewrite fmap_cons. cbn [app prune_tables]. rewrite run_bind, outbox_batched by done. set (n := length (filter (shipped _ _) _)). set (w1 := set_rt_outbox (filter (unshipped [schema] _) _) w).
    destruct (IH w1) as (counts & Hc & Hrun).
    { eapply sublist_NoDup; [exact Hk|]. apply fmap_sublist, sublist_filter. }
    { eapply Nat.le_lt_trans; [apply length_filter|done]. }
    assert (filter (unshipped schemas (cutoff (rt_now w1) days)) (rt_outbox w1)
            = filter (unshipped (schema :: schemas) (cutoff (rt_now w) days)) (rt_outbox w)) as Hout.
    { unfold w1. simpl. rewrite list_filter_filter. apply list_filter_iff. intros x. unfold unshipped. set_solver. }
    exists (((schema +:+ ".outbox")%string, n) :: counts). split.
    + rewrite Hout in Hc. simpl rt_outbox in Hc |- *. change (sum_list (_ :: counts).*2) with (n + sum_list counts.*2).
      pose proof (Permutation_length (filter_app_complement (shipped schema (cutoff (rt_now w) days)) (rt_outbox w))) as Hp.
      rewrite length_app in Hp. fold n in Hp.
      rewrite (list_filter_iff _ _ _ (unshipped_one schema (cutoff (rt_now w) days))) in Hp. lia.
    + rewrite run_bind, Hrun. rewrite Hout. change (set_rt_outbox ?x w1) with (set_rt_outbox x w). simpl.
      by destruct (run (prune_tables fuel batch rest tt) (set_rt_outbox _ w)) as [[[[r|]|e] l] w2].
Qed.

(** The state a pass leaves. *)
Definition pruned (s : AppSettings) (w : W) : W :=
  let batch := Z.to_nat (retention_prune_batch_size s) in
  MkRetention
    (filter (unshipped OUTBOX_SCHEMAS (cutoff (rt_now w) (outbox_retention_days s))) (rt_outbox w))
    (filter (λ x, ¬ over (cutoff (rt_now w) (reservation_retention_days s)) x) (rt_reservations w))
    (MkOrdDB (orders (rt_ord w))
       (filter (λ e, log_order e ∉ settled_orders (saga_log_retention_days s) batch w) (saga_log (rt_ord w)))
       (ord_outbox (rt_ord w)) (next_uuid (rt_ord w)))
    (rt_pruned w) (rt_now w).

Lemma prune_once_run fuel s w :
  unique_ids w → (0 < retention_prune_batch_size s)%Z → 2 + length (rt_outbox w) + length (rt_reservations w) ≤ fuel →
  ∃ counts, run (prune_once fuel s tt) w = (Ok (Some counts), tt, inc_pruned counts (pruned s w)) ∧
    length (rt_outbox w) + length (rt_reservations w) + length (saga_log (rt_ord w))
    = sum_list counts.*2 + length (rt_outbox (pruned s w)) + length (rt_reservations (pruned s w))
      + length (saga_log (rt_ord (pruned s w))).
Proof.
  intros [Hk1 Hk2] Hb Hf. unfold prune_once. rewrite run_bind. unfold retention_tables.
  set (batch := Z.to_nat (retention_prune_batch_size s)). assert (0 < batch) as Hb' by lia.
  edestruct (outbox_tables fuel batch (outbox_retention_days s) OUTBOX_SCHEMAS) as (counts & Hc & ->); [exact Hk1|done|lia|].
  set (w1 := set_rt_outbox _ w) in *. cbn [prune_tables]. rewrite run_bind, reservations_batched; [|done|done|simpl; lia].
  set (n2 := length (filter _ (rt_reservations w1))). rewrite !run_bind, journal_batched by lia.
  set (n3 := length (filter _ (saga_log _))). simpl.
  exists (counts ++ [("inventory.reservations"%string, n2); ("orders.saga_log"%string, n3)]). split; [done|].
  rewrite fmap_app, sum_list_with_app. simpl in *.
  pose proof (Permutation_length (filter_app_complement (over (cutoff (rt_now w) (reservation_retention_days s))) (rt_reservations w))) as H2.
  pose proof (Permutation_length (filter_app_complement
                (λ e, log_order e ∈ settled_orders (saga_log_retention_days s) batch w) (saga_log (rt_ord w)))) as H3.
  rewrite length_app in H2, H3. unfold n2, n3, w1 in *. simpl in *. fold batch.
  change (settled_orders _ batch (set_rt_reservations _ _)) with (settled_orders (saga_log_retention_days s) batch w). lia.
Qed.

(** ** Correctness of a pass *)

Section Passes.
Context (postgres_dsn netloc_ok : string → bool) (raw s : AppSettings).
Context (Hv : validate postgres_dsn netloc_ok raw = Accepted s).

Lemma accepted_batch : (0 < retention_prune_batch_size s)%Z.
Proof. destruct (accepted_coherent _ _ _ _ Hv) as [_ _ _ _ _ _ (H & _) _]. exact H. Qed.

(** C35: A prune pass under accepted settings ends, once it may go round as often as
    there are rows: published outbox rows of the five schemas and finished
    reservations past their retention are gone, every other row of theirs is
    untouched and in place, orders are never touched, and the counts it returns are
    the rows that were deleted. *)
Theorem prune_is_exact (fuel : nat) (w : W) (Hids : unique_ids w)
    (Hfuel : 2 + length (rt_outbox w) + length (rt_reservations w) ≤ fuel) :
  ∃ counts w', run (prune_once fuel s tt) w = (Ok (Some counts), tt, w') ∧
    rt_outbox w' = filter (unshipped OUTBOX_SCHEMAS (cutoff (rt_now w) (outbox_retention_days s))) (rt_outbox w) ∧
    rt_reservations w' = filter (λ x, ¬ over (cutoff (rt_now w) (reservation_retention_days s)) x) (rt_reservations w) ∧
    orders (rt_ord w') = orders (rt_ord w) ∧
    length (rt_outbox w) + length (rt_reservations w) + length (saga_log (rt_ord w))
    = sum_list counts.*2 + length (rt_outbox w') + length (rt_reservations w') + length (saga_log (rt_ord w')).
Proof.
  destruct (prune_once_run fuel s w Hids accepted_batch Hfuel) as (counts & Hrun & Hsum).
  exists counts, (inc_pruned counts (pruned s w)). done.
Qed.

(** ** What every statement spares *)

(** Still of use to settlement: not finished, or touched inside the window. *)
Definition in_window (now at_ : Z) : Prop := (now - payment_reconciliation_max_age_seconds s ≤ at_)%Z.
Definition keyed (w : W) : Prop := ∀ k o, orders (rt_ord w) !! k = Some o → ord_id o = k.

Record spares (w w' : W) : Prop := {
  sp_reservations x : unique_ids w → x ∈ rt_reservations w → res_status x.1 = HELD ∨ in_window (rt_now w) x.2 → x ∈ rt_reservations w';
  sp_orders : orders (rt_ord w') = orders (rt_ord w);
  sp_journal e o : keyed w → e ∈ saga_log (rt_ord w) → orders (rt_ord w) !! log_order e = Some o →
    ord_status o = PENDING ∨ in_window (rt_now w) (ord_updated_at o) → e ∈ saga_log (rt_ord w');
  sp_outbox x : unique_ids w → x ∈ rt_outbox w → ox_published x.2 = None → x ∈ rt_outbox w'
}.

Lemma spares_refl w : spares w w.
Proof. by split. Qed.

(** Every block of a coroutine, in whatever world the others left. *)
Fixpoint every_block {A} (R : W → W → Prop) (p : prog W A) : Prop :=
  match p with
  | Ret _ => True
  | Tick f k => (∀ w, R w (f w)) ∧ every_block R k
  | Atomic m k => (∀ w, R w (m w).2) ∧ ∀ r, every_block R (k r)
  end.

Lemma every_block_pbind {A B} R (p : prog W A) (f : A → prog W B) :
  every_block R p → (∀ a, every_block R (f a)) → every_block R (pbind p f).
Proof. induction p; simpl; [done|naive_solver..]. Qed.

Lemma every_block_bind {A B} R (p : frame W unit A) (f : A → frame W unit B) l :
  every_block R (p l) → (∀ a l', every_block R (f a l')) → every_block R ((p ≫= f) l).
Proof. intros Hp Hf. apply every_block_pbind; [done|]. intros [[a|e] l']; [apply Hf|done]. Qed.

Lemma outbox_spares schema days batch w : spares w (outbox_sql schema days batch w).2.
Proof.
  split; simpl; try done. intros x [Hk _] Hx Hp. apply list_elem_of_filter. split; [|done].
  intros Hin. apply (victims_eligible _ _ _ _ Hk) in Hin as (_ & [? ?] & _); [congruence|done].
Qed.

Lemma reservations_spares batch w : spares w (reservations_sql (reservation_retention_days s) batch w).2.
Proof.
  split; simpl; try done. intros x [_ Hk] Hx Hn. apply list_elem_of_filter. split; [|done].
  intros Hin. apply (victims_eligible _ _ _ _ Hk) in Hin as [Hs Hold]; [|done].
  destruct (accepted_coherent _ _ _ _ Hv) as [_ _ [Hd _] _ _ _ _ _].
  destruct Hn as [|Hn]; [done|]. unfold in_window in Hn. unfold cutoff in Hold. simpl in *. lia.
Qed.

Lemma journal_spares batch w : spares w (saga_log_sql (saga_log_retention_days s) batch w).2.
Proof.
  split; simpl; try done. intros e o Hk He Ho Hn. apply list_elem_of_filter. split; [|done].
  intros (o' & Hid & Hin)%list_elem_of_fmap. apply oldest_elem, list_elem_of_filter in Hin as [[Hs Hold] Hin].
  apply list_elem_of_fmap in Hin as ([k o2] & -> & Hkv%elem_of_map_to_list). simpl in *.
  assert (k = log_order e) as -> by by rewrite Hid, (Hk _ _ Hkv). simplify_eq.
  destruct (accepted_coherent _ _ _ _ Hv) as [_ _ [_ Hd] _ _ _ _ _].
  destruct Hn as [|Hn]; [done|]. unfold in_window in Hn. unfold cutoff in Hold. lia.
Qed.

Lemma batched_spares fuel sql batch l :
  (∀ w, spares w (sql w).2) → every_block spares (prune_batched fuel sql batch l).
Proof.
  intros Hs. revert l. induction fuel as [|fuel IH]; intros l; [done|]. simpl. split; [done|]. intros [n|e]; [|done]. simpl.
  destruct (decide _); [done|]. apply every_block_bind; [apply IH|done].
Qed.

Lemma tables_spare fuel batch tables l :
  Forall (λ t, ∀ w, spares w (t.2 w).2) tables → every_block spares (prune_tables fuel batch tables l).
Proof.
  intros Ht. revert l. induction Ht as [|[label sql] tables Hs _ IH]; intros l; [done|]. simpl.
  apply every_block_bind; [by apply batched_spares|]. intros [n|] l'; [|done]. apply every_block_bind; [apply IH|done].
Qed.

Lemma prune_once_spares fuel l : every_block spares (prune_once fuel s l).
Proof.
  apply every_block_bind.
  - apply tables_spare. unfold retention_tables. apply Forall_app. split.
    + apply Forall_fmap, Forall_true. intros schema w. apply outbox_spares.
    + apply Forall_cons. split; [intros w; apply reservations_spares|].
      apply Forall_cons. split; [intros w; apply journal_spares|done].
  - intros [counts|] l'; [|done]. split; [|done]. intros w. by split.
Qed.

(** Whatever else the database sees between its statements, and however often the
    worker goes round, no statement of the prune removes what settlement can still
    read under accepted settings: held reservations and those finished inside the
    reconciliation window, the journal of pending orders and of orders touched inside
    it, unpublished outbox rows. *)
Theorem prune_spares_settlement (fuel : nat) (stop : list bool) :
  every_block spares (run_prune fuel s stop tt).
Proof.
  generalize tt. induction stop as [|[] stop IH]; intros l; [done|done|]. cbn [run_prune].
  apply every_block_bind; [|intros _; apply IH].
  apply every_block_pbind; [apply every_block_bind; [apply prune_once_spares|done]|].
  intros [[a|e] l']; [done|]. by destruct (is_Exception e).
Qed.

(** ** The journal's prune *)

Fixpoint passes (n fuel : nat) (w : W) : W :=
  match n with O => w | S n => (run (prune_once fuel s tt) (passes n fuel w)).2 end.

Lemma passes_spec n fuel w :
  unique_ids w → 2 + length (rt_outbox w) + length (rt_reservations w) ≤ fuel →
  let w' := passes n fuel w in
  unique_ids w' ∧ 2 + length (rt_outbox w') + length (rt_reservations w') ≤ fuel ∧ rt_now w' = rt_now w ∧
  orders (rt_ord w') = orders (rt_ord w) ∧
  (n ≠ 0 → saga_log (rt_ord w') = filter (λ e, log_order e ∉ settled_orders (saga_log_retention_days s)
             (Z.to_nat (retention_prune_batch_size s)) w) (saga_log (rt_ord w))).
Proof.
  intros Hids Hfuel. induction n as [|n IH]; [done|]. simpl.
  destruct IH as (Hids' & Hfuel' & Hnow & Hord & Hlog).
  destruct (prune_once_run fuel s _ Hids' accepted_batch Hfuel') as (counts & -> & _).
  set (w1 := passes n fuel w) in *. cbn [snd]. split_and!.
  - split; (eapply sublist_NoDup; [apply Hids'|]; apply fmap_sublist, sublist_filter).
  - pose proof (length_filter (unshipped OUTBOX_SCHEMAS (cutoff (rt_now w1) (outbox_retention_days s))) (rt_outbox w1)).
    pose proof (length_filter (λ x, ¬ over (cutoff (rt_now w1) (reservation_retention_days s)) x) (rt_reservations w1)).
    simpl in *. lia.
  - done.
  - done.
  - intros _. simpl. assert (settled_orders (saga_log_retention_days s) (Z.to_nat (retention_prune_batch_size s)) w1
      = settled_orders (saga_log_retention_days s) (Z.to_nat (retention_prune_batch_size s)) w) as ->
      by (unfold settled_orders; by rewrite Hnow, Hord).
    destruct n as [|n]; [done|]. rewrite Hlog by done. rewrite list_filter_filter. apply list_filter_iff. tauto.
Qed.

(** The journal's prune never gets past its first batch: however often it runs,
    only the journals of the [batch] settled orders that were touched longest ago are
    deleted - the limit counts orders, which stay, and not journal rows - while the
    journal rows of every other settled order remain, whatever their age. *)
Theorem journal_prune_never_advances (n fuel : nat) (w : W) (Hids : unique_ids w)
    (Hfuel : 2 + length (rt_outbox w) + length (rt_reservations w) ≤ fuel) :
  let batch := Z.to_nat (retention_prune_batch_size s) in
  let first := settled_orders (saga_log_retention_days s) batch w in
  length first ≤ batch ∧
  ∀ e, e ∈ saga_log (rt_ord w) → log_order e ∉ first → e ∈ saga_log (rt_ord (passes n fuel w)).
Proof.
  intros batch first. split.
  - unfold first, settled_orders, victims. rewrite length_fmap, oldest_length. lia.
  - intros e He Hn. destruct (passes_spec n fuel w Hids Hfuel) as (_ & _ & _ & _ & Hlog).
    destruct n as [|n]; [done|]. rewrite Hlog by done. by apply list_elem_of_filter.
Qed.
End Passes.

(** ** Runs *)

Definition year : Z := 31536000.
Definition old_order (id : N) (at_ : Z) : Order := MkOrder id 7 PAID 500 [] 0 at_ "k" "h" "a@x.io".
Definition old_log (id : N) : SagaLog := MkSagaLog id "reserve" "completed" 0.

(** Two paid orders and their journals, a shipped and an unshipped event, a committed
    and a held reservation, all more than a year old. *)
Definition attic : W :=
  MkRetention
    [(("orders"%string, 1%N), MkRow "OrderPlaced" "{}" 0 (Some 1%Z)); (("orders"%string, 2%N), MkRow "OrderPlaced" "{}" 0 None)]
    [(MkReservation 1 "sku" 1 1 COMMITTED 0, 0%Z); (MkReservation 2 "sku" 1 9 HELD 0, 0%Z)]
    (MkOrdDB (list_to_map [(1%N, old_order 1 10); (2%N, old_order 2 20)]) [old_log 1; old_log 2] [] 3)
    ∅ year.

(** The defaults, with a batch of one. *)
Definition small_batch : AppSettings := {|
  app_name := app_name demo_settings; environment := environment demo_settings; debug := debug demo_settings;
  log_level := log_level demo_settings; verbose_error_details := verbose_error_details demo_settings;
  database_url := database_url demo_settings; db_pool_size := db_pool_size demo_settings;
  db_max_overflow := db_max_overflow demo_settings; db_worker_pool_size := db_worker_pool_size demo_settings;
  db_worker_max_overflow := db_worker_max_overflow demo_settings; db_pool_pre_ping := db_pool_pre_ping demo_settings;
  valkey_url := valkey_url demo_settings; product_cache_enabled := product_cache_enabled demo_settings;
  product_cache_ttl_seconds := product_cache_ttl_seconds demo_settings;
  product_cache_ttl_jitter_seconds := product_cache_ttl_jitter_seconds demo_settings;
  product_cache_lock_ttl_seconds := product_cache_lock_ttl_seconds demo_settings;
  product_cache_negative_ttl_seconds := product_cache_negative_ttl_seconds demo_settings;
  product_cache_max_fill_wait_seconds := product_cache_max_fill_wait_seconds demo_settings;
  catalog_cache_queue_url := catalog_cache_queue_url demo_settings; seed_demo_data := seed_demo_data demo_settings;
  keycloak_issuer := keycloak_issuer demo_settings; keycloak_realm := keycloak_realm demo_settings;
  keycloak_audience := keycloak_audience demo_settings; keycloak_jwks_url := keycloak_jwks_url demo_settings;
  jwks_timeout_seconds := jwks_timeout_seconds demo_settings;
  jwks_min_refresh_interval_seconds := jwks_min_refresh_interval_seconds demo_settings;
  jwt_algorithm := jwt_algorithm demo_settings; keycloak_server_url := keycloak_server_url demo_settings;
  keycloak_admin_client_id := keycloak_admin_client_id demo_settings;
  keycloak_admin_client_secret := keycloak_admin_client_secret demo_settings;
  api_v1_prefix := api_v1_prefix demo_settings;
  readiness_probe_timeout_seconds := readiness_probe_timeout_seconds demo_settings;
  cors_allow_origins := cors_allow_origins demo_settings; trusted_proxies := trusted_proxies demo_settings;
  rate_limit_enabled := rate_limit_enabled demo_settings;
  rate_limit_checkout_capacity := rate_limit_checkout_capacity demo_settings;
  rate_limit_checkout_refill := rate_limit_checkout_refill demo_settings;
  rate_limit_checkout_refill_seconds := rate_limit_checkout_refill_seconds demo_settings;
  rate_limit_write_capacity := rate_limit_write_capacity demo_settings;
  rate_limit_write_refill := rate_limit_write_refill demo_settings;
  rate_limit_write_refill_seconds := rate_limit_write_refill_seconds demo_settings;
  rate_limit_upload_capacity := rate_limit_upload_capacity demo_settings;
  rate_limit_upload_refill := rate_limit_upload_refill demo_settings;
  rate_limit_upload_refill_seconds := rate_limit_upload_refill_seconds demo_settings;
  enable_reviews := enable_reviews demo_settings;
  payment_stub_fail_token_substring := payment_stub_fail_token_substring demo_settings;
  payment_stub_pending_token_substring := payment_stub_pending_token_substring demo_settings;
  payment_stub_pending_settle_seconds := payment_stub_pending_settle_seconds demo_settings;
  payment_webhook_secret := payment_webhook_secret demo_settings;
  payment_webhook_tolerance_seconds := payment_webhook_tolerance_seconds demo_settings;
  payment_reconciliation_grace_seconds := payment_reconciliation_grace_seconds demo_settings;
  payment_reconciliation_poll_interval_seconds := payment_reconciliation_poll_interval_seconds demo_settings;
  payment_reconciliation_batch_size := payment_reconciliation_batch_size demo_settings;
  payment_reconciliation_max_age_seconds := payment_reconciliation_max_age_seconds demo_settings;
  s3_bucket := s3_bucket demo_settings; s3_region := s3_region demo_settings;
  s3_endpoint_url := s3_endpoint_url demo_settings; s3_public_base_url := s3_public_base_url demo_settings;
  s3_presign_public_base_url := s3_presign_public_base_url demo_settings;
  image_max_upload_bytes := image_max_upload_bytes demo_settings;
  image_max_dimension := image_max_dimension demo_settings;
  image_max_source_pixels := image_max_source_pixels demo_settings;
  image_upload_ttl_seconds := image_upload_ttl_seconds demo_settings; image_queue_url := image_queue_url demo_settings;
  image_visibility_timeout_seconds := image_visibility_timeout_seconds demo_settings;
  image_upload_retention_days := image_upload_retention_days demo_settings;
  image_upload_reaper_grace_seconds := image_upload_reaper_grace_seconds demo_settings;
  bus_endpoint_url := bus_endpoint_url demo_settings; bus_region := bus_region demo_settings;
  bus_topic_prefix := bus_topic_prefix demo_settings; bus_topic_arn_prefix := bus_topic_arn_prefix demo_settings;
  relay_batch_size := relay_batch_size demo_settings;
  relay_publish_concurrency := relay_publish_concurrency demo_settings;
  relay_poll_interval_seconds := relay_poll_interval_seconds demo_settings;
  outbox_lag_poll_seconds := outbox_lag_poll_seconds demo_settings;
  consumer_max_messages := consumer_max_messages demo_settings;
  consumer_wait_time_seconds := consumer_wait_time_seconds demo_settings;
  consumer_dedup_ttl_seconds := consumer_dedup_ttl_seconds demo_settings;
  consumer_lease_ttl_seconds := consumer_lease_ttl_seconds demo_settings;
  cart_max_items := cart_max_items demo_settings; cart_max_qty_per_line := cart_max_qty_per_line demo_settings;
  cart_ttl_seconds := cart_ttl_seconds demo_settings; cart_queue_url := cart_queue_url demo_settings;
  notifications_queue_url := notifications_queue_url demo_settings;
  notifications_transport := notifications_transport demo_settings;
  notification_smtp_host := notification_smtp_host demo_settings;
  notification_smtp_port := notification_smtp_port demo_settings;
  notification_from_address := notification_from_address demo_settings;
  notification_email_theme_dir := notification_email_theme_dir demo_settings;
  notification_region := notification_region demo_settings;
  reservation_ttl_seconds := reservation_ttl_seconds demo_settings;
  reservation_reaper_poll_interval_seconds := reservation_reaper_poll_interval_seconds demo_settings;
  reservation_reaper_batch_size := reservation_reaper_batch_size demo_settings;
  checkout_saga_step_timeout_seconds := checkout_saga_step_timeout_seconds demo_settings;
  checkout_saga_overall_timeout_seconds := checkout_saga_overall_timeout_seconds demo_settings;
  checkout_saga_recovery_batch_size := checkout_saga_recovery_batch_size demo_settings;
  checkout_saga_recovery_poll_interval_seconds := checkout_saga_recovery_poll_interval_seconds demo_settings;
  checkout_idempotency_ttl_seconds := checkout_idempotency_ttl_seconds demo_settings;
  outbox_retention_days := outbox_retention_days demo_settings;
  reservation_retention_days := reservation_retention_days demo_settings;
  saga_log_retention_days := saga_log_retention_days demo_settings;
  retention_prune_poll_interval_seconds := retention_prune_poll_interval_seconds demo_settings;
  retention_prune_batch_size := 1%Z; resilience_max_attempts := resilience_max_attempts demo_settings;
  resilience_retry_base_delay_seconds := resilience_retry_base_delay_seconds demo_settings;
  resilience_retry_max_delay_seconds := resilience_retry_max_delay_seconds demo_settings;
  resilience_breaker_failure_threshold := resilience_breaker_failure_threshold demo_settings;
  resilience_breaker_reset_seconds := resilience_breaker_reset_seconds demo_settings;
  resilience_dependency_max_concurrent := resilience_dependency_max_concurrent demo_settings;
  resilience_permit_ttl_seconds := resilience_permit_ttl_seconds demo_settings;
  shutdown_drain_timeout_seconds := shutdown_drain_timeout_seconds demo_settings;
  worker_metrics_port := worker_metrics_port demo_settings;
  metrics_pushgateway_url := metrics_pushgateway_url demo_settings
|}.

Definition any_text (_ : string) : bool := true.
Lemma small_batch_starts : validate any_text any_text small_batch = Accepted small_batch.
Proof. vm_compute. reflexivity. Qed.

Lemma attic_ids : unique_ids attic.
Proof. split; apply (bool_decide_unpack _); vm_compute; exact I. Qed.

Lemma prune_is_exact_witness :
  (run (prune_once 6 small_batch tt) attic).1.1
  = Ok (Some [("identity.outbox", 0); ("catalog.outbox", 0); ("inventory.outbox", 0); ("orders.outbox", 1);
              ("payments.outbox", 0); ("inventory.reservations", 1); ("orders.saga_log", 1)]%string) ∧
  ∃ counts w', run (prune_once 6 small_batch tt) attic = (Ok (Some counts), tt, w') ∧ orders (rt_ord w') = orders (rt_ord attic).
Proof.
  split; [vm_compute; reflexivity|].
  destruct (prune_is_exact any_text any_text small_batch small_batch small_batch_starts 6 attic attic_ids)
    as (counts & w' & Hrun & _ & _ & Ho & _).
  - simpl. lia.
  - exists counts, w'. exact (conj Hrun Ho).
Defined.

Lemma prune_spares_settlement_witness :
  every_block (spares small_batch) (run_prune 6 small_batch [false; false; true] tt).
Proof. exact (prune_spares_settlement any_text any_text small_batch small_batch small_batch_starts 6 [false; false; true]). Defined.

(** A hundred passes a year after order 2 was settled, its journal is still there. *)
Lemma journal_prune_never_advances_witness :
  old_log 1 ∉ saga_log (rt_ord (passes small_batch 100 6 attic)) ∧ old_log 2 ∈ saga_log (rt_ord (passes small_batch 100 6 attic)).
Proof.
  split; [apply (bool_decide_unpack _); vm_compute; exact I|].
  refine (proj2 (journal_prune_never_advances any_text any_text small_batch small_batch small_batch_starts 100 6 attic attic_ids _)
            (old_log 2) _ _).
  - simpl. lia.
  - apply (bool_decide_unpack _). vm_compute. exact I.
  - apply (bool_decide_unpack _). vm_compute. exact I.
Defined.
