(* ===== verification/Notifications.v ===== *)
(** * Notifications: outbound email from bus events

    The tables of src/notifications/adapters/db/models.py, the repository over
    them, the theme's templates (src/notifications/themes), the MIME headers of
    src/notifications/adapters/senders.py, the service and the event handler of
    notification_worker.py.  The transport is one block that appends the message to
    [nt_mails]; it may fail or lose its answer like any [await].  Counters and log
    lines are left out. *)

From Stdlib Require Import Ascii String.
From S2P Require Import Prelude Errors UnitOfWork Text Parse Effects Bus.

(** ** Data *)

Inductive EmailType := ORDER_CONFIRMATION | REFUND_ISSUED.
Inductive EmailStatus := EPENDING | ESENT.
#[export] Instance EmailType_eq_dec : EqDecision EmailType.
Proof. solve_decision. Defined.
#[export] Instance EmailType_countable : Countable EmailType.
Proof.
  refine (inj_countable' (λ t, match t with ORDER_CONFIRMATION => true | REFUND_ISSUED => false end)
    (λ b : bool, if b then ORDER_CONFIRMATION else REFUND_ISSUED) _). by intros [].
Defined.
#[export] Instance EmailStatus_eq_dec : EqDecision EmailStatus.
Proof. solve_decision. Defined.

Record SentEmail := MkSentEmail { se_recipient : string; se_status : EmailStatus; se_message_id : N }.

(** What leaves through the transport; the key fields name the send it belongs to. *)
Record Mail := MkMail {
  ml_order : N;
  ml_type : EmailType;
  ml_to : string;
  ml_subject : string;
  ml_body : string;
  ml_html : string;
  ml_message_id : string;
  ml_x_message_id : string
}.

Record NotifDB := MkNotif {
  nt_recipients : gmap N string;
  nt_orders : gmap N string;
  nt_sent : gmap (N * EmailType) SentEmail;
  nt_suppressed : gset string;
  nt_mails : list Mail;
  nt_next : N
}.

Definition set_sent (x : gmap (N * EmailType) SentEmail) (n : N) (d : NotifDB) : NotifDB :=
  MkNotif (nt_recipients d) (nt_orders d) x (nt_suppressed d) (nt_mails d) n.

(** ** The repository *)

Definition email_ok (email : string) : Prop := (String.length email ≤ 255)%nat.
#[export] Instance email_ok_dec email : Decision (email_ok email).
Proof. unfold email_ok. apply _. Defined.

(** [upsert_recipient] *)
Definition upsert_recipient (user : N) (email : string) : ST NotifDB unit := λ d,
  if decide (email_ok email) then
    (Ok tt, MkNotif (<[user := email]> (nt_recipients d)) (nt_orders d) (nt_sent d) (nt_suppressed d) (nt_mails d) (nt_next d))
  else (Err DataError, d).

(** [upsert_order_email] *)
Definition upsert_order_email (order : N) (email : string) : ST NotifDB unit := λ d,
  if decide (email_ok email) then
    (Ok tt, MkNotif (nt_recipients d) (<[order := email]> (nt_orders d)) (nt_sent d) (nt_suppressed d) (nt_mails d) (nt_next d))
  else (Err DataError, d).

(** [get_order_email], [get_recipient_email], [is_suppressed], [has_sent] *)
Definition get_order_email (order : N) : ST NotifDB (option string) := λ d, (Ok (nt_orders d !! order), d).
Definition get_recipient_email (user : N) : ST NotifDB (option string) := λ d, (Ok (nt_recipients d !! user), d).
Definition is_suppressed (email : string) : ST NotifDB bool := λ d, (Ok (bool_decide (email ∈ nt_suppressed d)), d).
Definition has_sent (order : N) (ty : EmailType) : ST NotifDB bool := λ d,
  (Ok (match nt_sent d !! (order, ty) with Some r => bool_decide (se_status r = ESENT) | None => false end), d).

(** The INSERT of [claim_send]: UNIQUE (order_id, email_type); the message id is a
    fresh [uuid4], drawn from a counter. *)
Definition insert_claim (order : N) (ty : EmailType) (recipient : string) : ST NotifDB N := λ d,
  if decide (email_ok recipient) then
    match nt_sent d !! (order, ty) with
    | Some _ => (Err (IntegrityError UNIQUE_VIOLATION), d)
    | None => if decide (is_uuid (nt_next d)) then
              (Ok (nt_next d), set_sent (<[(order, ty) := MkSentEmail recipient EPENDING (nt_next d)]> (nt_sent d)) (nt_next d + 1) d)
              else (Err RuntimeError, d)
    end
  else (Err DataError, d).

(** The SELECT that resolves a conflict *)
Definition recorded_claim (order : N) (ty : EmailType) : ST NotifDB (EmailStatus * N) := λ d,
  match nt_sent d !! (order, ty) with
  | Some r => (Ok (se_status r, se_message_id r), d)
  | None => (Err RuntimeError, d)
  end.

(** [mark_sent] *)
Definition mark_sent (order : N) (ty : EmailType) (recipient : string) : ST NotifDB unit := λ d,
  if decide (email_ok recipient) then
    match nt_sent d !! (order, ty) with
    | Some r => (Ok tt, set_sent (<[(order, ty) := MkSentEmail recipient ESENT (se_message_id r)]> (nt_sent d)) (nt_next d) d)
    | None => (Ok tt, d)
    end
  else (Err DataError, d).

(** ** Templates: [string.Template.substitute] *)

Definition ident_start (c : ascii) : bool :=
  let n := N_of_ascii c in
  bool_decide (65 ≤ n ∧ n ≤ 90)%N || bool_decide (97 ≤ n ∧ n ≤ 122)%N || bool_decide (c = "_"%char).
Definition ident_char (c : ascii) : bool :=
  ident_start c || bool_decide (48 ≤ N_of_ascii c ∧ N_of_ascii c ≤ 57)%N.

(** The longest identifier a text begins with, and the rest. *)
Fixpoint take_ident (s : string) : string * string :=
  match s with
  | String c s' => if ident_char c then let '(a, b) := take_ident s' in (String c a, b) else (EmptyString, s)
  | EmptyString => (EmptyString, EmptyString)
  end.

Definition identifier (s : string) : option (string * string) :=
  match s with
  | String c _ => if ident_start c then Some (take_ident s) else None
  | EmptyString => None
  end.

Definition value_of (vals : list (string * string)) (name : string) : option string :=
  option_map snd (list_find (λ x, x.1 = name) vals ≫= λ x, Some x.2).

Fixpoint substitute_fuel (fuel : nat) (vals : list (string * string)) (s : string) : result string :=
  match fuel with
  | O => Ok EmptyString
  | S f =>
      match s with
      | EmptyString => Ok EmptyString
      | String "$" rest =>
          match rest with
          | String "$" rest' => r ← substitute_fuel f vals rest'; Ok (String "$" r)
          | String "{" rest' =>
              match identifier rest' with
              | Some (name, String "}" rest'') =>
                  match value_of vals name with
                  | Some v => r ← substitute_fuel f vals rest''; Ok (v +:+ r)%string
                  | None => Err KeyError
                  end
              | _ => Err ValueError
              end
          | _ =>
              match identifier rest with
              | Some (name, rest') =>
                  match value_of vals name with
                  | Some v => r ← substitute_fuel f vals rest'; Ok (v +:+ r)%string
                  | None => Err KeyError
                  end
              | None => Err ValueError
              end
          end
      | String c rest => r ← substitute_fuel f vals rest; Ok (String c r)
      end
  end.

Definition substitute (vals : list (string * string)) (s : string) : result string :=
  substitute_fuel (S (String.length s)) vals s.

(** [EmailTheme] *)
Record Triple := MkTriple { tr_subject : string; tr_body : string; tr_html : string }.
Record EmailTheme := MkTheme { th_confirmation : Triple; th_refund : Triple }.

(** [render_order_confirmation] *)
Definition render_order_confirmation (th : EmailTheme) (order_id total items_text items_html : string)
    : result (string * string * string) :=
  let t := th_confirmation th in
  subject ← substitute [("order_id", order_id)] (tr_subject t);
  body ← substitute [("order_id", order_id); ("total", total); ("items", items_text)] (tr_body t);
  html ← substitute [("order_id", order_id); ("total", total); ("items", items_html)] (tr_html t);
  Ok (subject, body, html).

(** [render_refund_issued] *)
Definition render_refund_issued (th : EmailTheme) (order_id amount : string) : result (string * string * string) :=
  let vals := [("order_id", order_id); ("amount", amount)] in
  let t := th_refund th in
  subject ← substitute vals (tr_subject t);
  body ← substitute vals (tr_body t);
  html ← substitute vals (tr_html t);
  Ok (subject, body, html).

(** ** Events *)

Record PlacedLine := MkPlacedLine { pl_product : N; pl_name : option string; pl_qty : Z; pl_price : string }.

Record PlacedData := MkPlaced {
  pd_order : N;
  pd_user : N;
  pd_total : string;
  pd_items : list PlacedLine;
  pd_email : option string
}.

Inductive NotifEvent :=
  | UserCreatedEv (id user : N) (email : string)
  | OrderPlacedEv (id : N) (d : PlacedData)
  | PaymentRefundedEv (id order : N) (amount : string).

Definition notif_event_id (e : NotifEvent) : N :=
  match e with UserCreatedEv i _ _ | OrderPlacedEv i _ | PaymentRefundedEv i _ _ => i end.

(** ** The service *)

Definition newline : string := String (ascii_of_N 10) EmptyString.

Fixpoint join (sep : string) (xs : list string) : string :=
  match xs with
  | [] => EmptyString
  | [x] => x
  | x :: xs' => (x +:+ sep +:+ join sep xs')%string
  end.

(** [line.get("product_name") or line["product_id"]] *)
Definition line_label (l : PlacedLine) : string :=
  match pl_name l with Some (String c s) => String c s | _ => uuid_str (pl_product l) end.

(** [_render_confirmation] *)
Definition render_confirmation (th : EmailTheme) (d : PlacedData) : result (string * string * string) :=
  let text l := ("  - " +:+ line_label l +:+ " x" +:+ int_str (pl_qty l) +:+ " @ " +:+ pl_price l)%string in
  let html l := ("<li>" +:+ line_label l +:+ " x" +:+ int_str (pl_qty l) +:+ " @ " +:+ pl_price l +:+ "</li>")%string in
  render_order_confirmation th (uuid_str (pd_order d)) (pd_total d)
    (join newline (text <$> pd_items d)) (join newline (html <$> pd_items d)).

(** [from_address.rpartition("@")[2] or "localhost"] *)
Fixpoint after_at (s : string) : string :=
  match s with
  | EmptyString => EmptyString
  | String c s' => if contains "@" s' then after_at s' else if decide (c = "@"%char) then s' else s
  end.
Definition mail_domain (from : string) : string :=
  match after_at from with EmptyString => "localhost" | d => d end.

(** [_build_mime] *)
Definition build_mime (from to : string) (rendered : string * string * string) (message_id : N) (order : N) (ty : EmailType) : Mail :=
  let '(subject, body, html) := rendered in
  MkMail order ty to subject body html
    ("<" +:+ uuid_str message_id +:+ "@" +:+ mail_domain from +:+ ">")%string (uuid_str message_id).

(** [send] *)
Definition send (m : Mail) : ST NotifDB unit :=
  modify (λ d, MkNotif (nt_recipients d) (nt_orders d) (nt_sent d) (nt_suppressed d) (m :: nt_mails d) (nt_next d)).

Inductive ClaimOutcome := Claimed | AlreadySent | Takeover.

Section Service.
Context (th : EmailTheme) (from_address : string).
Notation service := (frame NotifDB unit).

(** [claim_send] *)
Definition claim_send (order : N) (ty : EmailType) (recipient : string) : service (ClaimOutcome * N) :=
  try_catch (id ← await (insert_claim order ty recipient); mret (Claimed, id))
    (λ e, match e with
          | IntegrityError UNIQUE_VIOLATION =>
              r ← await (recorded_claim order ty);
              mret (if decide (r.1 = ESENT) then AlreadySent else Takeover, r.2)
          | e => throw e
          end).


(** [_send_claimed] *)
Definition send_claimed (order : N) (email : string) (ty : EmailType) (render : result (string * string * string)) : service unit :=
  muted ← await (is_suppressed email);
  if (muted : bool) then mret tt
  else
    claim ← claim_send order ty email;
    match claim with
    | (AlreadySent, _) => mret tt
    | (_, message_id) =>
        rendered ← of_result render;
        await (send (build_mime from_address email rendered message_id order ty)) ;;
        await (mark_sent order ty email)
    end.

(** [handle_user_created] *)
Definition handle_user_created (user : N) (email : string) : service unit := await (upsert_recipient user email).

(** [data.get("user_email") or await get_recipient_email(...)] *)
Definition recipient_of (d : PlacedData) : service (option string) :=
  match pd_email d with
  | Some (String c s) => mret (Some (String c s))
  | _ => await (get_recipient_email (pd_user d))
  end.

(** [handle_order_placed] *)
Definition handle_order_placed (d : PlacedData) : service unit :=
  email ← recipient_of d;
  match email with
  | None => throw UnknownRecipientError
  | Some email =>
      await (upsert_order_email (pd_order d) email) ;;
      send_claimed (pd_order d) email ORDER_CONFIRMATION (render_confirmation th d)
  end.

(** [handle_payment_refunded] *)
Definition handle_payment_refunded (order : N) (amount : string) : service unit :=
  email ← await (get_order_email order);
  match email with
  | None => throw UnknownRecipientError
  | Some email => send_claimed order email REFUND_ISSUED (render_refund_issued th (uuid_str order) amount)
  end.

(** [make_notification_handler] *)
Definition notification_handler (e : NotifEvent) : service unit :=
  match e with
  | UserCreatedEv _ user email => handle_user_created user email
  | OrderPlacedEv _ d => handle_order_placed d
  | PaymentRefundedEv _ order amount => handle_payment_refunded order amount
  end.
End Service.
