(* ===== verification/NotificationsFacts.v ===== *)
(** * NotificationsFacts: the send state, and the handler as a bus subscriber

    The invariant of the notifications schema and its mails; the instance of
    [HandlerLaws] that plugs the handler into the bus; and what the two together
    give: a published [OrderPlaced] is confirmed, suppressed, waiting or in the
    dead-letter queue, and every copy of one send carries the same identifier. *)

From Stdlib Require Import Ascii String.
From S2P Require Import Prelude Errors UnitOfWork Text Parse Effects Bus BusFacts.
From S2P Require Import Notifications.

(** ** The invariant *)

Definition mail_key (m : Mail) : N * EmailType := (ml_order m, ml_type m).

Record NotifInv (d : NotifDB) : Prop := {
  ni_ids : ∀ k r, nt_sent d !! k = Some r → is_uuid (se_message_id r) ∧ (se_message_id r < nt_next d)%N;
  ni_unique : ∀ k1 k2 r1 r2, nt_sent d !! k1 = Some r1 → nt_sent d !! k2 = Some r2 →
    se_message_id r1 = se_message_id r2 → k1 = k2;
  ni_mails : ∀ m, m ∈ nt_mails d → ∃ r, nt_sent d !! mail_key m = Some r ∧ ml_x_message_id m = uuid_str (se_message_id r);
  ni_sent : ∀ k r, nt_sent d !! k = Some r → se_status r = ESENT → ∃ m, m ∈ nt_mails d ∧ mail_key m = k
}.

Record notif_evolves (d d' : NotifDB) : Prop := {
  ne_rows : ∀ k r, nt_sent d !! k = Some r →
    ∃ r', nt_sent d' !! k = Some r' ∧ se_message_id r' = se_message_id r ∧ (se_status r = ESENT → se_status r' = ESENT);
  ne_mails : nt_mails d ⊆ nt_mails d';
  ne_suppressed : nt_suppressed d ⊆ nt_suppressed d';
  ne_recipients : ∀ u, is_Some (nt_recipients d !! u) → is_Some (nt_recipients d' !! u);
  ne_orders : ∀ o, is_Some (nt_orders d !! o) → is_Some (nt_orders d' !! o)
}.

#[export] Instance notif_evolves_preorder : PreOrder notif_evolves.
Proof.
  split.
  - intros d. split; [|done..]. intros k r Hr. by exists r.
  - intros d1 d2 d3 [R1 M1 S1 U1 O1] [R2 M2 S2 U2 O2]. split; [|set_solver|set_solver|by auto|by auto].
    intros k r Hr. destruct (R1 k r Hr) as (r2 & Hr2 & ? & ?). destruct (R2 k r2 Hr2) as (r3 & Hr3 & ? & ?).
    exists r3. split_and!; [done|congruence|by auto].
Qed.

(** ** Blocks *)

(** Projections and suppressions may change freely. *)
Lemma side_step d d' :
  NotifInv d → nt_sent d' = nt_sent d → nt_mails d' = nt_mails d → nt_next d' = nt_next d →
  nt_suppressed d ⊆ nt_suppressed d' → (∀ u, is_Some (nt_recipients d !! u) → is_Some (nt_recipients d' !! u)) →
  (∀ o, is_Some (nt_orders d !! o) → is_Some (nt_orders d' !! o)) → NotifInv d' ∧ notif_evolves d d'.
Proof.
  intros [HI HU HM HS] Es Em En Hsup Hr Ho.
  split; split; rewrite ?Es, ?Em, ?En; try done. intros k r Hk. by exists r.
Qed.

Lemma insert_step (m : gmap N string) k v u : is_Some (m !! u) → is_Some (<[k := v]> m !! u).
Proof. intros Hu. destruct (decide (k = u)) as [->|]; [by rewrite lookup_insert_eq|by rewrite lookup_insert_ne]. Qed.

Lemma recipient_step u email d :
  NotifInv d → NotifInv (upsert_recipient u email d).2 ∧ notif_evolves d (upsert_recipient u email d).2.
Proof.
  intros HI. unfold upsert_recipient. case_decide; [|done]. apply side_step; simpl; try done. intros i. apply insert_step.
Qed.

Lemma order_email_step o email d :
  NotifInv d → NotifInv (upsert_order_email o email d).2 ∧ notif_evolves d (upsert_order_email o email d).2.
Proof.
  intros HI. unfold upsert_order_email. case_decide; [|done]. apply side_step; simpl; try done. intros i. apply insert_step.
Qed.

(** The row of a claim: the identifier it will keep. *)
Definition claimed_as (k : N * EmailType) (id : N) (d : NotifDB) : Prop :=
  ∃ r, nt_sent d !! k = Some r ∧ se_message_id r = id.

Lemma send_claim_stable k id d d' : notif_evolves d d' → claimed_as k id d → claimed_as k id d'.
Proof. intros He (r & Hr & <-). destruct (ne_rows _ _ He k r Hr) as (r' & Hr' & Hid & _). by exists r'. Qed.

Lemma insert_claim_step o ty email d :
  NotifInv d →
  (NotifInv (insert_claim o ty email d).2 ∧ notif_evolves d (insert_claim o ty email d).2) ∧
  ∀ id, (insert_claim o ty email d).1 = Ok id → claimed_as (o, ty) id (insert_claim o ty email d).2.
Proof.
  intros HI. unfold insert_claim. case_decide; [|by split].
  destruct (nt_sent d !! (o, ty)) as [r|] eqn:Er; [by split|]. case_decide as Hu; [|by split]. simpl.
  pose proof HI as [Hid Hun Hm Hs]. split; [|intros id [= <-]; eexists; simpl; by rewrite lookup_insert_eq]. split; split; simpl; try done.
  - intros k r. rewrite lookup_insert_Some. intros [[<- <-]|[_ Hr]]; simpl; [split; [done|lia]|].
    destruct (Hid k r Hr). split; [done|lia].
  - intros k1 k2 r1 r2. rewrite !lookup_insert_Some. intros [[<- <-]|[_ H1]] [[<- <-]|[_ H2]]; simpl; [done|..].
    + intros E. destruct (Hid _ _ H2). lia.
    + intros E. destruct (Hid _ _ H1). lia.
    + by eapply Hun.
  - intros m Hin. destruct (Hm m Hin) as (r & Hr & ?). exists r. rewrite lookup_insert_ne; [done|congruence].
  - intros k r. rewrite lookup_insert_Some. intros [[<- <-]|[_ Hr]]; [done|by apply Hs].
  - intros k r Hr. exists r. rewrite lookup_insert_ne; [done|congruence].
Qed.

Lemma send_step from email rendered id o ty d :
  NotifInv d → claimed_as (o, ty) id d →
  let m := build_mime from email rendered id o ty in
  (NotifInv (send m d).2 ∧ notif_evolves d (send m d).2) ∧ m ∈ nt_mails (send m d).2 ∧ mail_key m = (o, ty).
Proof.
  intros [Hid Hun Hm Hs] (r & Hr & Eid) m. unfold send, modify. simpl.
  assert (mail_key m = (o, ty) ∧ ml_x_message_id m = uuid_str id) as [Hk Hx] by by destruct rendered as [[? ?] ?].
  split_and!; [| |by left|done].
  - split; simpl; try done.
    + intros m' [->|Hin]%elem_of_cons; [exists r; by rewrite Hk, Eid|by apply Hm].
    + intros k r' Hr' Hst. destruct (Hs k r' Hr' Hst) as (m' & ? & ?). exists m'. split; [by right|done].
  - split; simpl; try done; [|set_solver]. intros k r' Hr'. by exists r'.
Qed.

Lemma mark_sent_step o ty email d :
  NotifInv d → (∃ m, m ∈ nt_mails d ∧ mail_key m = (o, ty)) → is_Some (nt_sent d !! (o, ty)) →
  (NotifInv (mark_sent o ty email d).2 ∧ notif_evolves d (mark_sent o ty email d).2) ∧
  ((mark_sent o ty email d).1 = Ok tt → ∃ r, nt_sent (mark_sent o ty email d).2 !! (o, ty) = Some r ∧ se_status r = ESENT).
Proof.
  intros HI Hmail [r Er]. unfold mark_sent. case_decide; [|by split]. rewrite Er. simpl.
  pose proof HI as [Hid Hun Hm Hs]. split; [|intros _; eexists; by rewrite lookup_insert_eq].
  assert (∀ k r', <[(o, ty) := MkSentEmail email ESENT (se_message_id r)]> (nt_sent d) !! k = Some r' →
    ∃ r0, nt_sent d !! k = Some r0 ∧ se_message_id r' = se_message_id r0) as Hback.
  { intros k r'. rewrite lookup_insert_Some. intros [[<- <-]|[_ ?]]; [by exists r|by exists r']. }
  split; split; simpl; try done.
  - intros k r' Hr'. destruct (Hback k r' Hr') as (r0 & Hr0 & ->). by apply (Hid k).
  - intros k1 k2 r1 r2 H1 H2 E. destruct (Hback _ _ H1) as (s1 & Hs1 & E1), (Hback _ _ H2) as (s2 & Hs2 & E2).
    eapply Hun; [exact Hs1|exact Hs2|congruence].
  - intros m Hin. destruct (Hm m Hin) as (r0 & Hr0 & Ex). destruct (decide (mail_key m = (o, ty))) as [Ek|Ek].
    + rewrite Ek in *. simplify_eq. eexists. rewrite lookup_insert_eq. by split.
    + exists r0. by rewrite lookup_insert_ne.
  - intros k r'. rewrite lookup_insert_Some. intros [[<- _]|[_ Hr']]; [done|by apply Hs].
  - intros k r0 Hr0. destruct (decide (k = (o, ty))) as [->|Ek].
    + simplify_eq. eexists. rewrite lookup_insert_eq. by split_and!.
    + exists r0. by rewrite lookup_insert_ne.
Qed.

(** ** The handler *)

Definition is_sent (k : N * EmailType) (d : NotifDB) : Prop := ∃ r, nt_sent d !! k = Some r ∧ se_status r = ESENT.

Lemma is_sent_stable k d d' : notif_evolves d d' → is_sent k d → is_sent k d'.
Proof. intros He (r & Hr & Hs). destruct (ne_rows _ _ He k r Hr) as (r' & Hr' & _ & Hs'). exists r'. by auto. Qed.

Section Handler.
Context (th : EmailTheme) (from_address : string).
Notation WPT := (wpt NotifInv notif_evolves).

Lemma claim_send_ok o ty email l d :
  WPT (claim_send o ty email) l
    (λ c d', match c with (AlreadySent, _) => is_sent (o, ty) d' | (_, id) => claimed_as (o, ty) id d' end) d.
Proof.
  rule wpt_try.
  - bind_with (λ id d', claimed_as (o, ty) id d'); [|done]. rule wpt_await. intros d1 HI _. by apply insert_claim_step.
  - intros e l1 d1 _. destruct e; try done. destruct state; try done.
    bind_with (λ r d', ∃ row, nt_sent d' !! (o, ty) = Some row ∧ r = (se_status row, se_message_id row)).
    + rule wpt_await. intros d2 HI _. unfold recorded_claim. destruct (nt_sent d2 !! (o, ty)) as [row|] eqn:Er; simpl;
        (split; [done|]); [|done]. intros a [= <-]. by exists row.
    + intros r l2 d2 _ (row & Hrow & ->). simpl. case_decide; [by exists row|]. by exists row.
Qed.

Definition settled (k : N * EmailType) (email : string) (d : NotifDB) : Prop := email ∈ nt_suppressed d ∨ is_sent k d.

Lemma send_claimed_ok o email ty render l d :
  WPT (send_claimed from_address o email ty render) l (λ _ d', settled (o, ty) email d') d.
Proof.
  bind_with (λ b d', b = true → email ∈ nt_suppressed d').
  { rule wpt_await. intros d1 HI _. split; [done|]. intros b [= <-]. simpl. by intros ?%bool_decide_eq_true. }
  intros [|] l1 d1 _ Hb; [left; by apply Hb|]. bind_with (λ c d', match c with (AlreadySent, _) => is_sent (o, ty) d' | (_, id) => claimed_as (o, ty) id d' end);
    [apply claim_send_ok|].
  intros [oc id] l2 d2 _ Hc.
  assert (claimed_as (o, ty) id d2 →
    WPT (rendered ← of_result render; await (send (build_mime from_address email rendered id o ty)) ;; await (mark_sent o ty email))
      l2 (λ _ d', settled (o, ty) email d') d2) as Hsend.
  { intros Hcl. bind_with (λ _ d', d' = d2); [by destruct render|]. intros rendered l3 d3 _ ->.
    bind_with (λ _ d', claimed_as (o, ty) id d' ∧ ∃ m, m ∈ nt_mails d' ∧ mail_key m = (o, ty)).
    - rule wpt_await. intros d4 HI4 He4. pose proof (send_claim_stable _ _ _ _ He4 Hcl) as Hcl4.
      destruct (send_step from_address email rendered id o ty d4 HI4 Hcl4) as ([? He5] & ? & ?).
      split; [done|]. intros _ _. split; [by eapply send_claim_stable|by eexists].
    - intros _ l5 d5 _ [Hcl5 (m & Hm & Hk)]. rule wpt_await. intros d6 HI6 He6.
      pose proof (send_claim_stable _ _ _ _ He6 Hcl5) as (r & Hr & _).
      destruct (mark_sent_step o ty email d6 HI6) as [Hst Hs].
      + exists m. split; [by apply (ne_mails _ _ He6)|done].
      + by exists r.
      + split; [done|]. intros [] Ha. right. destruct (Hs Ha) as (r' & ? & ?). by exists r'. }
  destruct oc; [by apply Hsend|by right|by apply Hsend].
Qed.

(** What it means that an event has been dealt with. *)
Definition notif_done (e : NotifEvent) (d : NotifDB) : Prop :=
  match e with
  | UserCreatedEv _ user _ => is_Some (nt_recipients d !! user)
  | OrderPlacedEv _ p =>
      is_Some (nt_orders d !! pd_order p) ∧
      ∃ email, (∀ c s, pd_email p = Some (String c s) → email = String c s) ∧ settled (pd_order p, ORDER_CONFIRMATION) email d
  | PaymentRefundedEv _ order _ => ∃ email, settled (order, REFUND_ISSUED) email d
  end.

#[export] Instance notification_subscriber : EventHandler NotifDB NotifEvent := {|
  handle := λ e, pbind (notification_handler th from_address e tt) (λ rl, Ret rl.1);
  h_inv := NotifInv;
  h_evolves := notif_evolves;
  h_done := notif_done
|}.

Lemma settled_stable k email d d' : notif_evolves d d' → settled k email d → settled k email d'.
Proof. intros He [Hs|Hs]; [left; by apply (ne_suppressed _ _ He)|right; by eapply is_sent_stable]. Qed.

Lemma notif_done_stable e d d' : notif_evolves d d' → notif_done e d → notif_done e d'.
Proof.
  intros He. destruct e as [i u m|i p|i o a]; simpl.
  - apply (ne_recipients _ _ He).
  - intros [Ho (email & Ha & Hs)]. split; [by apply (ne_orders _ _ He)|]. exists email. split; [done|]. by eapply settled_stable.
  - intros (email & Hs). exists email. by eapply settled_stable.
Qed.

Lemma handler_ok e l d : WPT (notification_handler th from_address e) l (λ _ d', notif_done e d') d.
Proof.
  destruct e as [i u m|i p|i o a]; simpl.
  - rule wpt_await. intros d1 HI _. split; [by apply recipient_step|]. intros [] Ha.
    unfold upsert_recipient in *. case_decide; [|done]. simpl. by rewrite lookup_insert_eq.
  - bind_with (λ o _, ∀ c s, pd_email p = Some (String c s) → o = Some (String c s)).
    { unfold recipient_of. destruct (pd_email p) as [[|c s]|].
      - rule wpt_await. intros d1 HI _. by split.
      - apply wpf_ret. by intros c' s' [= -> ->].
      - rule wpt_await. intros d1 HI _. by split. }
    intros [email|] l1 d1 _ Ha; [|done].
    bind_with (λ _ d', is_Some (nt_orders d' !! pd_order p)).
    { rule wpt_await. intros d2 HI _. split; [by apply order_email_step|]. intros [] Hk.
      unfold upsert_order_email in *. case_decide; [|done]. simpl. by rewrite lookup_insert_eq. }
    intros _ l2 d2 _ Ho. eapply wpt_mono; [apply _| |apply send_claimed_ok]. intros ? d3 He3 Hs. simpl in Hs.
    split; [by apply (ne_orders _ _ He3)|]. exists email. split; [|done]. intros c s Hc. apply Ha in Hc. congruence.
  - bind_with (λ _ _, True); [rule wpt_await; by intros d1 HI _|]. intros [email|] l1 d1 _ _; [|done].
    eapply wpt_mono; [apply _| |apply send_claimed_ok]. intros ? d2 _ Hs. by exists email.
Qed.

#[export] Instance notification_laws : HandlerLaws NotifDB NotifEvent.
Proof.
  split.
  - apply _.
  - apply notif_done_stable.
  - intros e d. simpl. apply wp_pbind. eapply wp_mono; [apply _| |apply (handler_ok e tt d)].
    intros [[[]|err] l] d' _ Hd; [by intros _|done].
Qed.
End Handler.

(** ** What the subscription promises *)

Section Promises.
Context {EC : EventContract NotifEvent} (cfg : BusSettings) (th : EmailTheme) (from_address : string).
#[local] Existing Instance notification_subscriber.

Definition notif_runs (s : list (prog (BusWorld NotifDB) unit) * BusWorld NotifDB) : Prop :=
  bus_runs (EH := notification_subscriber th from_address) cfg s.

(** Every published [OrderPlaced] of the subscription is confirmed by email, or its
    address (the event's own where it carries one) is suppressed, or its message still waits in the queue or lies in the
    dead-letter queue - whatever crashes, redeliveries and lost answers happen
    between the order's transaction and the mail. *)
Theorem confirmations_arrive ts w schema i r id p
    (Hw : notif_runs (ts, w)) (Hr : bw_outbox w !! (schema, i) = Some r) (Hpub : is_Some (ox_published r))
    (Hsub : bc_subscribed cfg (ox_type r) = true) (Hv : validate_event (ox_payload r) = Ok (OrderPlacedEv id p)) :
  ox_payload r ∈ ms_body <$> bw_queue w ∨ ox_payload r ∈ ms_body <$> bw_dlq w ∨
  (∃ m, m ∈ nt_mails (bw_data w) ∧ mail_key m = (pd_order p, ORDER_CONFIRMATION)) ∨
  (∃ email, email ∈ nt_suppressed (bw_data w) ∧ ∀ c s, pd_email p = Some (String c s) → email = String c s).
Proof.
  pose proof (bus_runs_inv cfg _ Hw) as HI. destruct (bi_rows _ _ HI _ _ Hr) as [_ Hs].
  destruct (whereabouts _ _ _ _ HI (Hs Hpub) Hsub) as [?|[?|(e & He & Hd)]]; [by left|by right; left|].
  rewrite Hv in He. injection He as <-. destruct Hd as [_ (email & Ha & [Hm|(row & Hrow & Hst)])].
  - right. right. right. by exists email.
  - right. right. left. exact (ni_sent _ (bi_data _ _ HI) _ _ Hrow Hst).
Qed.

(** Two mails carry the same identifier exactly when they are copies of one send:
    a takeover after a crash resends under the identifier persisted at the claim. *)
Theorem one_send_one_identifier s m1 m2
    (Hs : notif_runs s) (H1 : m1 ∈ nt_mails (bw_data s.2)) (H2 : m2 ∈ nt_mails (bw_data s.2)) :
  mail_key m1 = mail_key m2 ↔ ml_x_message_id m1 = ml_x_message_id m2.
Proof.
  pose proof (bi_data _ _ (bus_runs_inv cfg _ Hs)) as HI. simpl in HI.
  destruct (ni_mails _ HI m1 H1) as (r1 & Hr1 & ->), (ni_mails _ HI m2 H2) as (r2 & Hr2 & ->). split.
  - intros E. rewrite E in Hr1. by simplify_eq.
  - intros E. apply uuid_str_inj in E; [|by apply (ni_ids _ HI _ _ Hr1)|by apply (ni_ids _ HI _ _ Hr2)].
    by eapply (ni_unique _ HI).
Qed.
End Promises.

(** A send that is recorded, or whose address is suppressed, sends nothing and
    changes nothing, however often its event comes back. *)
Theorem settled_sends_stay_silent from_address order email ty render d
    (Hset : settled (order, ty) email d) :
  run (send_claimed from_address order email ty render tt) d = ((Ok tt, tt), d) ∨
  (¬ email_ok email ∧ run (send_claimed from_address order email ty render tt) d = ((Err DataError, tt), d)).
Proof.
  unfold send_claimed, claim_send, mbind, frame_bind, try_catch, await. simpl.
  case_bool_decide as Hm; [by left|]. simpl. destruct Hset as [?|(r & Hr & Hst)]; [done|].
  unfold insert_claim. case_decide as Hok; simpl; [|by right]. rewrite Hr. simpl.
  unfold recorded_claim. rewrite Hr. simpl. rewrite Hst. by left.
Qed.

(** ** Templates *)

Lemma take_ident_length s : (String.length (take_ident s).2 ≤ String.length s)%nat.
Proof.
  induction s as [|c s IH]; [done|]. simpl. destruct (ident_char c); [|done].
  destruct (take_ident s) as [a b]. simpl in *. lia.
Qed.

Lemma identifier_length s a b : identifier s = Some (a, b) → (String.length b ≤ String.length s)%nat.
Proof.
  unfold identifier. destruct s as [|c s]; [done|]. destruct (ident_start c); [|done]. intros [= E].
  pose proof (take_ident_length (String c s)) as Hl. simpl in Hl. rewrite E in Hl. exact Hl.
Qed.

(** The fuel of [substitute] is enough. *)
Lemma substitute_fuel_enough vals s f1 f2 :
  (String.length s < f1)%nat → (String.length s < f2)%nat → substitute_fuel f1 vals s = substitute_fuel f2 vals s.
Proof.
  revert s f2. induction f1 as [|f1 IH]; intros s [|f2] H1 H2; try lia. destruct s as [|c s]; [done|]. simpl in H1, H2.
  assert (∀ t, (String.length t ≤ String.length s)%nat → substitute_fuel f1 vals t = substitute_fuel f2 vals t) as Hrec.
  { intros t Ht. apply IH; lia. }
  assert (∀ x t v, identifier x = Some (v, t) → (String.length x ≤ String.length s)%nat →
    substitute_fuel f1 vals t = substitute_fuel f2 vals t) as Hid.
  { intros x t v Hx Hl. apply Hrec. apply identifier_length in Hx. lia. }
  cbn [substitute_fuel]. rewrite (Hrec s) by lia.
  destruct (decide (c = "$"%char)) as [->|Hc].
  2:{ destruct c as [[] [] [] [] [] [] [] []]; try done. }
  destruct s as [|c1 s]; [done|].
  assert (substitute_fuel f1 vals s = substitute_fuel f2 vals s) as Hs by (apply Hrec; simpl; lia).
  assert (∀ v t, identifier (String c1 s) = Some (v, t) → substitute_fuel f1 vals t = substitute_fuel f2 vals t) as H1s.
  { intros v t Ht. by apply (Hid _ _ _ Ht). }
  assert (∀ v c2 t, identifier s = Some (v, String c2 t) → substitute_fuel f1 vals t = substitute_fuel f2 vals t) as H2s.
  { intros v c2 t Ht%identifier_length. apply Hrec. simpl in *. lia. }
  clear Hrec Hid IH.
  destruct c1 as [[] [] [] [] [] [] [] []]; cbn -[identifier];
    solve [by rewrite Hs
          |by (destruct (identifier (String _ _)) as [[v t]|] eqn:E1; [rewrite (H1s _ _ eq_refl)|])
          |by (destruct (identifier s) as [[v2 [|c2 t2]]|] eqn:E2; [|rewrite (H2s _ _ _ eq_refl)|])].
Qed.

Example substitute_ex :
  substitute [("order_id", "7"); ("total", "9.99")] "Order ${order_id}: $$$total." = Ok "Order 7: $9.99.".
Proof. reflexivity. Qed.
Example substitute_missing : substitute [("order_id", "7")] "Total $total" = Err KeyError.
Proof. reflexivity. Qed.
Example substitute_invalid : substitute [] "100 $ off" = Err ValueError.
Proof. reflexivity. Qed.

(** ** At a concrete order *)

Definition demo_theme : EmailTheme :=
  MkTheme (MkTriple "Order $order_id" "Total: $total" "<ul>$items</ul>")
          (MkTriple "Refund $order_id" "Refunded: $amount" "<p>$amount</p>").

Definition demo_placed : PlacedData := MkPlaced 7 42 "25.00" [MkPlacedLine 17 (Some "mug") 2 "12.50"] (Some "buyer@example.org").

Definition demo_contract : EventContract NotifEvent := {|
  validate_event := λ s, if decide (s = "placed"%string) then Ok (OrderPlacedEv 1 demo_placed)
                         else if decide (s = "refunded"%string) then Ok (PaymentRefundedEv 2 7 "25.00") else Err ValidationError;
  event_id := notif_event_id;
  payload_trace := λ _, Ok "0af7651916cd43dd8448eb211c80319c"
|}.
#[local] Existing Instance demo_contract.
#[local] Existing Instance notification_subscriber.

Definition demo_bus : BusSettings := MkBusSettings "shop-" (Some "arn:aws:sns:eu:1:") 10 ["orders"; "payments"] (λ _, true) 60 3600.
Definition no_mail : NotifDB := MkNotif ∅ ∅ ∅ ∅ [] 1.
Definition bus_state : Type := list (prog (BusWorld NotifDB) unit) * BusWorld NotifDB.
Definition demo_start : BusWorld NotifDB := bus_start no_mail {["shop-OrderPlaced"; "shop-PaymentRefunded"]} 100.

Lemma no_mail_inv : NotifInv no_mail.
Proof.
  split; simpl.
  - intros k r Hr. destruct (lookup_empty_Some _ _ Hr).
  - intros k1 k2 r1 r2 Hr. destruct (lookup_empty_Some _ _ Hr).
  - by intros m ?%not_elem_of_nil.
  - intros k r Hr. destruct (lookup_empty_Some _ _ Hr).
Qed.

Section Demo.
Notation subscriber := (notification_subscriber demo_theme "shop@example.org").
Notation worker := (consume (H0 := subscriber) demo_bus 0 tt).

Definition relay_pass : prog (BusWorld NotifDB) unit := erase (drain_once (H := demo_contract) demo_bus (λ _, false) (0%nat, [])).

(** The order's row is relayed; a worker dies between the send and the mark; the
    message comes back after the lease and another worker takes the send over. *)
Definition taken_over : bus_state :=
  arrive (erase worker) 20
    (arrive (Tick (pass_time 100) (Ret tt)) 1
      (arrive (erase worker) 7
        (arrive relay_pass 20
          (arrive (Atomic (produce "orders" "OrderPlaced" "placed") (λ _, Ret tt)) 1 ([], demo_start))))).

Lemma taken_over_runs : notif_runs demo_bus demo_theme "shop@example.org" taken_over.
Proof.
  exists no_mail, {["shop-OrderPlaced"; "shop-PaymentRefunded"]}, 100. split; [exact no_mail_inv|]. unfold taken_over.
  etrans; [|apply arrive_steps, ba_consume]. etrans; [|apply arrive_steps, ba_time].
  etrans; [|apply arrive_steps, ba_consume]. etrans; [|apply arrive_steps, ba_relay].
  apply arrive_steps, ba_produce.
Qed.

Lemma taken_over_pair : notif_runs demo_bus demo_theme "shop@example.org" (taken_over.1, taken_over.2).
Proof. rewrite <- surjective_pairing. exact taken_over_runs. Qed.

Lemma confirmations_arrive_witness :
  (∃ m, m ∈ nt_mails (bw_data taken_over.2) ∧ mail_key m = (7%N, ORDER_CONFIRMATION)) ∧
  length (nt_mails (bw_data taken_over.2)) = 2%nat.
Proof.
  split; [|vm_compute; reflexivity].
  assert (bw_outbox taken_over.2 !! ("orders", 0%N) = Some (MkRow "OrderPlaced" "placed" 100 (Some 100))) as Hr
    by (vm_compute; reflexivity).
  assert (bw_queue taken_over.2 = []) as Hq by (vm_compute; reflexivity).
  assert (bw_dlq taken_over.2 = []) as Hd by (vm_compute; reflexivity).
  assert (nt_suppressed (bw_data taken_over.2) = ∅) as Hs by (vm_compute; reflexivity).
  destruct (confirmations_arrive demo_bus demo_theme "shop@example.org" taken_over.1 taken_over.2 "orders" 0
    (MkRow "OrderPlaced" "placed" 100 (Some 100)) 1 demo_placed taken_over_pair Hr (ex_intro _ 100 eq_refl) eq_refl eq_refl)
    as [Hin|[Hin|[Hm|(email & Hin & _)]]].
  - rewrite Hq in Hin. destruct (not_elem_of_nil _ Hin).
  - rewrite Hd in Hin. destruct (not_elem_of_nil _ Hin).
  - exact Hm.
  - rewrite Hs in Hin. destruct (not_elem_of_empty _ Hin).
Defined.

Definition sent_mails : list Mail := nt_mails (bw_data taken_over.2).
Definition first_mail : Mail := nth 1 sent_mails (MkMail 0 REFUND_ISSUED "" "" "" "" "" "").
Definition second_mail : Mail := nth 0 sent_mails (MkMail 0 REFUND_ISSUED "" "" "" "" "" "").

Lemma one_send_one_identifier_witness :
  mail_key first_mail = mail_key second_mail ∧ ml_x_message_id first_mail = ml_x_message_id second_mail.
Proof.
  assert (mail_key first_mail = mail_key second_mail) as Hk by (vm_compute; reflexivity). split; [exact Hk|].
  assert (nt_mails (bw_data taken_over.2) = [second_mail; first_mail]) as Hs by (vm_compute; reflexivity).
  assert (first_mail ∈ nt_mails (bw_data taken_over.2)) as H1 by (rewrite Hs; right; left).
  assert (second_mail ∈ nt_mails (bw_data taken_over.2)) as H2 by (rewrite Hs; left).
  exact (proj1 (one_send_one_identifier demo_bus demo_theme "shop@example.org" taken_over first_mail second_mail
    taken_over_runs H1 H2) Hk).
Defined.

Lemma settled_sends_stay_silent_witness :
  run (send_claimed "shop@example.org" 7 "buyer@example.org" ORDER_CONFIRMATION (render_confirmation demo_theme demo_placed) tt)
    (bw_data taken_over.2) = ((Ok tt, tt), bw_data taken_over.2).
Proof.
  destruct (settled_sends_stay_silent "shop@example.org" 7 "buyer@example.org" ORDER_CONFIRMATION
    (render_confirmation demo_theme demo_placed) (bw_data taken_over.2)) as [H|[H _]].
  - right. eexists. split; [vm_compute; reflexivity|reflexivity].
  - exact H.
  - destruct H. unfold email_ok. simpl. lia.
Defined.

Lemma published_events_arrive_witness :
  ("OrderPlaced", "placed") ∈ bw_sent taken_over.2 ∧
  ("placed" ∈ ms_body <$> bw_queue taken_over.2 ∨ "placed" ∈ ms_body <$> bw_dlq taken_over.2 ∨
   dealt_with (EH := subscriber) taken_over.2 "placed").
Proof.
  assert (bw_outbox taken_over.2 !! ("orders", 0%N) = Some (MkRow "OrderPlaced" "placed" 100 (Some 100))) as Hr
    by (vm_compute; reflexivity).
  destruct (published_events_arrive (EH := subscriber) demo_bus taken_over.1 taken_over.2 "orders" 0
    (MkRow "OrderPlaced" "placed" 100 (Some 100)) taken_over_pair Hr (ex_intro _ 100 eq_refl)) as [H1 H2].
  split; [exact H1|exact (H2 eq_refl)].
Defined.
End Demo.
