(* ===== verification/Events.v ===== *)
(** * Events: the wire contract (src/events)

    The versioned event models, their registry, and [validate_event], which routes a
    body by its [type] and [schema_version] and re-parses it strictly; the outbox
    builders of the modules and the size limit of an outbox row.

    pydantic's JSON reader and writer, its readers of UUIDs, instants and decimals are
    the class [PydanticJson]; a decimal is its text, as the JSON dump of an event
    carries it. *)

From Stdlib Require Import Ascii String.
From S2P Require Import Prelude Errors Text Parse Datetime Json.
From S2P Require Inventory Orders Payments Catalog.

Class PydanticJson := {
  dump_json : json → string;
  parse_json : string → option json;
  parse_uuid : string → option N;
  iso_datetime : Z → string;
  parse_datetime : string → option Z;
  parse_decimal : json → option string;
  (* the integer a float compares equal to *)
  float_key : string → option Z;
  dump_loads j : json_ok j = true → loads (dump_json j) = Some j;
  dump_parse j : json_ok j = true → parse_json (dump_json j) = Some j;
  parse_uuid_str u : is_uuid u → parse_uuid (uuid_str u) = Some u;
  parse_iso t : datetime_ok t → parse_datetime (iso_datetime t) = Some t;
  parse_price c : parse_decimal (JString (price_str c)) = Some (price_str c)
}.

(** ** models.py *)

Record UserCreatedData := MkUserCreated { uc_user : N; uc_email : string }.
Record ProductWriteData := MkProductWrite {
  pw_product : N; pw_merchant : N; pw_name : string; pw_price : string; pw_category : option string
}.
Record ProductDeletedData := MkProductDeleted { pdl_product : N; pdl_merchant : N }.
Record ProductWriteDataV2 := MkProductWrite2 { pw2_write : ProductWriteData; pw2_version : Z }.
Record ProductDeletedDataV2 := MkProductDeleted2 { pd2_deleted : ProductDeletedData; pd2_version : Z }.
Record StockChangeData := MkStockChange { sc_sku : string; sc_order : N; sc_quantity : Z }.
Record OrderPlacedLine := MkOrderLine { ol_product : N; ol_name : option string; ol_quantity : Z; ol_price : string }.
Record OrderPlacedData := MkOrderData {
  od_order : N; od_user : N; od_total : string; od_items : list OrderPlacedLine; od_email : option string
}.
(** [PaymentSucceededData] and [PaymentRefundedData] have the same fields. *)
Record PaymentSettledData := MkSettled { ps_payment : N; ps_order : N; ps_amount : string; ps_ref : option string }.
Record PaymentFailedData := MkFailed { pf_payment : N; pf_order : N; pf_amount : string; pf_reason : string }.

(** The [data] of an event, by its class. *)
Inductive EventData :=
  | UserCreated (d : UserCreatedData)
  | ProductCreated (d : ProductWriteData)
  | ProductUpdated (d : ProductWriteData)
  | ProductDeleted (d : ProductDeletedData)
  | ProductCreatedV2 (d : ProductWriteDataV2)
  | ProductUpdatedV2 (d : ProductWriteDataV2)
  | ProductDeletedV2 (d : ProductDeletedDataV2)
  | StockReserved (d : StockChangeData)
  | StockReleased (d : StockChangeData)
  | OrderPlaced (d : OrderPlacedData)
  | PaymentSucceeded (d : PaymentSettledData)
  | PaymentFailed (d : PaymentFailedData)
  | PaymentRefunded (d : PaymentSettledData).

Record DomainEvent := MkEvent { ev_id : N; ev_trace : string; ev_occurred : Z; ev_data : EventData }.

(** The classes. *)
Inductive EventModel :=
  | UserCreatedM | ProductCreatedM | ProductUpdatedM | ProductDeletedM | ProductCreatedV2M | ProductUpdatedV2M
  | ProductDeletedV2M | StockReservedM | StockReleasedM | OrderPlacedM | PaymentSucceededM | PaymentFailedM | PaymentRefundedM.
#[export] Instance EventModel_eq_dec : EqDecision EventModel.
Proof. solve_decision. Defined.

Definition model_of (d : EventData) : EventModel :=
  match d with
  | UserCreated _ => UserCreatedM | ProductCreated _ => ProductCreatedM | ProductUpdated _ => ProductUpdatedM
  | ProductDeleted _ => ProductDeletedM | ProductCreatedV2 _ => ProductCreatedV2M | ProductUpdatedV2 _ => ProductUpdatedV2M
  | ProductDeletedV2 _ => ProductDeletedV2M | StockReserved _ => StockReservedM | StockReleased _ => StockReleasedM
  | OrderPlaced _ => OrderPlacedM | PaymentSucceeded _ => PaymentSucceededM | PaymentFailed _ => PaymentFailedM
  | PaymentRefunded _ => PaymentRefundedM
  end.

(** [_key]: the defaults of [type] and [schema_version] *)
Definition key_of (m : EventModel) : string * Z :=
  match m with
  | UserCreatedM => ("UserCreated", 1)
  | ProductCreatedM => ("ProductCreated", 1)
  | ProductUpdatedM => ("ProductUpdated", 1)
  | ProductDeletedM => ("ProductDeleted", 1)
  | ProductCreatedV2M => ("ProductCreated", 2)
  | ProductUpdatedV2M => ("ProductUpdated", 2)
  | ProductDeletedV2M => ("ProductDeleted", 2)
  | StockReservedM => ("StockReserved", 1)
  | StockReleasedM => ("StockReleased", 1)
  | OrderPlacedM => ("OrderPlaced", 1)
  | PaymentSucceededM => ("PaymentSucceeded", 1)
  | PaymentFailedM => ("PaymentFailed", 1)
  | PaymentRefundedM => ("PaymentRefunded", 1)
  end%string.

Definition event_type (e : DomainEvent) : string := (key_of (model_of (ev_data e))).1.
Definition schema_version (e : DomainEvent) : Z := (key_of (model_of (ev_data e))).2.

(** ** registry.py *)

Definition EVENT_MODELS : list EventModel :=
  [UserCreatedM; ProductCreatedM; ProductUpdatedM; ProductDeletedM; ProductCreatedV2M; ProductUpdatedV2M; ProductDeletedV2M;
   StockReservedM; StockReleasedM; OrderPlacedM; PaymentSucceededM; PaymentFailedM; PaymentRefundedM].

Definition PRODUCED_VERSIONS : list (string * Z) :=
  [("UserCreated", 1); ("ProductCreated", 2); ("ProductUpdated", 2); ("ProductDeleted", 2); ("StockReserved", 1);
   ("StockReleased", 1); ("OrderPlaced", 1); ("PaymentSucceeded", 1); ("PaymentFailed", 1); ("PaymentRefunded", 1)]%string.

(** [_build_registry]: a second model under a key is refused at import. *)
Fixpoint build_registry (models : list EventModel) (registry : gmap (string * Z) EventModel)
    : result (gmap (string * Z) EventModel) :=
  match models with
  | [] => Ok registry
  | m :: rest =>
      match registry !! key_of m with
      | Some _ => Err RuntimeError
      | None => build_registry rest (<[key_of m := m]> registry)
      end
  end.

Definition REGISTRY : gmap (string * Z) EventModel :=
  match build_registry EVENT_MODELS ∅ with Ok r => r | Err _ => ∅ end.

(** ** Strict parsing in JSON mode *)

Section Contract.
Context `{PydanticJson}.
Notation fields := (list (string * json)).

Definition as_str (j : json) : option string := match j with JString s => Some s | _ => None end.
Definition as_uuid (j : json) : option N := match j with JString s => parse_uuid s | _ => None end.
Definition as_datetime (j : json) : option Z := match j with JString s => parse_datetime s | _ => None end.
(** [int = Field(ge=lowest)] *)
Definition as_int (lowest : Z) (j : json) : option Z :=
  match j with JInt z => if decide (lowest ≤ z) then Some z else None | _ => None end.
(** [X | None] *)
Definition nullable {A} (f : json → option A) (j : json) : option (option A) :=
  match j with JNull => Some None | j => Some <$> f j end.

(** A field without a default, and one that defaults to [None]. *)
Definition required {A} (key : string) (f : json → option A) (d : fields) : option A := dict_get key d ≫= f.
Definition optional {A} (key : string) (f : json → option A) (d : fields) : option (option A) :=
  match dict_get key d with None => Some None | Some j => nullable f j end.

(** [extra="forbid"] *)
Definition strict {A} (names : list string) (parse : fields → option A) (j : json) : option A :=
  match j with
  | JObject d => if forallb (λ kv, bool_decide (kv.1 ∈ names)) d then parse d else None
  | _ => None
  end.

Fixpoint all_items {A} (f : json → option A) (js : list json) : option (list A) :=
  match js with
  | [] => Some []
  | j :: rest => x ← f j; xs ← all_items f rest; Some (x :: xs)
  end.

Definition parse_user_created : json → option UserCreatedData :=
  strict ["user_id"; "email"]%string (λ d,
    u ← required "user_id" as_uuid d; m ← required "email" as_str d; Some (MkUserCreated u m)).

Definition product_write_fields (d : fields) : option ProductWriteData :=
  p ← required "product_id" as_uuid d; m ← required "merchant_id" as_uuid d; n ← required "name" as_str d;
  c ← required "price" parse_decimal d; g ← optional "category" as_str d; Some (MkProductWrite p m n c g).
Definition parse_product_write : json → option ProductWriteData :=
  strict ["product_id"; "merchant_id"; "name"; "price"; "category"]%string product_write_fields.
Definition parse_product_write_v2 : json → option ProductWriteDataV2 :=
  strict ["product_id"; "merchant_id"; "name"; "price"; "category"; "product_version"]%string (λ d,
    w ← product_write_fields d; v ← required "product_version" (as_int 1) d; Some (MkProductWrite2 w v)).

Definition product_deleted_fields (d : fields) : option ProductDeletedData :=
  p ← required "product_id" as_uuid d; m ← required "merchant_id" as_uuid d; Some (MkProductDeleted p m).
Definition parse_product_deleted : json → option ProductDeletedData :=
  strict ["product_id"; "merchant_id"]%string product_deleted_fields.
Definition parse_product_deleted_v2 : json → option ProductDeletedDataV2 :=
  strict ["product_id"; "merchant_id"; "product_version"]%string (λ d,
    x ← product_deleted_fields d; v ← required "product_version" (as_int 1) d; Some (MkProductDeleted2 x v)).

(** [gt=0] *)
Definition parse_stock_change : json → option StockChangeData :=
  strict ["sku"; "order_id"; "quantity"]%string (λ d,
    s ← required "sku" as_str d; o ← required "order_id" as_uuid d; q ← required "quantity" (as_int 1) d;
    Some (MkStockChange s o q)).

Definition parse_order_line : json → option OrderPlacedLine :=
  strict ["product_id"; "product_name"; "quantity"; "unit_price"]%string (λ d,
    p ← required "product_id" as_uuid d; n ← optional "product_name" as_str d; q ← required "quantity" (as_int 1) d;
    c ← required "unit_price" parse_decimal d; Some (MkOrderLine p n q c)).
Definition as_lines (j : json) : option (list OrderPlacedLine) :=
  match j with JArray items => all_items parse_order_line items | _ => None end.
Definition parse_order_placed : json → option OrderPlacedData :=
  strict ["order_id"; "user_id"; "total"; "items"; "user_email"]%string (λ d,
    o ← required "order_id" as_uuid d; u ← required "user_id" as_uuid d; t ← required "total" parse_decimal d;
    i ← required "items" as_lines d; m ← optional "user_email" as_str d; Some (MkOrderData o u t i m)).

Definition parse_settled : json → option PaymentSettledData :=
  strict ["payment_id"; "order_id"; "amount"; "gateway_ref"]%string (λ d,
    p ← required "payment_id" as_uuid d; o ← required "order_id" as_uuid d; a ← required "amount" parse_decimal d;
    r ← optional "gateway_ref" as_str d; Some (MkSettled p o a r)).
Definition parse_failed : json → option PaymentFailedData :=
  strict ["payment_id"; "order_id"; "amount"; "reason"]%string (λ d,
    p ← required "payment_id" as_uuid d; o ← required "order_id" as_uuid d; a ← required "amount" parse_decimal d;
    r ← required "reason" as_str d; Some (MkFailed p o a r)).

Definition parse_data (m : EventModel) (j : json) : option EventData :=
  match m with
  | UserCreatedM => UserCreated <$> parse_user_created j
  | ProductCreatedM => ProductCreated <$> parse_product_write j
  | ProductUpdatedM => ProductUpdated <$> parse_product_write j
  | ProductDeletedM => ProductDeleted <$> parse_product_deleted j
  | ProductCreatedV2M => ProductCreatedV2 <$> parse_product_write_v2 j
  | ProductUpdatedV2M => ProductUpdatedV2 <$> parse_product_write_v2 j
  | ProductDeletedV2M => ProductDeletedV2 <$> parse_product_deleted_v2 j
  | StockReservedM => StockReserved <$> parse_stock_change j
  | StockReleasedM => StockReleased <$> parse_stock_change j
  | OrderPlacedM => OrderPlaced <$> parse_order_placed j
  | PaymentSucceededM => PaymentSucceeded <$> parse_settled j
  | PaymentFailedM => PaymentFailed <$> parse_failed j
  | PaymentRefundedM => PaymentRefunded <$> parse_settled j
  end.

(** [Literal[v] = v] *)
Definition literal (key : string) (ok : json → bool) (d : fields) : bool :=
  match dict_get key d with None => true | Some j => ok j end.
Definition is_text (s : string) (j : json) : bool := match j with JString t => bool_decide (t = s) | _ => false end.
Definition is_number (n : Z) (j : json) : bool := match j with JInt z => bool_decide (z = n) | _ => false end.

(** [model_validate_json(body, strict=True)] on the parsed body *)
Definition parse_event (m : EventModel) : json → option DomainEvent :=
  strict ["event_id"; "trace_id"; "occurred_at"; "type"; "schema_version"; "data"]%string (λ d,
    i ← required "event_id" as_uuid d; t ← required "trace_id" as_str d; at_ ← required "occurred_at" as_datetime d;
    if literal "type" (is_text (key_of m).1) d && literal "schema_version" (is_number (key_of m).2) d then
      x ← required "data" (parse_data m) d; Some (MkEvent i t at_ x)
    else None).

(** Half of the registry key: a list or a dict is not hashable; [1], [1.0] and
    [True] are one key. *)
Inductive Key := Unhashable | TextKey (s : string) | NumberKey (z : Z) | OtherKey.
Definition key (j : option json) : Key :=
  match j with
  | Some (JArray _) | Some (JObject _) => Unhashable
  | Some (JString s) => TextKey s
  | Some (JInt z) => NumberKey z
  | Some (JBool b) => NumberKey (if b then 1 else 0)
  | Some (JFloat t) => match float_key t with Some z => NumberKey z | None => OtherKey end
  | Some JNull | None => OtherKey
  end.

(** [_lookup] *)
Definition lookup_model (type_ version : option json) : result EventModel :=
  match key type_, key version with
  | Unhashable, _ | _, Unhashable => Err TypeError
  | TextKey t, NumberKey v => match REGISTRY !! (t, v) with Some m => Ok m | None => Err UnknownEventError end
  | _, _ => Err UnknownEventError
  end.

(** [validate_event]; [JSONDecodeError] is a [ValueError]. *)
Definition validate_event (body : string) : result DomainEvent :=
  match loads body with
  | None => Err ValueError
  | Some (JObject raw) =>
      m ← lookup_model (dict_get "type" raw) (dict_get "schema_version" raw);
      match parse_json body ≫= parse_event m with Some e => Ok e | None => Err ValidationError end
  | Some _ => Err UnknownEventError
  end.

(** ** [model_dump_json] *)

Definition null_or {A} (f : A → json) (x : option A) : json := match x with Some a => f a | None => JNull end.
Notation uuid u := (JString (uuid_str u)).

Definition product_write_json (d : ProductWriteData) : fields :=
  [("product_id", uuid (pw_product d)); ("merchant_id", uuid (pw_merchant d)); ("name", JString (pw_name d));
   ("price", JString (pw_price d)); ("category", null_or JString (pw_category d))]%string.
Definition product_deleted_json (d : ProductDeletedData) : fields :=
  [("product_id", uuid (pdl_product d)); ("merchant_id", uuid (pdl_merchant d))]%string.
Definition stock_change_json (d : StockChangeData) : json :=
  JObject [("sku", JString (sc_sku d)); ("order_id", uuid (sc_order d)); ("quantity", JInt (sc_quantity d))]%string.
Definition order_line_json (l : OrderPlacedLine) : json :=
  JObject [("product_id", uuid (ol_product l)); ("product_name", null_or JString (ol_name l));
           ("quantity", JInt (ol_quantity l)); ("unit_price", JString (ol_price l))]%string.
Definition settled_json (d : PaymentSettledData) : json :=
  JObject [("payment_id", uuid (ps_payment d)); ("order_id", uuid (ps_order d)); ("amount", JString (ps_amount d));
           ("gateway_ref", null_or JString (ps_ref d))]%string.

Definition data_json (x : EventData) : json :=
  match x with
  | UserCreated d => JObject [("user_id", uuid (uc_user d)); ("email", JString (uc_email d))]
  | ProductCreated d | ProductUpdated d => JObject (product_write_json d)
  | ProductDeleted d => JObject (product_deleted_json d)
  | ProductCreatedV2 d | ProductUpdatedV2 d =>
      JObject (product_write_json (pw2_write d) ++ [("product_version", JInt (pw2_version d))])
  | ProductDeletedV2 d => JObject (product_deleted_json (pd2_deleted d) ++ [("product_version", JInt (pd2_version d))])
  | StockReserved d | StockReleased d => stock_change_json d
  | OrderPlaced d => JObject [("order_id", uuid (od_order d)); ("user_id", uuid (od_user d)); ("total", JString (od_total d));
                              ("items", JArray (order_line_json <$> od_items d)); ("user_email", null_or JString (od_email d))]
  | PaymentSucceeded d | PaymentRefunded d => settled_json d
  | PaymentFailed d => JObject [("payment_id", uuid (pf_payment d)); ("order_id", uuid (pf_order d));
                                ("amount", JString (pf_amount d)); ("reason", JString (pf_reason d))]
  end%string.

Definition event_json (e : DomainEvent) : json :=
  JObject [("event_id", uuid (ev_id e)); ("trace_id", JString (ev_trace e)); ("occurred_at", JString (iso_datetime (ev_occurred e)));
           ("type", JString (event_type e)); ("schema_version", JInt (schema_version e)); ("data", data_json (ev_data e))]%string.

Definition model_dump_json (e : DomainEvent) : string := dump_json (event_json e).

(** ** Outbox rows *)

(** [current_trace_id]: the ambient id, or a fresh one *)
Definition current_trace_id (ambient fresh : string) : string := if decide (ambient = EmptyString) then fresh else ambient.

(** [OutboxMessage(event.type, event.model_dump_json())] *)
Definition outbox_message (e : DomainEvent) : string * string := (event_type e, model_dump_json e).

(** The bytes of a text in UTF-8, for code points below 256. *)
Fixpoint utf8_length (s : string) : Z :=
  match s with EmptyString => 0 | String c rest => (if decide (N_of_ascii c < 128)%N then 1 else 2) + utf8_length rest end.

Definition MAX_OUTBOX_PAYLOAD_BYTES : Z := 240 * 1024.

(** [_reject_oversized_payload]; [OutboxPayloadTooLargeError] is a [ValueError]. *)
Definition checked_payload (payload : string) : result string :=
  if decide (MAX_OUTBOX_PAYLOAD_BYTES < utf8_length payload) then Err ValueError else Ok payload.

(** [checked_outbox_schemas]: [[a-z_][a-z0-9_]*] *)
Definition lower_letter (c : ascii) : bool := bool_decide (97 ≤ N_of_ascii c ≤ 122)%N || bool_decide (c = "_"%char).
Definition schema_identifier (s : string) : bool :=
  match s with
  | EmptyString => false
  | String c rest => lower_letter c && all_chars (λ c, lower_letter c || is_digit c) rest
  end.
Definition checked_outbox_schemas (schemas : list string) : result (list string) :=
  if forallb schema_identifier schemas then Ok schemas else Err ValueError.
End Contract.

(** *** The builders of the modules: what an outbox entry of theirs is on the wire *)

Definition user_created_data (user : N) (email : string) : EventData := UserCreated (MkUserCreated user email).

Definition catalog_data (e : Catalog.CatalogEvent) : EventData :=
  let write d := MkProductWrite2 (MkProductWrite (Catalog.wd_product d) (Catalog.wd_merchant d) (Catalog.wd_name d)
                                   (price_str (Catalog.wd_price d)) (Catalog.wd_category d)) (Catalog.wd_version d) in
  match e with
  | Catalog.ProductCreatedV2 d => ProductCreatedV2 (write d)
  | Catalog.ProductUpdatedV2 d => ProductUpdatedV2 (write d)
  | Catalog.ProductDeletedV2 p m v => ProductDeletedV2 (MkProductDeleted2 (MkProductDeleted p m) v)
  end.

Definition stock_data (e : Inventory.StockEvent) : EventData :=
  match e with
  | Inventory.StockReserved s o q => StockReserved (MkStockChange s o q)
  | Inventory.StockReleased s o q => StockReleased (MkStockChange s o q)
  end.

Definition order_data (e : Orders.OrderPlaced) : EventData :=
  OrderPlaced (MkOrderData (Orders.op_order e) (Orders.op_user e) (price_str (Orders.op_total e))
    ((λ l, let '(p, n, q, c) := l in MkOrderLine p (Some n) q (price_str c)) <$> Orders.op_items e) (Orders.op_email e)).

Definition payment_data (e : Payments.PaymentEvent) : EventData :=
  match e with
  | Payments.PaymentSucceeded i o a r => PaymentSucceeded (MkSettled i o (price_str a) r)
  | Payments.PaymentFailed i o a r => PaymentFailed (MkFailed i o (price_str a) r)
  | Payments.PaymentRefunded i o a r => PaymentRefunded (MkSettled i o (price_str a) r)
  end.
