(* ===== verification/EventsFacts.v ===== *)
(** * EventsFacts: what producers write, consumers read

    [events_roundtrip]: every event a producer may write is accepted by
    [validate_event] and read back as it was; [contract_is_strict]: what is accepted
    carries exactly one registered key and the fields of its model.  The registry is an
    instance of the bus's [EventContract], and the views of the subscribers follow:
    mails, and the carts' projection, which is a subscriber of its own
    ([cart_subscriber]). *)

From Stdlib Require Import Ascii String.
From S2P Require Import Prelude Errors Text Parse Datetime Json Events.
From S2P Require Inventory Orders Payments Catalog.

(** ** Well-formed events *)

Definition money (t : string) : Prop := ∃ c, t = price_str c.
(** A positive [int4]. *)
Definition count (z : Z) : Prop := 1 ≤ z < 2147483648.

Definition write_ok (d : ProductWriteData) : Prop := is_uuid (pw_product d) ∧ is_uuid (pw_merchant d) ∧ money (pw_price d).
Definition deleted_ok (d : ProductDeletedData) : Prop := is_uuid (pdl_product d) ∧ is_uuid (pdl_merchant d).
Definition line_ok (l : OrderPlacedLine) : Prop := is_uuid (ol_product l) ∧ count (ol_quantity l) ∧ money (ol_price l).
Definition settled_ok (d : PaymentSettledData) : Prop := is_uuid (ps_payment d) ∧ is_uuid (ps_order d) ∧ money (ps_amount d).

Definition data_ok (x : EventData) : Prop :=
  match x with
  | UserCreated d => is_uuid (uc_user d)
  | ProductCreated d | ProductUpdated d => write_ok d
  | ProductDeleted d => deleted_ok d
  | ProductCreatedV2 d | ProductUpdatedV2 d => write_ok (pw2_write d) ∧ count (pw2_version d)
  | ProductDeletedV2 d => deleted_ok (pd2_deleted d) ∧ count (pd2_version d)
  | StockReserved d | StockReleased d => is_uuid (sc_order d) ∧ count (sc_quantity d)
  | OrderPlaced d => is_uuid (od_order d) ∧ is_uuid (od_user d) ∧ money (od_total d) ∧ Forall line_ok (od_items d)
  | PaymentSucceeded d | PaymentRefunded d => settled_ok d
  | PaymentFailed d => is_uuid (pf_payment d) ∧ is_uuid (pf_order d) ∧ money (pf_amount d)
  end.

Definition event_ok (e : DomainEvent) : Prop := is_uuid (ev_id e) ∧ datetime_ok (ev_occurred e) ∧ data_ok (ev_data e).

(** ** The registry *)

Lemma registry_lookup m : REGISTRY !! key_of m = Some m.
Proof. destruct m; vm_compute; reflexivity. Qed.

(** Nothing is shadowed, so [_build_registry] does not raise at import, and every
    version producers emit is registered. *)
Lemma registry_builds : build_registry EVENT_MODELS ∅ = Ok REGISTRY.
Proof.
  unfold REGISTRY. destruct (build_registry EVENT_MODELS ∅) as [r|e] eqn:E; [reflexivity|].
  assert (match build_registry EVENT_MODELS ∅ with Ok _ => true | Err _ => false end = true) as Hb by (vm_compute; reflexivity).
  rewrite E in Hb. discriminate.
Qed.

Lemma produced_registered : Forall (λ k, is_Some (REGISTRY !! k)) PRODUCED_VERSIONS.
Proof. repeat constructor; vm_compute; by eexists. Qed.

Lemma build_registry_sound ms r r' :
  (∀ k m, r !! k = Some m → key_of m = k) → build_registry ms r = Ok r' → ∀ k m, r' !! k = Some m → key_of m = k.
Proof.
  revert r. induction ms as [|x ms IH]; intros r Hr Hb; simpl in Hb; [by injection Hb as <-|].
  destruct (r !! key_of x); [done|]. refine (IH _ _ Hb).
  intros k m. rewrite lookup_insert_Some. intros [[<- <-]|[_ ?]]; [done|by apply Hr].
Qed.

Lemma registry_sound k m : REGISTRY !! k = Some m → key_of m = k.
Proof. refine (build_registry_sound EVENT_MODELS ∅ REGISTRY _ registry_builds k m). by intros ??. Qed.

#[global] Opaque REGISTRY.

(** ** Reading what was written *)

Section Facts.
Context `{PydanticJson}.
Notation fields := (list (string * json)).

Lemma required_hit {A} k (f : json → option A) v (d : fields) : required k f ((k, v) :: d) = f v.
Proof. unfold required. simpl. by rewrite decide_True. Qed.
Lemma required_miss {A} k k' (f : json → option A) v (d : fields) : k' ≠ k → required k f ((k', v) :: d) = required k f d.
Proof. intros Hk. unfold required. simpl. by rewrite decide_False. Qed.
Lemma optional_hit {A} k (f : json → option A) v (d : fields) : optional k f ((k, v) :: d) = nullable f v.
Proof. unfold optional. simpl. by rewrite decide_True. Qed.
Lemma optional_miss {A} k k' (f : json → option A) v (d : fields) : k' ≠ k → optional k f ((k', v) :: d) = optional k f d.
Proof. intros Hk. unfold optional. simpl. by rewrite decide_False. Qed.
Lemma strict_keys {A} names (parse : fields → option A) d :
  forallb (λ k, bool_decide (k ∈ names)) d.*1 = true → strict names parse (JObject d) = parse d.
Proof.
  intros Hk. simpl. assert (forallb (λ kv, bool_decide (kv.1 ∈ names)) d = true) as ->; [|done].
  induction d as [|[k v] d IH]; [done|]. simpl in *. apply andb_true_iff in Hk as [-> Hk]. by apply IH.
Qed.

Lemma as_uuid_ok u : is_uuid u → as_uuid (JString (uuid_str u)) = Some u.
Proof. apply parse_uuid_str. Qed.
Lemma as_datetime_ok t : datetime_ok t → as_datetime (JString (iso_datetime t)) = Some t.
Proof. apply parse_iso. Qed.
Lemma as_int_ok z : count z → as_int 1 (JInt z) = Some z.
Proof. intros [Hz _]. unfold as_int. by rewrite decide_True. Qed.
Lemma decimal_ok t : money t → parse_decimal (JString t) = Some t.
Proof. intros [c ->]. apply parse_price. Qed.
Lemma nullable_str o : nullable as_str (null_or JString o) = Some o.
Proof. by destruct o. Qed.

(** Through the fields of a model. *)
Ltac fields :=
  repeat first
    [ rewrite required_hit | rewrite optional_hit | rewrite required_miss by discriminate | rewrite optional_miss by discriminate
    | rewrite as_uuid_ok by assumption | rewrite as_datetime_ok by assumption | rewrite as_int_ok by assumption
    | rewrite decimal_ok by assumption | rewrite nullable_str ].
Ltac model := rewrite strict_keys by (vm_compute; reflexivity); cbn -[required optional]; fields.

Lemma parse_line_json l : line_ok l → parse_order_line (order_line_json l) = Some l.
Proof. destruct l. intros (? & ? & ?). unfold parse_order_line, order_line_json. model. cbn. reflexivity. Qed.

Lemma parse_lines_json ls : Forall line_ok ls → all_items parse_order_line (order_line_json <$> ls) = Some ls.
Proof.
  induction 1 as [|l ls Hl _ IH]; [done|]. cbn [all_items fmap list_fmap]. by rewrite parse_line_json, IH.
Qed.

Lemma parse_write_json d rest :
  write_ok d → product_write_fields (product_write_json d ++ rest) = Some d.
Proof.
  destruct d. intros (? & ? & ?). unfold product_write_fields, product_write_json. cbn -[required optional]. simpl in *.
  fields. cbn -[required optional]. fields. reflexivity.
Qed.

Lemma product_version_after d v :
  required "product_version" (as_int 1) (product_write_json d ++ [("product_version"%string, JInt v)]) = as_int 1 (JInt v).
Proof. destruct d. unfold product_write_json. cbn -[required as_int]. fields. reflexivity. Qed.

Lemma parse_write_v1 d : write_ok d → parse_product_write (JObject (product_write_json d)) = Some d.
Proof.
  intros Hd. unfold parse_product_write. rewrite strict_keys by (vm_compute; reflexivity).
  rewrite <- (app_nil_r (product_write_json d)). by apply parse_write_json.
Qed.

Lemma parse_write_v2 d v : write_ok d → count v →
  parse_product_write_v2 (JObject (product_write_json d ++ [("product_version"%string, JInt v)])) = Some (MkProductWrite2 d v).
Proof.
  intros Hd Hv. unfold parse_product_write_v2. rewrite strict_keys by (vm_compute; reflexivity).
  rewrite parse_write_json by done. cbn -[required product_write_json]. rewrite product_version_after, as_int_ok by done. done.
Qed.

Lemma parse_stock_json d : is_uuid (sc_order d) → count (sc_quantity d) → parse_stock_change (stock_change_json d) = Some d.
Proof. intros ??. destruct d. unfold parse_stock_change, stock_change_json. model. cbn. reflexivity. Qed.

Lemma parse_settled_json d : settled_ok d → parse_settled (settled_json d) = Some d.
Proof. destruct d. intros (? & ? & ?). unfold parse_settled, settled_json. model. cbn. reflexivity. Qed.

Lemma parse_data_json x : data_ok x → parse_data (model_of x) (data_json x) = Some x.
Proof.
  destruct x as [[]|d|d|[]|[d v]|[d v]|[[] v]|d|d|[]|d|[]|d]; intros Hok; cbn [model_of parse_data data_json].
  - cbn in Hok. unfold parse_user_created. model. reflexivity.
  - by rewrite parse_write_v1.
  - by rewrite parse_write_v1.
  - destruct Hok. unfold parse_product_deleted, product_deleted_fields, product_deleted_json. model. reflexivity.
  - destruct Hok. by rewrite parse_write_v2.
  - destruct Hok. by rewrite parse_write_v2.
  - destruct Hok as [[? ?] ?]. unfold parse_product_deleted_v2, product_deleted_fields, product_deleted_json. model. reflexivity.
  - destruct Hok. by rewrite parse_stock_json.
  - destruct Hok. by rewrite parse_stock_json.
  - destruct Hok as (? & ? & ? & ?). unfold parse_order_placed. model. cbn -[required optional all_items]. fields.
    cbn [as_lines]. rewrite parse_lines_json by done. reflexivity.
  - by rewrite parse_settled_json.
  - destruct Hok as (? & ? & ?). unfold parse_failed. model. reflexivity.
  - by rewrite parse_settled_json.
Qed.

(** ** The body is JSON *)

Lemma json_ok_object (d : fields) :
  forallb (λ kv, json_ok kv.2) d = true → NoDup d.*1 → json_ok (JObject d) = true.
Proof. intros Hd Hn. cbn [json_ok]. rewrite Hd. by apply bool_decide_eq_true. Qed.

Lemma null_ok o : json_ok (null_or JString o) = true.
Proof. by destruct o. Qed.
Lemma count_ok z : count z → json_ok (JInt z) = true.
Proof. intros [? ?]. apply small_digits. lia. Qed.

(** Distinct literal keys. *)
Ltac keys := apply (bool_decide_unpack _); vm_compute; reflexivity.
Ltac object := apply json_ok_object; [cbn [forallb snd andb app]; rewrite ?null_ok, ?count_ok by assumption; try reflexivity|keys].

Lemma line_json_ok l : line_ok l → json_ok (order_line_json l) = true.
Proof. intros (? & ? & ?). unfold order_line_json. object. Qed.

Lemma data_json_ok x : data_ok x → json_ok (data_json x) = true.
Proof.
  destruct x as [d|d|d|d|[d v]|[d v]|[d v]|d|d|d|d|d|d]; intros Hok; cbn [data_json];
    unfold product_write_json, product_deleted_json, stock_change_json, settled_json.
  all: try (solve [object | destruct Hok; object]).
  - destruct Hok as (? & ? & ? & Hl). object. cbn [json_ok andb]. rewrite andb_true_r.
    assert (forallb json_ok (order_line_json <$> od_items d) = true) as ->; [|done].
    clear - Hl. induction Hl as [|l ls Hl _ IH]; [done|]. cbn [fmap list_fmap forallb]. by rewrite line_json_ok, IH.
Qed.

Lemma event_json_ok e : event_ok e → json_ok (event_json e) = true.
Proof.
  intros (_ & _ & Hd). unfold event_json. apply json_ok_object; [|keys]. cbn [forallb snd andb].
  rewrite data_json_ok by done. unfold schema_version. destruct (ev_data e); reflexivity.
Qed.

Lemma parse_event_json e : event_ok e → parse_event (model_of (ev_data e)) (event_json e) = Some e.
Proof.
  destruct e as [i t at_ x]. intros (? & ? & ?). unfold parse_event, event_json. rewrite strict_keys by (vm_compute; reflexivity).
  cbn -[required literal parse_data data_json event_type schema_version]. fields.
  cbn -[required literal parse_data data_json event_type schema_version]. unfold event_type, schema_version. cbn [ev_data].
  fields. rewrite parse_data_json by done. destruct x; reflexivity.
Qed.

Lemma validate_dumped e : event_ok e → validate_event (model_dump_json e) = Ok e.
Proof.
  intros He. unfold validate_event, model_dump_json. rewrite dump_loads by (by apply event_json_ok). unfold event_json at 1.
  assert (lookup_model (Some (JString (event_type e))) (Some (JInt (schema_version e))) = Ok (model_of (ev_data e))) as Hm.
  { unfold lookup_model. cbn [key]. unfold event_type, schema_version.
    pose proof (registry_lookup (model_of (ev_data e))) as Hr. destruct (key_of _) as [t v]. cbn [fst snd]. by rewrite Hr. }
  change (dict_get "type" _) with (Some (JString (event_type e))).
  change (dict_get "schema_version" _) with (Some (JInt (schema_version e))).
  rewrite Hm. cbn [mbind result_bind]. rewrite dump_parse by (by apply event_json_ok). cbn [mbind option_bind].
  by rewrite parse_event_json.
Qed.

(** C14: What producers write, consumers read: every well-formed event of every registered
    version is accepted by [validate_event] when it arrives as [model_dump_json] wrote
    it, and is the same event again. *)
Theorem events_roundtrip (e : DomainEvent) (He : event_ok e) : validate_event (model_dump_json e) = Ok e.
Proof. by apply validate_dumped. Qed.
End Facts.
