(* ===== verification/Topology.v ===== *)
(** * Topology: the local bus and upload infrastructure (scripts/)

    scripts/bus_bootstrap.py - topics, consumer queues with their dead-letter queues,
    subscriptions - and scripts/s3_bootstrap.py - the uploads bucket, its policies and
    its notification - as coroutines over [Cloud], what SNS, SQS and S3 hold.
    [create_queue] honours nothing on an existing queue; the [put_bucket_...] calls
    replace the configuration they name.  An ARN is the name it ends in. *)

From Stdlib Require Import Ascii String.
From S2P Require Import Prelude Errors UnitOfWork Text Parse Effects ImageKeys Bus Events.

(** ** What is provisioned *)

Record Queue := MkQueue {
  qu_redrive : option (string * nat);   (* dead-letter target, maxReceiveCount *)
  qu_visibility : Z;
  qu_sender : option (string * string)   (* the bucket and account S3 may send for *)
}.
Record Bucket := MkBucket {
  bk_public : option string;             (* the prefix anyone may read *)
  bk_cors : option (list string);
  bk_expiry : option (string * Z);
  bk_notify : option (string * string)   (* queue and key prefix of ObjectCreated *)
}.
Record Cloud := MkCloud {
  cl_topics : gset string;
  cl_queues : gmap string Queue;
  cl_subs : gset (string * string);      (* topic, queue *)
  cl_buckets : gmap string Bucket;
  cl_account : string
}.

Definition set_topics (x : gset string) (w : Cloud) : Cloud := MkCloud x (cl_queues w) (cl_subs w) (cl_buckets w) (cl_account w).
Definition set_queues (x : gmap string Queue) (w : Cloud) : Cloud := MkCloud (cl_topics w) x (cl_subs w) (cl_buckets w) (cl_account w).
Definition set_subs (x : gset (string * string)) (w : Cloud) : Cloud := MkCloud (cl_topics w) (cl_queues w) x (cl_buckets w) (cl_account w).
Definition set_buckets (x : gmap string Bucket) (w : Cloud) : Cloud := MkCloud (cl_topics w) (cl_queues w) (cl_subs w) x (cl_account w).

(** SQS: a bare queue is visible again after 30 seconds. *)
Definition create_queue (name : string) : ST Cloud unit := λ w,
  (Ok tt, match cl_queues w !! name with
          | Some _ => w
          | None => set_queues (<[name := MkQueue None 30 None]> (cl_queues w)) w
          end).
Definition set_queue_attributes (name : string) (f : Queue → Queue) : ST Cloud unit := λ w,
  match cl_queues w !! name with
  | Some q => (Ok tt, set_queues (<[name := f q]> (cl_queues w)) w)
  | None => (Err (ProviderError 404), w)
  end.
Definition ensure_topic (name : string) : ST Cloud unit := λ w, (Ok tt, set_topics ({[name]} ∪ cl_topics w) w).
Definition subscribe (topic queue : string) : ST Cloud unit := λ w, (Ok tt, set_subs ({[(topic, queue)]} ∪ cl_subs w) w).
Definition put_bucket (name : string) (f : Bucket → Bucket) : ST Cloud unit := λ w,
  match cl_buckets w !! name with
  | Some b => (Ok tt, set_buckets (<[name := f b]> (cl_buckets w)) w)
  | None => (Err (ProviderError 404), w)
  end.

(** ** scripts/bus_bootstrap.py *)

Definition CONSUMERS : list (string * list string) :=
  [("order-events", ["OrderPlaced"]);
   ("catalog-cache", ["ProductUpdated"; "ProductDeleted"]);
   ("cart-events", ["ProductUpdated"; "ProductDeleted"]);
   ("notifications", ["OrderPlaced"; "UserCreated"; "PaymentRefunded"]);
   ("saga-events", ["StockReserved"; "StockReleased"; "PaymentSucceeded"; "PaymentFailed"; "PaymentRefunded"])]%string.
Definition MAX_RECEIVE_COUNT : nat := 5.

(** [dlq_name] *)
Definition dlq_name (queue : string) : string := (queue +:+ "-dlq")%string.

(** [_event_types] *)
Definition event_types : list string := (λ m, (key_of m).1) <$> EVENT_MODELS.

Section Bootstrap.
Notation job := (frame Cloud unit unit).

(** [_ensure_topics] *)
Definition ensure_topics (prefix : string) : job :=
  iterate event_types (λ t, await (ensure_topic (prefix +:+ t)%string)).

(** [_ensure_consumer]; [topics] are the keys of the dict [_ensure_topics] returns. *)
Definition ensure_consumer (prefix : string) (topics : list string) (visibility : Z) (name : string) (types : list string) : job :=
  await (create_queue (dlq_name name)) ;;
  await (create_queue name) ;;
  await (set_queue_attributes name (λ q, MkQueue (Some (dlq_name name, MAX_RECEIVE_COUNT)) visibility (qu_sender q))) ;;
  iterate types (λ t, if decide (t ∈ topics) then await (subscribe (prefix +:+ t)%string name) else throw KeyError).

(** [bootstrap] *)
Definition bus_bootstrap (prefix : string) (lease_ttl : Z) : job :=
  ensure_topics prefix ;;
  iterate CONSUMERS (λ c, ensure_consumer prefix event_types (lease_ttl * 2) c.1 c.2).

(** ** scripts/s3_bootstrap.py *)

Definition UPLOAD_PREFIX : string := "uploads".
Definition PUBLIC_PREFIX : string := "public".
Definition QUEUE_NAME : string := "image-uploads".

(** [_ensure_bucket] *)
Definition ensure_bucket (bucket : string) : job :=
  missing ← await (λ w, (Ok (bool_decide (cl_buckets w !! bucket = None)), w));
  if (missing : bool) then await (λ w, (Ok tt, set_buckets (<[bucket := MkBucket None None None None]> (cl_buckets w)) w)) else mret tt.

(** [_ensure_public_read] *)
Definition ensure_public_read (bucket : string) : job :=
  await (put_bucket bucket (λ b, MkBucket (Some (PUBLIC_PREFIX +:+ "/")%string) (bk_cors b) (bk_expiry b) (bk_notify b))).

(** [_ensure_cors] *)
Definition ensure_cors (bucket : string) (origins : list string) : job :=
  match origins with
  | [] => mret tt
  | _ => await (put_bucket bucket (λ b, MkBucket (bk_public b) (Some origins) (bk_expiry b) (bk_notify b)))
  end.

(** [_ensure_lifecycle] *)
Definition ensure_lifecycle (bucket : string) (days : Z) : job :=
  await (put_bucket bucket (λ b, MkBucket (bk_public b) (bk_cors b) (Some (UPLOAD_PREFIX +:+ "/", days)%string) (bk_notify b))).

(** [_ensure_queue] *)
Definition ensure_queue (bucket : string) (visibility : Z) : job :=
  await (create_queue (dlq_name QUEUE_NAME)) ;;
  await (create_queue QUEUE_NAME) ;;
  account ← await (λ w, (Ok (cl_account w), w));
  await (set_queue_attributes QUEUE_NAME (λ _,
    MkQueue (Some (dlq_name QUEUE_NAME, MAX_RECEIVE_COUNT)) visibility (Some (bucket, account)))).

(** [_ensure_notification] *)
Definition ensure_notification (bucket : string) : job :=
  await (put_bucket bucket (λ b, MkBucket (bk_public b) (bk_cors b) (bk_expiry b) (Some (QUEUE_NAME, UPLOAD_PREFIX +:+ "/")%string))).

(** [bootstrap] *)
Definition s3_bootstrap (bucket : option string) (origins : list string) (days visibility : Z) : job :=
  match bucket with
  | None | Some EmptyString => throw RuntimeError
  | Some bucket =>
      ensure_bucket bucket ;;
      ensure_public_read bucket ;;
      ensure_cors bucket origins ;;
      ensure_lifecycle bucket days ;;
      ensure_queue bucket visibility ;;
      ensure_notification bucket
  end.
End Bootstrap.

(** ** What the objects of a bucket are subject to *)

Definition readable (b : Bucket) (key : string) : bool := match bk_public b with Some p => String.prefix p key | None => false end.
Definition notified (b : Bucket) (key : string) : bool := match bk_notify b with Some (_, p) => String.prefix p key | None => false end.
Definition expires (b : Bucket) (key : string) : bool := match bk_expiry b with Some (p, _) => String.prefix p key | None => false end.

(** ** The bus *)

Lemma run_await_bind {W L A B} (m : ST W A) (f : A → frame W L B) l w a :
  (m w).1 = Ok a → run ((await m ≫= f) l) w = run (f a l) (m w).2.
Proof. intros Hm. rewrite run_bind. cbn [await run]. destruct (m w) as [r w']. simpl in *. by subst r. Qed.

Section BusFacts.
Context (prefix : string) (visibility : Z).
Notation topic t := (prefix +:+ t)%string.

(** One consumer, as it should be. *)
Record wired (name : string) (types : list string) (w : Cloud) : Prop := {
  wi_queue : ∃ s, cl_queues w !! name = Some (MkQueue (Some (dlq_name name, MAX_RECEIVE_COUNT)) visibility s);
  wi_dlq : is_Some (cl_queues w !! dlq_name name);
  wi_subs : ∀ t, t ∈ types → (topic t, name) ∈ cl_subs w
}.

(** Nothing is taken away. *)
Record grows (w w' : Cloud) : Prop := {
  gr_topics : cl_topics w ⊆ cl_topics w';
  gr_subs : cl_subs w ⊆ cl_subs w';
  gr_queues : ∀ n, is_Some (cl_queues w !! n) → is_Some (cl_queues w' !! n);
  gr_buckets : cl_buckets w' = cl_buckets w
}.
#[local] Instance grows_preorder : PreOrder grows.
Proof.
  split; [by intros w; split|]. intros w1 w2 w3 [T1 S1 Q1 B1] [T2 S2 Q2 B2]. split; [set_solver|set_solver|eauto|congruence].
Qed.

Lemma create_queue_is n w : cl_queues (create_queue n w).2 = partial_alter (λ o, Some (default (MkQueue None 30 None) o)) n (cl_queues w).
Proof.
  unfold create_queue. simpl. destruct (cl_queues w !! n) as [q|] eqn:E; simpl.
  - apply map_eq. intros k. destruct (decide (k = n)) as [->|]; [by rewrite lookup_partial_alter_eq, E|by rewrite lookup_partial_alter_ne].
  - apply map_eq. intros k. destruct (decide (k = n)) as [->|]; [by rewrite lookup_partial_alter_eq, E, lookup_insert_eq|].
    by rewrite lookup_partial_alter_ne, lookup_insert_ne.
Qed.

Lemma create_queue_grows n w : grows w (create_queue n w).2 ∧ is_Some (cl_queues (create_queue n w).2 !! n).
Proof.
  split; [|by rewrite create_queue_is, lookup_partial_alter_eq]. split; [by unfold create_queue; simpl; destruct (_ !! _)..| |].
  - intros k Hk. rewrite create_queue_is. destruct (decide (k = n)) as [->|]; [by rewrite lookup_partial_alter_eq|].
    by rewrite lookup_partial_alter_ne.
  - unfold create_queue. simpl. by destruct (_ !! _).
Qed.

Lemma run_subscriptions (topics types : list string) name w :
  (∀ t, t ∈ types → t ∈ topics) →
  ∃ w', run (iterate types (λ t, if decide (t ∈ topics) then await (subscribe (topic t) name) else throw KeyError) tt) w = ((Ok tt, tt), w') ∧
    cl_topics w' = cl_topics w ∧ cl_queues w' = cl_queues w ∧ cl_buckets w' = cl_buckets w ∧ cl_account w' = cl_account w ∧
    cl_subs w' = list_to_set ((λ t, (topic t, name)) <$> types) ∪ cl_subs w.
Proof.
  revert w. induction types as [|t types IH]; intros w Hin; cbn [iterate].
  { exists w. split_and!; [done..|]. set_solver. }
  rewrite decide_True by (apply Hin; by left). rewrite run_bind. cbn [await run subscribe fst snd].
  destruct (IH (set_subs ({[(topic t, name)]} ∪ cl_subs w) w)) as (w' & Hrun & ? & ? & ? & ? & Hs); [intros; apply Hin; by right|].
  exists w'. split_and!; [exact Hrun|done..|]. rewrite Hs. simpl. set_solver.
Qed.

Lemma run_ensure_consumer (topics : list string) name (types : list string) w :
  (∀ t, t ∈ types → t ∈ topics) →
  ∃ w', run (ensure_consumer prefix topics visibility name types tt) w = ((Ok tt, tt), w') ∧ wired name types w' ∧ grows w w' ∧
    (∀ n, n ≠ name → is_Some (cl_queues w !! n) → cl_queues w' !! n = cl_queues w !! n).
Proof.
  intros Hin. unfold ensure_consumer. rewrite (run_await_bind _ _ _ _ tt) by done.
  destruct (create_queue_grows (dlq_name name) w) as [G1 D1]. rewrite (run_await_bind _ _ _ _ tt) by done. set (w1 := (create_queue (dlq_name name) w).2) in *.
  destruct (create_queue_grows name w1) as [G2 [q Hq]]. set (w2 := (create_queue name w1).2) in *.
  assert (∀ n m v, is_Some (cl_queues v !! n) → cl_queues (create_queue m v).2 !! n = cl_queues v !! n) as Hkeep.
  { intros n m v [x Hx]. rewrite create_queue_is. destruct (decide (n = m)) as [->|]; [by rewrite lookup_partial_alter_eq, Hx|].
    by rewrite lookup_partial_alter_ne. }
  rewrite (run_await_bind _ _ _ _ tt) by (unfold set_queue_attributes; by rewrite Hq).
  unfold set_queue_attributes. rewrite Hq. cbn [fst snd].
  set (w3 := set_queues _ w2).
  destruct (run_subscriptions topics types name w3 Hin) as (w' & Hrun & Ht & Hqs & Hb & _ & Hs). exists w'.
  assert (grows w2 w3) as G3.
  { split; simpl; [done|done| |done]. intros n Hn. destruct (decide (n = name)) as [->|]; [by rewrite lookup_insert_eq|].
    by rewrite lookup_insert_ne. }
  assert (grows w3 w') as G4 by (split; [by rewrite Ht|rewrite Hs; set_solver|by rewrite Hqs|done]).
  split_and!; [exact Hrun| |by do 3 (etrans; [eassumption|])|].
  - split; [exists (qu_sender q); by rewrite Hqs; simpl; rewrite lookup_insert_eq|..].
    + apply (gr_queues _ _ G4), (gr_queues _ _ G3), (gr_queues _ _ G2), D1.
    + intros t Ht'. rewrite Hs. set_solver.
  - intros n Hne Hn. rewrite Hqs. simpl. rewrite lookup_insert_ne by done. unfold w2. rewrite Hkeep.
    + by apply Hkeep.
    + unfold w1. by rewrite Hkeep.
Qed.

(** A consumer that is wired stays as it is. *)
Lemma ensure_wired (topics : list string) name types w :
  (∀ t, t ∈ types → t ∈ topics) → wired name types w →
  run (ensure_consumer prefix topics visibility name types tt) w = ((Ok tt, tt), w).
Proof.
  intros Hin [[s Hq] [d Hd] Hs]. destruct w as [ts qs ss bs acc]. simpl in Hq, Hd, Hs.
  unfold ensure_consumer. rewrite (run_await_bind _ _ _ _ tt) by done. cbn [create_queue snd cl_queues]. rewrite Hd.
  rewrite (run_await_bind _ _ _ _ tt) by done. cbn [create_queue snd cl_queues]. rewrite Hq.
  rewrite (run_await_bind _ _ _ _ tt) by (unfold set_queue_attributes; simpl; by rewrite Hq).
  unfold set_queue_attributes. cbn [cl_queues]. rewrite Hq. cbn [snd qu_sender].
  destruct (run_subscriptions topics types name (set_queues (<[name:=MkQueue (Some (dlq_name name, MAX_RECEIVE_COUNT)) visibility s]> qs)
    (MkCloud ts qs ss bs acc)) Hin) as (w' & -> & Ht & Hqs & Hb & Ha & Hss). simpl in *.
  destruct w' as [ts' qs' ss' bs' acc']. simpl in *. subst. rewrite insert_id by done. do 2 f_equal.
  assert (list_to_set ((λ t, (topic t, name)) <$> types) ⊆ ss) as Hsub.
  { intros [x y] (t & Hx & Ht)%elem_of_list_to_set%list_elem_of_fmap. injection Hx as -> ->. by apply Hs. }
  set_solver.
Qed.

Lemma run_consumers (topics : list string) (cs done_ : list (string * list string)) w :
  NoDup (done_.*1 ++ cs.*1) → (∀ c t, c ∈ cs → t ∈ c.2 → t ∈ topics) → (∀ c, c ∈ done_ → wired c.1 c.2 w) →
  ∃ w', run (iterate cs (λ c, ensure_consumer prefix topics visibility c.1 c.2) tt) w = ((Ok tt, tt), w') ∧ grows w w' ∧
    (∀ c, c ∈ done_ ++ cs → wired c.1 c.2 w').
Proof.
  revert done_ w. induction cs as [|c cs IH]; intros done_ w Hn Hin Hd; cbn [iterate].
  { exists w. rewrite app_nil_r. by split_and!. }
  rewrite run_bind. destruct (run_ensure_consumer topics c.1 c.2 w) as (w1 & -> & Hw & G1 & Hk).
  { intros t. apply Hin. by left. }
  destruct (IH (done_ ++ [c]) w1) as (w' & Hrun & G2 & Hall).
  - rewrite fmap_app, <- app_assoc. exact Hn.
  - intros c' t Hc'. apply Hin. by right.
  - intros c' [Hc'| ->%list_elem_of_singleton]%elem_of_app; [|done]. destruct (Hd c' Hc') as [[s Hq] D S]. split.
    + exists s. rewrite Hk; [done| |by rewrite Hq]. intros E. apply NoDup_app in Hn as (_ & Hdis & _).
      destruct (Hdis c'.1); [by apply list_elem_of_fmap_2|]. rewrite E. by left.
    + by apply (gr_queues _ _ G1).
    + intros t Ht. by apply (gr_subs _ _ G1), S.
  - exists w'. split_and!; [exact Hrun|by etrans|]. intros c' Hc'. apply Hall. rewrite <- app_assoc. exact Hc'.
Qed.

Lemma run_ensure_topics ts w :
  run (iterate ts (λ t, await (ensure_topic (topic t))) tt) w =
  ((Ok tt, tt), set_topics (list_to_set ((λ t, topic t) <$> ts) ∪ cl_topics w) w).
Proof.
  revert w. induction ts as [|t ts IH]; intros w; cbn [iterate].
  - cbn [run mret frame_ret]. rewrite fmap_nil, list_to_set_nil, union_empty_l_L. by destruct w.
  - rewrite (run_await_bind _ _ _ _ tt) by done. rewrite IH. cbn [ensure_topic snd]. unfold set_topics at 1 3. cbn [cl_topics cl_queues cl_subs cl_buckets cl_account set_topics].
    rewrite fmap_cons, list_to_set_cons, union_assoc_L, (union_comm_L (list_to_set _)). done.
Qed.
End BusFacts.

Lemma consumers_registered c t : c ∈ CONSUMERS → t ∈ c.2 → t ∈ event_types.
Proof.
  assert (forallb (λ c, forallb (λ t, bool_decide (t ∈ event_types)) c.2) CONSUMERS = true) as Hb by (vm_compute; reflexivity).
  rewrite forallb_forall in Hb. intros Hc%list_elem_of_In Ht%list_elem_of_In. specialize (Hb c Hc). rewrite forallb_forall in Hb.
  exact (bool_decide_eq_true_1 _ (Hb t Ht)).
Qed.

Lemma consumers_distinct : NoDup CONSUMERS.*1.
Proof. apply (bool_decide_unpack _). vm_compute. exact I. Qed.

(** The topology the code relies on. *)
Definition provisioned (prefix : string) (lease_ttl : Z) (w : Cloud) : Prop :=
  (∀ t, t ∈ event_types → (prefix +:+ t)%string ∈ cl_topics w) ∧
  ∀ c, c ∈ CONSUMERS → wired prefix (lease_ttl * 2) c.1 c.2 w.

(** Both halves, for any lists of types and consumers. *)
Lemma bootstrap_converges prefix visibility (types : list string) (cs : list (string * list string)) w :
  NoDup cs.*1 → (∀ c t, c ∈ cs → t ∈ c.2 → t ∈ types) →
  let boot : frame Cloud unit unit := iterate types (λ t, await (ensure_topic (prefix +:+ t)%string)) ;;
    iterate cs (λ c, ensure_consumer prefix types visibility c.1 c.2) in
  ∃ w', run (boot tt) w = ((Ok tt, tt), w') ∧ grows w w' ∧
    (∀ t, t ∈ types → (prefix +:+ t)%string ∈ cl_topics w') ∧ (∀ c, c ∈ cs → wired prefix visibility c.1 c.2 w') ∧
    run (boot tt) w' = ((Ok tt, tt), w').
Proof.
  intros Hn Hreg boot.
  destruct (run_consumers prefix visibility types cs [] (set_topics (list_to_set ((λ t, (prefix +:+ t)%string) <$> types) ∪ cl_topics w) w)
    Hn Hreg) as (w' & Hrun & G & Hall); [by intros c ?%not_elem_of_nil|].
  assert (∀ t, t ∈ types → (prefix +:+ t)%string ∈ cl_topics w') as Ht.
  { intros t Ht. apply (gr_topics _ _ G). cbn [set_topics cl_topics]. apply elem_of_union_l, elem_of_list_to_set, list_elem_of_fmap. eauto. }
  exists w'. split_and!; [|clear Hrun|done|done|].
  - unfold boot. by rewrite run_bind, run_ensure_topics.
  - destruct G as [T S Q B]. split; [|exact S|exact Q|exact B]. cbn [set_topics cl_topics] in T. set_solver.
  - unfold boot. rewrite run_bind, run_ensure_topics. replace (set_topics _ w') with w'.
    + clear boot Hn G Hrun Ht. induction cs as [|c cs IH]; cbn [iterate]; [done|]. rewrite run_bind, ensure_wired.
      * apply IH; [intros c' t Hc'; apply Hreg; by right|intros; apply Hall; by right].
      * intros t. apply Hreg. by left.
      * apply Hall. by left.
    + destruct w' as [ts qs ss bs acc]. unfold set_topics. f_equal. cbn [cl_topics] in *.
      assert (list_to_set ((λ t, (prefix +:+ t)%string) <$> types) ⊆ ts); [|set_solver].
      intros x (t & -> & Hx)%elem_of_list_to_set%list_elem_of_fmap. by apply Ht.
Qed.


(** ** The uploads bucket *)

(** A key of the pipeline, and what the bucket does with it. *)
Definition private_intake (b : Bucket) (key : string) : Prop :=
  notified b key = true ∧ expires b key = true ∧ readable b key = false.
Definition public_asset (b : Bucket) (key : string) : Prop :=
  readable b key = true ∧ notified b key = false ∧ expires b key = false.

(** What the bucket ends up as; without origins its CORS rules stay as they were. *)
Definition upload_bucket (origins : list string) (days : Z) (before : option Bucket) : Bucket :=
  MkBucket (Some "public/"%string) (match origins with [] => before ≫= bk_cors | _ => Some origins end)
    (Some ("uploads/"%string, days)) (Some ("image-uploads"%string, "uploads/"%string)).

Lemma run_put_bucket {A} bucket f (b : Bucket) (k : unit → frame Cloud unit A) w :
  cl_buckets w !! bucket = Some b →
  run ((await (put_bucket bucket f) ≫= k) tt) w = run (k tt tt) (set_buckets (<[bucket := f b]> (cl_buckets w)) w).
Proof. intros Hb. rewrite (run_await_bind _ _ _ _ tt); unfold put_bucket; by rewrite Hb. Qed.

Lemma run_ensure_bucket bucket (k : unit → frame Cloud unit unit) w :
  run ((ensure_bucket bucket ≫= k) tt) w =
  run (k tt tt) (set_buckets (<[bucket := default (MkBucket None None None None) (cl_buckets w !! bucket)]> (cl_buckets w)) w).
Proof.
  rewrite run_bind. unfold ensure_bucket. rewrite (run_await_bind _ _ _ _ (bool_decide (cl_buckets w !! bucket = None))) by done.
  cbn [snd]. case_bool_decide as Hb.
  - rewrite Hb. done.
  - destruct (cl_buckets w !! bucket) as [b|] eqn:E; [|done]. cbn [default run mret frame_ret]. rewrite insert_id by done. by destruct w.
Qed.

Lemma run_ensure_queue bucket visibility (k : unit → frame Cloud unit unit) w :
  ∃ w', run ((ensure_queue bucket visibility ≫= k) tt) w = run (k tt tt) w' ∧ cl_buckets w' = cl_buckets w ∧
    cl_queues w' !! QUEUE_NAME = Some (MkQueue (Some (dlq_name QUEUE_NAME, MAX_RECEIVE_COUNT)) visibility (Some (bucket, cl_account w))) ∧
    is_Some (cl_queues w' !! dlq_name QUEUE_NAME).
Proof.
  rewrite run_bind. unfold ensure_queue. rewrite (run_await_bind _ _ _ _ tt) by done.
  destruct (create_queue_grows (dlq_name QUEUE_NAME) w) as [G1 D1]. rewrite (run_await_bind _ _ _ _ tt) by done.
  set (w1 := (create_queue (dlq_name QUEUE_NAME) w).2) in *. destruct (create_queue_grows QUEUE_NAME w1) as [G2 [q Hq]].
  assert (cl_account (create_queue QUEUE_NAME w1).2 = cl_account w) as Ha.
  { unfold w1, create_queue. cbn [snd]. by repeat (case_match; cbn [set_queues cl_account cl_queues] in *; try congruence). }
  set (w2 := (create_queue QUEUE_NAME w1).2) in *.
  rewrite (run_await_bind _ _ _ _ (cl_account w2)) by done. cbn [snd].
  cbn [await run]. unfold set_queue_attributes. rewrite Hq, Ha. cbn [run fst snd].
  eexists. split; [reflexivity|]. cbn [set_queues cl_buckets cl_queues]. split_and!.
  - by rewrite (gr_buckets _ _ G2), (gr_buckets _ _ G1).
  - by rewrite lookup_insert_eq.
  - rewrite lookup_insert_ne by done. by apply (gr_queues _ _ G2).
Qed.

(** The upload bootstrap keeps the two halves of the bucket apart, from whatever
    state it starts: every key the presign flow mints is announced to the image queue,
    expires, and is not readable by anyone; every rendition the worker writes is readable
    by anyone, never announced - so the worker does not feed itself - and never expires;
    and only this bucket, of this account, may send to the queue. *)
Theorem upload_bootstrap_separates (bucket : string) (origins : list string) (days visibility : Z) (w : Cloud)
    (Hname : bucket ≠ EmptyString) :
  ∃ w' b, run (s3_bootstrap (Some bucket) origins days visibility tt) w = ((Ok tt, tt), w') ∧
    cl_buckets w' !! bucket = Some b ∧ b = upload_bucket origins days (cl_buckets w !! bucket) ∧
    (∀ pid token, private_intake b (upload_key pid token)) ∧
    (∀ pid token version key, key ∈ public_rendition_keys (public_main_key pid token version) → public_asset b key) ∧
    (∃ q, cl_queues w' !! QUEUE_NAME = Some q ∧ qu_sender q = Some (bucket, cl_account w) ∧ qu_visibility q = visibility).
Proof.
  unfold s3_bootstrap. destruct bucket as [|c s]; [done|]. set (bucket := String c s). clearbody bucket. clear c s Hname.
  rewrite run_ensure_bucket. set (b0 := default _ _). set (w1 := set_buckets _ w).
  assert (cl_buckets w1 !! bucket = Some b0) as H1 by (unfold w1; cbn [set_buckets cl_buckets]; by rewrite lookup_insert_eq).
  unfold ensure_public_read. rewrite (run_put_bucket bucket _ b0) by done. cbn [set_buckets cl_buckets].
  set (b1 := MkBucket _ _ _ _). set (w2 := set_buckets _ w1).
  assert (cl_buckets w2 !! bucket = Some b1) as H2 by (unfold w2; cbn [set_buckets cl_buckets]; by rewrite lookup_insert_eq).
  set (cors := match origins with [] => bk_cors b0 | _ => Some origins end).
  assert (∃ w3, (∀ k : unit → frame Cloud unit unit, run ((ensure_cors bucket origins ≫= k) tt) w2 = run (k tt tt) w3) ∧
    cl_buckets w3 !! bucket = Some (MkBucket (bk_public b1) cors (bk_expiry b1) (bk_notify b1)) ∧ cl_account w3 = cl_account w)
    as (w3 & Hrun3 & H3 & Ha).
  { unfold ensure_cors, cors. destruct origins as [|o os]; [by exists w2|].
    eexists. split; [intros k; by rewrite (run_put_bucket bucket _ b1)|]. split; [cbn [set_buckets cl_buckets]; by rewrite lookup_insert_eq|done]. }
  rewrite Hrun3. clear Hrun3. unfold ensure_lifecycle. rewrite (run_put_bucket bucket _ _ _ _ H3).
  set (b3 := MkBucket _ _ (Some _) _). set (w4 := set_buckets _ w3).
  assert (cl_buckets w4 !! bucket = Some b3) as H4 by (unfold w4; cbn [set_buckets cl_buckets]; by rewrite lookup_insert_eq).
  destruct (run_ensure_queue bucket visibility (λ _, ensure_notification bucket) w4) as (w5 & -> & Hb5 & Hq & _).
  unfold ensure_notification. cbn [await run]. unfold put_bucket. rewrite Hb5, H4. cbn [run fst snd].
  do 2 eexists. split; [reflexivity|]. cbn [set_buckets cl_buckets cl_queues]. split; [by rewrite lookup_insert_eq|]. split_and!.
  - unfold upload_bucket, b3, cors, b0. cbn. destruct origins; [|done]. by destruct (cl_buckets w !! bucket).
  - intros pid token. by vm_compute.
  - intros pid token version key. rewrite rendition_keys. unfold thumbnail_sizes. cbn [fmap list_fmap fst].
    intros [->|[->|[->|?%not_elem_of_nil]%elem_of_cons]%elem_of_cons]%elem_of_cons; [by vm_compute..|done].
  - rewrite Hq. eexists. split; [done|]. cbn. by rewrite Ha.
Qed.

Lemma upload_bootstrap_separates_witness :
  ∃ w' b, run (s3_bootstrap (Some "shop-images"%string) ["https://shop.example.org"%string] 7 300 tt) (MkCloud ∅ ∅ ∅ ∅ "000000000000") =
    ((Ok tt, tt), w') ∧ cl_buckets w' !! "shop-images"%string = Some b ∧ private_intake b (upload_key 17 (tok 3)).
Proof.
  destruct (upload_bootstrap_separates "shop-images" ["https://shop.example.org"%string] 7 300 (MkCloud ∅ ∅ ∅ ∅ "000000000000")
    ltac:(discriminate)) as (w' & b & Hrun & Hb & _ & Hk & _).
  exists w', b. split; [exact Hrun|]. split; [exact Hb|]. exact (Hk 17%N (tok 3)).
Defined.
