(* ===== verification/Subscribers.v ===== *)
(** * Subscribers: the consumers behind the queues, on the registered events

    The registry of src/events is the [EventContract] of the bus
    ([registry_contract]); a subscriber dispatches on the event's type ([routed]): the
    carts' projection (cart_consumer.py) and the mails (notification_worker.py).  The
    theorems go from the outbox row of a producer, as [model_dump_json] wrote it, to
    what a customer sees. *)

From Stdlib Require Import Ascii String.
From S2P Require Import Prelude Errors UnitOfWork Text Parse Datetime Json Effects Bus BusFacts Cart CartFacts.
From S2P Require Catalog Orders Payments Events EventsFacts Notifications NotificationsFacts.
Import Events (PydanticJson, DomainEvent, EventData, MkEvent, ev_data, ev_id, model_dump_json, float_key).

(** ** The contract *)

Section Contract.
Context `{PydanticJson}.

(** [(trace_id or "").lower()] of [_normalise_trace_id]: only a text, or a value that is
    false, has it. *)
Definition trace_text (j : json) : result string :=
  match j with
  | JString t => Ok t
  | JNull | JBool false | JArray [] | JObject [] => Ok EmptyString
  | JInt z => if decide (z = 0) then Ok EmptyString else Err AttributeError
  | JFloat t => if decide (float_key t = Some 0) then Ok EmptyString else Err AttributeError
  | _ => Err AttributeError
  end.

(** [json.loads(payload).get("trace_id", "")] *)
Definition payload_trace_id (payload : string) : result string :=
  match loads payload with
  | None => Err ValueError
  | Some (JObject d) => match dict_get "trace_id" d with None => Ok EmptyString | Some j => trace_text j end
  | Some _ => Err AttributeError
  end.

#[export] Instance registry_contract : EventContract DomainEvent := {|
  validate_event := Events.validate_event;
  event_id := ev_id;
  payload_trace := payload_trace_id
|}.
End Contract.

(** ** Dispatch *)

(** A handler of [E] that routes to one of [E']: it ignores an event ([Ok None]) or
    fails on it. *)
Section Routed.
Context {D E E' : Type} {EH : EventHandler D E'} (route : E → result (option E')).

Definition routed : EventHandler D E := {|
  handle := λ e, match route e with
                 | Err x => Ret (Err x)
                 | Ok None => Ret (Ok tt)
                 | Ok (Some e') => handle e'
                 end;
  h_inv := h_inv;
  h_evolves := h_evolves;
  h_done := λ e d, match route e with
                   | Err _ => False
                   | Ok None => True
                   | Ok (Some e') => h_done e' d
                   end
|}.

Lemma routed_laws {HL : HandlerLaws D E'} : HandlerLaws D E (H := routed).
Proof.
  split; simpl.
  - apply HL.
  - intros e d d' He. destruct (route e) as [[e'|]|x]; [|done..]. by apply h_done_stable.
  - intros e d. destruct (route e) as [[e'|]|x]; [apply h_handles|done|done].
Qed.
End Routed.

(** ** The carts' projection *)

(** [make_cart_handler]: [data["product_id"]] is read before the type is looked at. *)
Definition cart_route (e : DomainEvent) : result (option ProductEvent) :=
  match ev_data e with
  | Events.ProductDeleted d => Ok (Some (ProductDeleted (Events.pdl_product d)))
  | Events.ProductDeletedV2 d => Ok (Some (ProductDeleted (Events.pdl_product (Events.pd2_deleted d))))
  | Events.ProductUpdated d =>
      Ok (Some (ProductUpdated (Events.pw_product d) (Events.pw_name d) (Events.pw_price d) None))
  | Events.ProductUpdatedV2 d =>
      let w := Events.pw2_write d in
      Ok (Some (ProductUpdated (Events.pw_product w) (Events.pw_name w) (Events.pw_price w) (Some (Events.pw2_version d))))
  | Events.ProductCreated _ | Events.ProductCreatedV2 _ => Ok None
  | _ => Err KeyError
  end.

(** What an event leaves behind: its version or a later one, or the tombstone. *)
Definition taken_in (e : ProductEvent) (s : CartStore) : Prop :=
  match projections s !! product_of e, e with
  | Some Tombstone, _ => True
  | Some (Live (Some v) _ _), ProductUpdated _ _ _ (Some i) => i ≤ v
  | Some _, ProductUpdated _ _ _ None => True
  | _, _ => False
  end.

(** A projection only moves forward. *)
Definition newer (o o' : option Projection) : Prop :=
  match o, o' with
  | None, _ => True
  | Some _, Some Tombstone => True
  | Some (Live None _ _), Some (Live _ _ _) => True
  | Some (Live (Some v) n p), Some (Live (Some v') n' p') => v < v' ∨ (v = v' ∧ n = n' ∧ p = p')
  | _, _ => False
  end.

#[export] Instance newer_preorder : PreOrder newer.
Proof.
  split.
  - intros [[|[v|] n p]|]; simpl; auto.
  - intros [[|[v1|] n1 p1]|] [[|[v2|] n2 p2]|] [[|[v3|] n3 p3]|]; simpl; try tauto.
    intros [?|(? & ? & ?)] [?|(? & ? & ?)]; subst; [left; lia|left; lia|left; lia|by right].
Qed.

Definition cart_evolves (s s' : CartStore) : Prop := ∀ p, newer (projections s !! p) (projections s' !! p).
#[export] Instance cart_evolves_preorder : PreOrder cart_evolves.
Proof. split; [by intros s p|]. intros s1 s2 s3 H1 H2 p. exact (transitivity (H1 p) (H2 p)). Qed.

Lemma merge_newer e o : newer o (merge_event e o).
Proof.
  destruct e as [p n pr [i|]|p], o as [[|[v|] n0 p0]|]; simpl; try case_decide; simpl; auto. left. lia.
Qed.

Lemma merge_taken e s : taken_in e (cart_handler e s).2.
Proof.
  rewrite handler_merge. unfold taken_in. simpl. rewrite lookup_partial_alter_eq.
  destruct e as [p n pr [i|]|p]; simpl; destruct (projections s !! p) as [[|[v|] n0 p0]|]; simpl; try case_decide; simpl; lia || done.
Qed.

Lemma taken_in_stable e s s' : cart_evolves s s' → taken_in e s → taken_in e s'.
Proof.
  intros He. specialize (He (product_of e)). unfold taken_in.
  destruct (projections s !! _) as [[|[v|] n p]|], (projections s' !! _) as [[|[v'|] n' p']|]; simpl in *; try tauto;
    destruct e as [q m pr [i|]|q]; simpl in *; try tauto; lia.
Qed.

Section CartSubscriber.
Context (max_items : nat) (cap : Z).

Definition cart_subscriber : EventHandler CartStore ProductEvent := {|
  handle := λ e, Atomic (cart_handler e) (λ r, Ret ((λ _, tt) <$> r));
  h_inv := store_ok max_items cap;
  h_evolves := cart_evolves;
  h_done := taken_in
|}.

Lemma cart_handler_step e s :
  store_ok max_items cap s → store_ok max_items cap (cart_handler e s).2 ∧ cart_evolves s (cart_handler e s).2.
Proof.
  intros Hs. split; [unfold store_ok; by rewrite cart_handler_carts|]. rewrite handler_merge. intros p. simpl.
  destruct (decide (p = product_of e)) as [->|Hne]; [rewrite lookup_partial_alter_eq; apply merge_newer|].
  by rewrite lookup_partial_alter_ne.
Qed.

Lemma cart_laws : HandlerLaws CartStore ProductEvent (H := cart_subscriber).
Proof.
  split; simpl.
  - apply _.
  - apply taken_in_stable.
  - intros e d w r w' HI _ Ho. destruct (cart_handler_step e w HI). destruct Ho; split_and!; try done. intros _. apply merge_taken.
Qed.

(** Calls of the cart API run beside the worker. *)
Lemma cart_call_evolves ttl now c s : (∀ e, c ≠ CEvent e) → cart_evolves s (do_call ttl max_items cap now c s).2.
Proof. intros Hc p. by rewrite (do_call_projections ttl max_items cap now c Hc). Qed.
End CartSubscriber.

(** ** The mails *)

(** [make_notification_handler] *)
Definition notification_route (e : DomainEvent) : result (option Notifications.NotifEvent) :=
  match ev_data e with
  | Events.UserCreated d => Ok (Some (Notifications.UserCreatedEv (ev_id e) (Events.uc_user d) (Events.uc_email d)))
  | Events.OrderPlaced d =>
      let line l := Notifications.MkPlacedLine (Events.ol_product l) (Events.ol_name l) (Events.ol_quantity l) (Events.ol_price l) in
      Ok (Some (Notifications.OrderPlacedEv (ev_id e)
        (Notifications.MkPlaced (Events.od_order d) (Events.od_user d) (Events.od_total d) (line <$> Events.od_items d) (Events.od_email d))))
  | Events.PaymentRefunded d => Ok (Some (Notifications.PaymentRefundedEv (ev_id e) (Events.ps_order d) (Events.ps_amount d)))
  | _ => Ok None
  end.

(** The mail an event calls for. *)
Definition mail_due (x : EventData) : option (N * Notifications.EmailType) :=
  match x with
  | Events.OrderPlaced d => Some (Events.od_order d, Notifications.ORDER_CONFIRMATION)
  | Events.PaymentRefunded d => Some (Events.ps_order d, Notifications.REFUND_ISSUED)
  | _ => None
  end.

(** ** From the outbox row to the customer *)

Section Promises.
Context `{PydanticJson} (cfg : BusSettings).

(** Where a published, well-formed event of a subscribed type is. *)
Lemma published_is_routed {D E'} {EH : EventHandler D E'} {HL : HandlerLaws D E'} (route : DomainEvent → result (option E'))
    ts (w : BusWorld D) schema i r ev :
  bus_runs (EH := routed route) cfg (ts, w) → bw_outbox w !! (schema, i) = Some r → is_Some (ox_published r) →
  bc_subscribed cfg (ox_type r) = true → EventsFacts.event_ok ev → ox_payload r = model_dump_json ev →
  ox_payload r ∈ ms_body <$> bw_queue w ∨ ox_payload r ∈ ms_body <$> bw_dlq w ∨
  (h_inv (bw_data w) ∧ h_done (EventHandler := routed route) ev (bw_data w)).
Proof.
  intros Hw Hr Hpub Hsub Hok Hpay. pose proof (bus_runs_inv (HL := routed_laws route) cfg _ Hw) as HI.
  destruct (bi_rows _ _ HI _ _ Hr) as [_ Hs].
  destruct (whereabouts _ _ _ _ HI (Hs Hpub) Hsub) as [?|[?|(e & He & Hd)]]; [by left|by right; left|].
  right. right. split; [apply HI|]. rewrite Hpay in He. cbn [validate_event registry_contract] in He.
  rewrite (EventsFacts.validate_dumped ev Hok) in He. by injection He as <-.
Qed.

Section Carts.
Context (max_items : nat) (cap : Z).

Definition cart_runs (s : list (prog (BusWorld CartStore) unit) * BusWorld CartStore) : Prop :=
  bus_runs (EH := routed (EH := cart_subscriber max_items cap) cart_route) cfg s.

(** C12: From the catalog's outbox to the carts: in every world that producers, relays, cart
    workers, cart calls, redeliveries, replays of dead letters, crashes and lost answers
    reach, a published change of a product waits in the queue, lies in the dead-letter
    queue, or binds every later read: no cart shows a line of a deleted product, and a
    line of an edited one is shown at the version of the edit or a later one. *)
Theorem catalog_changes_reach_carts ts w schema i r ev ce (ttl : Z)
    (Hw : cart_runs (ts, w)) (Hr : bw_outbox w !! (schema, i) = Some r) (Hpub : is_Some (ox_published r))
    (Hsub : bc_subscribed cfg (ox_type r) = true) (Hok : EventsFacts.event_ok ev)
    (Hdata : ev_data ev = Events.catalog_data ce) (Hpay : ox_payload r = model_dump_json ev) (Httl : 0 < ttl) :
  ox_payload r ∈ ms_body <$> bw_queue w ∨ ox_payload r ∈ ms_body <$> bw_dlq w ∨
  ∀ now user c p l, (repo_get_cart ttl now user (bw_data w)).1 = Ok c → (p, l) ∈ default [] (cart_items <$> c) →
    match ce with
    | Catalog.ProductDeletedV2 q _ _ => p ≠ q
    | Catalog.ProductUpdatedV2 d => p = Catalog.wd_product d → ∃ v, ln_version l = Some v ∧ Catalog.wd_version d ≤ v
    | Catalog.ProductCreatedV2 _ => True
    end.
Proof.
  destruct (published_is_routed (HL := cart_laws max_items cap) cart_route ts w schema i r ev) as [?|[?|[HI Hd]]]; try done;
    [by left|by right; left|]. right. right. intros now user c p l Hc Hin.
  destruct (get_cart_answer ttl Httl max_items cap now user (bw_data w) HI) as (c' & s' & Hg & _ & Hans & Hl).
  rewrite Hg in Hc. injection Hc as <-. apply Hans in Hin. rewrite Hl in Hin. clear Hl Hans Hg.
  cbn in Hd. unfold cart_route in Hd. rewrite Hdata in Hd.
  destruct ce as [d|d|q m v]; [done|..]; unfold taken_in in Hd; cbn in Hd.
  - intros ->. destruct (h_lines _ !! _) as [l0|]; [|done]. cbn in Hin.
    destruct (projections _ !! _) as [[|[v|] n pr]|]; try done. cbn in Hin.
    destruct (ln_version l0) as [v0|] eqn:E0; cbn in Hin; [case_bool_decide|]; injection Hin as <-; cbn; eauto.
    exists v0. split; [done|lia].
  - intros ->. destruct (h_lines _ !! _) as [l0|]; [|done]. cbn in Hin. by destruct (projections _ !! _) as [[|[v0|] n pr]|].
Qed.
End Carts.

Section Mails.
Context (th : Notifications.EmailTheme) (from_address : string).

Definition mail_runs (s : list (prog (BusWorld Notifications.NotifDB) unit) * BusWorld Notifications.NotifDB) : Prop :=
  bus_runs (EH := routed (EH := NotificationsFacts.notification_subscriber th from_address) notification_route) cfg s.

(** C13: From the order's and the payment's outbox to the mail box: whatever crashes,
    redeliveries, replays and lost answers happen in between, a published [OrderPlaced]
    is confirmed and a published [PaymentRefunded] announced by a mail of its order, or
    the address (the one the order carries, where it does) is suppressed, or the
    message still waits in the queue or lies in the dead-letter queue. *)
Theorem due_mails_are_sent ts w schema i r ev k
    (Hw : mail_runs (ts, w)) (Hr : bw_outbox w !! (schema, i) = Some r) (Hpub : is_Some (ox_published r))
    (Hsub : bc_subscribed cfg (ox_type r) = true) (Hok : EventsFacts.event_ok ev)
    (Hdue : mail_due (ev_data ev) = Some k) (Hpay : ox_payload r = model_dump_json ev) :
  ox_payload r ∈ ms_body <$> bw_queue w ∨ ox_payload r ∈ ms_body <$> bw_dlq w ∨
  (∃ m, m ∈ Notifications.nt_mails (bw_data w) ∧ NotificationsFacts.mail_key m = k) ∨
  (∃ email, email ∈ Notifications.nt_suppressed (bw_data w) ∧
     ∀ d c s, ev_data ev = Events.OrderPlaced d → Events.od_email d = Some (String c s) → email = String c s).
Proof.
  destruct (published_is_routed (HL := NotificationsFacts.notification_laws th from_address) notification_route
    ts w schema i r ev) as [?|[?|[HI Hd]]]; try done; [by left|by right; left|]. right. right.
  cbn in Hd. unfold notification_route in Hd.
  destruct (ev_data ev) as [| | | | | | | | |d| | |d] eqn:Ex; try discriminate Hdue; injection Hdue as <-; cbn in Hd.
  - destruct Hd as [_ (email & Ha & [Hm|(row & Hrow & Hst)])].
    + right. exists email. split; [done|]. intros d' c s [= <-] He. by eapply Ha.
    + left. exact (NotificationsFacts.ni_sent _ HI _ _ Hrow Hst).
  - destruct Hd as (email & [Hm|(row & Hrow & Hst)]).
    + right. by exists email.
    + left. exact (NotificationsFacts.ni_sent _ HI _ _ Hrow Hst).
Qed.
End Mails.
End Promises.
