(* ===== verification/SubscriberScenarios.v ===== *)
(** * SubscriberScenarios: the wire contract and the subscribers on concrete runs

    A concrete reader and writer for [PydanticJson] - the JSON of [Json], the texts of
    [Parse] and [Datetime] - and runs of the bus from an outbox row to a cart and to a
    mail, through a dead-letter queue and back. *)

From Stdlib Require Import Ascii String.
From S2P Require Import Prelude Errors UnitOfWork Text Parse Datetime Json Effects Bus BusFacts Cart CartFacts.
From S2P Require Catalog Orders Payments Notifications NotificationsFacts.
From S2P Require Import Events EventsFacts Subscribers.
Import Bus.

#[export] Instance plain_json : PydanticJson := {|
  dump_json := dumps;
  parse_json := loads;
  parse_uuid := uuid_parse;
  iso_datetime := datetime_str;
  parse_datetime := read_datetime;
  parse_decimal := λ j, match j with JString s => option_map (λ _ : Z, s) (decimal_cents s) | _ => None end;
  float_key := λ _, None;
  dump_loads := loads_dumps;
  dump_parse := loads_dumps;
  parse_uuid_str := uuid_parse_str;
  parse_iso := read_datetime_str;
  parse_price := λ c, f_equal (option_map (λ _ : Z, price_str c)) (decimal_cents_price c)
|}.

(** ** Events *)

Ltac uuids := vm_compute; reflexivity.

Definition placed : DomainEvent :=
  MkEvent 900 "0af7651916cd43dd8448eb211c80319c" 1700000000000000
    (order_data (Orders.MkOrderPlaced 7 42 2500 (Some "buyer@example.org"%string) [(17%N, "mug"%string, 2, 1250)])).
Definition deleted : DomainEvent :=
  MkEvent 901 "" 1700000000000000 (catalog_data (Catalog.ProductDeletedV2 17 5 4)).

Lemma placed_ok : event_ok placed.
Proof.
  split_and!; [uuids|unfold datetime_ok; vm_compute; split; congruence|]. simpl. split_and!; [uuids|uuids|by eexists|].
  apply Forall_singleton. split_and!; [uuids|unfold count; simpl; lia|by eexists].
Qed.
Lemma deleted_ok' : event_ok deleted.
Proof.
  split_and!; [uuids|unfold datetime_ok; vm_compute; split; congruence|]. simpl. split; [split; uuids|]. simpl. unfold count. lia.
Qed.

Lemma events_roundtrip_witness : Events.validate_event (model_dump_json placed) = Ok placed.
Proof. exact (events_roundtrip placed placed_ok). Defined.

(** ** A deleted product leaves the carts *)

Section Carts.
Definition cart_bus : BusSettings :=
  MkBusSettings "shop-" None 10 ["catalog"] (λ t, bool_decide (t ∈ ["ProductUpdated"; "ProductDeleted"])) 60 3600.
Notation subscriber := (routed (EH := cart_subscriber 10 99) cart_route).
Notation cart_state := (list (prog (BusWorld CartStore) unit) * BusWorld CartStore)%type.

(** A customer puts two mugs into the cart. *)
Definition shopping (s : CartStore) : CartStore :=
  (do_call 1000 10 99 100 (CAdd (Some (MkSnapshot "mug" 1250 None (Some 3))) 42 17 2) s).2.

Lemma shopping_step s : store_ok 10 99 s → store_ok 10 99 (shopping s) ∧ cart_evolves s (shopping s).
Proof.
  intros Hs. split; [by apply (do_call_ok 1000 10 99)|]. apply cart_call_evolves. by intros.
Qed.

Notation relay := (erase (drain_once cart_bus (λ _, false) (0%nat, []))).
Notation worker := (erase (consume (H0 := subscriber) cart_bus 0 tt)).
Notation replay := (erase (replay_queue 11 true 10 (λ _ _, true) tt)).

(** The deletion is published, dead-lettered before a worker takes it, and replayed. *)
Definition dead_lettered : cart_state :=
  arrive (Atomic (redrive_to_dlq 0) (λ _, Ret tt)) 1
    (arrive relay 20
      (arrive (Atomic (produce "catalog" "ProductDeleted" (model_dump_json deleted)) (λ _, Ret tt)) 1
        (arrive (Tick (λ w, set_data (shopping (bw_data w)) w) (Ret tt)) 1
          ([], bus_start (MkStore ∅ ∅) ∅ 100)))).
Definition replayed_and_handled : cart_state := arrive worker 20 (arrive replay 20 dead_lettered).

Lemma dead_lettered_runs : cart_runs cart_bus 10 99 dead_lettered.
Proof.
  exists (MkStore ∅ ∅), ∅, 100. split; [apply map_Forall_empty|]. unfold dead_lettered.
  etrans; [|apply arrive_steps, ba_dlq]. etrans; [|apply arrive_steps, ba_relay].
  etrans; [|apply arrive_steps, ba_produce]. apply arrive_steps, ba_data, shopping_step.
Qed.

Lemma replayed_runs : cart_runs cart_bus 10 99 (replayed_and_handled.1, replayed_and_handled.2).
Proof.
  rewrite <- surjective_pairing. destruct dead_lettered_runs as (d & topics & now & Hd & Hr).
  exists d, topics, now. split; [done|]. etrans; [exact Hr|]. unfold replayed_and_handled.
  etrans; [|apply arrive_steps, ba_consume]. apply arrive_steps, ba_replay.
Qed.

(** The cart shows its line while the message is dead, and no longer afterwards. *)
Lemma catalog_changes_reach_carts_witness :
  length (bw_dlq dead_lettered.2) = 1%nat ∧
  (∃ c l, (repo_get_cart 1000 200 42 (bw_data dead_lettered.2)).1 = Ok (Some c) ∧ cart_items c = [(17%N, l)]) ∧
  ∀ now user c p l, (repo_get_cart 1000 now user (bw_data replayed_and_handled.2)).1 = Ok c →
    (p, l) ∈ default [] (cart_items <$> c) → p ≠ 17%N.
Proof.
  split; [vm_compute; reflexivity|]. split; [do 2 eexists; split; vm_compute; reflexivity|].
  set (row := MkRow "ProductDeleted" (model_dump_json deleted) 100 (Some 100)).
  assert (bw_outbox replayed_and_handled.2 !! ("catalog"%string, 0%N) = Some row) as Hr by (vm_compute; reflexivity).
  assert (bw_queue replayed_and_handled.2 = []) as Hq by (vm_compute; reflexivity).
  assert (bw_dlq replayed_and_handled.2 = []) as Hd by (vm_compute; reflexivity).
  destruct (catalog_changes_reach_carts cart_bus 10 99 replayed_and_handled.1 replayed_and_handled.2 "catalog" 0 row deleted
    (Catalog.ProductDeletedV2 17 5 4) 1000 replayed_runs Hr (ex_intro _ 100 eq_refl) eq_refl deleted_ok' eq_refl eq_refl eq_refl)
    as [Hin|[Hin|Hall]].
  - rewrite Hq in Hin. destruct (not_elem_of_nil _ Hin).
  - rewrite Hd in Hin. destruct (not_elem_of_nil _ Hin).
  - exact Hall.
Defined.
End Carts.

(** ** A placed order is confirmed *)

Section Mails.
Definition mail_bus : BusSettings :=
  MkBusSettings "shop-" None 10 ["orders"] (λ t, bool_decide (t ∈ ["OrderPlaced"; "UserCreated"; "PaymentRefunded"])) 60 3600.
Notation theme := NotificationsFacts.demo_theme.
Notation subscriber :=
  (routed (EH := NotificationsFacts.notification_subscriber theme "shop@example.org") notification_route).

Definition confirmed : list (prog (BusWorld Notifications.NotifDB) unit) * BusWorld Notifications.NotifDB :=
  arrive (erase (consume (H0 := subscriber) mail_bus 0 tt)) 30
    (arrive (erase (drain_once mail_bus (λ _, false) (0%nat, []))) 20
      (arrive (Atomic (produce "orders" "OrderPlaced" (model_dump_json placed)) (λ _, Ret tt)) 1
        ([], bus_start NotificationsFacts.no_mail ∅ 100))).

Lemma confirmed_runs : mail_runs mail_bus theme "shop@example.org" (confirmed.1, confirmed.2).
Proof.
  rewrite <- surjective_pairing. exists NotificationsFacts.no_mail, ∅, 100. split; [exact NotificationsFacts.no_mail_inv|].
  unfold confirmed. etrans; [|apply arrive_steps, ba_consume]. etrans; [|apply arrive_steps, ba_relay].
  apply arrive_steps, ba_produce.
Qed.

Lemma due_mails_are_sent_witness :
  ∃ m, m ∈ Notifications.nt_mails (bw_data confirmed.2) ∧
    NotificationsFacts.mail_key m = (7%N, Notifications.ORDER_CONFIRMATION).
Proof.
  set (row := MkRow "OrderPlaced" (model_dump_json placed) 100 (Some 100)).
  assert (bw_outbox confirmed.2 !! ("orders"%string, 0%N) = Some row) as Hr by (vm_compute; reflexivity).
  assert (bw_queue confirmed.2 = []) as Hq by (vm_compute; reflexivity).
  assert (bw_dlq confirmed.2 = []) as Hd by (vm_compute; reflexivity).
  assert (Notifications.nt_suppressed (bw_data confirmed.2) = ∅) as Hs by (vm_compute; reflexivity).
  destruct (due_mails_are_sent mail_bus theme "shop@example.org" confirmed.1 confirmed.2 "orders" 0 row placed
    (7%N, Notifications.ORDER_CONFIRMATION) confirmed_runs Hr (ex_intro _ 100 eq_refl) eq_refl placed_ok eq_refl eq_refl)
    as [Hin|[Hin|[Hm|(email & Hin & _)]]].
  - rewrite Hq in Hin. destruct (not_elem_of_nil _ Hin).
  - rewrite Hd in Hin. destruct (not_elem_of_nil _ Hin).
  - exact Hm.
  - rewrite Hs in Hin. destruct (not_elem_of_empty _ Hin).
Defined.
End Mails.
