(* ===== verification/PaymentsService.v ===== *)
(** * PaymentsService: charge, refund, webhook and reconciliation

    The use-cases of src/payments/application/service.py as coroutines over the
    shared world: every [await] of the source is one block.  JSON decoding of a
    webhook body is a parameter ([json_loads]); its signature check is computed
    with the real HMAC. *)

From Stdlib Require Import Ascii String.
From S2P Require Import Prelude Errors UnitOfWork Text Sha256 Effects Orders Payments World.

(** ** Pure helpers *)

(** [_PAN_SHAPED.fullmatch] over the token without spaces and dashes. *)
Definition pan_shaped (token : string) : bool :=
  let normalized := remove_char "-" (remove_char " " token) in
  all_digits normalized && (12 <=? String.length normalized)%nat && (String.length normalized <=? 21)%nat.

(** [sign_webhook] at an explicit timestamp. *)
Definition webhook_digest (secret : string) (ts : Z) (body : byte_list) : string :=
  hexdigest (hmac_sha256 (encode secret) (encode (int_str ts +:+ ".") ++ body)).
Definition sign_webhook (body : byte_list) (secret : string) (timestamp : Z) : string :=
  ("sha256=" +:+ webhook_digest secret timestamp body)%string.

(** [s.removeprefix(p)] *)
Definition removeprefix (p s : string) : string :=
  if String.prefix p s then String.substring (String.length p) (String.length s - String.length p) s else s.

(** [_verify_signature] at wall-clock [now]. *)
Definition verify_signature (secret : option string) (tolerance now : Z) (body : byte_list)
    (signature timestamp : option string) : result unit :=
  match secret with
  | None => Err DependencyUnavailableError
  | Some s =>
      if decide (s = EmptyString) then Err DependencyUnavailableError
      else match timestamp with
      | None => Err AuthenticationError
      | Some t =>
          match python_int t with
          | None => Err AuthenticationError
          | Some ts =>
              if decide (tolerance < Z.abs (now - ts)) then Err AuthenticationError
              else
                let expected := webhook_digest s ts body in
                let received := match signature with
                                | Some sg => removeprefix "sha256=" sg
                                | None => EmptyString
                                end in
                if decide (received = EmptyString) then Err AuthenticationError
                else if decide (encode expected = encode received) then Ok tt
                else Err AuthenticationError
          end
      end
  end.

Lemma substring_all s : String.substring 0 (String.length s) s = s.
Proof. induction s as [|c s IH]; simpl; [done|]. by rewrite IH. Qed.

Lemma removeprefix_app s : removeprefix "sha256=" ("sha256=" +:+ s)%string = s.
Proof. unfold removeprefix. simpl. destruct s; simpl; [done|]. by rewrite substring_all. Qed.

Lemma webhook_digest_length secret ts body : String.length (webhook_digest secret ts body) = 64%nat.
Proof. unfold webhook_digest. rewrite hexdigest_length. unfold hmac_sha256. by rewrite sha256_length. Qed.

(** C23: the webhook gate is exact. A webhook passes if and only if a secret is
    configured and not empty, the timestamp header is an integer within the
    tolerance of the clock, and the signature header, less an optional
    [sha256=], is the HMAC of exactly this timestamp and body; in particular
    everything [sign_webhook] produces within the tolerance passes. *)
Theorem webhook_gate_is_exact (secret : option string) (tolerance now : Z) (body : byte_list)
    (signature timestamp : option string) :
  (verify_signature secret tolerance now body signature timestamp = Ok tt ↔
   ∃ s t ts sg, secret = Some s ∧ s ≠ EmptyString ∧ timestamp = Some t ∧ python_int t = Some ts ∧
     Z.abs (now - ts) ≤ tolerance ∧ signature = Some sg ∧ removeprefix "sha256=" sg = webhook_digest s ts body) ∧
  (∀ s ts, secret = Some s → s ≠ EmptyString → Z.abs (now - ts) ≤ tolerance →
     verify_signature secret tolerance now body (Some (sign_webhook body s ts)) (Some (int_str ts)) = Ok tt).
Proof.
  assert (∀ s t ts sg, s ≠ EmptyString → python_int t = Some ts → Z.abs (now - ts) ≤ tolerance →
    removeprefix "sha256=" sg = webhook_digest s ts body →
    verify_signature (Some s) tolerance now body (Some sg) (Some t) = Ok tt) as Hok.
  { intros s t ts sg Hs Ht Hn Hsg. unfold verify_signature. rewrite decide_False by done. rewrite Ht.
    rewrite decide_False by lia. rewrite Hsg, decide_False, decide_True; [done|done|].
    intros E. apply (f_equal String.length) in E. by rewrite webhook_digest_length in E. }
  split.
  - split; [|by intros (s & t & ts & sg & -> & Hs & -> & Ht & Hn & -> & Hsg); eapply Hok].
    unfold verify_signature. intros H.
    destruct secret as [s|]; [|done]. case_decide; [done|]. destruct timestamp as [t|]; [|done].
    destruct (python_int t) as [ts|] eqn:Et; [|done]. case_decide; [done|].
    destruct signature as [sg|]; [|by case_decide]. case_decide; [done|]. case_decide as He; [|done].
    apply encode_inj in He. exists s, t, ts, sg. split_and!; try done. lia.
  - intros s ts -> Hs Hn. eapply Hok; [done|apply python_int_str|done|]. apply removeprefix_app.
Qed.

(** A decoded JSON document. *)
Inductive Json :=
  | JNull
  | JBool (b : bool)
  | JNumber (literal : string)
  | JString (s : string)
  | JArray (l : list Json)
  | JObject (fields : list (string * Json)).

(** [payload.get(field)]: the last occurrence of a repeated key wins. *)
Definition json_get (fields : list (string * Json)) (field : string) : option Json :=
  snd <$> last (filter (λ f, f.1 = field) fields).

Definition json_str (j : option Json) : option string :=
  match j with Some (JString s) => Some s | _ => None end.

(** [_WEBHOOK_TYPE_TO_OUTCOME] *)
Definition webhook_type_to_outcome (t : string) : option GatewayOutcome :=
  if decide (t = "payment.succeeded") then Some GSucceeded
  else if decide (t = "payment.failed") then Some GFailed
  else None.

(** [x or "unknown"] for a nullable string. *)
Definition or_unknown (r : option string) : option string :=
  match r with
  | Some r => if decide (r = EmptyString) then Some "unknown" else Some r
  | None => Some "unknown"
  end.

Section PaymentsService.
Context {B G : Type} `{!PaymentGateway G}.
Context (cfg : Settings).
Abbreviation W := (World B G).

(** [_apply_outcome] *)
Definition apply_outcome {L} (payment_id : N) (outcome : GatewayOutcome)
    (gateway_ref failure_reason : option string) : frame W L (option Payment) :=
  match outcome with
  | GPending => mret None
  | GSucceeded =>
      await (pay_transition payment_id PSucceeded gateway_ref None
               (Some payment_succeeded_outbox) PPending (Some refund_hook))
  | GFailed =>
      await (pay_transition payment_id PFailed gateway_ref (or_unknown failure_reason)
               (Some payment_failed_outbox) PPending None)
  end.

(** [_apply] *)
Definition apply_charge {L} (payment_id : N) (result : GatewayCharge) : frame W L Payment :=
  updated ← apply_outcome payment_id (gc_outcome result) (Some (gc_ref result)) (gc_reason result);
  match updated with
  | Some row => mret row
  | None =>
      row ← await (pay_op (λ _, pay_get payment_id));
      match row with
      | None => throw RuntimeError
      | Some row => mret row
      end
  end.

(** [charge] *)
Definition charge {L} (order_id : N) (key : string) (amount : Z) (payment_method_token : string)
    : frame W L Payment :=
  (if pan_shaped payment_method_token then throw InvalidPaymentMethodError else mret tt) ;;
  created ← await (pay_op (λ now, atomically (create_pending now order_id key amount)));
  let row := created.1 in
  let ask : frame W L Payment :=
    result ← await (gw_op (λ now, gw_charge now amount key payment_method_token));
    apply_charge (pay_id row) result in
  if negb created.2 then
    if decide (pay_order row ≠ order_id ∨ pay_amount row ≠ amount) then throw PaymentIdempotencyConflictError
    else if decide (pay_status row ≠ PPending) then mret row
    else ask
  else ask.

(** [get_by_idempotency_key] *)
Definition svc_get_by_key {L} (key : string) : frame W L (option Payment) :=
  await (pay_op (λ _, pay_get_by_key key)).

(** [refund]: [true] when the money is confirmed returned. *)
Definition refund {L} (key : string) : frame W L bool :=
  row ← await (pay_op (λ _, pay_get_by_key key));
  match row with
  | None => mret false
  | Some row =>
      if decide (pay_status row ≠ PSucceeded) then mret (bool_decide (pay_status row = PRefunded))
      else
        result ← await (gw_op (λ now, gw_refund now (pay_amount row) key (pay_ref row)));
        if decide (gr_outcome result ≠ GSucceeded) then mret false
        else
          updated ← await (pay_transition (pay_id row) PRefunded (pay_ref row) None
                             (Some payment_refunded_outbox) PSucceeded None);
          match updated with
          | Some _ => mret true
          | None =>
              current ← await (pay_op (λ _, pay_get (pay_id row)));
              mret (bool_decide (pay_status <$> current = Some PRefunded))
          end
  end.

(** [handle_webhook]: whether the notification changed state. *)
Definition handle_webhook {L} (json_loads : byte_list → option Json) (now : Z) (body : byte_list)
    (signature timestamp : option string) : frame W L bool :=
  match verify_signature (webhook_secret cfg) (webhook_tolerance_seconds cfg) now body signature timestamp with
  | Err e => throw e
  | Ok _ =>
      match json_loads body with
      | Some (JObject payload) =>
          match json_str (json_get payload "type") ≫= webhook_type_to_outcome,
                json_str (json_get payload "idempotency_key") with
          | Some outcome, Some key =>
              row ← await (pay_op (λ _, pay_get_by_key key));
              match row with
              | None => throw UnknownPaymentRefError
              | Some row =>
                  updated ← apply_outcome (pay_id row) outcome
                              (json_str (json_get payload "gateway_ref"))
                              (json_str (json_get payload "reason"));
                  mret (match updated with Some _ => true | None => false end)
              end
          | _, _ => throw UnknownPaymentRefError
          end
      | _ => throw UnknownPaymentRefError
      end
  end.

(** ** Reconciliation *)

(** Count a candidate when a transition landed. *)
Definition count_resolved (updated : option Payment) : frame W nat unit :=
  match updated with Some _ => set_locals S | None => mret tt end.

(** [try: result = await gateway.lookup(key) except Exception: continue]. *)
Definition try_lookup {L} (key : string) : frame W L (option (option GatewayCharge)) :=
  try_catch (c ← await (gw_op (λ now, gw_lookup now key)); mret (Some c))
    (λ e, if is_Exception e then mret None else throw e).

(** The body of the in-window loop; the local is [resolved]. *)
Definition reconcile_due (p : Payment) : frame W nat unit :=
  answer ← try_lookup (pay_key p);
  match answer with
  | None | Some None => mret tt
  | Some (Some c) =>
      updated ← apply_outcome (pay_id p) (gc_outcome c) (Some (gc_ref c)) (gc_reason c);
      count_resolved updated
  end.

(** The body of the past-[max_age] loop. *)
Definition reconcile_stale (p : Payment) : frame W nat unit :=
  answer ← try_lookup (pay_key p);
  match answer with
  | None => mret tt
  | Some (Some c) =>
      updated ← apply_outcome (pay_id p) (gc_outcome c) (Some (gc_ref c)) (gc_reason c);
      count_resolved updated
  | Some None =>
      updated ← apply_outcome (pay_id p) GFailed None (Some "abandoned_by_reconciler");
      count_resolved updated
  end.

(** [reconcile] *)
Definition reconcile {L} (batch_size : nat) : frame W L nat :=
  call 0%nat (
    due ← await (pay_op (λ now, due_for_reconciliation now (reconciliation_grace_seconds cfg)
                                  (reconciliation_max_age_seconds cfg) batch_size));
    iterate due reconcile_due ;;
    stale ← await (pay_op (λ now, abandonable now (reconciliation_max_age_seconds cfg) batch_size));
    iterate stale reconcile_stale ;;
    locals).
End PaymentsService.
