(* ===== verification/CheckoutSaga.v ===== *)
(** * CheckoutSaga: the checkout state machine and its recovery

    src/orders/application/checkout_saga.py, one definition per method, with the
    adapters of src/bootstrap/saga_factory.py as the blocks it awaits.  The
    mutable locals of [_drive] are the record [Drive]; an early [return] inside
    a step is the [Some] of its answer.

    Sessions do not appear: a block either commits or leaves the database as it
    was, so [rollback] and the fresh session of a post-cancel compensation act
    on nothing the model keeps; both remain as blocks that can fail. *)

From stdpp Require Import gmultiset.
From S2P Require Import Prelude Errors UnitOfWork Inventory InventoryService Text Sha256.
From S2P Require Import Effects Orders Payments World PaymentsService.

(** ** Keys, hashes, totals *)

Definition payment_key_for (user_id : N) (idempotency_key : string) : string :=
  ("checkout:" +:+ uuid_str user_id +:+ ":" +:+ idempotency_key)%string.

Definition body_hash_for (payment_token : string) : string :=
  hexdigest (sha256 (encode (json_one_field "payment_token" payment_token))).

#[global] Arguments payment_key_for : simpl never.
#[global] Arguments body_hash_for : simpl never.

(** Payment keys determine the checkout. *)
Lemma payment_key_for_inj u1 k1 u2 k2 :
  is_uuid u1 → is_uuid u2 → payment_key_for u1 k1 = payment_key_for u2 k2 → u1 = u2 ∧ k1 = k2.
Proof.
  unfold payment_key_for. intros H1 H2 H. apply str_app_inj_r in H.
  apply str_app_inj in H as [Hu H]; [|by rewrite !uuid_str_length].
  apply str_app_inj_r in H. split; [by apply uuid_str_inj|done].
Qed.

Lemma json_one_field_inj f v1 v2 : json_one_field f v1 = json_one_field f v2 → v1 = v2.
Proof.
  unfold json_one_field. intros H. repeat apply str_app_inj_r in H.
  assert (String.length (json_escape v1) = String.length (json_escape v2)) as Hl.
  { apply (f_equal String.length) in H. rewrite !str_length_app in H. simpl in H. lia. }
  apply str_app_inj in H as [H _]; [|done]. by apply json_escape_inj.
Qed.

(** the derived keys fit and do not collide. For an [Idempotency-Key] the
    route accepts (at most 200 characters) the payment key fits payments'
    VARCHAR(255) and the body hash orders' VARCHAR(64); different users or keys
    give different payment keys; and different payment tokens give different
    bytes to hash. *)
Theorem derived_keys_fit (u1 u2 : N) (k1 k2 t1 t2 : string)
    (Hu1 : is_uuid u1) (Hu2 : is_uuid u2) (Hk : (String.length k1 ≤ 200)%nat) :
  varchar 255 (payment_key_for u1 k1) ∧ varchar 64 (body_hash_for t1) ∧
  (payment_key_for u1 k1 = payment_key_for u2 k2 → u1 = u2 ∧ k1 = k2) ∧
  (encode (json_one_field "payment_token" t1) = encode (json_one_field "payment_token" t2) → t1 = t2).
Proof.
  split_and!.
  - unfold varchar, payment_key_for. rewrite !str_length_app, uuid_str_length. simpl. lia.
  - unfold varchar, body_hash_for. rewrite hexdigest_length, sha256_length. lia.
  - by apply payment_key_for_inj.
  - intros H%encode_inj. by eapply json_one_field_inj.
Qed.

Lemma derived_keys_fit_witness : varchar 255 (payment_key_for 42 "k1").
Proof. apply (derived_keys_fit 42 43 "k1" "k2" "a" "b"); vm_compute; try reflexivity; lia. Defined.

(** [_total] *)
Definition total_of (lines : list CheckoutLine) : Z := sumZ (λ l, cl_price l * cl_qty l) lines.

(** [_lines_of] *)
Definition lines_of (o : Order) : list CheckoutLine :=
  (λ i, MkLine (item_product i) (item_name i) (item_price i) (item_qty i)) <$> ord_items o.

(** The [(str(product_id), quantity)] pairs handed to the inventory. *)
Definition sku_lines (lines : list CheckoutLine) : list (string * Z) :=
  (λ l, (uuid_str (cl_product l), cl_qty l)) <$> lines.

Definition snapshot_lines (lines : list CheckoutLine) : list order_line :=
  (λ l, (cl_product l, cl_name l, cl_price l, cl_qty l)) <$> lines.

(** [Counter(...) != Counter(...)] of (product, quantity) pairs. *)
Definition same_lines (lines : list CheckoutLine) (items : list OrderItem) : bool :=
  bool_decide ((list_to_set_disj ((λ l, (cl_product l, cl_qty l)) <$> lines) : gmultiset (N * Z)) =
               list_to_set_disj ((λ i, (item_product i, item_qty i)) <$> items)).

(** The locals of [_drive]. *)
Record Drive := MkDrive {
  charged : bool;
  charge_uncertain : bool;
  compensated : bool;
  settled_paid : bool;
  failed_step : string
}.
Definition drive_start : Drive := MkDrive false false false false "reserve".
Definition set_charged (c u : bool) (l : Drive) : Drive :=
  MkDrive c u (compensated l) (settled_paid l) (failed_step l).
Definition set_uncertain (u : bool) (l : Drive) : Drive :=
  MkDrive (charged l) u (compensated l) (settled_paid l) (failed_step l).
Definition set_compensated (l : Drive) : Drive :=
  MkDrive (charged l) (charge_uncertain l) true (settled_paid l) (failed_step l).
Definition set_settled_paid (l : Drive) : Drive :=
  MkDrive (charged l) (charge_uncertain l) (compensated l) true (failed_step l).
Definition set_failed_step (s : string) (l : Drive) : Drive :=
  MkDrive (charged l) (charge_uncertain l) (compensated l) (settled_paid l) s.

(** The three answers of [_refund_orphaned_charge]. *)
Inductive RefundAnswer := Refunded | Deferred_ | Refused.

(** [_REFUND_OUTCOME_DETAIL] *)
Definition refund_detail (a : RefundAnswer) : string :=
  match a with
  | Refunded => "the payment was refunded"
  | Deferred_ => "the refund is in progress and will complete automatically"
  | Refused => "it will be reconciled"
  end.

Section Saga.
Context {B G : Type} `{!BasketPort B} `{!PaymentGateway G}.
Context (cfg : Settings).
Abbreviation W := (World B G).

(** [try: p except Exception: log] *)
Definition best_effort {L} (p : frame W L unit) : frame W L unit :=
  try_catch p (λ e, if is_Exception e then mret tt else throw e).

(** ** The replay records in Valkey (src/orders/adapters/idempotency.py) *)

(** The stored record, unless its key expired. *)
Definition live_record (w : W) (user_id : N) (key : string) : option IdempotencyRecord :=
  match w_idem w !! (user_id, key) with
  | Some r => if decide (w_now w < ir_expires r) then Some r else None
  | None => None
  end.

Definition idempotency_get {L} (user_id : N) (key : string) : frame W L (option IdempotencyRecord) :=
  try_catch (await (λ w, (Ok (live_record w user_id key), w)))
    (λ e, if is_Exception e then mret None else throw e).

Definition idempotency_put {L} (user_id : N) (key body_hash : string) (status : Z)
    (response : OrderResponse) : frame W L unit :=
  best_effort (await (λ w, (Ok tt, set_idem
    (<[(user_id, key) := MkIdem body_hash status (Some response)
                           (w_now w + checkout_idempotency_ttl_seconds cfg)]> (w_idem w)) w))).

(** ** Internals *)

(** [_log_on] / [_log] *)
Definition journal_step {L} (order_id : N) (step status : string) : frame W L unit :=
  match depth_attribute cfg with
  | Err e => throw e
  | Ok d =>
      if decide (d ≠ 0%nat) then throw RuntimeError
      else await (ord_op (λ now, log_saga_step now order_id step status))
  end.

(** [_remember] *)
Definition remember {L} (user_id : N) (key body_hash : string) (status : Z) (response : OrderResponse)
    : frame W L unit :=
  best_effort (idempotency_put user_id key body_hash status response).

(** [_clear_basket] *)
Definition clear_basket {L} (user_id : N) : frame W L unit := best_effort (await (cart_op (λ now, bk_clear now user_id))).

(** [_consume_basket] *)
Definition consume_basket {L} (user_id : N) (lines : list CheckoutLine) : frame W L unit :=
  best_effort (await (cart_op (λ now, bk_consume now user_id lines))).

(** [_clear_basket_if_replay_mop_up] *)
Definition clear_basket_if_replay_mop_up {L} (user_id : N) (items : list OrderItem) : frame W L unit :=
  lines ← await (cart_op (λ now, bk_get_lines now user_id));
  match lines with
  | [] => mret tt
  | _ => if same_lines lines items then clear_basket user_id else mret tt
  end.

(** [_commit_holds] *)
Definition commit_holds {L} (order_id : N) (expected : nat) : frame W L bool :=
  committed ← await (inv_op (λ _, svc_commit_for_order order_id expected));
  if decide (expected ≤ committed)%nat then mret true
  else effect (inc "checkout_paid_without_consume_total" "") ;; mret false.

(** [OrdersRepository.rollback] *)
Definition rollback_session {L} : frame W L unit := await (λ w, (Ok tt, w)).

(** ** Compensation *)

(** [compensate_with]: release every hold, then the guarded cancel. *)
Definition compensate_with {L} (order_id : N) (failed_step : string) : frame W L unit :=
  effect (inc "checkout_compensation_total" failed_step) ;;
  journal_step order_id "compensate" "started" ;;
  await (inv_op (λ _, svc_release_for_order order_id)) ;;
  await (order_transition order_id [PENDING] CANCELLED None) ;;
  journal_step order_id "compensate" "completed".

(** [_compensate] *)
Definition compensate {L} (order_id : N) (failed_step : string) : frame W L unit :=
  compensate_with order_id failed_step.

(** [_fresh_compensator]'s [_run]: the same compensation on a fresh session. *)
Definition fresh_compensate {L} (order_id : N) (failed_step : string) : frame W L unit :=
  compensate_with order_id failed_step.

(** [_compensate_after_cancel] *)
Definition compensate_after_cancel {L} (order_id : N) (failed_step : string) : frame W L unit :=
  best_effort rollback_session ;;
  if fresh_session_wired cfg then fresh_compensate order_id failed_step
  else compensate order_id failed_step.

(** ** Undoing a charge whose order died *)

(** [_journal_refund] *)
Definition journal_refund {L} (order_id : N) (status : string) : frame W L bool :=
  try_catch (journal_step order_id "refund" status ;; mret true)
    (λ e, if is_Exception e then mret false else throw e).

(** [_restock_cancelled_order] *)
Definition restock_cancelled_order {L} (order_id : N) : frame W L bool :=
  try_catch
    (status ← await (ord_op (λ _, get_order_status order_id));
     if decide (status ≠ Some CANCELLED) then mret true
     else await (inv_op (λ _, svc_restock_for_order order_id)) ;; mret true)
    (λ e, if is_Exception e then mret false else throw e).

(** [_refund_orphaned_charge] *)
Definition refund_orphaned_charge {L} (order_id user_id : N) (key : string) : frame W L RefundAnswer :=
  intent ← journal_refund order_id "requested";
  restocked ← restock_cancelled_order order_id;
  refunded ← try_catch (r ← refund (payment_key_for user_id key); mret (Some r))
    (λ e, if is_Exception e then (if (intent : bool) then mret None else mret (Some false)) else throw e);
  match refunded with
  | None => mret Deferred_
  | Some true =>
      (if (restocked : bool) then journal_refund order_id "completed" ;; mret tt else mret tt) ;;
      mret Refunded
  | Some false =>
      if (intent : bool) then
        marked ← journal_refund order_id "refused";
        (if (marked : bool) then effect (inc "checkout_orphaned_paid_payments_total" "") else mret tt) ;;
        mret Refused
      else effect (inc "checkout_orphaned_paid_payments_total" "") ;; mret Refused
  end.

(** ** The drive *)

(** Reserve. *)
Definition drive_reserve (order_id : N) (lines : list CheckoutLine) : frame W Drive unit :=
  journal_step order_id "reserve" "started" ;;
  try_catch
    (timeout StepTimer
      (await (inv_op (λ now, svc_reserve_many (flush_failure_unwinds cfg) now
                               (reservation_ttl_seconds cfg) (sku_lines lines) order_id)) ;; mret tt))
    (λ e, match e with
          | TimeoutError =>
              set_locals set_compensated ;;
              best_effort (compensate_after_cancel order_id "reserve") ;;
              throw (OrderStateConflictError "checkout reservation timed out")
          | e => throw e
          end) ;;
  journal_step order_id "reserve" "completed" ;;
  set_locals (set_failed_step "charge").

(** What the charge step makes of an exception of the charge call. *)
Definition charge_exception (order_id : N) (pkey : string) (e : exn) : frame W Drive PaymentStatus :=
  match e with
  | CircuitOpenError | DependencyBudgetExhaustedError => throw e
  | TimeoutError | DependencyUnavailableError =>
      set_locals (set_uncertain true) ;;
      found ← try_catch (svc_get_by_key pkey) (λ e', if is_Exception e' then mret None else throw e');
      if decide (pay_status <$> found = Some PFailed) then
        journal_step order_id "charge" "failed" ;;
        set_locals (set_uncertain false) ;;
        compensate order_id "charge" ;;
        throw (OrderStateConflictError "checkout payment failed; the order was cancelled")
      else
        journal_step order_id "charge" "unknown" ;;
        throw (OrderStateConflictError
          "payment outcome unknown; retry with the same Idempotency-Key to settle")
  | e => throw e
  end.

(** What the drive makes of the charge's recorded status. *)
Definition charge_answer (order_id : N) (status : PaymentStatus) : frame W Drive unit :=
  match status with
  | PRefunded =>
      journal_step order_id "charge" "refunded" ;;
      compensate order_id "charge" ;;
      throw (OrderStateConflictError
        "the payment for this checkout was refunded; start a new checkout with a new Idempotency-Key")
  | PPending =>
      journal_step order_id "charge" "unknown" ;;
      throw (OrderStateConflictError
        "payment outcome unknown; retry with the same Idempotency-Key to settle")
  | PFailed =>
      journal_step order_id "charge" "failed" ;;
      compensate order_id "charge" ;;
      throw (OrderStateConflictError "payment was declined; the order was cancelled")
  | PSucceeded =>
      set_locals (set_charged true false) ;;
      journal_step order_id "charge" "completed" ;;
      set_locals (set_failed_step "commit")
  end.

(** Charge: the last look at the order, then the money.  [Some] is the early
    return of a checkout another coroutine completed meanwhile. *)
Definition drive_charge (order_id user_id : N) (key payment_token body_hash : string)
    (total : Z) : frame W Drive (option (OrderResponse * bool)) :=
  journal_step order_id "charge" "started" ;;
  live ← await (ord_op (λ _, get_order order_id));
  match live with
  | None =>
      throw (OrderStateConflictError "the order was cancelled while checking out; start a new checkout")
  | Some o =>
      match ord_status o with
      | PAID =>
          set_locals set_settled_paid ;;
          let response := order_response o in
          remember user_id key body_hash 201 response ;;
          clear_basket_if_replay_mop_up user_id (or_items response) ;;
          mret (Some (response, false))
      | PENDING =>
          let pkey := payment_key_for user_id key in
          status ← try_catch (timeout StepTimer (p ← charge order_id pkey total payment_token; mret (pay_status p)))
                     (charge_exception order_id pkey);
          charge_answer order_id status ;;
          mret None
      | _ =>
          throw (OrderStateConflictError "the order was cancelled while checking out; start a new checkout")
      end
  end.

(** Commit: two bounded attempts, then the paid-without-consume guard. *)
Definition drive_commit (order_id user_id : N) (key : string) (expected : nat) : frame W Drive unit :=
  journal_step order_id "commit" "started" ;;
  let attempt : frame W Drive unit :=
    timeout StepTimer (await (inv_op (λ _, svc_commit_for_order order_id expected)) ;; mret tt) in
  try_catch attempt
    (λ e, match e with
          | TimeoutError =>
              try_catch attempt
                (λ e', match e' with
                       | TimeoutError => throw (OrderStateConflictError
                           "checkout commit timed out; it will be settled automatically")
                       | e' => throw e'
                       end)
          | e => throw e
          end) ;;
  consumed ← commit_holds order_id expected;
  if (consumed : bool) then journal_step order_id "commit" "completed"
  else
    journal_step order_id "commit" "shortfall" ;;
    status ← await (ord_op (λ _, get_order_status order_id));
    if decide (status = Some CANCELLED) then
      answer ← refund_orphaned_charge order_id user_id key;
      throw (OrderStateConflictError
        ("the order was cancelled while the payment was completing; " +:+ refund_detail answer))
    else throw (OrderStateConflictError
      "checkout stock could not be committed; the order will be settled automatically").

(** Mark paid: the guarded flip with its [OrderPlaced] row. *)
Definition drive_mark_paid (order_id user_id : N) (key body_hash : string) (lines : list CheckoutLine)
    : frame W Drive (OrderResponse * bool) :=
  row ← await (ord_op (λ _, get_order order_id));
  match row with
  | None => throw RuntimeError
  | Some order =>
      journal_step order_id "mark_paid" "started" ;;
      flipped ← await (order_transition order_id [PENDING] PAID (Some (order_placed_outbox order)));
      paid ← match flipped with
             | Some o => journal_step order_id "mark_paid" "completed" ;; mret o
             | None =>
                 final ← await (ord_op (λ _, get_order order_id));
                 match final with
                 | None => throw RuntimeError
                 | Some o =>
                     if decide (ord_status o = PAID) then mret o
                     else
                       answer ← refund_orphaned_charge order_id user_id key;
                       throw (OrderStateConflictError
                         ("the order was cancelled while the payment was completing; " +:+ refund_detail answer))
                 end
             end;
      let response := order_response paid in
      (if decide (ord_status paid = PAID) then
         consume_basket user_id lines ;; remember user_id key body_hash 201 response
       else mret tt) ;;
      mret (response, true)
  end.

(** The [try] block of [_drive], under the overall deadline. *)
Definition drive_body (order_id user_id : N) (key payment_token : string) (lines : list CheckoutLine)
    (body_hash : string) : frame W Drive (OrderResponse * bool) :=
  timeout OverallTimer (
    drive_reserve order_id lines ;;
    early ← drive_charge order_id user_id key payment_token body_hash (total_of lines);
    match early with
    | Some answer => mret answer
    | None =>
        drive_commit order_id user_id key (length lines) ;;
        drive_mark_paid order_id user_id key body_hash lines
    end).

(** The [except] arms of [_drive]. *)
Definition drive_exception (order_id : N) (e : exn) : frame W Drive (OrderResponse * bool) :=
  l ← locals;
  match e with
  | OrderStateConflictError _ | CheckoutIdempotencyConflictError => throw e
  | TimeoutError =>
      if settled_paid l then
        throw (OrderStateConflictError "checkout timed out; retry with the same Idempotency-Key to settle")
      else if charged l || charge_uncertain l then
        throw (OrderStateConflictError
          "checkout could not complete after payment; it will be settled automatically")
      else
        (if negb (compensated l) then best_effort (compensate_after_cancel order_id (failed_step l))
         else mret tt) ;;
        throw (OrderStateConflictError "checkout timed out; retry with the same Idempotency-Key to settle")
  | e =>
      if is_Exception e then
        if charged l || charge_uncertain l then
          throw (OrderStateConflictError
            "checkout could not complete after payment; it will be settled automatically")
        else compensate order_id "reserve" ;; throw e
      else throw e
  end.

(** [_drive] *)
Definition drive {L} (order_id user_id : N) (key payment_token : string) (lines : list CheckoutLine)
    (body_hash : string) : frame W L (OrderResponse * bool) :=
  call drive_start
    (try_catch (drive_body order_id user_id key payment_token lines body_hash) (drive_exception order_id)).

(** ** Checkout *)

(** The loop of [_revalidate_prices]. *)
Fixpoint check_prices (current : gmap N Z) (lines : list CheckoutLine) : result unit :=
  match lines with
  | [] => Ok tt
  | l :: rest =>
      match current !! cl_product l with
      | None => Err (CartChangedError
          "a product in the cart is no longer available; review the cart and retry")
      | Some price =>
          if decide (price ≠ cl_price l)
          then Err (CartChangedError "a price in the cart changed; review the updated cart and retry")
          else check_prices current rest
      end
  end.

(** [_revalidate_prices] over [SagaPriceTruth.current_prices]. *)
Definition revalidate_prices {L} (lines : list CheckoutLine) : frame W L unit :=
  current ← await (λ w, (Ok (w_prices w), w));
  match check_prices current lines with
  | Ok _ => mret tt
  | Err e => throw e
  end.

(** [_replay_or_resume] *)
Definition replay_or_resume {L} (user_id : N) (key payment_token body_hash : string) (order : Order)
    : frame W L (OrderResponse * bool) :=
  if decide (ord_body_hash order ≠ body_hash) then throw CheckoutIdempotencyConflictError
  else match ord_status order with
  | PAID =>
      let response := order_response order in
      remember user_id key body_hash 201 response ;;
      clear_basket_if_replay_mop_up user_id (or_items response) ;;
      mret (response, false)
  | PENDING =>
      driven ← drive (ord_id order) user_id key payment_token (lines_of order) body_hash;
      mret (driven.1, false)
  | _ => throw (OrderStateConflictError
           "this checkout was already cancelled; start a new one with a new Idempotency-Key")
  end.

(** A checkout under a key no order is known for. *)
Definition fresh_checkout {L} (user_id : N) (key payment_token user_email body_hash : string)
    : frame W L (OrderResponse * bool) :=
  lines ← await (cart_op (λ now, bk_get_lines now user_id));
  match lines with
  | [] => throw (OrderStateConflictError "cart is empty; nothing to check out")
  | _ =>
      revalidate_prices lines ;;
      created ← await (ord_op (λ now, atomically (create_pending_order now user_id key body_hash
                                        (total_of lines) (snapshot_lines lines) user_email)));
      if negb created.2 then replay_or_resume user_id key payment_token body_hash created.1
      else drive (ord_id created.1) user_id key payment_token lines body_hash
  end.

(** The body of [checkout]'s [try]. *)
Definition checkout_body {L} (user_id : N) (key payment_token user_email body_hash : string)
    : frame W L (OrderResponse * bool) :=
  let consult_db : frame W L (OrderResponse * bool) :=
    existing ← await (ord_op (λ _, get_by_idempotency user_id key));
    answer ← match existing with
             | Some order => replay_or_resume user_id key payment_token body_hash order
             | None => fresh_checkout user_id key payment_token user_email body_hash
             end;
    effect (inc "checkout_attempts_total" (if negb (answer.2 : bool) then "replayed" else "paid")) ;;
    mret answer in
  record ← idempotency_get user_id key;
  match record with
  | Some r =>
      if decide (ir_body_hash r ≠ body_hash) then throw CheckoutIdempotencyConflictError
      else match ir_response r with
      | None => throw ValidationError
      | Some response =>
          (if decide (or_status response = PAID)
           then clear_basket_if_replay_mop_up user_id (or_items response) else mret tt) ;;
          effect (inc "checkout_attempts_total" "replayed") ;;
          mret (response, false)
      end
  | None => consult_db
  end.

(** The outcome label of a failed [checkout]. *)
Definition failure_label (e : exn) : option string :=
  match e with
  | InsufficientStockError _ _ => Some "out_of_stock"
  | CheckoutIdempotencyConflictError => Some "idempotency_conflict"
  | CartChangedError _ => Some "cart_changed"
  | OrderStateConflictError _ => Some "conflict"
  | e => if is_Exception e then Some "error" else None
  end.

(** [checkout] *)
Definition checkout {L} (user_id : N) (key payment_token user_email : string)
    : frame W L (OrderResponse * bool) :=
  try_catch (checkout_body user_id key payment_token user_email (body_hash_for payment_token))
    (λ e, match failure_label e with
          | Some label => effect (inc "checkout_attempts_total" label)
          | None => mret tt
          end ;; throw e).

(** ** Recovery *)

(** [_settle_crashed] for a succeeded payment: pay the order or undo the charge. *)
Definition settle_succeeded {L} (order : Order) (pkey : string) : frame W L string :=
  consumed ← commit_holds (ord_id order) (length (ord_items order));
  if negb (consumed : bool) then
    returned ← refund pkey;
    (if negb (returned : bool) then
       journal_step (ord_id order) "refund" "refused" ;;
       effect (inc "checkout_orphaned_paid_payments_total" "")
     else journal_step (ord_id order) "refund" "completed") ;;
    compensate (ord_id order) "paid-without-consume" ;;
    mret "compensated"
  else
    journal_step (ord_id order) "commit" "completed" ;;
    journal_step (ord_id order) "mark_paid" "started" ;;
    paid ← await (order_transition (ord_id order) [PENDING] PAID (Some (order_placed_outbox order)));
    match paid with
    | Some o =>
        (if decide (ord_status o = PAID) then
           journal_step (ord_id order) "mark_paid" "completed" ;;
           consume_basket (ord_user order) (lines_of order)
         else mret tt) ;;
        mret "completed"
    | None =>
        status ← await (ord_op (λ _, get_order_status (ord_id order)));
        if decide (status = Some CANCELLED) then
          answer ← refund_orphaned_charge (ord_id order) (ord_user order) (ord_key order);
          mret (match answer with
                | Refunded => "refunded"
                | Deferred_ => "deferred"
                | Refused => "refund_failed"
                end)
        else mret "completed"
    end.

(** [_settle_crashed] *)
Definition settle_crashed {L} (order : Order) : frame W L string :=
  let pkey := payment_key_for (ord_user order) (ord_key order) in
  payment ← svc_get_by_key pkey;
  match pay_status <$> payment with
  | Some PSucceeded => settle_succeeded order pkey
  | Some PPending => mret "deferred"
  | Some PRefunded | Some PFailed | None =>
      compensate (ord_id order) "crashed" ;; mret "compensated"
  end.

(** [_retry_journaled_refund] *)
Definition retry_journaled_refund {L} (order : Order) : frame W L string :=
  let pkey := payment_key_for (ord_user order) (ord_key order) in
  restocked ← restock_cancelled_order (ord_id order);
  if negb (restocked : bool) then mret "deferred"
  else
    payment ← svc_get_by_key pkey;
    match pay_status <$> payment with
    | Some PRefunded => journal_step (ord_id order) "refund" "completed" ;; mret "refunded"
    | Some PSucceeded =>
        returned ← refund pkey;
        if (returned : bool) then journal_step (ord_id order) "refund" "completed" ;; mret "refunded"
        else
          journal_step (ord_id order) "refund" "refused" ;;
          effect (inc "checkout_orphaned_paid_payments_total" "") ;;
          mret "refund_failed"
    | _ => mret "deferred"
    end.

(** The per-outcome counts of one pass. *)
Definition count_outcome (label : string) : frame W (gmap string nat) unit :=
  set_locals (λ m, <[label := S (default 0%nat (m !! label))]> m) ;;
  effect (inc "checkout_recovery_total" label).

(** The per-order boundary of both loops: an exception is a rollback and a
    deferral, never the end of the batch. *)
Definition settle_boundary (settle : frame W (gmap string nat) string) : frame W (gmap string nat) unit :=
  label ← try_catch settle
    (λ e, if is_Exception e then rollback_session ;; mret "deferred" else throw e);
  count_outcome label.

Definition settle_stuck (cutoff : Z) (order_id : N) : frame W (gmap string nat) string :=
  row ← await (ord_op (λ _, get_order order_id));
  match row with
  | None => mret "deferred"
  | Some order =>
      recent ← await (ord_op (λ _, has_recent_saga_activity order_id cutoff));
      if (recent : bool) then mret "deferred" else settle_crashed order
  end.

Definition settle_refund (order_id : N) : frame W (gmap string nat) string :=
  row ← await (ord_op (λ _, get_order order_id));
  match row with
  | None => mret "deferred"
  | Some order => retry_journaled_refund order
  end.

Definition no_outcome : gmap string nat :=
  {["completed" := 0%nat; "compensated" := 0%nat; "deferred" := 0%nat; "refunded" := 0%nat;
    "refund_failed" := 0%nat]}.

(** [recover_stuck]; [locked] are the rows [SKIP LOCKED] skips in this pass. *)
Definition recover_stuck {L} (cutoff : Z) (batch_size : nat) (locked : N → bool)
    : frame W L (gmap string nat) :=
  call no_outcome (
    stuck ← await (ord_op (λ now, atomically (claim_stuck_pending now cutoff batch_size locked)));
    iterate (ord_id <$> stuck) (λ id, settle_boundary (settle_stuck cutoff id)) ;;
    refund_claims ← await (ord_op (λ now,
      atomically (claim_cancelled_with_pending_refund now cutoff batch_size locked)));
    iterate (ord_id <$> refund_claims) (λ id, settle_boundary (settle_refund id)) ;;
    locals).
End Saga.
