(* ===== verification/SagaInv.v ===== *)
(** * SagaInv: the invariant the whole deployment keeps

    [CoreOK] relates the three schemas: every charge belongs to one order and
    carries its total, a paid order has a charge that went through and owns its
    stock, a cancelled order whose charge stands has a refund in its journal, a
    refund journaled as completed is a refunded payment.

    [evolves] is what any coroutine may rely on of the others: orders keep their
    identity and only leave [PENDING], payments only advance, the journal only
    grows, consumed stock is only given back on a cancelled order. *)

From S2P Require Import Prelude Errors UnitOfWork Inventory InventoryInv InventoryHolds InventoryService.
From S2P Require Import Text Effects Orders Payments World PaymentsService CheckoutSaga.

(** ** Vocabulary *)

Definition in_status (o : OrdDB) (oid : N) (st : OrderStatus) : Prop :=
  ∃ r, orders o !! oid = Some r ∧ ord_status r = st.

Definition order_lines (r : Order) : list (string * Z) := sku_lines (lines_of r).

Definition order_payment_key (r : Order) : string := payment_key_for (ord_user r) (ord_key r).

(** The order's line is consumed stock: a committed reservation of its own. *)
Definition line_committed (i : InvDB) (oid : N) (line : string * Z) : Prop :=
  ∃ x, x ∈ reservations i ∧ res_status x = COMMITTED ∧ line_key x = (oid, line.1) ∧ res_qty x = line.2.
Definition stock_committed (i : InvDB) (r : Order) : Prop :=
  ∀ line, line ∈ order_lines r → line_committed i (ord_id r) line.

(** Money was taken for the order (and perhaps returned since). *)
Definition money_moved (p : PayDB) (r : Order) : Prop :=
  ∃ id q, payments p !! id = Some q ∧ pay_key q = order_payment_key r ∧
    (pay_status q = PSucceeded ∨ pay_status q = PRefunded).

Definition refund_journaled (o : OrdDB) (oid : N) : Prop :=
  ∃ e, e ∈ saga_log o ∧ log_order e = oid ∧ log_step e = "refund".

Definition refunded_for (p : PayDB) (oid : N) : Prop :=
  ∃ id q, payments p !! id = Some q ∧ pay_order q = oid ∧ pay_status q = PRefunded.

(** ** The invariant *)

Record CoreOK (i : InvDB) (o : OrdDB) (p : PayDB) : Prop := {
  ck_inv : InvOK i;
  ck_ord : ∀ id r, orders o !! id = Some r →
    ord_id r = id ∧ (id < next_uuid o)%N ∧ is_uuid (ord_user r) ∧ ord_total r = total_of (lines_of r);
  ck_key : ∀ id1 r1 id2 r2, orders o !! id1 = Some r1 → orders o !! id2 = Some r2 →
    ord_user r1 = ord_user r2 → ord_key r1 = ord_key r2 → id1 = id2;
  ck_pay : ∀ id q, payments p !! id = Some q → pay_id q = id ∧ (id < next_payment p)%N;
  ck_pay_key : ∀ id1 q1 id2 q2, payments p !! id1 = Some q1 → payments p !! id2 = Some q2 →
    pay_key q1 = pay_key q2 → id1 = id2;
  ck_charge : ∀ id q, payments p !! id = Some q →
    ∃ r, orders o !! pay_order q = Some r ∧ pay_key q = order_payment_key r ∧ pay_amount q = ord_total r;
  ck_holds : ∀ x, x ∈ reservations i → active x →
    ∃ r, orders o !! res_order_id x = Some r ∧ (res_sku x, res_qty x) ∈ order_lines r;
  ck_paid_money : ∀ id r, orders o !! id = Some r → ord_status r = PAID → money_moved p r;
  ck_paid_stock : ∀ id r, orders o !! id = Some r → ord_status r = PAID → stock_committed i r;
  ck_cancelled : ∀ id q, payments p !! id = Some q → pay_status q = PSucceeded →
    in_status o (pay_order q) CANCELLED → refund_journaled o (pay_order q);
  ck_refunded : ∀ e, e ∈ saga_log o → log_step e = "refund" → log_status e = "completed" →
    refunded_for p (log_order e)
}.

(** ** How the database evolves *)

(** Two snapshots of one order. *)
Definition same_order (r r' : Order) : Prop :=
  ord_id r' = ord_id r ∧ ord_user r' = ord_user r ∧ ord_key r' = ord_key r ∧
  ord_body_hash r' = ord_body_hash r ∧ ord_total r' = ord_total r ∧ ord_items r' = ord_items r.

Definition status_evolves (a b : OrderStatus) : Prop := a = b ∨ a = PENDING.

Definition same_payment (q q' : Payment) : Prop :=
  pay_id q' = pay_id q ∧ pay_order q' = pay_order q ∧ pay_key q' = pay_key q ∧ pay_amount q' = pay_amount q.

Definition payment_evolves (a b : PaymentStatus) : Prop :=
  a = b ∨ a = PPending ∨ (a = PSucceeded ∧ b = PRefunded).

Record core_evolves (i : InvDB) (o : OrdDB) (p : PayDB) (i' : InvDB) (o' : OrdDB) (p' : PayDB) : Prop := {
  ev_orders : ∀ id r, orders o !! id = Some r →
    ∃ r', orders o' !! id = Some r' ∧ same_order r r' ∧ status_evolves (ord_status r) (ord_status r');
  ev_payments : ∀ id q, payments p !! id = Some q →
    ∃ q', payments p' !! id = Some q' ∧ same_payment q q' ∧ payment_evolves (pay_status q) (pay_status q');
  ev_log : saga_log o `prefix_of` saga_log o';
  ev_committed : ∀ x, x ∈ reservations i → res_status x = COMMITTED →
    x ∈ reservations i' ∨ in_status o' (res_order_id x) CANCELLED
}.

Lemma same_order_refl r : same_order r r.
Proof. done. Qed.
Lemma same_order_trans r1 r2 r3 : same_order r1 r2 → same_order r2 r3 → same_order r1 r3.
Proof. unfold same_order. intuition congruence. Qed.
Lemma same_order_status st now r : same_order r (with_status st now r).
Proof. done. Qed.

Lemma same_order_lines r r' : same_order r r' → lines_of r' = lines_of r ∧ order_lines r' = order_lines r.
Proof. intros (_ & _ & _ & _ & _ & Hi). unfold order_lines, lines_of. by rewrite Hi. Qed.

Lemma same_order_key r r' : same_order r r' → order_payment_key r' = order_payment_key r.
Proof. intros (_ & Hu & Hk & _). unfold order_payment_key. by rewrite Hu, Hk. Qed.

Lemma cancelled_stays i o p i' o' p' oid :
  core_evolves i o p i' o' p' → in_status o oid CANCELLED → in_status o' oid CANCELLED.
Proof.
  intros He (r & Hr & Hst). destruct (ev_orders _ _ _ _ _ _ He _ _ Hr) as (r' & Hr' & _ & [Heq|Heq]).
  - exists r'. split; [done|]. congruence.
  - congruence.
Qed.

Lemma core_evolves_refl i o p : core_evolves i o p i o p.
Proof.
  constructor; [| |done|by left].
  - intros id r Hr. exists r. split_and!; [done|apply same_order_refl|by left].
  - intros id q Hq. exists q. split_and!; [done..|by left].
Qed.

Lemma core_evolves_trans i1 o1 p1 i2 o2 p2 i3 o3 p3 :
  core_evolves i1 o1 p1 i2 o2 p2 → core_evolves i2 o2 p2 i3 o3 p3 → core_evolves i1 o1 p1 i3 o3 p3.
Proof.
  intros H12 H23. constructor.
  - intros id r Hr. destruct (ev_orders _ _ _ _ _ _ H12 _ _ Hr) as (r2 & Hr2 & Hs2 & He2).
    destruct (ev_orders _ _ _ _ _ _ H23 _ _ Hr2) as (r3 & Hr3 & Hs3 & He3).
    exists r3. split_and!; [done|by eapply same_order_trans|].
    unfold status_evolves in *. intuition congruence.
  - intros id q Hq. destruct (ev_payments _ _ _ _ _ _ H12 _ _ Hq) as (q2 & Hq2 & Hs2 & He2).
    destruct (ev_payments _ _ _ _ _ _ H23 _ _ Hq2) as (q3 & Hq3 & Hs3 & He3).
    exists q3. split_and!; [done|unfold same_payment in *; intuition congruence|].
    unfold payment_evolves in *. intuition congruence.
  - by etrans; [apply H12|apply H23].
  - intros x Hx Hc. destruct (ev_committed _ _ _ _ _ _ H12 _ Hx Hc) as [Hx2|Hx2].
    + by apply H23.
    + right. by eapply cancelled_stays.
Qed.

(** ** Inventory steps *)

(** What a step of the inventory may do to the reservations: keep the committed
    ones (unless excused), descend from active ones, add allowed ones. *)
Record inv_evolves (excused : N → Prop) (allowed : Reservation → Prop) (i i' : InvDB) : Prop := {
  ie_committed : ∀ x, x ∈ reservations i → res_status x = COMMITTED →
    x ∈ reservations i' ∨ excused (res_order_id x);
  ie_active : ∀ x', x' ∈ reservations i' → active x' →
    (∃ x, x ∈ reservations i ∧ active x ∧ res_order_id x = res_order_id x' ∧
          res_sku x = res_sku x' ∧ res_qty x = res_qty x') ∨ allowed x'
}.

Lemma inv_evolves_refl exc al i : inv_evolves exc al i i.
Proof. constructor; eauto 10. Qed.

Lemma settled_evolves exc al a b ann st0 st rows i i' :
  batch_of st0 rows i → settled a b ann st rows i i' → settles_to st0 st →
  (st0 = HELD ∨ ∀ x, x ∈ rows → exc (res_order_id x)) →
  inv_evolves exc al i i'.
Proof.
  intros HB HS [_ Hst] Hexc. constructor.
  - intros x Hx Hc. rewrite (settled_rows _ _ _ _ _ _ _ HS).
    destruct (decide (x ∈ rows)) as [Hin|Hout].
    + destruct Hexc as [->|Hexc]; [|by right; apply Hexc].
      pose proof (batch_status _ _ _ HB _ Hin). congruence.
    + left. rewrite <- (mark_out st rows x Hout). by apply list_elem_of_fmap_2.
  - intros x' Hx' Ha. left. rewrite (settled_rows _ _ _ _ _ _ _ HS) in Hx'.
    apply list_elem_of_fmap in Hx' as (x & -> & Hx).
    exists x. destruct (mark_fields st rows x) as (_ & -> & -> & -> & _). split_and!; try done.
    destruct (decide (x ∈ rows)) as [Hin|Hout]; [|by rewrite mark_out in Ha].
    rewrite (mark_in st rows x Hin) in Ha. destruct Hst as [-> | ->]; [by destruct Ha|].
    left. by apply (batch_status _ _ _ HB).
Qed.

Lemma placed_evolves exc (al : Reservation → Prop) oid exp new i i' :
  placed_holds oid exp new i i' → (∀ x, x ∈ new → al x) → inv_evolves exc al i i'.
Proof.
  intros HP Hal. constructor.
  - intros x Hx _. left. rewrite (ph_rows _ _ _ _ _ HP). set_solver.
  - intros x' Hx' Ha. rewrite (ph_rows _ _ _ _ _ HP) in Hx'.
    apply elem_of_app in Hx' as [Hx'|Hx']; [left; eauto 10|right; auto].
Qed.

Lemma atomically_evolves {A} exc al (m : ST InvDB A) i :
  (∀ a i', m i = (Ok a, i') → inv_evolves exc al i i') → inv_evolves exc al i (atomically m i).2.
Proof.
  intros Hm. unfold atomically, begin_nested.
  destruct (m i) as [[a|e] i'] eqn:E; simpl; [by eapply Hm|apply inv_evolves_refl].
Qed.

Section InvSteps.
Context (exc : N → Prop) (al : Reservation → Prop).

Lemma release_for_order_evolves oid i :
  InvOK i → inv_evolves exc al i (atomically (release_for_order oid) i).2.
Proof.
  intros HI. apply atomically_evolves. intros n i' H.
  apply release_for_order_settled in H as [_ HS]; [|done].
  eapply settled_evolves; eauto using claim_order_batch, settles_release.
Qed.

Lemma commit_for_order_evolves oid k i :
  InvOK i → inv_evolves exc al i (atomically (commit_for_order oid k) i).2.
Proof.
  intros HI. apply atomically_evolves. intros n i' H.
  apply commit_for_order_settled in H as [(_ & -> & _)|(_ & _ & HS)]; [apply inv_evolves_refl| |done].
  eapply settled_evolves; eauto using claim_order_batch, settles_commit.
Qed.

Lemma restock_for_order_evolves oid i :
  InvOK i → exc oid → inv_evolves exc al i (atomically (restock_for_order oid) i).2.
Proof.
  intros HI He. apply atomically_evolves. intros n i' H.
  apply restock_for_order_settled in H as [_ HS]; [|done].
  eapply settled_evolves; eauto using claim_order_batch, settles_restock.
  right. intros x. unfold claim_order. intros [[-> _] _]%list_elem_of_filter. done.
Qed.

Lemma release_expired_evolves now k lk i :
  InvOK i → inv_evolves exc al i (atomically (release_expired now k lk) i).2.
Proof.
  intros HI. apply atomically_evolves. intros n i' H.
  apply release_expired_settled in H as [_ HS]; [|done].
  eapply settled_evolves; eauto using claim_expired_batch, settles_release.
Qed.

Lemma reserve_many_evolves u lines oid exp i :
  InvOK i → (∀ x, res_order_id x = oid → (res_sku x, res_qty x) ∈ lines → al x) →
  inv_evolves exc al i (atomically (repo_reserve_many u lines oid exp) i).2.
Proof.
  intros HI Hal. apply atomically_evolves. intros res i' H.
  apply repo_reserve_many_post in H; [|done].
  destruct res as [rows|rej]; simpl in H;
    [destruct H as (_ & new & HP & Hnew)|destruct H as (_ & _ & new & HP & Hnew)];
    (eapply placed_evolves; [exact HP|]; intros x Hx; apply Hal; [by apply HP|by apply Hnew]).
Qed.
End InvSteps.

(** A row the order's own lines justify. *)
Definition justified (o : OrdDB) (x : Reservation) : Prop :=
  ∃ r, orders o !! res_order_id x = Some r ∧ (res_sku x, res_qty x) ∈ order_lines r.

Lemma core_inv_step i o p i' :
  CoreOK i o p → InvOK i' →
  inv_evolves (λ oid, in_status o oid CANCELLED) (justified o) i i' →
  CoreOK i' o p ∧ core_evolves i o p i' o p.
Proof.
  intros HC HI' He. split.
  - destruct HC as [Kinv Kord Kkey Kpay Kpkey Kcharge Kholds Kmoney Kstock Kcanc Kref]. constructor; try done.
    + intros x' Hx' Ha. destruct (ie_active _ _ _ _ He x' Hx' Ha) as [(x & Hx & Hax & H1 & H2 & H3)|Hal]; [|done].
      rewrite <- H1, <- H2, <- H3. auto.
    + intros id r Hr Hp line Hl. destruct (Kstock id r Hr Hp line Hl) as (x & Hx & Hc & Hk & Hq).
      exists x. split_and!; try done.
      destruct (ie_committed _ _ _ _ He x Hx Hc) as [Hin|(r2 & Hr2 & Hs2)]; [done|].
      exfalso. destruct (Kord _ _ Hr) as (Hid & _).
      assert (res_order_id x = id) by (unfold line_key in Hk; congruence). congruence.
  - constructor.
    + intros id r Hr. exists r. split_and!; [done|apply same_order_refl|by left].
    + intros id q Hq. exists q. split_and!; [done..|by left].
    + done.
    + intros x Hx Hc. by apply (ie_committed _ _ _ _ He).
Qed.
