(* ===== verification/SagaSteps.v ===== *)
(** * SagaSteps: every database block keeps the invariant

    One lemma per block the coroutines run: under [CoreOK] (and what the caller
    must know, where it must) the block re-establishes [CoreOK] and [evolves]
    the database. *)

From S2P Require Import Prelude Errors UnitOfWork Inventory InventoryInv InventoryHolds InventoryService.
From S2P Require Import Text Effects Orders Payments World PaymentsService CheckoutSaga.
From S2P Require Import SagaInv.

(** ** Order rows *)

(** An update of order rows and journal that creates no order. *)
Record ord_update (o o' : OrdDB) : Prop := {
  ou_next : next_uuid o' = next_uuid o;
  ou_rows : ∀ id r, orders o !! id = Some r →
    ∃ r', orders o' !! id = Some r' ∧ same_order r r' ∧ status_evolves (ord_status r) (ord_status r');
  ou_back : ∀ id r', orders o' !! id = Some r' → is_Some (orders o !! id);
  ou_log : saga_log o `prefix_of` saga_log o'
}.

Lemma ord_update_refl o : ord_update o o.
Proof.
  constructor; [done| |by eauto|done].
  intros id r Hr. exists r. split_and!; [done|apply same_order_refl|by left].
Qed.

(** The row behind an updated row. *)
Lemma ord_update_inv o o' id r' :
  ord_update o o' → orders o' !! id = Some r' →
  ∃ r, orders o !! id = Some r ∧ same_order r r' ∧ status_evolves (ord_status r) (ord_status r').
Proof.
  intros HU Hr'. destruct (ou_back _ _ HU _ _ Hr') as [r Hr]. exists r. split; [done|].
  destruct (ou_rows _ _ HU _ _ Hr) as (r2 & Hr2 & ?). by assert (r2 = r') as -> by congruence.
Qed.

Lemma refund_journaled_mono o o' oid :
  saga_log o `prefix_of` saga_log o' → refund_journaled o oid → refund_journaled o' oid.
Proof. intros [ext Hx] (e & He & ?). exists e. split; [rewrite Hx; set_solver|done]. Qed.

Lemma money_moved_same p r r' : same_order r r' → money_moved p r → money_moved p r'.
Proof. intros Hs (id & q & ? & Hk & ?). exists id, q. by rewrite (same_order_key r r'). Qed.

Lemma stock_committed_same i r r' : same_order r r' → stock_committed i r → stock_committed i r'.
Proof.
  intros Hs Hst line. destruct (same_order_lines r r' Hs) as [_ ->]. intros Hl.
  destruct Hs as (-> & _). by apply Hst.
Qed.

Lemma core_ord_update i o p o' :
  CoreOK i o p → ord_update o o' →
  (∀ id r r', orders o !! id = Some r → orders o' !! id = Some r' → ord_status r = PENDING →
     (ord_status r' = PAID → money_moved p r ∧ stock_committed i r) ∧
     (ord_status r' = CANCELLED → ∀ pid q, payments p !! pid = Some q → pay_order q = id →
        pay_status q = PSucceeded → refund_journaled o' id)) →
  (∀ e, e ∈ saga_log o' → e ∉ saga_log o → log_step e = "refund" → log_status e = "completed" →
     refunded_for p (log_order e)) →
  CoreOK i o' p ∧ core_evolves i o p i o' p.
Proof.
  intros HC HU Hflip Hlog. split.
  - destruct HC as [Kinv Kord Kkey Kpay Kpkey Kcharge Kholds Kmoney Kstock Kcanc Kref]. constructor; try done.
    + intros id r' Hr'. destruct (ord_update_inv _ _ _ _ HU Hr') as (r & Hr & Hs & _).
      destruct (Kord _ _ Hr) as (H1 & H2 & H3 & H4). destruct (same_order_lines _ _ Hs) as [-> _].
      destruct Hs as (-> & -> & _ & _ & -> & _). rewrite (ou_next _ _ HU). done.
    + intros id1 r1' id2 r2' Hr1 Hr2 Hu Hk.
      destruct (ord_update_inv _ _ _ _ HU Hr1) as (r1 & H1 & Hs1 & _).
      destruct (ord_update_inv _ _ _ _ HU Hr2) as (r2 & H2 & Hs2 & _).
      unfold same_order in *. eapply (Kkey _ r1 _ r2); intuition congruence.
    + intros id q Hq. destruct (Kcharge _ _ Hq) as (r & Hr & Hk & Ha).
      destruct (ou_rows _ _ HU _ _ Hr) as (r' & Hr' & Hs & _). exists r'.
      split_and!; [done|by rewrite (same_order_key r r')|]. destruct Hs as (_ & _ & _ & _ & -> & _). done.
    + intros x Hx Hax. destruct (Kholds _ Hx Hax) as (r & Hr & Hl).
      destruct (ou_rows _ _ HU _ _ Hr) as (r' & Hr' & Hs & _). exists r'.
      split; [done|]. by destruct (same_order_lines _ _ Hs) as [_ ->].
    + intros id r' Hr' Hp. destruct (ord_update_inv _ _ _ _ HU Hr') as (r & Hr & Hs & [He|He]);
        eapply money_moved_same; eauto; [eapply Kmoney; eauto; congruence|by eapply Hflip].
    + intros id r' Hr' Hp. destruct (ord_update_inv _ _ _ _ HU Hr') as (r & Hr & Hs & [He|He]);
        eapply stock_committed_same; eauto; [eapply Kstock; eauto; congruence|by eapply Hflip].
    + intros id q Hq Hst (r' & Hr' & Hc).
      destruct (ord_update_inv _ _ _ _ HU Hr') as (r & Hr & Hs & [He|He]); [|by eapply Hflip].
      eapply refund_journaled_mono; [apply HU|]. eapply Kcanc; eauto. exists r. split; [done|congruence].
    + intros e He Hstep Hstat. destruct (decide (e ∈ saga_log o)); [by apply Kref|by apply Hlog].
  - constructor; [apply HU| |apply HU|by left].
    intros id q Hq. exists q. split_and!; [done..|by left].
Qed.

(** An UPDATE that leaves every status alone. *)
Lemma core_ord_quiet i o p o' :
  CoreOK i o p → ord_update o o' →
  (∀ id r r', orders o !! id = Some r → orders o' !! id = Some r' → ord_status r' = ord_status r) →
  (∀ e, e ∈ saga_log o' → e ∉ saga_log o → log_step e = "refund" → log_status e = "completed" →
     refunded_for p (log_order e)) →
  CoreOK i o' p ∧ core_evolves i o p i o' p.
Proof.
  intros HC HU Hq Hlog. apply core_ord_update; [done..| |done].
  intros id r r' Hr Hr' Hp. rewrite (Hq _ _ _ Hr Hr'). split; intros ?; congruence.
Qed.

(** *** The journal *)

Lemma log_add_update e o : ord_update o (log_add e o).
Proof.
  constructor; simpl; [done| |by eauto|by apply prefix_app_r].
  intros id r Hr. exists r. split_and!; [done|apply same_order_refl|by left].
Qed.

Lemma core_log_step i o p now oid step status :
  CoreOK i o p → (step = "refund" → status = "completed" → refunded_for p oid) →
  CoreOK i (log_saga_step now oid step status o).2 p ∧
  core_evolves i o p i (log_saga_step now oid step status o).2 p.
Proof.
  intros HC Href. unfold log_saga_step, begin_nested, add_log.
  destruct (orders o !! oid) as [r|] eqn:Hr; simpl; [|split; [done|apply core_evolves_refl]].
  apply core_ord_quiet; [done|apply log_add_update|simpl; congruence|].
  intros e He Hn. simpl in He. assert (e = MkSagaLog oid step status now) as -> by set_solver. simpl. auto.
Qed.

(** [_request_refund_once] on an existing order leaves a refund in its journal. *)
Lemma request_refund_once_spec now oid o r o' :
  is_Some (orders o !! oid) → request_refund_once now oid o = (r, o') →
  r = Ok tt ∧ refund_journaled o' oid ∧ (o' = o ∨ o' = log_add (MkSagaLog oid "refund" "requested" now) o).
Proof.
  intros [row Hrow]. unfold request_refund_once. destruct (steps_of oid "refund" o) as [|e l] eqn:E.
  - unfold add_log. rewrite Hrow. intros; simplify_eq. split_and!; [done| |by right].
    exists (MkSagaLog oid "refund" "requested" now). split; [simpl; set_solver|done].
  - intros; simplify_eq. split_and!; [done| |by left].
    assert (e ∈ steps_of oid "refund" o') as He by (rewrite E; set_solver).
    unfold steps_of in He. apply list_elem_of_filter in He as [[? ?] ?]. by exists e.
Qed.

Lemma core_request_refund i o p now oid :
  CoreOK i o p →
  CoreOK i (request_refund_once now oid o).2 p ∧ core_evolves i o p i (request_refund_once now oid o).2 p.
Proof.
  intros HC. unfold request_refund_once. destruct (steps_of oid "refund" o).
  - unfold add_log. destruct (orders o !! oid); simpl; [|split; [done|apply core_evolves_refl]].
    apply core_ord_quiet; [done|apply log_add_update|simpl; congruence|].
    intros e He Hn _ Hc. simpl in He. assert (e = MkSagaLog oid "refund" "requested" now) as -> by set_solver.
    done.
  - simpl. split; [done|apply core_evolves_refl].
Qed.

(** *** Leases *)

Lemma touched_lookup now ids (m : gmap N Order) id :
  ∃ n, (foldr (λ id m, alter (touched now) id m) m ids) !! id = Nat.iter n (touched now) <$> m !! id.
Proof.
  induction ids as [|j ids [n IH]]; simpl.
  - exists 0%nat. by destruct (m !! id).
  - destruct (decide (j = id)) as [->|Hne].
    + exists (S n). rewrite lookup_alter_eq, IH. by destruct (m !! id).
    + exists n. by rewrite lookup_alter_ne.
Qed.

Lemma touched_iter now n r :
  same_order r (Nat.iter n (touched now) r) ∧ ord_status (Nat.iter n (touched now) r) = ord_status r.
Proof.
  induction n as [|n [IH1 IH2]]; simpl; [by split|]. split; [|done].
  eapply same_order_trans; [exact IH1|apply same_order_status].
Qed.

Lemma core_claim i o p now batch lk (P : Order → Prop) `{∀ r, Decision (P r)} :
  CoreOK i o p →
  CoreOK i (claim now batch lk P o).2 p ∧ core_evolves i o p i (claim now batch lk P o).2 p.
Proof.
  intros HC. unfold claim, lease. simpl.
  match goal with |- context [foldr _ _ ?l] => generalize l; intros ids end.
  apply core_ord_quiet; [done| | |set_solver].
  - constructor; simpl; [done| | |done].
    + intros id r Hr. destruct (touched_lookup now ids (orders o) id) as [n Hn].
      rewrite Hn, Hr. simpl. eexists. split; [done|].
      destruct (touched_iter now n r) as [? ->]. split; [done|by left].
    + intros id r'. destruct (touched_lookup now ids (orders o) id) as [n ->].
      by destruct (orders o !! id).
  - intros id r r' Hr Hr'. simpl in Hr'. destruct (touched_lookup now ids (orders o) id) as [n Hn].
    rewrite Hn, Hr in Hr'. simplify_eq/=. by apply touched_iter.
Qed.

(** *** The guarded flip *)

Lemma insert_update o oid r st now ext :
  orders o !! oid = Some r → status_evolves (ord_status r) st →
  ∀ o', orders o' = <[oid := with_status st now r]> (orders o) → next_uuid o' = next_uuid o →
    saga_log o' = saga_log o ++ ext → ord_update o o'.
Proof.
  intros Hr Hst o' Ho Hn Hl. constructor; [done| | |by rewrite Hl; apply prefix_app_r].
  - intros id r1 Hr1. rewrite Ho. destruct (decide (id = oid)) as [->|Hne].
    + rewrite lookup_insert_eq. eexists. split; [done|]. by simplify_eq.
    + rewrite lookup_insert_ne by done. exists r1. split_and!; [done|apply same_order_refl|by left].
  - intros id r'. rewrite Ho. destruct (decide (id = oid)) as [->|Hne]; [by eauto|].
    rewrite lookup_insert_ne by done. by eauto.
Qed.

Lemma modify_run {D} (f : D → D) d : modify f d = (Ok tt, f d).
Proof. done. Qed.

(** What the transaction leaves, by its answer. *)
Lemma transition_status_spec f now oid expect st ob o res o' :
  transition_status (Some f) now oid expect st ob o = (res, o') →
  (res = Ok None ∧ o' = o ∧ (∀ r, orders o !! oid = Some r → ord_status r ∉ expect)) ∨
  ∃ r ext, orders o !! oid = Some r ∧ ord_status r ∈ expect ∧
    res = Ok (Some (with_status st now r)) ∧
    orders o' = <[oid := with_status st now r]> (orders o) ∧ next_uuid o' = next_uuid o ∧
    saga_log o' = saga_log o ++ ext ∧
    (ext = [] ∨ ext = [MkSagaLog oid "refund" "requested" now]) ∧
    (st = CANCELLED → f oid = true → refund_journaled o' oid).
Proof.
  unfold transition_status, begin_nested.
  destruct (orders o !! oid) as [r|] eqn:Hr; [|intros; simplify_eq; left; split_and!; [done..|congruence]].
  case_decide as Hin; [|intros; simplify_eq; left; split_and!; [done..|congruence]].
  intros H. right. exists r.
  set (o1 := set_orders (<[oid:=with_status st now r]> (orders o)) o) in H.
  assert (∃ o2, (match ob with Some e => modify (ord_outbox_add e) | None => mret tt end : ST OrdDB unit) o1
      = (Ok tt, o2) ∧ orders o2 = orders o1 ∧ next_uuid o2 = next_uuid o1 ∧ saga_log o2 = saga_log o1)
    as (o2 & Hob & Ho2 & Hn2 & Hl2) by (destruct ob; eexists; split_and!; reflexivity).
  unfold mbind, ST_bind in H. rewrite modify_run in H. fold o1 in H. rewrite Hob in H.
  assert (is_Some (orders o2 !! oid)) as Hsome by (rewrite Ho2; simpl; rewrite lookup_insert_eq; eauto).
  assert (∀ o3, orders o3 = orders o2 → get_order oid o3 = (Ok (Some (with_status st now r)), o3)) as Hget.
  { intros o3 Ho3. unfold get_order. rewrite Ho3, Ho2. simpl. by rewrite lookup_insert_eq. }
  destruct (decide (st = CANCELLED ∧ f oid = true)) as [[-> Hf]|Hnf].
  - destruct (request_refund_once now oid o2) as [q o3] eqn:E.
    apply request_refund_once_spec in E as (-> & Hj & Ho3); [|done].
    assert (orders o3 = orders o2 ∧ next_uuid o3 = next_uuid o2) as [Ha Hb] by by destruct Ho3; subst.
    rewrite (Hget o3 Ha) in H. simplify_eq.
    destruct Ho3 as [-> | ->].
    + exists []. rewrite app_nil_r. split_and!; try done; try congruence. by left.
    + exists [MkSagaLog oid "refund" "requested" now]. simpl in *. rewrite Hl2.
      split_and!; try done; try congruence. by right.
  - unfold mret, ST_ret in H. rewrite (Hget o2 eq_refl) in H. simplify_eq.
    exists []. rewrite app_nil_r. split_and!; try done; try congruence; [by left|]. intros ? ?. by destruct Hnf.
Qed.

(** Cancelling is always allowed: a charge that stands gets its refund journaled. *)
Lemma core_cancel i o p now oid :
  CoreOK i o p →
  let o' := (transition_status (Some (has_succeeded_for_order p)) now oid [PENDING] CANCELLED None o).2 in
  CoreOK i o' p ∧ core_evolves i o p i o' p.
Proof.
  intros HC. simpl. destruct (transition_status _ _ _ _ _ _ o) as [res o'] eqn:E. simpl.
  apply transition_status_spec in E as [(_ & -> & _)|(r & ext & Hr & Hp & _ & Ho & Hn & Hl & Hext & Hj)];
    [split; [done|apply core_evolves_refl]|].
  apply list_elem_of_singleton in Hp. apply core_ord_update; [done| | |].
  - eapply insert_update; eauto. by right.
  - intros id r1 r1' Hr1 Hr1' Hpend. rewrite Ho in Hr1'. destruct (decide (id = oid)) as [->|Hne].
    + rewrite lookup_insert_eq in Hr1'. simplify_eq. simpl. split; [done|].
      intros _ pid q Hq Hqo Hqs. apply Hj; [done|]. unfold has_succeeded_for_order.
      destruct (find_row _ _) eqn:Ef; [done|]. exfalso. by apply (find_row_None _ _ Ef pid q Hq).
    + rewrite lookup_insert_ne in Hr1' by done. simplify_eq. split; congruence.
  - intros e He Hn' _ Hc. rewrite Hl in He. destruct Hext as [-> | ->]; [rewrite app_nil_r in He; done|].
    assert (e = MkSagaLog oid "refund" "requested" now) as -> by set_solver. done.
Qed.

(** Paying needs the money and the stock. *)
Lemma core_mark_paid i o p f now oid ob :
  CoreOK i o p →
  (∀ r, orders o !! oid = Some r → ord_status r = PENDING → money_moved p r ∧ stock_committed i r) →
  let o' := (transition_status (Some f) now oid [PENDING] PAID ob o).2 in
  CoreOK i o' p ∧ core_evolves i o p i o' p.
Proof.
  intros HC Hpay. simpl. destruct (transition_status _ _ _ _ _ _ o) as [res o'] eqn:E. simpl.
  apply transition_status_spec in E as [(_ & -> & _)|(r & ext & Hr & Hp & _ & Ho & Hn & Hl & Hext & Hj)];
    [split; [done|apply core_evolves_refl]|].
  apply list_elem_of_singleton in Hp. apply core_ord_update; [done| | |].
  - eapply insert_update; eauto. by right.
  - intros id r1 r1' Hr1 Hr1' Hpend. rewrite Ho in Hr1'. destruct (decide (id = oid)) as [->|Hne].
    + rewrite lookup_insert_eq in Hr1'. simplify_eq. simpl. split; [by auto|done].
    + rewrite lookup_insert_ne in Hr1' by done. simplify_eq. split; congruence.
  - intros e He Hn' _ Hc. rewrite Hl in He. destruct Hext as [-> | ->]; [rewrite app_nil_r in He; done|].
    assert (e = MkSagaLog oid "refund" "requested" now) as -> by set_solver. done.
Qed.

(** *** The pending order *)

(** The row a checkout of [lines] inserts. *)
Definition fresh_order (now : Z) (id user_id : N) (key body_hash email : string) (total : Z)
    (lines : list order_line) : Order :=
  MkOrder id user_id PENDING total (make_items (id + 1) lines) now now key body_hash email.

#[local] Arguments loser_reads_winner : simpl never.

Lemma create_pending_order_spec now user_id key body_hash total lines email o res o' :
  (∀ id r, orders o !! id = Some r → ord_id r = id) →
  create_pending_order now user_id key body_hash total lines email o = (res, o') →
  match res with
  | Ok (r, true) =>
      r = fresh_order now (next_uuid o) user_id key body_hash email total lines ∧
      (∀ id r2, orders o !! id = Some r2 → ¬ (ord_user r2 = user_id ∧ ord_key r2 = key)) ∧
      orders o' = <[next_uuid o := r]> (orders o) ∧
      saga_log o' = saga_log o ++ [MkSagaLog (next_uuid o) "create" "completed" now] ∧
      (next_uuid o < next_uuid o')%N
  | Ok (r, false) => o' = o ∧ orders o !! ord_id r = Some r ∧ ord_user r = user_id ∧ ord_key r = key
  | Err _ => o' = o
  end.
Proof.
  intros Hids. unfold create_pending_order, begin_nested, try_except, insert_order, mbind, ST_bind.
  case_decide; [|intros; by simplify_eq/=].
  destruct (find_row (λ r, ord_user r = user_id ∧ ord_key r = key) (orders o)) as [[id r]|] eqn:Ef.
  - assert (loser_reads_winner user_id key o = (Ok (r, false), o)) as Hw.
    { unfold loser_reads_winner, get_by_idempotency, mbind, ST_bind. by rewrite Ef. }
    simpl. unfold mret, ST_ret. rewrite Hw. intros; simplify_eq/=.
    apply find_row_Some in Ef as [Hr [Hu Hk]]. by rewrite (Hids _ _ Hr).
  - unfold mret, ST_ret, insert_items. case_decide; [|intros; by simplify_eq/=]. unfold add_log. simpl.
    rewrite alter_insert_eq. rewrite lookup_insert_eq. simpl. unfold get_order. simpl.
    rewrite lookup_insert_eq. unfold mret, ST_ret. intros; simplify_eq/=.
    split_and!; [done| |done|done|lia].
    intros id r2 Hr2. by apply (find_row_None _ _ Ef id r2 Hr2).
Qed.

Lemma lines_of_fresh now id user_id key body_hash email total (lines : list CheckoutLine) :
  lines_of (fresh_order now id user_id key body_hash email total (snapshot_lines lines)) = lines.
Proof.
  unfold lines_of, fresh_order, snapshot_lines. simpl. generalize (id + 1)%N.
  induction lines as [|[prod nm pr qt] lines IH]; intros n; simpl; [done|]. by rewrite IH.
Qed.

Lemma core_create i o p now user_id key body_hash (lines : list CheckoutLine) email res o' :
  CoreOK i o p → is_uuid user_id →
  create_pending_order now user_id key body_hash (total_of lines) (snapshot_lines lines) email o = (res, o') →
  CoreOK i o' p ∧ core_evolves i o p i o' p.
Proof.
  intros HC Huser Hcr. apply create_pending_order_spec in Hcr; [|intros id r Hr; by apply (ck_ord _ _ _ HC)].
  destruct res as [[r [|]]|e]; [|destruct Hcr as [-> _]|subst o'];
    [|by split; [done|apply core_evolves_refl]..].
  destruct Hcr as (-> & Hfresh & Ho & Hl & Hlt).
  set (r := fresh_order _ _ _ _ _ _ _ _) in *.
  assert (∀ id r2, orders o !! id = Some r2 → orders o' !! id = Some r2) as Hold.
  { intros id r2 Hr2. rewrite Ho, lookup_insert_ne; [done|]. destruct (ck_ord _ _ _ HC _ _ Hr2). lia. }
  assert (∀ id r2, orders o' !! id = Some r2 → (id = next_uuid o ∧ r2 = r) ∨ orders o !! id = Some r2) as Hnew.
  { intros id r2. rewrite Ho. destruct (decide (id = next_uuid o)) as [->|Hne].
    - rewrite lookup_insert_eq. intros; simplify_eq. by left.
    - rewrite lookup_insert_ne by done. by right. }
  split.
  - destruct HC as [Kinv Kord Kkey Kpay Kpkey Kcharge Kholds Kmoney Kstock Kcanc Kref]. constructor; try done.
    + intros id r2 [[-> ->]|Hr2]%Hnew.
      * split_and!; [done|lia|done|]. unfold r. by rewrite lines_of_fresh.
      * destruct (Kord _ _ Hr2) as (? & ? & ? & ?). split_and!; [done|lia|done..].
    + intros id1 r1 id2 r2 [[-> ->]|Hr1]%Hnew [[-> ->]|Hr2]%Hnew Hu Hk; [done| | |by eapply Kkey].
      * by destruct (Hfresh _ _ Hr2).
      * by destruct (Hfresh _ _ Hr1).
    + intros id q Hq. destruct (Kcharge _ _ Hq) as (r2 & Hr2 & ?). eauto.
    + intros x Hx Ha. destruct (Kholds _ Hx Ha) as (r2 & Hr2 & ?). eauto.
    + intros id r2 [[-> ->]|Hr2]%Hnew Hp; [done|by eauto].
    + intros id r2 [[-> ->]|Hr2]%Hnew Hp; [done|by eauto].
    + intros id q Hq Hs (r2 & [[_ ->]|Hr2]%Hnew & Hc); [done|].
      eapply refund_journaled_mono; [|by eapply Kcanc; eauto; exists r2]. rewrite Hl. by apply prefix_app_r.
    + intros e He Hst Hc. rewrite Hl in He. apply elem_of_app in He as [He|He%list_elem_of_singleton]; [by auto|].
      by subst e.
  - constructor; [| |rewrite Hl; by apply prefix_app_r|by left].
    + intros id r2 Hr2. exists r2. split_and!; [by auto|apply same_order_refl|by left].
    + intros id q Hq. exists q. split_and!; [done..|by left].
Qed.

(** ** Payment rows *)

Lemma core_pay_update i o p p' :
  CoreOK i o p → next_payment p' = next_payment p →
  (∀ id q, payments p !! id = Some q →
     ∃ q', payments p' !! id = Some q' ∧ same_payment q q' ∧ payment_evolves (pay_status q) (pay_status q')) →
  (∀ id q', payments p' !! id = Some q' → is_Some (payments p !! id)) →
  (∀ id q q', payments p !! id = Some q → payments p' !! id = Some q' → pay_status q = PPending →
     pay_status q' = PSucceeded → in_status o (pay_order q) CANCELLED → refund_journaled o (pay_order q)) →
  CoreOK i o p' ∧ core_evolves i o p i o p'.
Proof.
  intros HC Hn Hrows Hback Hsucc.
  assert (∀ id q', payments p' !! id = Some q' → ∃ q, payments p !! id = Some q ∧ same_payment q q' ∧
    payment_evolves (pay_status q) (pay_status q')) as Hinv.
  { intros id q' Hq'. destruct (Hback _ _ Hq') as [q Hq]. exists q. split; [done|].
    destruct (Hrows _ _ Hq) as (q2 & Hq2 & ?). by assert (q2 = q') as -> by congruence. }
  split.
  - destruct HC as [Kinv Kord Kkey Kpay Kpkey Kcharge Kholds Kmoney Kstock Kcanc Kref]. constructor; try done.
    + intros id q' Hq'. destruct (Hinv _ _ Hq') as (q & Hq & (-> & _) & _). rewrite Hn. by apply Kpay.
    + intros id1 q1' id2 q2' H1 H2 Hk. destruct (Hinv _ _ H1) as (q1 & H1' & (_ & _ & E1 & _) & _).
      destruct (Hinv _ _ H2) as (q2 & H2' & (_ & _ & E2 & _) & _). eapply Kpkey; eauto. congruence.
    + intros id q' Hq'. destruct (Hinv _ _ Hq') as (q & Hq & (_ & -> & -> & ->) & _). by apply (Kcharge id).
    + intros id r Hr Hp. destruct (Kmoney _ _ Hr Hp) as (pid & q & Hq & Hk & Hs).
      destruct (Hrows _ _ Hq) as (q' & Hq' & (_ & _ & Ek & _) & He). exists pid, q'.
      split_and!; [done|congruence|]. unfold payment_evolves in He. intuition congruence.
    + intros id q' Hq' Hs Hc. destruct (Hinv _ _ Hq') as (q & Hq & (_ & Eo & _) & He). rewrite Eo in *.
      destruct He as [He|[He|[He He2]]]; [|by eapply Hsucc|congruence]. eapply Kcanc; eauto. congruence.
    + intros e He Hst Hc. destruct (Kref _ He Hst Hc) as (pid & q & Hq & Ho & Hs).
      destruct (Hrows _ _ Hq) as (q' & Hq' & (_ & Eo & _) & He'). exists pid, q'.
      split_and!; [done|congruence|]. unfold payment_evolves in He'. intuition congruence.
  - constructor; [|done|done|by left].
    intros id r Hr. exists r. split_and!; [done|apply same_order_refl|by left].
Qed.

(** A fresh attempt under the order's own key and total. *)
Lemma core_create_pending i o p now oid key amount res p' r :
  CoreOK i o p → orders o !! oid = Some r → key = order_payment_key r → amount = ord_total r →
  create_pending now oid key amount p = (res, p') →
  CoreOK i o p' ∧ core_evolves i o p i o p' ∧
  match res with
  | Ok (q, _) => payments p' !! pay_id q = Some q ∧ pay_key q = key
  | Err _ => True
  end.
Proof.
  intros HC Hr -> -> H. unfold create_pending, begin_nested, insert_payment, mbind, ST_bind in H.
  case_decide; [|simplify_eq; split_and!; [done|apply core_evolves_refl|done]].
  destruct (find_row (λ q, pay_key q = order_payment_key r) (payments p)) as [[id q]|] eqn:Ef.
  - unfold pay_get_by_key in H. rewrite Ef in H. unfold mret, ST_ret in H. simplify_eq/=.
    apply find_row_Some in Ef as [Hq Hk]. split_and!; [done|apply core_evolves_refl| |done].
    by rewrite (proj1 (ck_pay _ _ _ HC _ _ Hq)).
  - unfold pay_get in H. simpl in H. rewrite lookup_insert_eq in H. unfold mret, ST_ret in H. simplify_eq/=.
    assert (payments p !! next_payment p = None) as Hnone.
    { destruct (payments p !! next_payment p) eqn:E; [|done]. destruct (ck_pay _ _ _ HC _ _ E). lia. }
    assert (∀ id q, payments p !! id = Some q → id ≠ next_payment p) as Hne by congruence.
    rewrite lookup_insert_eq. split_and!; [| |done..].
    + destruct HC as [Kinv Kord Kkey Kpay Kpkey Kcharge Kholds Kmoney Kstock Kcanc Kref].
      constructor; simpl; try done.
      * intros id q [[<- <-]|[_ Hq]]%lookup_insert_Some; simpl; [split; [done|lia]|].
        destruct (Kpay _ _ Hq). split; [done|lia].
      * intros id1 q1 id2 q2 [[<- <-]|[_ H1]]%lookup_insert_Some [[<- <-]|[_ H2]]%lookup_insert_Some Hk;
          simpl in *; [done| | |by eapply Kpkey].
        -- by apply (find_row_None _ _ Ef) in H2.
        -- by apply (find_row_None _ _ Ef) in H1.
      * intros id q [[<- <-]|[_ Hq]]%lookup_insert_Some; simpl; [by eauto|by eapply Kcharge].
      * intros id r' Hr' Hp. destruct (Kmoney _ _ Hr' Hp) as (pid & q & Hq & ?).
        exists pid, q. simpl. rewrite lookup_insert_ne; [done|]. by apply not_eq_sym, (Hne _ _ Hq).
      * intros id q [[<- <-]|[_ Hq]]%lookup_insert_Some; simpl; [done|by eapply Kcanc].
      * intros e He Hst Hc. destruct (Kref _ He Hst Hc) as (pid & q & Hq & ?). exists pid, q.
        simpl. rewrite lookup_insert_ne; [done|]. by apply not_eq_sym, (Hne _ _ Hq).
    + constructor; simpl; [|intros id q Hq|done|by left].
      * intros id r' Hr'. exists r'. split_and!; [done|apply same_order_refl|by left].
      * exists q. rewrite lookup_insert_ne by by apply not_eq_sym, (Hne _ _ Hq). split_and!; [done..|by left].
Qed.
