(* ===== verification/SagaWorld.v ===== *)
(** * SagaWorld: the invariant on the shared world, block by block

    [WInv] is [CoreOK] plus the truth of the replay records in Valkey.  [keeps]
    is a block that preserves it from every state; the blocks that need the
    caller to know something carry it as a premise. *)

From S2P Require Import Prelude Errors UnitOfWork Inventory InventoryInv InventoryHolds InventoryService.
From S2P Require Import Text Effects Orders Payments World PaymentsService CheckoutSaga.
From S2P Require Import SagaInv SagaSteps.

(** The response is a snapshot of the paid order [r]. *)
Definition answers (r : Order) (resp : OrderResponse) : Prop :=
  or_id resp = ord_id r ∧ or_user resp = ord_user r ∧ or_total resp = ord_total r ∧
  or_items resp = ord_items r ∧ or_status resp = PAID.

Section SagaWorld.
Context {B G : Type} `{!BasketPort B} `{!PaymentGateway G}.
Abbreviation W := (World B G).

(** The paid order under [(user, key)] that [resp] answers for. *)
Definition paid_answer (w : W) (user : N) (key : string) (resp : OrderResponse) : Prop :=
  ∃ r, orders (w_ord w) !! or_id resp = Some r ∧ ord_status r = PAID ∧ ord_user r = user ∧
       ord_key r = key ∧ answers r resp.

Record WInv (w : W) : Prop := {
  wi_core : CoreOK (inv_db (w_inv w)) (w_ord w) (w_pay w);
  wi_idem : ∀ user key rec resp, w_idem w !! (user, key) = Some rec → ir_response rec = Some resp →
    paid_answer w user key resp
}.

Definition evolves (w w' : W) : Prop :=
  core_evolves (inv_db (w_inv w)) (w_ord w) (w_pay w) (inv_db (w_inv w')) (w_ord w') (w_pay w').

#[export] Instance evolves_preorder : PreOrder evolves.
Proof.
  split.
  - intros w. apply core_evolves_refl.
  - intros w1 w2 w3. apply core_evolves_trans.
Qed.

(** ** Stable facts *)

Lemma order_stays w w' id r :
  evolves w w' → orders (w_ord w) !! id = Some r →
  ∃ r', orders (w_ord w') !! id = Some r' ∧ same_order r r' ∧ status_evolves (ord_status r) (ord_status r').
Proof. intros He. by apply (ev_orders _ _ _ _ _ _ He). Qed.

Lemma cancelled_mono w w' oid :
  evolves w w' → in_status (w_ord w) oid CANCELLED → in_status (w_ord w') oid CANCELLED.
Proof. by apply cancelled_stays. Qed.

Lemma paid_answer_mono w w' user key resp :
  evolves w w' → paid_answer w user key resp → paid_answer w' user key resp.
Proof.
  intros He (r & Hr & Hp & Hu & Hk & Ha). destruct (order_stays _ _ _ _ He Hr) as (r' & Hr' & Hs & Hst).
  exists r'. split; [done|]. unfold status_evolves, same_order, answers in *. intuition congruence.
Qed.

(** The coroutine's order: the arguments of a drive match the stored row. *)
Definition drives (oid user : N) (key : string) (lines : list CheckoutLine) (w : W) : Prop :=
  ∃ r, orders (w_ord w) !! oid = Some r ∧ ord_user r = user ∧ ord_key r = key ∧ lines_of r = lines.

Lemma drives_mono oid user key lines w w' :
  evolves w w' → drives oid user key lines w → drives oid user key lines w'.
Proof.
  intros He (r & Hr & Hu & Hk & Hl). destruct (order_stays _ _ _ _ He Hr) as (r' & Hr' & Hs & _).
  exists r'. destruct (same_order_lines _ _ Hs) as [E _]. unfold same_order in Hs.
  split_and!; try done; intuition congruence.
Qed.

(** The charge under [key] has gone at least as far as [st]. *)
Definition charge_at (key : string) (st : PaymentStatus) (w : W) : Prop :=
  ∃ id q, payments (w_pay w) !! id = Some q ∧ pay_key q = key ∧ payment_evolves st (pay_status q).

Lemma charge_at_mono key st w w' : evolves w w' → charge_at key st w → charge_at key st w'.
Proof.
  intros He (id & q & Hq & Hk & Hs). destruct (ev_payments _ _ _ _ _ _ He _ _ Hq) as (q' & Hq' & Hsp & Hev).
  exists id, q'. split; [done|]. unfold same_payment, payment_evolves in *. intuition congruence.
Qed.

(** The order owns its stock, unless it is dead. *)
Definition covered (oid : N) (lines : list CheckoutLine) (w : W) : Prop :=
  in_status (w_ord w) oid CANCELLED ∨
  ∀ line, line ∈ sku_lines lines → line_committed (inv_db (w_inv w)) oid line.

Lemma covered_mono oid lines w w' : evolves w w' → covered oid lines w → covered oid lines w'.
Proof.
  intros He [Hc|Hc]; [left; by eapply cancelled_mono|].
  assert ((∀ line, line ∈ sku_lines lines → line_committed (inv_db (w_inv w')) oid line) ∨
          in_status (w_ord w') oid CANCELLED) as [?|?]; [|by right|by left].
  revert Hc. induction (sku_lines lines) as [|l ls IH]; intros Hc; [left; set_solver|].
  destruct IH as [IH|IH]; [intros; apply Hc; set_solver| |by right].
  destruct (Hc l ltac:(set_solver)) as (x & Hx & Hcm & Hk & Hq).
  destruct (ev_committed _ _ _ _ _ _ He x Hx Hcm) as [Hin|Hcan].
  - left. intros line [->|Hl]%elem_of_cons; [|by auto]. by exists x.
  - right. unfold line_key in Hk. by simplify_eq.
Qed.

(** ** Blocks *)

Definition keeps {A} (m : ST W A) : Prop := ∀ w, WInv w → WInv (m w).2 ∧ evolves w (m w).2.

(** A block that changes the database by one [core] step and no replay record. *)
Lemma core_block w w' :
  WInv w → w_idem w' = w_idem w →
  CoreOK (inv_db (w_inv w')) (w_ord w') (w_pay w') ∧ evolves w w' → WInv w' ∧ evolves w w'.
Proof.
  intros HI Hid [HC He]. split; [|done]. constructor; [done|].
  intros user key rec resp. rewrite Hid. intros Hr Hresp.
  eapply paid_answer_mono; [exact He|]. by eapply wi_idem.
Qed.

(** A block outside the three schemas and the replay records. *)
Lemma keeps_elsewhere {A} (m : ST W A) :
  (∀ w, w_inv (m w).2 = w_inv w ∧ w_ord (m w).2 = w_ord w ∧ w_pay (m w).2 = w_pay w ∧ w_idem (m w).2 = w_idem w) →
  keeps m.
Proof.
  intros Hm w HI. destruct (Hm w) as (H1 & H2 & H3 & H4). apply core_block; [done..|].
  unfold evolves. rewrite H1, H2, H3. split; [apply HI|apply core_evolves_refl].
Qed.

Lemma keeps_gw {A} (m : Z → ST G A) : keeps (gw_op m).
Proof. apply keeps_elsewhere. intros w. unfold gw_op, at_now, zoom. simpl. by destruct (m _ _). Qed.

Lemma keeps_cart {A} (m : Z → ST B A) : keeps (cart_op m).
Proof. apply keeps_elsewhere. intros w. unfold cart_op, at_now, zoom. simpl. by destruct (m _ _). Qed.

(** A read. *)
Lemma keeps_pure {A} (f : W → result A) : keeps (λ w, (f w, w)).
Proof. by apply keeps_elsewhere. Qed.

Lemma keeps_ord_read {A} (f : Z → OrdDB → result A) : keeps (ord_op (λ now d, (f now d, d))).
Proof. apply keeps_elsewhere. by intros []. Qed.

Lemma keeps_pay_read {A} (f : Z → PayDB → result A) : keeps (pay_op (λ now d, (f now d, d))).
Proof. apply keeps_elsewhere. by intros []. Qed.

Lemma keeps_inc name label w : WInv w → WInv (inc name label w) ∧ evolves w (inc name label w).
Proof. intros HI. apply core_block; [done..|]. split; [apply HI|apply core_evolves_refl]. Qed.

(** *** Order blocks *)

Lemma ord_block {A} (m : Z → ST OrdDB A) w :
  WInv w →
  (CoreOK (inv_db (w_inv w)) (m (w_now w) (w_ord w)).2 (w_pay w) ∧
   core_evolves (inv_db (w_inv w)) (w_ord w) (w_pay w) (inv_db (w_inv w)) (m (w_now w) (w_ord w)).2 (w_pay w)) →
  WInv (ord_op m w).2 ∧ evolves w (ord_op m w).2.
Proof.
  intros HI Hstep. unfold ord_op, at_now, zoom. simpl. destruct (m _ _) as [r d]; simpl in *.
  by apply core_block.
Qed.

Lemma log_block oid step status w :
  WInv w → (step = "refund" → status = "completed" → refunded_for (w_pay w) oid) →
  WInv (ord_op (λ now, log_saga_step now oid step status) w).2 ∧
  evolves w (ord_op (λ now, log_saga_step now oid step status) w).2.
Proof. intros HI Hr. apply ord_block; [done|]. apply core_log_step; [apply HI|done]. Qed.

Lemma keeps_log oid step status :
  step ≠ "refund" ∨ status ≠ "completed" → keeps (ord_op (λ now, log_saga_step now oid step status)).
Proof. intros Hne w HI. apply log_block; [done|]. naive_solver. Qed.

Lemma keeps_cancel oid : keeps (order_transition oid [PENDING] CANCELLED None).
Proof. intros w HI. unfold order_transition. apply ord_block; [done|]. apply core_cancel, HI. Qed.

Lemma paid_block oid ob w :
  WInv w →
  (∀ r, orders (w_ord w) !! oid = Some r → ord_status r = PENDING →
     money_moved (w_pay w) r ∧ stock_committed (inv_db (w_inv w)) r) →
  WInv (order_transition oid [PENDING] PAID ob w).2 ∧ evolves w (order_transition oid [PENDING] PAID ob w).2.
Proof. intros HI Hp. unfold order_transition. apply ord_block; [done|]. by apply core_mark_paid; [apply HI|]. Qed.

Lemma atomically_nested {D A} (m : ST D A) d : atomically (begin_nested m) d = begin_nested m d.
Proof. unfold atomically, begin_nested. by destruct (m d) as [[]]. Qed.

Lemma keeps_claim_stuck cutoff batch lk :
  keeps (ord_op (λ now, atomically (claim_stuck_pending now cutoff batch lk))).
Proof. intros w HI. apply ord_block; [done|]. simpl. apply core_claim, HI. Qed.

Lemma keeps_claim_refund cutoff batch lk :
  keeps (ord_op (λ now, atomically (claim_cancelled_with_pending_refund now cutoff batch lk))).
Proof. intros w HI. apply ord_block; [done|]. simpl. apply core_claim, HI. Qed.

Definition create_block (user : N) (key body_hash : string) (lines : list CheckoutLine) (email : string)
    : ST W (Order * bool) :=
  ord_op (λ now, atomically (create_pending_order now user key body_hash (total_of lines)
                               (snapshot_lines lines) email)).

Lemma create_block_ok user key body_hash lines email w :
  WInv w → is_uuid user →
  WInv (create_block user key body_hash lines email w).2 ∧
  evolves w (create_block user key body_hash lines email w).2.
Proof.
  intros HI Hu. apply ord_block; [done|]. unfold create_pending_order. rewrite atomically_nested.
  match goal with |- context [begin_nested ?m ?d] =>
    destruct (begin_nested m d) as [res o'] eqn:E end. simpl.
  eapply core_create; [apply HI|exact Hu|exact E].
Qed.

(** *** Inventory blocks *)

Lemma inv_block {A} (m : Z → ST InvSvc A) w :
  WInv w →
  InvOK (inv_db (m (w_now w) (w_inv w)).2) →
  inv_evolves (λ oid, in_status (w_ord w) oid CANCELLED) (justified (w_ord w))
    (inv_db (w_inv w)) (inv_db (m (w_now w) (w_inv w)).2) →
  WInv (inv_op m w).2 ∧ evolves w (inv_op m w).2.
Proof.
  intros HI Hok Hev. unfold inv_op, at_now, zoom. simpl. destruct (m _ _) as [r s]; simpl in *.
  apply core_block; [done..|]. apply core_inv_step; [apply HI|done..].
Qed.

Lemma keeps_release oid : keeps (inv_op (λ _, svc_release_for_order oid)).
Proof.
  intros w HI. pose proof (ck_inv _ _ _ (wi_core w HI)) as HIi. apply inv_block; [done|..];
    unfold svc_release_for_order; rewrite in_tx_db.
  - apply atomically_ok; [apply keeps_tx_ok, release_for_order_keeps|done].
  - by apply release_for_order_evolves.
Qed.

Lemma keeps_commit oid k : keeps (inv_op (λ _, svc_commit_for_order oid k)).
Proof.
  intros w HI. pose proof (ck_inv _ _ _ (wi_core w HI)) as HIi. apply inv_block; [done|..];
    unfold svc_commit_for_order; rewrite in_tx_db.
  - apply atomically_ok; [apply keeps_tx_ok, commit_for_order_keeps|done].
  - by apply commit_for_order_evolves.
Qed.

Lemma keeps_expired k lk : keeps (inv_op (λ now, svc_release_expired now k lk)).
Proof.
  intros w HI. pose proof (ck_inv _ _ _ (wi_core w HI)) as HIi. apply inv_block; [done|..];
    rewrite svc_release_expired_db.
  - apply atomically_ok; [apply keeps_tx_ok, release_expired_keeps|done].
  - by apply release_expired_evolves.
Qed.

Lemma restock_block oid w :
  WInv w → in_status (w_ord w) oid CANCELLED →
  WInv (inv_op (λ _, svc_restock_for_order oid) w).2 ∧ evolves w (inv_op (λ _, svc_restock_for_order oid) w).2.
Proof.
  intros HI Hc. pose proof (ck_inv _ _ _ (wi_core w HI)) as HIi. apply inv_block; [done|..];
    unfold svc_restock_for_order; rewrite in_tx_db.
  - apply atomically_ok; [apply keeps_tx_ok, restock_for_order_keeps|done].
  - by apply restock_for_order_evolves.
Qed.

Lemma reserve_block u ttl oid user key lines w :
  WInv w → drives oid user key lines w →
  WInv (inv_op (λ now, svc_reserve_many u now ttl (sku_lines lines) oid) w).2 ∧
  evolves w (inv_op (λ now, svc_reserve_many u now ttl (sku_lines lines) oid) w).2.
Proof.
  intros HI (r & Hr & _ & _ & Hl). pose proof (ck_inv _ _ _ (wi_core w HI)) as HIi.
  assert (InvOK (inv_db (svc_reserve_many u (w_now w) ttl (sku_lines lines) oid (w_inv w)).2) ∧
    inv_evolves (λ oid, in_status (w_ord w) oid CANCELLED) (justified (w_ord w)) (inv_db (w_inv w))
      (inv_db (svc_reserve_many u (w_now w) ttl (sku_lines lines) oid (w_inv w)).2)) as [H1 H2];
    [|by apply inv_block].
  destruct (svc_reserve_many_db u (w_now w) ttl (sku_lines lines) oid (w_inv w)) as [-> | ->].
  { split; [done|apply inv_evolves_refl]. }
  split; [apply atomically_ok; [apply keeps_tx_ok, reserve_many_keeps|done]|].
  apply reserve_many_evolves; [done|]. intros x Hx Hin. exists r. rewrite Hx. split; [done|].
  unfold order_lines. by rewrite Hl.
Qed.

(** *** Payment blocks *)

Definition flipped_pay (p : PayDB) (pid : N) (q' : Payment) (ev : list PaymentEvent) : PayDB :=
  MkPayDB (<[pid := q']> (payments p)) (pay_outbox p ++ ev) (next_payment p).

(** One row advances; a success on a dead order has its refund journaled. *)
Lemma core_flip i o p pid q st ref fail ev :
  CoreOK i o p → payments p !! pid = Some q → payment_evolves (pay_status q) st →
  (st = PSucceeded → in_status o (pay_order q) CANCELLED → refund_journaled o (pay_order q)) →
  CoreOK i o (flipped_pay p pid (with_outcome st ref fail q) ev) ∧
  core_evolves i o p i o (flipped_pay p pid (with_outcome st ref fail q) ev).
Proof.
  intros HC Hq Hev Hj. apply core_pay_update; [done..| | |].
  - intros id q1 Hq1. simpl. destruct (decide (id = pid)) as [->|Hne].
    + rewrite lookup_insert_eq. eexists. split; [done|]. by simplify_eq.
    + rewrite lookup_insert_ne by done. exists q1. split_and!; [done..|by left].
  - intros id q1. simpl. destruct (decide (id = pid)) as [->|Hne]; [by eauto|].
    rewrite lookup_insert_ne by done. by eauto.
  - intros id q1 q1' Hq1 Hq1' Hp Hs. simpl in Hq1'. destruct (decide (id = pid)) as [->|Hne].
    + rewrite lookup_insert_eq in Hq1'. simplify_eq/=. by apply Hj.
    + rewrite lookup_insert_ne in Hq1' by done. congruence.
Qed.

(** The hook of a successful charge: a dead order gets its refund journaled. *)
Lemma refund_hook_spec i o p now oid r o' :
  CoreOK i o p → journal_refund_if_cancelled now oid o = (r, o') →
  CoreOK i o' p ∧ core_evolves i o p i o' p ∧
  (in_status o' oid CANCELLED → refund_journaled o' oid) ∧ (∀ id, orders o' !! id = orders o !! id).
Proof.
  intros HC. unfold journal_refund_if_cancelled, mbind, ST_bind, get_order_status.
  case_decide as Hc; intros H.
  - destruct (orders o !! oid) as [row|] eqn:Hrow; [|done].
    pose proof (core_request_refund i o p now oid HC) as [? ?]. rewrite H in *. simpl in *.
    destruct (request_refund_once_spec now oid o r o' (mk_is_Some _ _ Hrow) H) as (_ & Hj & Ho).
    split_and!; [done..|]. intros id. by destruct Ho as [-> | ->].
  - unfold mret, ST_ret in H. simplify_eq. split_and!; [done|apply core_evolves_refl| |done].
    intros (row & Hrow & Hst). rewrite Hrow in Hc. simpl in Hc. congruence.
Qed.

(** [transition] without a hook: nothing happened, or the row advanced. *)
Lemma pay_transition_plain pid st ref fail f expect (w : W) res w' :
  pay_transition pid st ref fail (Some f) expect None w = (res, w') →
  (w' = w ∧ (∀ q, res ≠ Ok (Some q)) ∧
   (res = Ok None → ∀ q, payments (w_pay w) !! pid = Some q → pay_status q ≠ expect)) ∨
  ∃ q, payments (w_pay w) !! pid = Some q ∧ pay_status q = expect ∧
    res = Ok (Some (with_outcome st ref fail q)) ∧
    w' = set_pay (flipped_pay (w_pay w) pid (with_outcome st ref fail q) [f (with_outcome st ref fail q)]) w.
Proof.
  unfold pay_transition, transition, begin_nested, mbind, ST_bind, zoom, flip_payment. simpl.
  destruct (payments (w_pay w) !! pid) as [q|] eqn:Hq.
  2:{ intros; simplify_eq/=. left. split_and!; [by destruct w|done|]. congruence. }
  case_decide as He.
  2:{ intros; simplify_eq/=. left. split_and!; [by destruct w|done|]. congruence. }
  case_decide; [|intros; simplify_eq/=; by left; split_and!].
  unfold modify, mret, ST_ret, pay_get. simpl. rewrite lookup_insert_eq.
  intros; simplify_eq/=. right. exists q. split_and!; [done..|]. by destruct w.
Qed.

(** [transition] with the refund hook. *)
Lemma pay_transition_hook pid st ref fail f expect (w : W) res w' :
  pay_transition pid st ref fail (Some f) expect (Some refund_hook) w = (res, w') →
  (w' = w ∧ (∀ q, res ≠ Ok (Some q))) ∨
  ∃ q r o', payments (w_pay w) !! pid = Some q ∧ pay_status q = expect ∧
    res = Ok (Some (with_outcome st ref fail q)) ∧
    journal_refund_if_cancelled (w_now w) (pay_order q) (w_ord w) = (r, o') ∧
    w' = set_ord o' (set_pay (flipped_pay (w_pay w) pid (with_outcome st ref fail q)
                                [f (with_outcome st ref fail q)]) w).
Proof.
  unfold pay_transition, transition, begin_nested, mbind, ST_bind, zoom, flip_payment. simpl.
  destruct (payments (w_pay w) !! pid) as [q|] eqn:Hq.
  2:{ intros; simplify_eq/=. left. by destruct w. }
  case_decide as He.
  2:{ intros; simplify_eq/=. left. by destruct w. }
  case_decide; [|intros; simplify_eq/=; by left].
  unfold modify, mret, ST_ret, pay_get, refund_hook, ord_op, at_now, zoom. simpl.
  destruct (journal_refund_if_cancelled _ _ _) as [[[]|e] o'] eqn:E;
    [|intros; simplify_eq/=; by left].
  simpl. rewrite lookup_insert_eq. intros; simplify_eq/=. right. exists q, (Ok tt), o'.
  split_and!; [done..|]. by destruct w.
Qed.

Lemma plain_block pid st ref fail f expect w :
  WInv w → st ≠ PSucceeded → payment_evolves expect st →
  WInv (pay_transition pid st ref fail (Some f) expect None w).2 ∧
  evolves w (pay_transition pid st ref fail (Some f) expect None w).2.
Proof.
  intros HI Hst Hev. destruct (pay_transition _ _ _ _ _ _ _ w) as [res w'] eqn:E. simpl.
  apply pay_transition_plain in E as [(-> & _)|(q & Hq & He & _ & ->)]; [by split|].
  apply core_block; [done..|]. simpl. apply core_flip; [apply HI|done|by rewrite He|done].
Qed.

Lemma keeps_pay_failed pid ref fail :
  keeps (pay_transition pid PFailed ref fail (Some payment_failed_outbox) PPending None).
Proof. intros w HI. apply plain_block; [done..|]. by right; left. Qed.

Lemma keeps_pay_refunded pid ref :
  keeps (pay_transition pid PRefunded ref None (Some payment_refunded_outbox) PSucceeded None).
Proof. intros w HI. apply plain_block; [done..|]. by right; right. Qed.

Lemma keeps_pay_succeeded pid ref :
  keeps (pay_transition pid PSucceeded ref None (Some payment_succeeded_outbox) PPending (Some refund_hook)).
Proof.
  intros w HI. destruct (pay_transition _ _ _ _ _ _ _ w) as [res w'] eqn:E. simpl.
  apply pay_transition_hook in E as [(-> & _)|(q & r & o' & Hq & He & _ & Hh & ->)]; [by split|].
  apply core_block; [done..|]. simpl.
  apply (refund_hook_spec _ _ _ _ _ _ _ (wi_core w HI)) in Hh as (HC & Hev & Hj & _).
  destruct (core_flip _ _ _ pid q PSucceeded ref None [payment_succeeded_outbox (with_outcome PSucceeded ref None q)]
    HC Hq) as [? ?]; [by right; left|by auto|]. split; [done|]. by eapply core_evolves_trans.
Qed.

Lemma create_pending_block oid user key lines w pkey :
  WInv w → drives oid user key lines w → pkey = payment_key_for user key →
  let m := pay_op (λ now, atomically (create_pending now oid pkey (total_of lines))) in
  WInv (m w).2 ∧ evolves w (m w).2 ∧
  ∀ q b, (m w).1 = Ok (q, b) → payments (w_pay (m w).2) !! pay_id q = Some q ∧ pay_key q = pkey.
Proof.
  intros HI (r & Hr & Hu & Hk & Hl) -> m. unfold m, pay_op, at_now, zoom. cbn [view put pay_lens].
  unfold create_pending. rewrite atomically_nested. fold (create_pending (w_now w) oid
    (payment_key_for user key) (total_of lines)).
  destruct (create_pending _ _ _ _ _) as [res p'] eqn:E. cbn [fst snd].
  destruct (ck_ord _ _ _ (wi_core w HI) _ _ Hr) as (_ & _ & _ & Ht).
  eapply (core_create_pending (inv_db (w_inv w)) (w_ord w)) in E as (HC & Hev & Hpost);
    [|apply HI|exact Hr|unfold order_payment_key; by rewrite Hu, Hk|by rewrite Ht, Hl].
  assert (WInv (set_pay p' w) ∧ evolves w (set_pay p' w)) as [? ?] by by apply core_block.
  split_and!; [done..|]. intros q b ->. exact Hpost.
Qed.

(** *** What a full commit proves *)

Lemma committed_lines_nodup i oid :
  InvOK i → NoDup ((λ x, (res_sku x, res_qty x)) <$> claim_order oid COMMITTED i).
Proof.
  intros HI. apply (NoDup_fmap_1 fst). rewrite <- list_fmap_compose.
  pose proof (ok_unique i HI) as Hnd.
  assert (NoDup (line_key <$> claim_order oid COMMITTED i)) as Hk.
  { assert (claim_order oid COMMITTED i =
      filter (λ x, res_order_id x = oid ∧ res_status x = COMMITTED) (filter active (reservations i))) as ->.
    { unfold claim_order. rewrite list_filter_filter. apply list_filter_iff. intros x. unfold active. naive_solver. }
    eapply sublist_NoDup; [exact Hnd|]. apply fmap_sublist, sublist_filter. }
  revert Hk. assert (∀ x, x ∈ claim_order oid COMMITTED i → res_order_id x = oid) as Ho.
  { intros x [[? _] _]%list_elem_of_filter. done. }
  revert Ho. induction (claim_order oid COMMITTED i) as [|x l IH]; intros Ho; simpl; [by constructor|].
  intros [Hx Hl]%NoDup_cons. apply NoDup_cons. split; [|apply IH; [set_solver|done]].
  intros (y & Hy & Hin)%list_elem_of_fmap. apply Hx. apply list_elem_of_fmap. exists y. split; [|done].
  unfold line_key. simpl in Hy. rewrite (Ho x), (Ho y) by set_solver. by rewrite Hy.
Qed.

(** Enough committed rows cover every line: they are distinct lines of the order. *)
Lemma committed_covers i o p oid r :
  CoreOK i o p → orders o !! oid = Some r →
  (length (order_lines r) ≤ length (claim_order oid COMMITTED i))%nat →
  ∀ line, line ∈ order_lines r → line_committed i oid line.
Proof.
  intros HC Hr Hlen line Hline.
  assert (line ∈ ((λ x : Reservation, (res_sku x, res_qty x)) <$> claim_order oid COMMITTED i)) as Hin.
  { refine (NoDup_covers _ _ (committed_lines_nodup i oid (ck_inv _ _ _ HC)) _ _ line Hline); [|by rewrite length_fmap].
    intros y (x & -> & Hx)%list_elem_of_fmap. apply list_elem_of_filter in Hx as [[Ho Hs] Hx].
    destruct (ck_holds _ _ _ HC x Hx) as (r' & Hr' & Hl'); [by right|]. rewrite Ho in Hr'. congruence. }
  apply list_elem_of_fmap in Hin as (x & -> & Hx). apply list_elem_of_filter in Hx as [[Ho Hs] Hx].
  exists x. split_and!; [done..| |done]. unfold line_key. by rewrite Ho.
Qed.

Lemma commit_covers oid user key lines w n :
  WInv w → drives oid user key lines w →
  (inv_op (λ _, svc_commit_for_order oid (length lines)) w).1 = Ok n → (length lines ≤ n)%nat →
  covered oid lines (inv_op (λ _, svc_commit_for_order oid (length lines)) w).2.
Proof.
  intros HI (r & Hr & _ & _ & Hl) Hok Hle.
  destruct (keeps_commit oid (length lines) w HI) as [HI' _]. right. revert Hok HI'.
  unfold inv_op, at_now, zoom. simpl.
  destruct (svc_commit_for_order oid (length lines) (w_inv w)) as [res s'] eqn:E. simpl. intros -> HI' line Hline.
  apply in_tx_Ok in E as [E _].
  destruct (commit_for_order_full _ _ _ _ _ (ck_inv _ _ _ (wi_core w HI)) E Hle) as [Hn _].
  eapply (committed_covers _ _ _ oid r (wi_core _ HI')); [exact Hr| |].
  - simpl. rewrite <- Hn. unfold order_lines. rewrite Hl. unfold sku_lines. by rewrite length_fmap.
  - unfold order_lines. by rewrite Hl.
Qed.
End SagaWorld.
