(* ===== verification/OrdersService.v ===== *)
(** * OrdersService: ownership-checked reads and the user-facing cancel

    src/orders/application/service.py over the shared world, and the other
    coroutines of the deployment that touch an order's money or stock: the
    reservation reaper (src/inventory/adapters/reaper.py) and the clock. *)

From S2P Require Import Prelude Errors UnitOfWork Inventory InventoryService Text Effects.
From S2P Require Import Orders Payments World PaymentsService CheckoutSaga.

(** [_assert_owner] *)
Definition assert_owner (owner_id caller_id : N) (is_admin : bool) : result unit :=
  if decide (owner_id ≠ caller_id ∧ is_admin = false) then Err AuthorizationError else Ok tt.

(** The text of an [OrderStatus] member. *)
Definition status_value (s : OrderStatus) : string :=
  match s with PENDING => "pending" | PAID => "paid" | SHIPPED => "shipped" | CANCELLED => "cancelled" end.

(** [OrderExecutionResponse] *)
Record OrderExecution := MkExecution {
  ex_order : N;
  ex_status : OrderStatus;
  ex_steps : list (string * string * Z)
}.

Section OrdersService.
Context {B G : Type}.
Abbreviation W := (World B G).

(** [get_order] *)
Definition svc_get_order {L} (order_id : N) : frame W L (option OrderResponse) :=
  row ← await (ord_op (λ _, get_order order_id));
  mret (order_response <$> row).

(** The ownership gate the three use-cases share: [None] for an absent row. *)
Definition owned_order {L} (user_id order_id : N) (is_admin : bool) : frame W L (option Order) :=
  row ← await (ord_op (λ _, get_order order_id));
  match row with
  | None => mret None
  | Some r => match assert_owner (ord_user r) user_id is_admin with
              | Ok _ => mret (Some r)
              | Err e => throw e
              end
  end.

(** [get_order_detail] *)
Definition get_order_detail {L} (user_id order_id : N) (is_admin : bool) : frame W L (option OrderResponse) :=
  row ← owned_order user_id order_id is_admin;
  mret (order_response <$> row).

(** [get_execution] *)
Definition get_execution {L} (user_id order_id : N) (is_admin : bool) : frame W L (option OrderExecution) :=
  row ← owned_order user_id order_id is_admin;
  match row with
  | None => mret None
  | Some r =>
      steps ← await (ord_op (λ _, list_saga_steps order_id));
      mret (Some (MkExecution (ord_id r) (ord_status r)
        ((λ e, (Orders.log_step e, log_status e, log_at e)) <$> steps)))
  end.

(** The one transaction of [cancel_order]: flip, release and journal together. *)
Definition cancel_block (order_id : N) : ST W OrderResponse :=
  atomically (
    updated ← order_transition order_id [PENDING] CANCELLED None;
    match updated with
    | None =>
        final ← ord_op (λ _, get_order order_id);
        match final with
        | Some r => if decide (ord_status r = CANCELLED) then mret (order_response r)
                    else raise (OrderStateConflictError "the order settled while cancelling; re-read it")
        | None => raise (OrderStateConflictError "the order settled while cancelling; re-read it")
        end
    | Some _ =>
        inv_op (λ _, svc_release_for_order order_id) ;;
        ord_op (λ now, log_saga_step now order_id "cancel" "completed") ;;
        final ← ord_op (λ _, get_order order_id);
        match final with
        | None => raise RuntimeError
        | Some r => mret (order_response r)
        end
    end).

(** The journal statuses of a charge that may still move money. *)
Definition charge_in_progress (s : option string) : Prop :=
  s = Some "started" ∨ s = Some "completed" ∨ s = Some "unknown".
#[export] Instance charge_in_progress_dec s : Decision (charge_in_progress s).
Proof. unfold charge_in_progress. apply _. Defined.

(** [cancel_order] *)
Definition cancel_order {L} (user_id order_id : N) (is_admin : bool) : frame W L (option OrderResponse) :=
  row ← owned_order user_id order_id is_admin;
  match row with
  | None => mret None
  | Some r =>
      match ord_status r with
      | CANCELLED =>
          await (inv_op (λ _, svc_release_for_order order_id)) ;;
          mret (Some (order_response r))
      | PENDING =>
          charge_state ← await (ord_op (λ _, latest_saga_step order_id "charge"));
          if decide (charge_in_progress charge_state) then
            throw (OrderStateConflictError "payment for this order is in progress; try again once it settles")
          else answer ← await (cancel_block order_id); mret (Some answer)
      | status => throw (OrderStateConflictError
          ("only pending orders can be cancelled (order is " +:+ status_value status +:+ ")"))
      end
  end.

(** [ReservationReaper.sweep_once] *)
Definition reaper_sweep {L} (batch_size : nat) (locked : N → bool) : frame W L nat :=
  await (inv_op (λ now, svc_release_expired now batch_size locked)).

(** Time passes. *)
Definition clock_tick (d : N) : prog W unit := Tick (λ w, set_now (w_now w + Z.of_N d) w) (Ret tt).

(** The merchant changes a price. *)
Definition price_change (product : N) (price : option Z) : prog W unit :=
  Tick (λ w, set_prices (partial_alter (λ _, price) product (w_prices w)) w) (Ret tt).
End OrdersService.
