(* ===== verification/Workers.v ===== *)
(** * Workers: the poll loops of the service-role processes

    src/inventory/adapters/reaper.py, src/bootstrap/payment_reconciler.py and
    src/bootstrap/saga_recovery.py: a sweep for every time the loop finds [stop]
    unset, with its exceptions caught, and a sleep when the sweep left nothing to
    drain.  The command lines, signal handlers and metrics ports are not modelled. *)

From Stdlib Require Import String.
From S2P Require Import Prelude Errors UnitOfWork Inventory InventoryService Effects Orders Payments World.
From S2P Require Import PaymentsService CheckoutSaga OrdersService AppConfig.

Section Loop.
Context {W L A C : Type}.

(** [contextlib.suppress(TimeoutError): await asyncio.wait_for(stop.wait(), ...)] *)
Definition idle_sleep : frame W L unit :=
  try_catch (await (mret tt)) (λ e, if decide (e = TimeoutError) then mret tt else throw e).

(** One turn: [except Exception] answers with [failed]. *)
Definition turn (failed : A) (sweep : frame W L A) : frame W L A :=
  try_catch sweep (λ e, if is_Exception e then mret failed else throw e).

(** [run]: the loop finds [stop] unset once for every element of [turns], which says
    what the sweep of that turn meets. *)
Fixpoint poll_loop (failed : A) (idle : A → bool) (sweep : C → frame W L A) (turns : list C) : frame W L unit :=
  match turns with
  | [] => mret tt
  | c :: turns =>
      answer ← turn failed (sweep c);
      (if idle answer then idle_sleep else mret tt) ;;
      poll_loop failed idle sweep turns
  end.
End Loop.

Section Workers.
Context {B G : Type} `{!BasketPort B} `{!PaymentGateway G} (cfg : Settings) (s : AppSettings).
Notation W := (World B G).

(** A full batch means there may be more. *)
Definition short_of (batch : nat) (n : nat) : bool := bool_decide (n < batch)%nat.

(** [ReservationReaper.run] and [run_reaper]; a turn is the rows others hold locked. *)
Definition reaper_run {L} (batch : nat) (turns : list (N → bool)) : frame W L unit :=
  poll_loop 0%nat (short_of batch) (reaper_sweep batch) turns.
Definition run_reaper {L} (once : bool) (turns : list (N → bool)) : frame W L nat :=
  let batch := Z.to_nat (reservation_reaper_batch_size s) in
  match once, turns with
  | true, locked :: _ => reaper_sweep batch locked
  | _, _ => reaper_run batch turns ;; mret 0%nat
  end.

(** [PaymentReconciler.sweep_once], its [run] and [run_reconciler]. *)
Definition reconciler_run {L} (batch : nat) (turns : list unit) : frame W L unit :=
  poll_loop 0%nat (short_of batch) (λ _, reconcile cfg batch) turns.
Definition run_reconciler {L} (once : bool) (turns : list unit) : frame W L nat :=
  let batch := Z.to_nat (payment_reconciliation_batch_size s) in
  if once then reconcile cfg batch else reconciler_run batch turns ;; mret 0%nat.

(** [SagaRecovery.sweep_once]: the session, and the cutoff off the clock. *)
Definition recovery_sweep {L} (locked : N → bool) : frame W L (gmap string nat) :=
  cutoff ← await (λ w, (Ok (w_now w - checkout_saga_step_timeout_seconds s), w));
  recover_stuck cfg cutoff (Z.to_nat (checkout_saga_recovery_batch_size s)) locked.
(** [sum(settled.values()) == 0] *)
Definition nothing_settled (m : gmap string nat) : bool := bool_decide (sum_list (map_to_list m).*2 = 0%nat).
Definition recovery_run {L} (turns : list (N → bool)) : frame W L unit :=
  poll_loop no_outcome nothing_settled recovery_sweep turns.
Definition run_recovery {L} (once : bool) (turns : list (N → bool)) : frame W L (gmap string nat) :=
  match once, turns with
  | true, locked :: _ => recovery_sweep locked
  | _, _ => recovery_run turns ;; mret no_outcome
  end.
End Workers.
