(* ===== verification/WorkersFacts.v ===== *)
(** * WorkersFacts: the reaper drains

    Left alone for as many turns as its batches need, the reaper's loop gives back
    every expired hold and nothing else. *)

From Stdlib Require Import String.
From stdpp Require Import sorting.
From S2P Require Import Prelude Errors UnitOfWork Inventory InventoryInv InventoryHolds InventoryService.
From S2P Require Import Effects Orders Payments World PaymentsService CheckoutSaga OrdersService AppConfig Workers.

(** ** Expired holds *)

Definition expired_hold (now : Z) (r : Reservation) : Prop := res_status r = HELD ∧ res_expires_at r ≤ now.
#[export] Instance expired_hold_dec now r : Decision (expired_hold now r).
Proof. unfold expired_hold. apply _. Defined.
Definition expired (now : Z) (d : InvDB) : list Reservation := filter (expired_hold now) (reservations d).
(** What is left of a reservation when every expired hold has been released. *)
Definition reaped (now : Z) (r : Reservation) : Reservation :=
  if decide (expired_hold now r) then set_status RELEASED r else r.

Definition unlocked (_ : N) : bool := false.

Lemma claim_expired_unlocked now batch d :
  claim_expired now batch unlocked d = take batch (merge_sort expires_le (expired now d)).
Proof. unfold claim_expired, expired, expired_hold, unlocked. do 2 f_equal. apply list_filter_iff. naive_solver. Qed.

Lemma claimed_length now batch d :
  length (claim_expired now batch unlocked d) = Nat.min batch (length (expired now d)).
Proof. rewrite claim_expired_unlocked, length_take. by rewrite (Permutation_length (merge_sort_Permutation expires_le _)). Qed.

Lemma claimed_expired now batch d r : r ∈ claim_expired now batch unlocked d → r ∈ expired now d.
Proof.
  rewrite claim_expired_unlocked. intros Hr. rewrite <- (merge_sort_Permutation expires_le).
  eapply elem_of_take in Hr as (i & Hi & _). by eapply list_elem_of_lookup_2.
Qed.

(** Releasing a claim takes exactly its rows out of the expired ones. *)
Lemma expired_after now rows d d' :
  reservations d' = mark RELEASED rows <$> reservations d → expired now d' = filter (λ r, r ∉ rows) (expired now d).
Proof.
  unfold expired. intros ->. induction (reservations d) as [|r l IH]; [done|]. rewrite fmap_cons, !filter_cons.
  destruct (decide (r ∈ rows)) as [Hr|Hr].
  - rewrite (mark_in _ _ _ Hr). rewrite decide_False by by intros []. rewrite IH.
    destruct (decide (expired_hold now r)); [|done]. by rewrite filter_cons_False by tauto.
  - assert (mark RELEASED rows r = r) as -> by (unfold mark; by rewrite decide_False).
    rewrite IH. destruct (decide (expired_hold now r)); [|done]. by rewrite filter_cons_True.
Qed.

Lemma expired_after_length now rows d :
  NoDup rows → NoDup (expired now d) → (∀ r, r ∈ rows → r ∈ expired now d) →
  (length (filter (λ r, r ∉ rows) (expired now d)) = length (expired now d) - length rows)%nat.
Proof.
  intros H1 H2 Hin. pose proof (Permutation_length (filter_app_complement (λ r, r ∈ rows) (expired now d))) as Hp.
  rewrite length_app in Hp. enough (length (filter (λ r, r ∈ rows) (expired now d)) = length rows) by lia.
  apply Permutation_length, NoDup_Permutation; [by apply NoDup_filter|done|].
  intros r. rewrite list_elem_of_filter. naive_solver.
Qed.

Lemma reaped_mark now rows r :
  (∀ x, x ∈ rows → expired_hold now x) → reaped now (mark RELEASED rows r) = reaped now r.
Proof.
  intros Hrows. unfold mark. destruct (decide (r ∈ rows)) as [Hr|]; [|done].
  unfold reaped. rewrite (decide_False (P:=expired_hold now (set_status RELEASED r))) by by intros [].
  by rewrite decide_True by by apply Hrows.
Qed.

(** A move counts the version of its row up by one. *)
Lemma settle_loop_version mutate a b `{!StockMove mutate a b} announce what rows : ∀ d d',
  for_each rows (settle_body mutate announce what) d = (Ok tt, d') →
  ∀ sku row', stock d' !! sku = Some row' →
  ∃ row, stock d !! sku = Some row ∧ version row ≤ version row' ≤ version row + Z.of_nat (length rows).
Proof.
  induction rows as [|r rows IH]; intros d d' H sku row' Hr.
  - simpl in H. st_simp. simplify_eq. exists row'. simpl. split; [done|lia].
  - simpl in H. unfold mbind, ST_bind in H. destruct (settle_body _ _ _ r d) as [[[]|e] d1] eqn:E; [|done].
    apply (settle_body_inv mutate a b) in E as (row & Hs & _ & _ & ->).
    destruct (IH _ _ H _ _ Hr) as (row1 & H1 & Hv). simpl in H1. rewrite length_cons.
    destruct (decide (res_sku r = sku)) as [<-|Hne].
    + rewrite lookup_insert_eq in H1. simplify_eq. exists row. simpl in Hv. split; [done|lia].
    + rewrite lookup_insert_ne in H1 by done. exists row1. split; [done|lia].
Qed.

Lemma settle_rows_version mutate a b `{!StockMove mutate a b} announce st what rows d d' :
  settle_rows mutate announce st what rows d = (Ok tt, d') → version_room (length rows) d →
  ∀ n, version_room (length rows + n) d → version_room n d'.
Proof.
  rewrite settle_rows_unfold. unfold mbind, ST_bind. destruct (for_each _ _ d) as [[[]|e] d1] eqn:E; [|done].
  intros H _ n Hroom sku row' Hr. unfold mark_batch, modify in H. simplify_eq/=.
  destruct (settle_loop_version mutate a b announce what rows _ _ E sku row' Hr) as (row & Hs & Hv).
  destruct (Hroom _ _ Hs). lia.
Qed.

(** ** One sweep *)

Lemma release_expired_runs now batch d :
  InvOK d → version_room (length (expired now d)) d →
  let rows := claim_expired now batch unlocked d in
  ∃ d', atomically (release_expired now batch unlocked) d = (Ok (length rows), d') ∧ InvOK d' ∧
    reservations d' = mark RELEASED rows <$> reservations d ∧
    version_room (length (expired now d) - length rows) d'.
Proof.
  intros HI Hroom rows. pose proof (claim_expired_batch d now batch unlocked HI) as HB. fold rows in HB.
  assert (length rows ≤ length (expired now d))%nat as Hle by (unfold rows; rewrite claimed_length; lia).
  destruct (settle_rows_ok unreserve_sql 0 (-1) true HELD RELEASED "reaper unreserve" rows d)
    as (d' & Hd' & HS); [done|done|lia|lia| |].
  { intros sku row Hs. destruct (Hroom _ _ Hs). destruct (ok_rows d HI _ _ Hs) as [Hc Hi].
    pose proof (held_batch_fits d rows sku row HI HB Hs).
    unfold stock_check, stock_int4, moved in *; simpl; split_and!; try lia. unfold int4 in *. lia. }
  assert (version_room (length rows + (length (expired now d) - length rows)) d) as Hroom'
    by (replace (length rows + _)%nat with (length (expired now d)) by lia; done).
  destruct rows as [|r rows'] eqn:Er.
  - exists d. unfold atomically, begin_nested, release_expired. fold rows. rewrite Er. simpl. split_and!; [done|done| |done].
    apply (settled_rows _ _ _ _ _ _ _ (settled_nil 0 0 true RELEASED d)).
  - exists d'. unfold atomically, begin_nested, release_expired. fold rows. rewrite Er.
    unfold mbind, ST_bind. rewrite Hd'. split_and!; [done| |apply HS|].
    + by eapply settled_InvOK; eauto with shop.
    + eapply (settle_rows_version unreserve_sql 0 (-1)); [exact Hd'| |exact Hroom']. intros sku row Hs. destruct (Hroom _ _ Hs). lia.
Qed.

Lemma sweep_releases now batch s :
  InvOK (inv_db s) → version_room (length (expired now (inv_db s))) (inv_db s) →
  let n := Nat.min batch (length (expired now (inv_db s))) in
  ∃ s', svc_release_expired now batch unlocked s = (Ok n, s') ∧ InvOK (inv_db s') ∧
    length (expired now (inv_db s')) = (length (expired now (inv_db s)) - n)%nat ∧
    version_room (length (expired now (inv_db s'))) (inv_db s') ∧
    reaped now <$> reservations (inv_db s') = reaped now <$> reservations (inv_db s).
Proof.
  intros HI Hroom n. destruct (release_expired_runs now batch _ HI Hroom) as (d' & Hrun & HI' & Hres & Hroom').
  pose proof (claimed_length now batch (inv_db s)) as Hlen. fold n in Hlen.
  pose proof (claim_expired_batch (inv_db s) now batch unlocked HI) as HB.
  assert (length (expired now d') = (length (expired now (inv_db s)) - n)%nat) as Hexp.
  { rewrite (expired_after _ _ _ _ Hres), expired_after_length, Hlen; [done|apply HB| |apply claimed_expired].
    apply NoDup_filter, NoDup_res_ids, HI. }
  exists (if decide (n = 0%nat) then set_db d' s else inc_reaped n (set_db d' s)).
  assert (inv_db (if decide (n = 0%nat) then set_db d' s else inc_reaped n (set_db d' s)) = d') as Hdb by by case_decide.
  rewrite Hdb. split_and!; [|done|done|by rewrite Hexp, <- Hlen|].
  - unfold svc_release_expired, in_tx. rewrite Hrun, Hlen. done.
  - rewrite Hres, <- list_fmap_compose. apply list_fmap_ext. intros i r _. apply reaped_mark.
    intros x Hx%claimed_expired. by apply list_elem_of_filter in Hx as [? _].
Qed.

(** ** The loops *)

Section Loops.
Context {B G : Type} `{!BasketPort B} `{!PaymentGateway G}.
Notation W := (World B G).

Lemma sweep_turn batch (w : W) :
  InvOK (inv_db (w_inv w)) → version_room (length (expired (w_now w) (inv_db (w_inv w)))) (inv_db (w_inv w)) →
  ∃ s' n, run (turn 0%nat (reaper_sweep batch unlocked) tt) w = (Ok n, tt, set_inv s' w) ∧ InvOK (inv_db s') ∧
    (length (expired (w_now w) (inv_db s')) = length (expired (w_now w) (inv_db (w_inv w))) - batch)%nat ∧
    version_room (length (expired (w_now w) (inv_db s'))) (inv_db s') ∧
    reaped (w_now w) <$> reservations (inv_db s') = reaped (w_now w) <$> reservations (inv_db (w_inv w)).
Proof.
  intros HI Hroom. destruct (sweep_releases (w_now w) batch (w_inv w) HI Hroom) as (s' & Hrun & HI' & Hlen & Hroom' & Hres).
  eexists s', _. split.
  - unfold turn, try_catch, reaper_sweep, await, inv_op, at_now, zoom. simpl. rewrite Hrun. done.
  - split_and!; [done| |done|done]. rewrite Hlen. lia.
Qed.

(** C34: The reaper gives back what stalled checkouts hold. Left alone, for as many turns
    as batches cover the expired holds, the loop comes to its end without an error; no
    hold is past its expiry any more, the expired ones are released and every other
    reservation is as it was, and the books balance: every stock row counts exactly
    the holds that are left. *)
Theorem reaper_drains (batch turns : nat) (w : W) (HI : InvOK (inv_db (w_inv w)))
    (Hroom : version_room (length (expired (w_now w) (inv_db (w_inv w)))) (inv_db (w_inv w)))
    (Henough : (length (expired (w_now w) (inv_db (w_inv w))) ≤ turns * batch)%nat) :
  ∃ s', run (reaper_run batch (replicate turns unlocked) tt) w = (Ok tt, tt, set_inv s' w) ∧
    expired (w_now w) (inv_db s') = [] ∧ InvOK (inv_db s') ∧
    reservations (inv_db s') = reaped (w_now w) <$> reservations (inv_db (w_inv w)).
Proof.
  revert w HI Hroom Henough. induction turns as [|turns IH]; intros w HI Hroom Henough.
  - exists (w_inv w). assert (expired (w_now w) (inv_db (w_inv w)) = []) as Hnil by (apply nil_length_inv; simpl in Henough; lia).
    split_and!; [by destruct w|done|done|]. rewrite <- (list_fmap_id (reservations _)) at 1. apply list_fmap_ext.
    intros i r Hr%list_elem_of_lookup_2. unfold reaped. rewrite decide_False; [done|]. intros He.
    assert (r ∈ expired (w_now w) (inv_db (w_inv w))) as Hin by by apply list_elem_of_filter. rewrite Hnil in Hin.
    by apply not_elem_of_nil in Hin.
  - destruct (sweep_turn batch w HI Hroom) as (s1 & n & Hrun & HI1 & Hlen & Hroom1 & Hres).
    destruct (IH (set_inv s1 w)) as (s' & Hrun' & Hnil & HI' & Hres'); [done|done|simpl; simpl in Henough; lia|].
    exists s'. simpl in Hrun', Hnil, Hres'. rewrite Hres' , Hres. split_and!; [|done..].
    unfold reaper_run in *. cbn [replicate poll_loop]. rewrite run_bind, Hrun, run_bind.
    destruct (short_of batch n); exact Hrun'.
Qed.
End Loops.
