(* ===== verification/SagaSafety.v ===== *)
(** * SagaSafety: every coroutine keeps the invariant

    For each coroutine of the saga, the payments service and the orders service,
    a [wpf] lemma: whatever the other coroutines do between its blocks, and
    whichever blocks fail, every block keeps [WInv] and [evolves] the world.  The
    post-conditions carry what later steps rely on: a charge that answered
    [succeeded] is recorded, a commit that answered in full owns the stock, a
    refund that answered [true] is a refunded payment, a checkout that answered
    is a paid order. *)

From S2P Require Import Prelude Errors UnitOfWork Inventory InventoryInv InventoryHolds InventoryService.
From S2P Require Import Text Effects Orders Payments World PaymentsService CheckoutSaga.
From S2P Require Import OrdersService SagaInv SagaSteps SagaWorld.

Section Safety.
Context {B G : Type} `{!BasketPort B} `{!PaymentGateway G}.
Context (cfg : Settings).
Abbreviation W := (World B G).

(** The rules, at this invariant. *)
Abbreviation wpf := (wpf (W:=W) WInv evolves).

Definition any {A L} : A → L → W → Prop := λ _ _ _, True.

Section Rules.
Context {L A : Type}.
Implicit Types (Q : A → L → W → Prop) (E : exn → L → W → Prop).

Lemma step_bind {X} (p : frame W L X) (f : X → frame W L A) l (Q1 : X → L → W → Prop) Q E w :
  wpf p l Q1 E w →
  (∀ a l' w', evolves w w' → Q1 a l' w' → wpf (f a) l' Q E w') → wpf (p ≫= f) l Q E w.
Proof.
  intros Hp Hf. apply wpf_bind; [apply _|]. revert Hp. apply wpf_mono; [apply _|by auto|done].
Qed.

Lemma step_try (p : frame W L A) h l Q E (E1 : exn → L → W → Prop) w :
  wpf p l Q E1 w →
  (∀ e l' w', evolves w w' → E1 e l' w' → wpf (h e) l' Q E w') → wpf (try_catch p h) l Q E w.
Proof.
  intros Hp Hf. apply wpf_try; [apply _|]. revert Hp. apply wpf_mono; [apply _|done|by auto].
Qed.

(** One block: what it needs, what its answer tells, what a fault leaves. *)
Lemma step_await (m : ST W A) l Q E w0 :
  (∀ w, WInv w → evolves w0 w → WInv (m w).2 ∧ evolves w (m w).2) →
  (∀ w a, WInv w → evolves w0 w → WInv (m w).2 → evolves w (m w).2 → (m w).1 = Ok a → Q a l (m w).2) →
  (∀ e w, WInv w → evolves w0 w → E e l w) →
  wpf (await m) l Q E w0.
Proof.
  intros Hk HQ HE. apply wpf_await. intros w r w' HI He Ho.
  destruct (Hk w HI He) as [HI' He']. destruct Ho as [|e Hf|e Hf].
  - split_and!; [done..|]. destruct ((m w).1) as [a|e] eqn:Em; [by apply HQ|].
    apply HE; [done|]. by etrans.
  - split_and!; [done|done|]. by apply HE.
  - split_and!; [done..|]. apply HE; [done|]. by etrans.
Qed.

(** A block that needs nothing and whose answer is not looked at. *)
Lemma step_keeps (m : ST W A) l Q E w0 :
  keeps m → (∀ a w, evolves w0 w → Q a l w) → (∀ e w, evolves w0 w → E e l w) → wpf (await m) l Q E w0.
Proof.
  intros Hk HQ HE. apply step_await.
  - intros w HI _. by apply Hk.
  - intros w a _ He _ He' _. apply HQ. by etrans.
  - auto.
Qed.

Lemma step_ret (a : A) l Q E w : Q a l w → wpf (mret a) l Q E w.
Proof. done. Qed.

Lemma step_throw e l Q E w : E e l w → wpf (throw e) l Q E w.
Proof. done. Qed.

Lemma step_weaken (p : frame W L A) l Q E w : wpf p l any any w → (∀ a l' w', evolves w w' → Q a l' w') →
  (∀ e l' w', evolves w w' → E e l' w') → wpf p l Q E w.
Proof. intros Hp HQ HE. revert Hp. apply wpf_mono; [apply _|by auto..]. Qed.
End Rules.

Lemma step_effect {L} name label (l : L) (Q : unit → L → W → Prop) E w0 :
  (∀ w, evolves w0 w → Q tt l w) → wpf (effect (inc name label)) l Q E w0.
Proof.
  intros HQ. apply wpf_effect. intros w HI He. destruct (keeps_inc name label w HI) as [? ?].
  split_and!; [done..|]. apply HQ. by etrans.
Qed.

(** [p] keeps the invariant, whatever it answers. *)
Abbreviation safe_frame p l w := (wpf p l any any w).

Lemma safe_bind {L X A} (p : frame W L X) (f : X → frame W L A) l w :
  safe_frame p l w → (∀ a l' w', evolves w w' → safe_frame (f a) l' w') → safe_frame (p ≫= f) l w.
Proof. intros Hp Hf. eapply step_bind; [exact Hp|]. auto. Qed.

Lemma safe_try {L A} (p : frame W L A) h l w :
  safe_frame p l w → (∀ e l' w', evolves w w' → safe_frame (h e) l' w') → safe_frame (try_catch p h) l w.
Proof. intros Hp Hh. eapply step_try; [exact Hp|]. auto. Qed.

Lemma safe_timeout {L A} timer (p : frame W L A) l w : safe_frame p l w → safe_frame (timeout timer p) l w.
Proof. intros Hp. apply wpf_timeout; [apply _|]. revert Hp. by apply wpf_mono; [apply _|..]. Qed.

Lemma safe_keeps {L A} (m : ST W A) (l : L) w : keeps m → safe_frame (await m) l w.
Proof. intros Hk. by apply step_keeps. Qed.

Lemma safe_ret {L A} (a : A) (l : L) w : safe_frame (mret a) l w.
Proof. done. Qed.

Lemma safe_throw {L A} e (l : L) w : safe_frame (throw (A:=A) e) l w.
Proof. done. Qed.

Lemma safe_effect {L} name label (l : L) w : safe_frame (effect (inc name label)) l w.
Proof. by apply step_effect. Qed.

Lemma safe_set {L} f (l : L) w : safe_frame (set_locals f) l w.
Proof. done. Qed.

Lemma safe_call {L L' A} (l0 : L') (p : frame W L' A) (l : L) w : safe_frame p l0 w → safe_frame (call l0 p) l w.
Proof. intros Hp. apply wpf_call; [apply _|]. exact Hp. Qed.

Lemma safe_best_effort {L} (p : frame W L unit) l w : safe_frame p l w → safe_frame (best_effort p) l w.
Proof. intros Hp. apply safe_try; [done|]. intros e l' w' _. by destruct (is_Exception e). Qed.

Lemma safe_iterate {L X} (xs : list X) (body : X → frame W L unit) l w :
  (∀ x l' w', evolves w w' → safe_frame (body x) l' w') → safe_frame (iterate xs body) l w.
Proof.
  revert l w. induction xs as [|x xs IH]; intros l w Hb; [apply safe_ret|].
  apply safe_bind; [by apply Hb|]. intros [] l' w' He. apply IH. intros y l1 w1 He1. apply Hb. by etrans.
Qed.
End Safety.

Create HintDb saga.
#[export] Hint Resolve safe_ret safe_throw safe_effect safe_set : saga.
#[export] Hint Resolve keeps_gw keeps_cart keeps_pure keeps_ord_read keeps_pay_read keeps_cancel
  keeps_claim_stuck keeps_claim_refund keeps_release keeps_commit keeps_expired
  keeps_pay_failed keeps_pay_refunded keeps_pay_succeeded : saga.

(** Walk through a coroutine whose answers do not matter. *)
Ltac safe_step :=
  first
    [ solve [eauto with saga]
    | apply safe_keeps; solve [eauto with saga]
    | apply safe_bind; [|intros ????]
    | apply safe_try; [|intros ????]
    | apply safe_timeout
    | apply safe_best_effort
    | case_match ].
Ltac safe_walk := repeat safe_step.

(** ** The payments service *)

Section Payments.
Context {B G : Type} `{!BasketPort B} `{!PaymentGateway G}.
Context (cfg : Settings).
Abbreviation W := (World B G).
Abbreviation wpf := (wpf (W:=W) WInv evolves).

Lemma safe_get_by_key {L} key (l : L) w : wpf (svc_get_by_key key) l any any w.
Proof. unfold svc_get_by_key, pay_get_by_key. safe_walk. Qed.

Lemma safe_apply_outcome {L} pid oc ref fail (l : L) w : wpf (apply_outcome pid oc ref fail) l any any w.
Proof. unfold apply_outcome. safe_walk. Qed.

(** The payment row [pid] carries the key. *)
Definition row_key (pid : N) (key : string) (w : W) : Prop :=
  ∃ q, payments (w_pay w) !! pid = Some q ∧ pay_key q = key.

Lemma row_key_mono pid key w w' : evolves w w' → row_key pid key w → row_key pid key w'.
Proof.
  intros He (q & Hq & Hk). destruct (ev_payments _ _ _ _ _ _ He _ _ Hq) as (q' & Hq' & Hs & _).
  exists q'. split; [done|]. unfold same_payment in Hs. intuition congruence.
Qed.

Lemma row_charge_at pid key q w :
  row_key pid key w → payments (w_pay w) !! pid = Some q → charge_at key (pay_status q) w.
Proof. intros (q0 & Hq0 & Hk) Hq. exists pid, q. simplify_eq. split_and!; [done..|by left]. Qed.

(** A transition that landed is the recorded row. *)
Lemma apply_outcome_records {L} pid oc ref fail key (l : L) w :
  row_key pid key w →
  wpf (apply_outcome pid oc ref fail) l
    (λ res _ w', match res with Some q => charge_at key (pay_status q) w' | None => True end) any w.
Proof.
  intros Hrow. destruct oc; simpl; [| |done]; (apply step_await; [| |done]).
  - intros w1 HI _. by apply keeps_pay_succeeded.
  - intros w1 res HI He HI' He' Hok. destruct res as [q|]; [|done].
    apply (row_charge_at pid); [eapply row_key_mono; [exact He'|]; by eapply row_key_mono|].
    destruct (pay_transition _ _ _ _ _ _ _ w1) as [r1 w2] eqn:E. simpl in *. subst r1.
    apply pay_transition_hook in E as [(_ & Hn)|(q1 & r & o' & _ & _ & Hres & _ & ->)]; [by destruct (Hn q)|].
    simplify_eq/=. by rewrite lookup_insert_eq.
  - intros w1 HI _. by apply keeps_pay_failed.
  - intros w1 res HI He HI' He' Hok. destruct res as [q|]; [|done].
    apply (row_charge_at pid); [eapply row_key_mono; [exact He'|]; by eapply row_key_mono|].
    destruct (pay_transition _ _ _ _ _ _ _ w1) as [r1 w2] eqn:E. simpl in *. subst r1.
    apply pay_transition_plain in E as [(_ & Hn & _)|(q1 & _ & _ & Hres & ->)]; [by destruct (Hn q)|].
    simplify_eq/=. by rewrite lookup_insert_eq.
Qed.

Lemma apply_charge_records {L} pid c key (l : L) w :
  row_key pid key w →
  wpf (apply_charge pid c) l (λ q _ w', charge_at key (pay_status q) w') any w.
Proof.
  intros Hrow. unfold apply_charge. eapply step_bind; [by apply apply_outcome_records|].
  intros [q|] l' w' He HQ; [done|]. eapply row_key_mono in Hrow; [|exact He].
  eapply step_bind with (Q1 := λ res _ w', match res with Some q => charge_at key (pay_status q) w' | None => True end).
  - apply step_await; [intros; by apply keeps_pay_read| |done].
    intros w1 res HI He1 _ _ Hok. unfold pay_op, at_now, zoom, pay_get in Hok. simplify_eq/=.
    destruct (payments (w_pay w1) !! pid) as [q|] eqn:Hq; [|done].
    eapply charge_at_mono; [|by eapply row_charge_at; [eapply row_key_mono|]].
    unfold pay_op, at_now, zoom, pay_get. simpl. apply core_evolves_refl.
  - by intros [q|] l1 w1 _ Hc.
Qed.

Lemma charge_records {L} oid user key lines token (l : L) w :
  drives oid user key lines w →
  wpf (charge oid (payment_key_for user key) (total_of lines) token) l
    (λ q _ w', charge_at (payment_key_for user key) (pay_status q) w') any w.
Proof.
  intros Hd. unfold charge. eapply step_bind with (Q1 := any); [by destruct (pan_shaped token)|].
  intros [] l1 w1 He1 _. eapply drives_mono in Hd; [|exact He1].
  eapply step_bind with (Q1 := λ cr _ w', payments (w_pay w') !! pay_id cr.1 = Some cr.1 ∧
                                          pay_key cr.1 = payment_key_for user key).
  - apply step_await; [| |done].
    + intros w2 HI He2. eapply drives_mono in Hd; [|exact He2].
      by destruct (create_pending_block oid user key lines w2 _ HI Hd eq_refl) as (? & ? & _).
    + intros w2 [q b] HI He2 _ _ Hok. eapply drives_mono in Hd; [|exact He2].
      destruct (create_pending_block oid user key lines w2 _ HI Hd eq_refl) as (_ & _ & Hpost).
      by apply (Hpost _ _ Hok).
  - intros [q created] l2 w2 He2 [Hq Hk]. simpl in *.
    assert (row_key (pay_id q) (payment_key_for user key) w2) as Hrow by by exists q.
    assert (∀ l3 : L, wpf (result ← await (gw_op (λ now, gw_charge now (total_of lines) (payment_key_for user key) token));
                   apply_charge (pay_id q) result) l3
              (λ q _ w', charge_at (payment_key_for user key) (pay_status q) w') any w2) as Hask.
    { intros l3. eapply step_bind with (Q1 := any); [apply safe_keeps, keeps_gw|].
      intros c l4 w4 He4 _. apply apply_charge_records. by eapply row_key_mono. }
    destruct created; simpl; [by apply Hask|]. case_decide; [done|]. case_decide; [|by apply Hask].
    by eapply (row_charge_at (pay_id q)).
Qed.

(** Reading a key's charge. *)
Lemma get_by_key_records {L} key (l : L) w :
  wpf (svc_get_by_key key) l
    (λ res _ w', match res with
                 | Some q => payments (w_pay w') !! pay_id q = Some q ∧ pay_key q = key
                 | None => True
                 end) any w.
Proof.
  apply step_await; [intros; by apply keeps_pay_read| |done].
  intros w1 res HI He1 _ _ Hok. unfold pay_op, at_now, zoom, pay_get_by_key in Hok. cbn in Hok.
  destruct (find_row _ _) as [[id q]|] eqn:Ef; simplify_eq/=; [|done].
  apply find_row_Some in Ef as [Hq Hk]. by rewrite (proj1 (ck_pay _ _ _ (wi_core w1 HI) _ _ Hq)).
Qed.

(** [True] is money returned. *)
Lemma refund_records {L} key (l : L) w :
  wpf (refund key) l (λ b _ w', b = true → charge_at key PRefunded w') any w.
Proof.
  unfold refund. eapply step_bind; [apply get_by_key_records|].
  intros [q|] l1 w1 He1 Hq; [|by apply step_ret]. destruct Hq as [Hq Hk].
  assert (row_key (pay_id q) key w1) as Hrow by by exists q.
  case_decide as Hst.
  { apply step_ret. intros Hb%bool_decide_eq_true. rewrite <- Hb. by apply (row_charge_at (pay_id q)). }
  eapply step_bind with (Q1 := any); [apply safe_keeps, keeps_gw|]. intros c l2 w2 He2 _.
  eapply row_key_mono in Hrow; [|exact He2]. case_decide; [by apply step_ret|].
  eapply step_bind with (Q1 := λ res _ w', res ≠ None → charge_at key PRefunded w').
  - apply step_await; [intros; by apply keeps_pay_refunded| |done].
    intros w3 res HI He3 _ He4 Hok Hres.
    assert (row_key (pay_id q) key (pay_transition (pay_id q) PRefunded (pay_ref q) None
      (Some payment_refunded_outbox) PSucceeded None w3).2) as Hrow'
      by (eapply row_key_mono; [exact He4|]; by eapply row_key_mono).
    destruct (pay_transition _ _ _ _ _ _ _ w3) as [r3 w4] eqn:E. simpl in *. subst r3.
    apply pay_transition_plain in E as [(_ & Hn & _)|(q1 & _ & _ & Hr & ->)].
    { destruct res as [q1|]; [by destruct (Hn q1)|done]. }
    change PRefunded with (pay_status (with_outcome PRefunded (pay_ref q) None q1)).
    apply (row_charge_at (pay_id q)); [done|]. simpl. by rewrite lookup_insert_eq.
  - intros [q1|] l3 w3 He3 HQ; [by apply step_ret; intros _; apply HQ|].
    eapply row_key_mono in Hrow; [|exact He3].
    eapply step_bind with (Q1 := λ res _ w', match res with Some q => charge_at key (pay_status q) w' | None => True end).
    + apply step_await; [intros; by apply keeps_pay_read| |done].
      intros w4 res HI He4 _ _ Hok. unfold pay_op, at_now, zoom, pay_get in Hok. simplify_eq/=.
      destruct (payments (w_pay w4) !! pay_id q) as [q4|] eqn:Hq4; [|done].
      eapply charge_at_mono; [|by eapply row_charge_at; [eapply row_key_mono|]].
      unfold pay_op, at_now, zoom, pay_get. simpl. apply core_evolves_refl.
    + intros res l4 w4 _ Hc. apply step_ret. intros Hb%bool_decide_eq_true.
      destruct res as [q4|]; simplify_eq/=. by rewrite <- Hb.
Qed.

Lemma safe_refund {L} key (l : L) w : wpf (refund key) l any any w.
Proof. eapply wpf_mono; [apply _| | |apply refund_records]; done. Qed.

Lemma safe_handle_webhook {L} loads now body sg ts (l : L) w : wpf (handle_webhook cfg loads now body sg ts) l any any w.
Proof. unfold handle_webhook. pose proof (@safe_apply_outcome L). unfold pay_get_by_key. safe_walk. Qed.

Lemma safe_try_lookup {L} key (l : L) w : wpf (try_lookup key) l any any w.
Proof. unfold try_lookup. safe_walk. Qed.

Lemma safe_reconcile {L} batch (l : L) w : wpf (reconcile cfg batch) l any any w.
Proof.
  unfold reconcile. apply safe_call. unfold due_for_reconciliation, abandonable.
  pose proof (@safe_try_lookup nat). pose proof (@safe_apply_outcome nat).
  assert (∀ u l1 w1, wpf (count_resolved u) l1 any any w1) by (intros []; safe_walk).
  apply safe_bind; [safe_walk|]. intros due l1 w1 _.
  apply safe_bind; [apply safe_iterate; intros; unfold reconcile_due; safe_walk|]. intros _ l2 w2 _.
  apply safe_bind; [safe_walk|]. intros stale l3 w3 _.
  apply safe_bind; [apply safe_iterate; intros; unfold reconcile_stale; safe_walk|]. done.
Qed.
End Payments.
