(* ===== verification/SagaDrive.v ===== *)
(** * SagaDrive: the checkout, its recovery and the cancel keep the invariant

    The [wpf] lemmas of the saga's own coroutines; the last ones are what the
    scheduler theorem of Deployment.v consumes. *)

From S2P Require Import Prelude Errors UnitOfWork Inventory InventoryInv InventoryHolds InventoryService.
From S2P Require Import Text Effects Orders Payments World PaymentsService CheckoutSaga.
From S2P Require Import OrdersService SagaInv SagaSteps SagaWorld SagaSafety.

Section Drive.
Context {B G : Type} `{!BasketPort B} `{!PaymentGateway G}.
Context (cfg : Settings).
Abbreviation W := (World B G).
Abbreviation wpf := (wpf (W:=W) WInv evolves).

(** ** Stable knowledge about one order *)

(** [r] is a snapshot of a stored order, perhaps an old one. *)
Definition snap (r : Order) (w : W) : Prop :=
  ∃ r', orders (w_ord w) !! ord_id r = Some r' ∧ same_order r r' ∧ status_evolves (ord_status r) (ord_status r').

Lemma snap_mono r w w' : evolves w w' → snap r w → snap r w'.
Proof.
  intros He (r1 & H1 & Hs & Hst). destruct (order_stays _ _ _ _ He H1) as (r2 & H2 & Hs2 & Hst2).
  exists r2. split_and!; [done|by eapply same_order_trans|]. unfold status_evolves in *. intuition congruence.
Qed.

Lemma snap_drives r w : snap r w → drives (ord_id r) (ord_user r) (ord_key r) (lines_of r) w.
Proof.
  intros (r' & Hr & Hs & _). exists r'. destruct (same_order_lines _ _ Hs) as [-> _].
  destruct Hs as (_ & -> & -> & _). done.
Qed.

Lemma snap_paid r w : snap r w → ord_status r = PAID → paid_answer w (ord_user r) (ord_key r) (order_response r).
Proof.
  intros (r' & Hr & Hs & Hst) Hp. exists r'. unfold answers, order_response. simpl.
  unfold same_order, status_evolves in *. intuition congruence.
Qed.

(** A charge that stands belongs to its order. *)
Lemma charge_of_order (w : W) oid user key lines id q :
  WInv w → drives oid user key lines w → payments (w_pay w) !! id = Some q →
  pay_key q = payment_key_for user key → pay_order q = oid.
Proof.
  intros HI (r & Hr & Hu & Hk & _) Hq Hkey. pose proof (wi_core w HI) as HC.
  destruct (ck_charge _ _ _ HC _ _ Hq) as (r2 & Hr2 & Hk2 & _).
  destruct (ck_ord _ _ _ HC _ _ Hr) as (_ & _ & Hu1 & _). destruct (ck_ord _ _ _ HC _ _ Hr2) as (_ & _ & Hu2 & _).
  rewrite Hkey in Hk2. unfold order_payment_key in Hk2.
  apply payment_key_for_inj in Hk2 as [? ?]; [|congruence|done].
  symmetry. eapply (ck_key _ _ _ HC oid r (pay_order q) r2); congruence.
Qed.

Lemma charge_refunded (w : W) oid user key lines :
  WInv w → drives oid user key lines w → charge_at (payment_key_for user key) PRefunded w →
  refunded_for (w_pay w) oid.
Proof.
  intros HI Hd (id & q & Hq & Hk & Hs). exists id, q. split_and!; [done|by eapply charge_of_order|].
  unfold payment_evolves in Hs. intuition congruence.
Qed.

(** ** Journal and counters *)

Lemma safe_journal {L} oid step status (l : L) w :
  step ≠ "refund" ∨ status ≠ "completed" → wpf (journal_step cfg oid step status) l any any w.
Proof.
  intros Hne. unfold journal_step. destruct (depth_attribute cfg) as [d|e]; [|done].
  case_decide; [done|]. by apply safe_keeps, keeps_log.
Qed.

Lemma safe_journal_refunded {L} oid user key lines (l : L) w :
  drives oid user key lines w → charge_at (payment_key_for user key) PRefunded w →
  wpf (journal_step cfg oid "refund" "completed") l any any w.
Proof.
  intros Hd Hc. unfold journal_step. destruct (depth_attribute cfg) as [d|e]; [|done].
  case_decide; [done|]. apply step_await; [|done..].
  intros w1 HI He. apply log_block; [done|]. intros _ _.
  eapply charge_refunded; [done|by eapply drives_mono|by eapply charge_at_mono].
Qed.

(** Walking, with the journal's ordinary rows. *)
Ltac walk := repeat first [apply safe_journal; solve [by left | by right] | safe_step].

(** ** Replay records and baskets *)

Lemma safe_remember {L} user key hash resp (l : L) w :
  paid_answer w user key resp → wpf (remember cfg user key hash 201 resp) l any any w.
Proof.
  intros Hp. apply safe_best_effort, safe_best_effort. apply step_await; [|done..].
  intros w1 HI He. split; [|apply core_evolves_refl].
  constructor; [apply HI|]. simpl. intros u k rec rsp [[? <-]|[_ Hr]]%lookup_insert_Some Hresp.
  - simplify_eq/=. exact (paid_answer_mono _ _ _ _ _ He Hp).
  - exact (wi_idem _ HI u k rec rsp Hr Hresp).
Qed.

Lemma safe_mop_up {L} user items (l : L) w : wpf (clear_basket_if_replay_mop_up user items) l any any w.
Proof. unfold clear_basket_if_replay_mop_up, clear_basket. safe_walk. Qed.

Lemma safe_consume {L} user lines (l : L) w : wpf (consume_basket user lines) l any any w.
Proof. unfold consume_basket. safe_walk. Qed.

(** ** Compensation *)

Lemma safe_compensate_with {L} oid step (l : L) w : wpf (compensate_with cfg oid step) l any any w.
Proof. unfold compensate_with. walk. Qed.

Lemma safe_compensate {L} oid step (l : L) w : wpf (compensate cfg oid step) l any any w.
Proof. apply safe_compensate_with. Qed.

Lemma safe_compensate_after_cancel {L} oid step (l : L) w : wpf (compensate_after_cancel cfg oid step) l any any w.
Proof.
  unfold compensate_after_cancel, rollback_session, fresh_compensate, compensate.
  pose proof (@safe_compensate_with L). walk.
Qed.

(** ** Undoing a charge *)

Lemma safe_journal_refund {L} oid status (l : L) w :
  status ≠ "completed" → wpf (journal_refund cfg oid status) l any any w.
Proof.
  intros Hs. unfold journal_refund. apply safe_try; [|intros ????; by case_match].
  apply safe_bind; [apply safe_journal; by right|]. done.
Qed.

(** The status a read answered with is stable once it is terminal. *)
Lemma read_status {L} oid (l : L) w :
  wpf (await (ord_op (λ _, get_order_status oid))) l
    (λ st _ w', st = Some CANCELLED → in_status (w_ord w') oid CANCELLED) any w.
Proof.
  apply step_await; [intros; by apply keeps_ord_read| |done].
  intros w1 st HI He _ _ Hok Hst. unfold ord_op, at_now, zoom, get_order_status in *. simplify_eq/=.
  destruct (orders (w_ord w1) !! oid) as [r|] eqn:Hr; simplify_eq/=. by exists r.
Qed.

Lemma read_order {L} oid (l : L) w :
  wpf (await (ord_op (λ _, get_order oid))) l
    (λ res _ w', match res with Some r => snap r w' ∧ ord_id r = oid | None => True end) any w.
Proof.
  apply step_await; [intros; by apply keeps_ord_read| |done].
  intros w1 res HI He _ _ Hok. unfold ord_op, at_now, zoom, get_order in *. simplify_eq/=.
  destruct (orders (w_ord w1) !! oid) as [r|] eqn:Hr; [|done].
  destruct (ck_ord _ _ _ (wi_core w1 HI) _ _ Hr) as (Hid & _). split; [|done].
  exists r. rewrite Hid. split_and!; [done|apply same_order_refl|by left].
Qed.

Lemma safe_restock {L} oid (l : L) w : wpf (restock_cancelled_order oid) l any any w.
Proof.
  unfold restock_cancelled_order. apply safe_try; [|intros ????; by case_match].
  eapply step_bind; [apply read_status|]. intros st l1 w1 He Hst. case_decide as Hc; [done|].
  apply safe_bind; [|done]. apply step_await; [|done..]. intros w2 HI He2. apply restock_block; [done|].
  eapply cancelled_mono; [exact He2|]. apply Hst. by destruct (decide (st = Some CANCELLED)).
Qed.

Lemma safe_refund_orphaned {L} oid user key lines (l : L) w :
  drives oid user key lines w → wpf (refund_orphaned_charge cfg oid user key) l any any w.
Proof.
  intros Hd. unfold refund_orphaned_charge. apply safe_bind; [by apply safe_journal_refund|]. intros intent l1 w1 He1.
  apply safe_bind; [apply safe_restock|]. intros restocked l2 w2 He2.
  eapply step_bind with (Q1 := λ res _ w', res = Some true → charge_at (payment_key_for user key) PRefunded w').
  - eapply step_try with (E1 := any).
    + eapply step_bind; [apply refund_records|]. intros b l3 w3 _ Hb. apply step_ret. intros ?; simplify_eq. by apply Hb.
    + intros e l3 w3 _ _. destruct (is_Exception e); [|done]. by destruct intent.
  - intros res l3 w3 He3 Hres.
    assert (drives oid user key lines w3) as Hd3 by (do 3 (eapply drives_mono; [eassumption|]); done).
    destruct res as [[|]|]; [| |done].
    + apply safe_bind; [|done]. destruct restocked; [|done]. apply safe_bind; [|done].
      unfold journal_refund. apply safe_try; [|intros ????; by case_match].
      apply safe_bind; [|done]. eapply safe_journal_refunded; [exact Hd3|by apply Hres].
    + destruct intent; [|walk]. apply safe_bind; [by apply safe_journal_refund|]. intros [] l4 w4 _; walk.
Qed.

(** ** The drive *)

Lemma safe_reserve oid user key lines l w :
  drives oid user key lines w → wpf (drive_reserve cfg oid lines) l any any w.
Proof.
  intros Hd. unfold drive_reserve. apply safe_bind; [walk|]. intros [] l1 w1 He1.
  apply safe_bind.
  - apply safe_try.
    + apply safe_timeout, safe_bind; [|done]. apply step_await; [|done..].
      intros w2 HI He2. eapply reserve_block; [done|]. do 2 (eapply drives_mono; [eassumption|]). done.
    + intros e l2 w2 He2. pose proof (@safe_compensate_after_cancel Drive). destruct e; walk.
  - intros [] l2 w2 He2. walk.
Qed.

(** An exception of the charge call never lets the drive go on. *)
Lemma charge_exception_raises oid pkey e l w :
  wpf (charge_exception cfg oid pkey e) l (λ _ _ _, False) any w.
Proof.
  unfold charge_exception. pose proof (@safe_get_by_key B G Drive). pose proof (@safe_compensate Drive).
  destruct e; try done;
    (eapply step_bind with (Q1 := any); [walk|]; intros [] l1 w1 _ _;
     eapply step_bind with (Q1 := any); [walk|]; intros found l2 w2 _ _;
     case_decide; repeat (eapply step_bind with (Q1 := any); [walk|]; intros [] ? ? _ _); done).
Qed.

(** Only a succeeded charge lets the drive go on. *)
Lemma charge_answer_records oid st key l w :
  charge_at key st w → wpf (charge_answer cfg oid st) l (λ _ _ w', charge_at key PSucceeded w') any w.
Proof.
  intros Hc. pose proof (@safe_compensate Drive). unfold charge_answer. destruct st;
    [|eapply step_bind with (Q1 := any); [walk|]; intros [] l1 w1 He1 _;
      eapply step_bind with (Q1 := any); [walk|]; intros [] l2 w2 He2 _;
      apply wpf_set_locals; eapply charge_at_mono; [exact He2|]; by eapply charge_at_mono| |];
    repeat (eapply step_bind with (Q1 := any); [walk|]; intros [] ? ? _ _); done.
Qed.

Lemma drive_charge_records oid user key token hash lines l w :
  drives oid user key lines w →
  wpf (drive_charge cfg oid user key token hash (total_of lines)) l
    (λ early _ w', match early with
                   | Some (resp, _) => paid_answer w' user key resp
                   | None => charge_at (payment_key_for user key) PSucceeded w'
                   end) any w.
Proof.
  intros Hd. unfold drive_charge. eapply step_bind with (Q1 := any); [walk|]. intros [] l1 w1 He1 _.
  eapply drives_mono in Hd; [|exact He1].
  eapply step_bind; [apply read_order|]. intros [r|] l2 w2 He2 Hr; [|done]. destruct Hr as [Hsn Hid].
  eapply drives_mono in Hd; [|exact He2].
  destruct (ord_status r) eqn:Est; [| |done|done].
  - eapply step_bind with (Q1 := λ st _ w', charge_at (payment_key_for user key) st w').
    + eapply step_try with (E1 := any).
      * apply wpf_timeout; [apply _|]. eapply step_bind; [by apply charge_records|].
        intros q l3 w3 _ Hc. by apply step_ret.
      * intros e l3 w3 _ _. eapply wpf_mono; [apply _| | |apply charge_exception_raises]; done.
    + intros st l3 w3 _ Hc. eapply step_bind; [by apply charge_answer_records|].
      intros [] l4 w4 _ Hc4. by apply step_ret.
  - assert (paid_answer w2 user key (order_response r)) as Hp.
    { destruct (snap_drives r w2 Hsn) as (r1 & Hr1 & Hu1 & Hk1 & _).
      destruct Hd as (r2 & Hr2 & Hu2 & Hk2 & _). rewrite <- Hid in Hr2. assert (r1 = r2) as -> by congruence.
      rewrite <- Hu2, <- Hk2, Hu1, Hk1. by apply snap_paid. }
    eapply step_bind with (Q1 := any); [done|]. intros [] l3 w3 He3 _. eapply paid_answer_mono in Hp; [|exact He3].
    eapply step_bind with (Q1 := any); [by apply safe_remember|]. intros [] l4 w4 He4 _.
    eapply paid_answer_mono in Hp; [|exact He4].
    eapply step_bind with (Q1 := any); [apply safe_mop_up|]. intros [] l5 w5 He5 _.
    apply step_ret. by eapply paid_answer_mono.
Qed.

(** A full answer of the commit owns the stock. *)
Lemma commit_holds_records {L} oid user key lines (l : L) w :
  drives oid user key lines w →
  wpf (commit_holds oid (length lines)) l (λ b _ w', b = true → covered oid lines w') any w.
Proof.
  intros Hd. unfold commit_holds.
  eapply step_bind with (Q1 := λ n _ w', (length lines ≤ n)%nat → covered oid lines w').
  - apply step_await; [intros; by apply keeps_commit| |done].
    intros w1 n HI He _ _ Hok Hle. eapply commit_covers; [done|by eapply drives_mono|exact Hok|done].
  - intros n l1 w1 _ Hn. case_decide; [by apply step_ret; auto|].
    eapply step_bind with (Q1 := any); [walk|]. intros [] ????. by apply step_ret.
Qed.

Lemma drive_commit_records oid user key lines l w :
  drives oid user key lines w →
  wpf (drive_commit cfg oid user key (length lines)) l (λ _ _ w', covered oid lines w') any w.
Proof.
  intros Hd. unfold drive_commit.
  eapply step_bind with (Q1 := any); [walk|]. intros [] l1 w1 He1 _.
  eapply step_bind with (Q1 := any); [walk|]. intros [] l2 w2 He2 _.
  assert (drives oid user key lines w2) as Hd2 by (do 2 (eapply drives_mono; [eassumption|]); done).
  eapply step_bind; [by apply (commit_holds_records oid user key)|]. intros [] l3 w3 He3 Hcov.
  - eapply step_weaken; [walk|intros; by eapply covered_mono; [|apply Hcov]|done].
  - eapply step_bind with (Q1 := any); [walk|]. intros [] l4 w4 He4 _.
    eapply step_bind; [apply read_status|]. intros st l5 w5 He5 Hst. case_decide; [|done].
    eapply step_bind with (Q1 := any); [|done]. eapply safe_refund_orphaned.
    do 3 (eapply drives_mono; [eassumption|]). done.
Qed.

(** The flip that pays: money and stock are known, the order is pending. *)
Lemma paid_flip {L} oid user key lines ob (l : L) w :
  drives oid user key lines w → charge_at (payment_key_for user key) PSucceeded w → covered oid lines w →
  wpf (await (order_transition oid [PENDING] PAID ob)) l
    (λ res _ w', match res with Some r => snap r w' ∧ ord_id r = oid ∧ ord_status r = PAID | None => True end) any w.
Proof.
  intros Hd Hc Hcov. apply step_await; [| |done].
  - intros w1 HI He. apply paid_block; [done|]. intros r Hr Hp.
    eapply drives_mono in Hd as (r1 & Hr1 & Hu & Hk & Hl); [|exact He]. simplify_eq.
    eapply charge_at_mono in Hc as (id & q & Hq & Hkey & Hs); [|exact He]. split.
    + exists id, q. split_and!; [done..|]. unfold payment_evolves in Hs. intuition congruence.
    + destruct (covered_mono _ _ _ _ He Hcov) as [(r2 & Hr2 & Hc2)|Hcov1]; [simplify_eq; congruence|].
      intros line Hline. destruct (ck_ord _ _ _ (wi_core w1 HI) _ _ Hr) as (Hid & _). rewrite Hid. by apply Hcov1.
  - intros w1 res HI He HI' _ Hok. revert Hok HI'. unfold order_transition, ord_op, at_now, zoom. simpl.
    destruct (transition_status _ _ _ _ _ _ _) as [r1 o1] eqn:E. simpl. intros -> HI'.
    apply transition_status_spec in E as [(Hn & _)|(r & ext & Hr & Hp & Hres & Ho & _)]; simplify_eq/=; [done|].
    destruct (ck_ord _ _ _ (wi_core w1 HI) _ _ Hr) as (Hid & _). split_and!; [|done..].
    exists (with_status PAID (w_now w1) r). simpl. rewrite Ho, Hid, lookup_insert_eq.
    split_and!; [done|apply same_order_refl|by left].
Qed.

(** The answer for the snapshot of a paid order of this checkout. *)
Lemma paid_snapshot oid user key lines r (w : W) :
  drives oid user key lines w → snap r w → ord_id r = oid → ord_status r = PAID →
  paid_answer w user key (order_response r).
Proof.
  intros (r2 & Hr2 & <- & <- & _) Hsn Hid Hp. destruct (snap_drives r w Hsn) as (r1 & Hr1 & Hu1 & Hk1 & _).
  rewrite <- Hid in Hr2. assert (r1 = r2) as -> by congruence. rewrite Hu1, Hk1. by apply snap_paid.
Qed.

Lemma drive_mark_paid_records oid user key hash lines l w :
  drives oid user key lines w → charge_at (payment_key_for user key) PSucceeded w → covered oid lines w →
  wpf (drive_mark_paid cfg oid user key hash lines) l (λ a _ w', paid_answer w' user key a.1) any w.
Proof.
  intros Hd Hc Hcov. unfold drive_mark_paid.
  eapply step_bind; [apply read_order|]. intros [order|] l1 w1 He1 _; [|done].
  eapply step_bind with (Q1 := any); [walk|]. intros [] l2 w2 He2 _.
  assert (evolves w w2) as He by by etrans.
  eapply drives_mono in Hd; [|exact He]. eapply charge_at_mono in Hc; [|exact He].
  eapply covered_mono in Hcov; [|exact He].
  eapply step_bind; [by apply (paid_flip oid user key lines)|]. intros flipped l3 w3 He3 Hf.
  eapply drives_mono in Hd; [|exact He3].
  eapply step_bind with (Q1 := λ r _ w', snap r w' ∧ ord_id r = oid ∧ ord_status r = PAID).
  - destruct flipped as [r|].
    + eapply step_bind with (Q1 := any); [walk|]. intros [] l4 w4 He4 _. apply step_ret.
      destruct Hf as (Hs & ? & ?). split_and!; [by eapply snap_mono|done..].
    + eapply step_bind; [apply read_order|]. intros [r|] l4 w4 He4 Hr; [|done]. destruct Hr as [Hs Hid].
      case_decide; [by apply step_ret|].
      eapply step_bind with (Q1 := any); [|done]. eapply safe_refund_orphaned. by eapply drives_mono.
  - intros paid l4 w4 He4 (Hsn & Hid & Hp). eapply drives_mono in Hd; [|exact He4].
    pose proof (paid_snapshot oid user key lines paid w4 Hd Hsn Hid Hp) as Hpa.
    eapply step_bind with (Q1 := any).
    + case_decide; [|done]. apply safe_bind; [apply safe_consume|]. intros [] l5 w5 He5.
      apply safe_remember. by eapply paid_answer_mono.
    + intros [] l5 w5 He5 _. apply step_ret. by eapply paid_answer_mono.
Qed.

Lemma drive_exception_raises oid e l w : wpf (drive_exception cfg oid e) l (λ _ _ _, False) any w.
Proof.
  unfold drive_exception. pose proof (@safe_compensate_after_cancel Drive). pose proof (@safe_compensate Drive).
  eapply step_bind with (Q1 := any); [by apply wpf_locals|]. intros l0 l1 w1 _ _.
  destruct e; try done; repeat case_match; try done;
    repeat (eapply step_bind with (Q1 := any); [walk|]; intros [] ? ? _ _); done.
Qed.

Lemma drive_records {L} oid user key token lines hash (l : L) w :
  drives oid user key lines w →
  wpf (drive cfg oid user key token lines hash) l (λ a _ w', paid_answer w' user key a.1) any w.
Proof.
  intros Hd. apply wpf_call; [apply _|]. eapply step_try with (E1 := any).
  - apply wpf_timeout; [apply _|]. eapply step_bind with (Q1 := any); [by apply (safe_reserve oid user key)|].
    intros [] l1 w1 He1 _. eapply drives_mono in Hd; [|exact He1].
    eapply step_bind; [by apply drive_charge_records|]. intros [[resp b]|] l2 w2 He2 HQ; [by apply step_ret|].
    eapply drives_mono in Hd; [|exact He2].
    eapply step_bind; [by apply drive_commit_records|]. intros [] l3 w3 He3 Hcov.
    apply drive_mark_paid_records; [by eapply drives_mono|by eapply charge_at_mono|done].
  - intros e l1 w1 _ _. eapply wpf_mono; [apply _| | |apply drive_exception_raises]; done.
Qed.

(** ** Checkout *)

Lemma replay_or_resume_records {L} user key token hash r (l : L) w :
  snap r w → ord_user r = user → ord_key r = key →
  wpf (replay_or_resume cfg user key token hash r) l (λ a _ w', paid_answer w' user key a.1) any w.
Proof.
  intros Hsn <- <-. unfold replay_or_resume. case_decide; [done|]. destruct (ord_status r) eqn:Est; [| |done..].
  - eapply step_bind; [by apply drive_records, snap_drives|]. intros a l1 w1 _ Ha. by apply step_ret.
  - pose proof (snap_paid r w Hsn Est) as Hp.
    eapply step_bind with (Q1 := any); [by apply safe_remember|]. intros [] l1 w1 He1 _.
    eapply step_bind with (Q1 := any); [apply safe_mop_up|]. intros [] l2 w2 He2 _.
    apply step_ret. do 2 (eapply paid_answer_mono; [eassumption|]). done.
Qed.

(** What the creating transaction answers with. *)
Lemma create_records {L} user key hash lines email (l : L) w :
  is_uuid user →
  wpf (await (create_block user key hash lines email)) l
    (λ c _ w', snap c.1 w' ∧ ord_user c.1 = user ∧ ord_key c.1 = key ∧ (c.2 = true → lines_of c.1 = lines)) any w.
Proof.
  intros Hu. apply step_await; [intros; by apply create_block_ok| |done].
  intros w1 [r b] HI He HI' _ Hok. revert Hok HI'. unfold create_block, ord_op, at_now, zoom.
  cbn [view put ord_lens]. unfold create_pending_order. rewrite atomically_nested.
  fold (create_pending_order (w_now w1) user key hash (total_of lines) (snapshot_lines lines) email).
  destruct (create_pending_order _ _ _ _ _ _ _ _) as [res o'] eqn:E. cbn [fst snd]. intros -> HI'.
  pose proof (ck_ord _ _ _ (wi_core w1 HI)) as Hord.
  apply create_pending_order_spec in E; [|intros id r2 Hr2; by apply Hord]. destruct b.
  - destruct E as (-> & _ & Ho & _). split_and!; [|done..|intros _; apply lines_of_fresh].
    eexists. simpl. rewrite Ho, lookup_insert_eq. split_and!; [done|apply same_order_refl|by left].
  - destruct E as (-> & Hr & Hu' & Hk). split_and!; [|done..]. exists r.
    split_and!; [done|apply same_order_refl|by left].
Qed.

Lemma fresh_checkout_records {L} user key token email hash (l : L) w :
  is_uuid user →
  wpf (fresh_checkout cfg user key token email hash) l (λ a _ w', paid_answer w' user key a.1) any w.
Proof.
  intros Hu. unfold fresh_checkout. eapply step_bind with (Q1 := any); [walk|]. intros lines l1 w1 _ _.
  destruct lines as [|line lines]; [done|]. set (ls := line :: lines).
  eapply step_bind with (Q1 := any); [unfold revalidate_prices; walk|]. intros [] l2 w2 _ _.
  eapply step_bind; [by apply create_records|]. intros [r b] l3 w3 _ (Hsn & Hur & Hk & Hl). simpl in *.
  destruct b; simpl; [|by apply replay_or_resume_records]. apply drive_records.
  pose proof (snap_drives r w3 Hsn) as Hd. by rewrite Hur, Hk, Hl in Hd.
Qed.

Lemma checkout_body_records {L} user key token email hash (l : L) w :
  is_uuid user →
  wpf (checkout_body cfg user key token email hash) l (λ a _ w', paid_answer w' user key a.1) any w.
Proof.
  intros Hu. unfold checkout_body.
  eapply step_bind with (Q1 := λ rec _ w', match rec with
    | Some r => ∀ resp, ir_response r = Some resp → paid_answer w' user key resp | None => True end).
  - eapply step_try with (E1 := any); [|intros e l1 w1 _ _; by destruct (is_Exception e)].
    apply step_await; [intros; by split| |done].
    intros w1 rec HI _ _ _ Hok. simplify_eq/=. unfold live_record.
    destruct (w_idem w1 !! (user, key)) as [r|] eqn:Hr; [|done]. case_decide; [|done].
    intros resp Hresp. by eapply wi_idem.
  - intros [r|] l1 w1 _ Hrec.
    + case_decide; [done|]. destruct (ir_response r) as [resp|]; [|done].
      eapply step_bind with (Q1 := any); [case_decide; [apply safe_mop_up|done]|]. intros [] l2 w2 He2 _.
      eapply step_bind with (Q1 := any); [walk|]. intros [] l3 w3 He3 _. apply step_ret.
      do 2 (eapply paid_answer_mono; [eassumption|]). by apply Hrec.
    + eapply step_bind with (Q1 := λ res _ w', match res with
        | Some r => snap r w' ∧ ord_user r = user ∧ ord_key r = key | None => True end).
      * apply step_await; [intros; by apply keeps_ord_read| |done].
        intros w2 res HI _ _ _ Hok. unfold ord_op, at_now, zoom, get_by_idempotency in *. cbn in Hok.
        destruct (find_row _ _) as [[id r]|] eqn:Ef; simplify_eq/=; [|done].
        apply find_row_Some in Ef as [Hr [Hur Hk]].
        destruct (ck_ord _ _ _ (wi_core w2 HI) _ _ Hr) as (Hid & _).
        split_and!; [|done..]. exists r. rewrite Hid. split_and!; [done|apply same_order_refl|by left].
      * intros res l2 w2 _ Hres.
        eapply step_bind with (Q1 := λ a _ w', paid_answer w' user key a.1).
        -- destruct res as [r|]; [destruct Hres as (? & ? & ?); by apply replay_or_resume_records|].
           by apply fresh_checkout_records.
        -- intros a l3 w3 _ Ha. eapply step_bind with (Q1 := any); [walk|]. intros [] l4 w4 He4 _.
           apply step_ret. by eapply paid_answer_mono.
Qed.

Lemma checkout_records {L} user key token email (l : L) w :
  is_uuid user →
  wpf (checkout cfg user key token email) l (λ a _ w', paid_answer w' user key a.1) any w.
Proof.
  intros Hu. unfold checkout. eapply step_try; [by apply checkout_body_records|].
  intros e l1 w1 _ _. eapply step_bind with (Q1 := any); [|done]. destruct (failure_label e); walk.
Qed.

(** ** Recovery *)

Lemma safe_settle_succeeded {L} r pkey (l : L) w :
  snap r w → pkey = payment_key_for (ord_user r) (ord_key r) → charge_at pkey PSucceeded w →
  wpf (settle_succeeded cfg r pkey) l any any w.
Proof.
  intros Hsn -> Hc. pose proof (snap_drives r w Hsn) as Hd. unfold settle_succeeded.
  assert (length (ord_items r) = length (lines_of r)) as -> by (unfold lines_of; by rewrite length_fmap).
  eapply step_bind; [by eapply commit_holds_records|]. intros consumed l1 w1 He1 Hcov.
  eapply drives_mono in Hd; [|exact He1]. eapply charge_at_mono in Hc; [|exact He1].
  destruct consumed; simpl.
  - specialize (Hcov eq_refl). apply safe_bind; [walk|]. intros [] l2 w2 He2. apply safe_bind; [walk|]. intros [] l3 w3 He3.
    assert (evolves w1 w3) as He by by etrans.
    eapply drives_mono in Hd; [|exact He]. eapply charge_at_mono in Hc; [|exact He]. eapply covered_mono in Hcov; [|exact He].
    eapply step_bind; [by apply (paid_flip _ (ord_user r) (ord_key r) (lines_of r))|]. intros [o|] l4 w4 He4 _.
    + apply safe_bind; [|done]. case_decide; [|done]. apply safe_bind; [walk|]. intros [] l5 w5 _. apply safe_consume.
    + eapply step_bind; [apply read_status|]. intros st l5 w5 He5 _. case_decide; [|done].
      apply safe_bind; [|done]. eapply safe_refund_orphaned. do 2 (eapply drives_mono; [eassumption|]). done.
  - eapply step_bind; [apply refund_records|]. intros b l2 w2 He2 Hb.
    eapply drives_mono in Hd; [|exact He2].
    apply safe_bind; [|intros [] l3 w3 _; apply safe_bind; [apply safe_compensate|done]].
    destruct b; simpl; [|walk]. eapply safe_journal_refunded; [exact Hd|by apply Hb].
Qed.

Lemma safe_settle_crashed {L} r (l : L) w : snap r w → wpf (settle_crashed cfg r) l any any w.
Proof.
  intros Hsn. unfold settle_crashed. eapply step_bind; [apply get_by_key_records|]. intros pay l1 w1 He1 Hq.
  pose proof (safe_compensate (L:=L) (ord_id r) "crashed") as Hcomp.
  destruct pay as [q|]; simpl; [|apply safe_bind; [apply Hcomp|done]].
  destruct (pay_status q) eqn:Est; [done| |apply safe_bind; [apply Hcomp|done]..].
  apply safe_settle_succeeded; [by eapply snap_mono|done|]. destruct Hq as [Hq Hk]. rewrite <- Est.
  apply (row_charge_at (pay_id q)); [by exists q|done].
Qed.

Lemma safe_retry_refund {L} r (l : L) w : snap r w → wpf (retry_journaled_refund cfg r) l any any w.
Proof.
  intros Hsn. unfold retry_journaled_refund. apply safe_bind; [apply safe_restock|]. intros rs l1 w1 He1.
  destruct rs; simpl; [|done]. eapply step_bind; [apply get_by_key_records|]. intros pay l2 w2 He2 Hq.
  assert (drives (ord_id r) (ord_user r) (ord_key r) (lines_of r) w2) as Hd
    by (apply snap_drives; do 2 (eapply snap_mono; [eassumption|]); done).
  destruct pay as [q|]; simpl; [|done]. destruct Hq as [Hq Hk].
  assert (charge_at (payment_key_for (ord_user r) (ord_key r)) (pay_status q) w2) as Hc
    by (apply (row_charge_at (pay_id q)); [by exists q|done]).
  destruct (pay_status q) eqn:Est; [done| |done|].
  - eapply step_bind; [apply refund_records|]. intros [] l3 w3 He3 Hb.
    + apply safe_bind; [|done]. eapply safe_journal_refunded; [by eapply drives_mono|by apply Hb].
    + walk.
  - apply safe_bind; [|done]. by eapply safe_journal_refunded.
Qed.

Lemma safe_boundary settle l w : wpf settle l any any w → wpf (settle_boundary settle) l any any w.
Proof.
  intros Hs. unfold settle_boundary, rollback_session, count_outcome. apply safe_bind.
  - apply safe_try; [done|]. intros e l1 w1 _. walk.
  - intros label l1 w1 _. walk.
Qed.

Lemma safe_recover_stuck {L} cutoff batch lk (l : L) w : wpf (recover_stuck cfg cutoff batch lk) l any any w.
Proof.
  unfold recover_stuck. apply safe_call. apply safe_bind; [walk|]. intros stuck l1 w1 _.
  apply safe_bind.
  { apply safe_iterate. intros id l2 w2 _. apply safe_boundary. unfold settle_stuck.
    eapply step_bind; [apply read_order|]. intros [r|] l3 w3 _ Hr; [|done]. destruct Hr as [Hsn _].
    apply safe_bind; [unfold has_recent_saga_activity; walk|]. intros recent l4 w4 He4.
    destruct recent; [done|]. apply safe_settle_crashed. by eapply snap_mono. }
  intros [] l2 w2 _. apply safe_bind; [walk|]. intros claims l3 w3 _. apply safe_bind; [|done].
  apply safe_iterate. intros id l4 w4 _. apply safe_boundary. unfold settle_refund.
  eapply step_bind; [apply read_order|]. intros [r|] l5 w5 _ Hr; [|done]. destruct Hr as [Hsn _].
  by apply safe_retry_refund.
Qed.

(** ** The orders service *)

Lemma keeps_bind {X A} (m : ST W X) (f : X → ST W A) : keeps m → (∀ a, keeps (f a)) → keeps (m ≫= f).
Proof.
  intros Hm Hf w HI. unfold mbind, ST_bind. destruct (Hm w HI) as [HI1 He1].
  destruct (m w) as [[a|e] w1]; simpl in *; [|done]. destruct (Hf a w1 HI1) as [? ?]. split; [done|]. by etrans.
Qed.

Lemma keeps_atomically {A} (m : ST W A) : keeps m → keeps (atomically m).
Proof.
  intros Hm w HI. unfold atomically, begin_nested. destruct (Hm w HI) as [? ?].
  destruct (m w) as [[a|e] w1]; simpl in *; [done|]. by split.
Qed.

Lemma keeps_ret {A} (a : A) : keeps (mret a : ST W A).
Proof. intros w HI. by split. Qed.
Lemma keeps_raise {A} e : keeps (raise e : ST W A).
Proof. intros w HI. by split. Qed.

Lemma keeps_cancel_block oid : keeps (cancel_block (B:=B) (G:=G) oid).
Proof.
  unfold cancel_block, get_order. apply keeps_atomically, keeps_bind; [apply keeps_cancel|]. intros [r|].
  - apply keeps_bind; [apply keeps_release|]. intros n. apply keeps_bind; [apply keeps_log; by left|]. intros [].
    apply keeps_bind; [apply keeps_ord_read|]. intros [r'|]; [apply keeps_ret|apply keeps_raise].
  - apply keeps_bind; [apply keeps_ord_read|]. intros [r'|]; [|apply keeps_raise].
    case_decide; [apply keeps_ret|apply keeps_raise].
Qed.

Lemma safe_cancel_order {L} user oid admin (l : L) w : wpf (cancel_order user oid admin) l any any w.
Proof.
  unfold cancel_order, owned_order, get_order, latest_saga_step. pose proof (@keeps_cancel_block).
  walk.
Qed.

Lemma safe_reaper {L} batch lk (l : L) w : wpf (reaper_sweep batch lk) l any any w.
Proof. unfold reaper_sweep. walk. Qed.
End Drive.
