(* ===== verification/Deployment.v ===== *)
(** * Deployment: what holds under every interleaving

    The coroutines the processes of the deployment run - API requests, the saga
    recovery poller, the payment reconciler, the reservation reaper, webhooks,
    basket edits, price changes, the clock - scheduled in any order, any number
    of times, with transport faults, timeouts and crashes anywhere.  The
    theorems read the invariant of SagaInv.v off every reachable world. *)

From S2P Require Import Prelude Errors UnitOfWork Inventory InventoryInv InventoryHolds InventoryService.
From S2P Require Import Text Sha256 Effects Orders Payments World PaymentsService.
From S2P Require Import CheckoutSaga OrdersService AppConfig Workers SagaInv SagaSteps SagaWorld SagaSafety SagaDrive.

Section Deployment.
Context {B G : Type} `{!BasketPort B} `{!PaymentGateway G}.
Context (cfg : Settings).
Abbreviation W := (World B G).

(** What may arrive. *)
Inductive arrival : prog W unit → Prop :=
  | arr_checkout user key token email :
      is_uuid user → arrival (erase (checkout cfg user key token email tt))
  | arr_cancel user oid admin : arrival (erase (cancel_order user oid admin tt))
  | arr_detail user oid admin : arrival (erase (get_order_detail user oid admin tt))
  | arr_execution user oid admin : arrival (erase (get_execution user oid admin tt))
  | arr_recover cutoff batch locked : arrival (erase (recover_stuck cfg cutoff batch locked tt))
  | arr_reconcile batch : arrival (erase (reconcile cfg batch tt))
  | arr_webhook json_loads now body signature timestamp :
      arrival (erase (handle_webhook cfg json_loads now body signature timestamp tt))
  | arr_reaper batch locked : arrival (erase (reaper_sweep batch locked tt))
  | arr_reaper_worker s once turns : arrival (erase (run_reaper s once turns tt))
  | arr_reconciler_worker s once turns : arrival (erase (run_reconciler cfg s once turns tt))
  | arr_recovery_worker s once turns : arrival (erase (run_recovery cfg s once turns tt))
  | arr_stock ownership sku on_hand caller admin if_match :
      arrival (erase (await (inv_op (λ _, svc_upsert_stock repository_upsert ownership sku on_hand caller
                                             admin if_match)) tt))
  | arr_basket (edit : Z → ST B unit) : arrival (erase (await (cart_op edit) tt))
  | arr_provider (event : Z → ST G unit) : arrival (erase (await (gw_op event) tt))
  | arr_clock d : arrival (clock_tick d)
  | arr_price product price : arrival (price_change product price).

Lemma frame_safe {A} (p : frame W unit A) :
  (∀ w, wpf WInv evolves p tt any any w) → safe WInv evolves (erase (p tt)).
Proof.
  intros Hp. apply safe_erase. intros w HI. specialize (Hp w). unfold wpf in Hp. revert Hp.
  apply wp_mono; [apply _|done].
Qed.

Lemma tick_safe (f : W → W) :
  (∀ w, WInv w → WInv (f w) ∧ evolves w (f w)) → safe WInv evolves (Tick f (Ret tt)).
Proof. intros Hf w _ w1 HI _. destruct (Hf w1 HI). done. Qed.

(** A loop is safe when its sweeps are. *)
Lemma safe_read {L A} (f : W → A) (l : L) (w : W) : wpf WInv evolves (await (λ w, (Ok (f w), w))) l any any w.
Proof. apply safe_keeps. intros w1 HI. by split. Qed.

Lemma safe_poll_loop {A C} (failed : A) idle (sweep : C → frame W unit A) turns l (w : W) :
  (∀ c l w, wpf WInv evolves (sweep c) l any any w) → wpf WInv evolves (poll_loop failed idle sweep turns) l any any w.
Proof.
  intros Hs. revert l w. induction turns as [|c turns IH]; intros l w; [done|]. cbn [poll_loop].
  apply safe_bind; [apply safe_try; [apply Hs|]|].
  - intros e l' w' _. by destruct (is_Exception e).
  - intros a l' w' _. apply safe_bind; [|intros; apply IH]. destruct (idle a); [|done].
    apply safe_try; [apply (safe_read (λ _, tt))|]. intros e l2 w2 _. by case_decide.
Qed.

Lemma safe_run_reaper s once turns (w : W) : wpf WInv evolves (run_reaper s once turns) tt any any w.
Proof.
  unfold run_reaper, reaper_run. destruct once, turns; try apply safe_reaper;
    (apply safe_bind; [apply safe_poll_loop; intros; apply safe_reaper|done]).
Qed.

Lemma safe_run_reconciler s once turns (w : W) : wpf WInv evolves (run_reconciler cfg s once turns) tt any any w.
Proof.
  unfold run_reconciler, reconciler_run. destruct once; [apply safe_reconcile|].
  apply safe_bind; [apply safe_poll_loop; intros; apply safe_reconcile|done].
Qed.

Lemma safe_recovery_sweep {L} s locked (l : L) (w : W) : wpf WInv evolves (recovery_sweep cfg s locked) l any any w.
Proof. apply safe_bind; [apply safe_read|]. intros c l' w' _. apply safe_recover_stuck. Qed.

Lemma safe_run_recovery s once turns (w : W) : wpf WInv evolves (run_recovery cfg s once turns) tt any any w.
Proof.
  unfold run_recovery, recovery_run. destruct once, turns; try apply safe_recovery_sweep;
    (apply safe_bind; [apply safe_poll_loop; intros; apply safe_recovery_sweep|done]).
Qed.

Lemma arrival_safe p : arrival p → safe WInv evolves p.
Proof.
  intros [user key token email Hu|user oid admin|user oid admin|user oid admin|c b lk|b|ld now bd sg ts|b lk|s once turns|s once turns|s once turns
         |own sku oh cl ad v|edit|event|d|product price].
  - apply frame_safe. intros w. eapply wpf_mono; [apply _| | |by apply checkout_records]; done.
  - apply frame_safe. intros w. apply safe_cancel_order.
  - apply frame_safe. intros w. unfold get_order_detail, owned_order, get_order. safe_walk.
  - apply frame_safe. intros w. unfold get_execution, owned_order, get_order, list_saga_steps. safe_walk.
  - apply frame_safe. intros w. apply safe_recover_stuck.
  - apply frame_safe. intros w. apply safe_reconcile.
  - apply frame_safe. intros w. apply safe_handle_webhook.
  - apply frame_safe. intros w. apply safe_reaper.
  - apply frame_safe. intros w. apply safe_run_reaper.
  - apply frame_safe. intros w. apply safe_run_reconciler.
  - apply frame_safe. intros w. apply safe_run_recovery.
  - apply frame_safe. intros w. apply safe_keeps. intros w1 HI.
    apply inv_block; [done|..]; rewrite svc_upsert_db; [apply (wi_core w1 HI)|apply inv_evolves_refl].
  - apply frame_safe. intros w. apply safe_keeps, keeps_cart.
  - apply frame_safe. intros w. apply safe_keeps, keeps_gw.
  - apply tick_safe. intros w HI. apply core_block; [done..|]. split; [apply HI|apply core_evolves_refl].
  - apply tick_safe. intros w HI. apply core_block; [done..|]. split; [apply HI|apply core_evolves_refl].
Qed.

(** ** Reachable worlds *)

(** A shop before its first checkout: any stock, prices, baskets and clock. *)
Record opening (w : W) : Prop := {
  op_inv : InvOK (inv_db (w_inv w));
  op_holds : reservations (inv_db (w_inv w)) = [];
  op_orders : orders (w_ord w) = ∅ ∧ saga_log (w_ord w) = [];
  op_payments : payments (w_pay w) = ∅;
  op_idem : w_idem w = ∅
}.

Definition reachable (s : list (prog W unit) * W) : Prop :=
  ∃ w0, opening w0 ∧ rtc (pool_step arrival) ([], w0) s.

Lemma opening_inv w : opening w → WInv w.
Proof.
  intros [HI Hh [Ho Hl] Hp Hi]. constructor.
  - constructor; [done|..]; rewrite ?Ho, ?Hp, ?Hl, ?Hh; try (intros; set_solver).
  - rewrite Hi. intros; set_solver.
Qed.

Lemma reachable_ok s : reachable s → pool_ok WInv evolves s.
Proof.
  intros (w0 & Hop & Hr). eapply pool_sound in Hr; [by apply Hr|apply _|apply arrival_safe|].
  split; [by apply opening_inv|constructor].
Qed.

Lemma reachable_inv ts w : reachable (ts, w) → WInv w.
Proof. intros Hr. by apply (reachable_ok _ Hr). Qed.

Lemma reachable_steps s s' : reachable s → rtc (pool_step arrival) s s' → reachable s'.
Proof. intros (w0 & Hop & Hr) Hs. exists w0. split; [done|]. by etrans. Qed.

(** ** The guarantees *)

(** C1: a paid order is paid for and owns its goods. In every reachable world -
    any interleaving of checkouts, retries, cancels, webhooks, recovery,
    reconciliation and the reaper, with faults and crashes anywhere - an order
    in state [paid] has a payment row under its own key for exactly its total
    whose charge went through, and every one of its lines is a committed
    reservation of its own at the ordered quantity. *)
Theorem paid_orders_are_backed (ts : list (prog W unit)) (w : W) (oid : N) (r : Order)
    (Hr : reachable (ts, w)) (Ho : orders (w_ord w) !! oid = Some r) (Hp : ord_status r = PAID) :
  (∃ pid q, payments (w_pay w) !! pid = Some q ∧ pay_order q = oid ∧
     pay_key q = payment_key_for (ord_user r) (ord_key r) ∧ pay_amount q = ord_total r ∧
     (pay_status q = PSucceeded ∨ pay_status q = PRefunded)) ∧
  (∀ line, line ∈ order_lines r → line_committed (inv_db (w_inv w)) oid line).
Proof.
  pose proof (reachable_inv _ _ Hr) as HI. pose proof (wi_core w HI) as HC.
  destruct (ck_ord _ _ _ HC _ _ Ho) as (Hid & _). split.
  - destruct (ck_paid_money _ _ _ HC _ _ Ho Hp) as (pid & q & Hq & Hk & Hs). exists pid, q.
    assert (drives oid (ord_user r) (ord_key r) (lines_of r) w) as Hd by by exists r.
    pose proof (charge_of_order w oid _ _ _ _ _ HI Hd Hq Hk) as Hpo.
    destruct (ck_charge _ _ _ HC _ _ Hq) as (r2 & Hr2 & _ & Ha). rewrite Hpo in Hr2. simplify_eq. done.
  - pose proof (ck_paid_stock _ _ _ HC _ _ Ho Hp) as Hst. unfold stock_committed in Hst. by rewrite Hid in Hst.
Qed.

(** C4: one order per idempotency key, one charge per order. In every reachable
    world two orders of one user never share a key, every payment belongs to an
    existing order and carries its total, and no order has two payments. *)
Theorem one_order_one_charge (ts : list (prog W unit)) (w : W) (Hr : reachable (ts, w)) :
  (∀ id1 r1 id2 r2, orders (w_ord w) !! id1 = Some r1 → orders (w_ord w) !! id2 = Some r2 →
     ord_user r1 = ord_user r2 → ord_key r1 = ord_key r2 → id1 = id2) ∧
  (∀ pid q, payments (w_pay w) !! pid = Some q →
     ∃ r, orders (w_ord w) !! pay_order q = Some r ∧ pay_amount q = ord_total r) ∧
  (∀ p1 q1 p2 q2, payments (w_pay w) !! p1 = Some q1 → payments (w_pay w) !! p2 = Some q2 →
     pay_order q1 = pay_order q2 → p1 = p2).
Proof.
  pose proof (wi_core w (reachable_inv _ _ Hr)) as HC. split_and!.
  - apply (ck_key _ _ _ HC).
  - intros pid q Hq. destruct (ck_charge _ _ _ HC _ _ Hq) as (r & ? & _ & ?). by exists r.
  - intros p1 q1 p2 q2 H1 H2 Heq. destruct (ck_charge _ _ _ HC _ _ H1) as (r1 & Hr1 & Hk1 & _).
    destruct (ck_charge _ _ _ HC _ _ H2) as (r2 & Hr2 & Hk2 & _).
    eapply (ck_pay_key _ _ _ HC); [exact H1|exact H2|]. rewrite Hk1, Hk2. congruence.
Qed.



(** C2: an answered checkout is a paid order. Run the checkout of a user among
    any other coroutines and faults, from any reachable state: if it answers,
    then the answer is a snapshot of the order stored under the user's key, and
    that order is [paid] - whether the answer came from this drive, a
    concurrent one, or the replay record in Valkey. *)
Theorem checkout_answers_are_paid (ts ts' : list (prog W unit)) (w w' : W) (user : N)
    (key token email : string) (resp : OrderResponse) (created : bool)
    (Hr : reachable (ts, w)) (Hu : is_uuid user)
    (Hrun : rtc (observed_step arrival) (checkout cfg user key token email tt, (ts, w))
              (Ret (Ok (resp, created), tt), (ts', w'))) :
  paid_answer w' user key resp.
Proof.
  pose proof (checkout_records cfg user key token email tt w Hu) as Hwp.
  eapply (observed_sound WInv evolves (λ rl w, match rl with
    | (Ok a, _) => paid_answer w user key a.1 | (Err _, _) => True end)) in Hrun as [_ Hp];
    [exact Hp|apply arrival_safe| |].
  - intros [[a|e] l] w1 w2 H He; [by eapply paid_answer_mono|done].
  - split; [by apply reachable_ok|]. simpl. unfold wpf in Hwp.
    refine (wp_mono WInv evolves _ _ _ w _ Hwp). by intros [[a|e] l] w1.
Qed.

(** C6: stock is never oversold under concurrency. In every reachable world each
    stock row has [0 <= reserved <= on_hand], [reserved] is exactly what the live
    holds add up to, and every live or committed hold is a line of an existing
    order at its quantity. *)
Theorem stock_is_never_oversold (ts : list (prog W unit)) (w : W) (Hr : reachable (ts, w)) :
  (∀ sku row, stock (inv_db (w_inv w)) !! sku = Some row →
     0 ≤ reserved row ≤ on_hand row ∧ reserved row = qty_in HELD sku (reservations (inv_db (w_inv w)))) ∧
  (∀ x, x ∈ reservations (inv_db (w_inv w)) → active x →
     ∃ r, orders (w_ord w) !! res_order_id x = Some r ∧ (res_sku x, res_qty x) ∈ order_lines r).
Proof.
  pose proof (wi_core w (reachable_inv _ _ Hr)) as HC. split.
  - intros sku row Hrow. destruct (ok_rows _ (ck_inv _ _ _ HC) _ _ Hrow) as [(? & ? & ?) _].
    split; [lia|]. by apply (ok_reserved _ (ck_inv _ _ _ HC)).
  - apply (ck_holds _ _ _ HC).
Qed.

(** ** Compensation runs to its end *)

Lemma log_runs oid step status (w : W) r :
  orders (w_ord w) !! oid = Some r →
  ord_op (λ now, log_saga_step now oid step status) w =
    (Ok tt, set_ord (log_add (MkSagaLog oid step status (w_now w)) (w_ord w)) w).
Proof.
  intros Hr. unfold ord_op, at_now, zoom, log_saga_step, begin_nested, add_log. simpl. by rewrite Hr.
Qed.

Lemma release_runs oid (w : W) :
  InvOK (inv_db (w_inv w)) →
  version_room (length (claim_order oid HELD (inv_db (w_inv w)))) (inv_db (w_inv w)) →
  ∃ n d, inv_op (λ _, svc_release_for_order oid) w = (Ok n, set_inv (set_db d (w_inv w)) w) ∧
    claim_order oid HELD d = [].
Proof.
  intros HI Hroom. destruct (release_order_runs oid _ HI Hroom) as (d' & Hd & _ & Hc & _).
  exists (length (claim_order oid HELD (inv_db (w_inv w)))), d'. split; [|done].
  unfold inv_op, at_now, zoom, svc_release_for_order, in_tx. simpl. by rewrite Hd.
Qed.

Lemma cancel_runs oid (w : W) r :
  WInv w → orders (w_ord w) !! oid = Some r →
  ∃ a o, order_transition oid [PENDING] CANCELLED None w = (Ok a, set_ord o w) ∧
    (∃ r', orders o !! oid = Some r' ∧
       ord_status r' = match ord_status r with PENDING => CANCELLED | st => st end) ∧
    (ord_status r = PENDING → has_succeeded_for_order (w_pay w) oid = true → refund_journaled o oid).
Proof.
  intros HI Hr. unfold order_transition, ord_op, at_now, zoom. simpl.
  destruct (transition_status _ _ _ _ _ _ (w_ord w)) as [res o'] eqn:E.
  apply transition_status_spec in E as [(-> & -> & Hn)|(r1 & ext & Hr1 & Hin & -> & Ho & _ & _ & _ & Hj)].
  - exists None, (w_ord w). split; [done|]. specialize (Hn r Hr). split.
    + exists r. split; [done|]. destruct (ord_status r); set_solver.
    + intros Hp. rewrite Hp in Hn. set_solver.
  - simplify_eq. apply list_elem_of_singleton in Hin. eexists _, o'. split; [done|]. rewrite Ho, lookup_insert_eq. split.
    + eexists. split; [done|]. by rewrite Hin.
    + intros _ Hs. by apply Hj.
Qed.


(** ** Webhooks *)

(** The idempotency key a webhook body names. *)
Definition addressed (json_loads : byte_list → option Json) (body : byte_list) : option string :=
  match json_loads body with
  | Some (JObject payload) => json_str (json_get payload "idempotency_key")
  | _ => None
  end.

Lemma transition_refused (w : W) pid q st ref fail f expect hook :
  payments (w_pay w) !! pid = Some q → pay_status q ≠ expect →
  pay_transition pid st ref fail f expect hook w = (Ok None, w).
Proof.
  intros Hq Hs. unfold pay_transition, transition, begin_nested, zoom, flip_payment. st_simp.
  rewrite Hq, decide_False by done. by destruct w.
Qed.

Lemma outcome_refused (w : W) q out ref reason :
  payments (w_pay w) !! pay_id q = Some q → pay_status q ≠ PPending →
  run (apply_outcome (L := unit) (pay_id q) out ref reason tt) w = ((Ok None, tt), w).
Proof.
  intros Hq Hs. destruct out; simpl; [| |done]; by erewrite transition_refused by done.
Qed.

(** a settled payment ignores webhooks. In any reachable world, a webhook -
    signed or not, duplicated, late or forged, with any body - that names a
    payment already settled (or none) never reports a change and leaves the
    whole world as it was. *)
Theorem settled_payments_ignore_webhooks (ts : list (prog W unit)) (w : W) (json_loads : byte_list → option Json)
    (now : Z) (body : byte_list) (signature timestamp : option string) (Hr : reachable (ts, w))
    (Hsettled : ∀ key pid q, addressed json_loads body = Some key → payments (w_pay w) !! pid = Some q →
       pay_key q = key → pay_status q ≠ PPending) :
  ∃ r, run (handle_webhook cfg json_loads now body signature timestamp tt) w = ((r, tt), w) ∧ r ≠ Ok true.
Proof.
  pose proof (wi_core w (reachable_inv _ _ Hr)) as HC. unfold handle_webhook.
  destruct (verify_signature _ _ _ _ _ _) as [[]|e]; [|by eexists].
  unfold addressed in Hsettled. destruct (json_loads body) as [[| | | | |payload]|]; try by eexists.
  destruct (json_str (json_get payload "type") ≫= webhook_type_to_outcome) as [out|]; [|by eexists].
  destruct (json_str (json_get payload "idempotency_key")) as [key|] eqn:Ek; [|by eexists].
  simpl. unfold pay_op, at_now, zoom, pay_get_by_key. simpl.
  replace (set_pay (w_pay w) w) with w by by destruct w.
  destruct (find_row (λ p, pay_key p = key) (payments (w_pay w))) as [[pid q]|] eqn:Ef; [|by eexists].
  apply find_row_Some in Ef as [Hq Hk]. destruct (ck_pay _ _ _ HC _ _ Hq) as [Hid _]. subst pid. simpl.
  unfold mbind, frame_bind. rewrite run_pbind, outcome_refused by (try done; by eapply Hsettled). simpl. by eexists.
Qed.
End Deployment.
