(* ===== verification/Scenarios.v ===== *)
(** * Scenarios: concrete runs of the deployment

    A shop with one product and one buyer, over the real cart ([cart_basket]),
    the stub gateway and the real inventory, orders and payments; runs of it
    that exercise the theorems of Deployment.v on reachable worlds; and the two
    behaviours of the code that differ from what it promises: the journal that
    cannot be written, and the refund that races a retry. *)

From S2P Require Import Prelude Errors UnitOfWork Inventory InventoryInv InventoryHolds InventoryService.
From S2P Require Import Text Sha256 Effects Orders Payments World Cart.
From S2P Require Import PaymentsService CheckoutSaga OrdersService SagaInv SagaSteps SagaWorld SagaSafety.
From S2P Require Import Http SagaDrive Deployment AppConfig Workers WorkersFacts.

(** ** The shop *)

Definition demo_cart : BasketPort CartStore := cart_basket 2592000.
Definition demo_gateway : PaymentGateway StubGateway := stub_gateway "fail" "pending" 10 true.
#[local] Existing Instance demo_cart.
#[local] Existing Instance demo_gateway.

(** The documented defaults, with a readable [uow.depth]. *)
Definition demo_cfg : Settings :=
  MkSettings true 900 86400 (Ok 0%nat) true (Some "whsec") 300 60 86400.

Definition shop : Type := World CartStore StubGateway.

Definition product : N := 17.
Definition buyer : N := 42.

(** Five units at 12.50, two of them in the buyer's cart. *)
Definition opening_shop : shop :=
  MkWorld (MkInvSvc (MkInvDB {[uuid_str product := MkInventory 5 0 1]} [] [] 1) 0 0 0)
    (MkOrdDB ∅ [] [] 1) (MkPayDB ∅ [] 1) (MkStub ∅ ∅ ∅ 1)
    (MkStore {[buyer := (MkHash {[product := MkLineDoc "mug" "12.50" None 2 (Some 1)]} (Some 0), 2592000)]} ∅)
    ∅ {[product := 1250]} ∅ 1000.

Lemma opening_shop_opening : opening opening_shop.
Proof.
  split; simpl; try done. split; simpl; try (intros; set_solver); try apply NoDup_nil_2.
  - intros sku row [<- <-]%lookup_singleton_Some. split; vm_compute; intuition congruence.
  - intros sku row [<- <-]%lookup_singleton_Some. done.
Qed.

Definition demo_checkout (key token : string) : prog shop unit :=
  erase (checkout demo_cfg buyer key token "buyer@example.org" tt).

Lemma demo_checkout_arrives key token : arrival demo_cfg (demo_checkout key token).
Proof. by apply arr_checkout. Qed.

(** The buyer pays. *)
Definition paid_shop : list (prog shop unit) * shop :=
  arrive (demo_checkout "k1" "tok_visa") 100 ([], opening_shop).

Lemma paid_shop_reachable : reachable demo_cfg paid_shop.
Proof.
  exists opening_shop. split; [apply opening_shop_opening|]. apply arrive_steps, demo_checkout_arrives.
Qed.

(** The request dies right after the charge is recorded; the holds expire. *)
Definition later (d : N) (s : list (prog shop unit) * shop) : list (prog shop unit) * shop :=
  arrive (clock_tick d) 1 s.

Definition demo_reaper : prog shop unit := erase (reaper_sweep 100 (λ _, false) tt).
Definition demo_poller (cutoff : Z) : prog shop unit :=
  erase (recover_stuck demo_cfg cutoff 10 (λ _, false) tt).

Definition crashed_shop : list (prog shop unit) * shop :=
  arrive demo_reaper 10 (later 2000 (arrive (demo_checkout "k1" "tok_visa") 13 ([], opening_shop))).

(** The recovery poller finds the charge but no holds and starts the refund. *)
Definition refunding_shop : list (prog shop unit) * shop := arrive (demo_poller 2500) 5 crashed_shop.

(** Meanwhile the client retries under the same key. *)
Definition retried_shop : list (prog shop unit) * shop :=
  arrive (demo_checkout "k1" "tok_visa") 100 refunding_shop.

(** The poller resumes. *)
Definition raced_shop : list (prog shop unit) * shop := drain 100 1 retried_shop.

(** The poller cancels an order between the last look at it and its charge. *)
Definition dead_money_shop : list (prog shop unit) * shop :=
  drain 3 2 (arrive (demo_poller 2500) 100
    (later 2000 (arrive (demo_checkout "k1" "tok_visa") 10 ([], opening_shop)))).

(** ** Reachability *)

Lemma reachable_arrive p fuel s : arrival demo_cfg p → reachable demo_cfg s → reachable demo_cfg (arrive p fuel s).
Proof. intros Hp Hs. eapply reachable_steps; [exact Hs|]. by apply arrive_steps. Qed.

Lemma reachable_drain fuel i s : reachable demo_cfg s → reachable demo_cfg (drain fuel i s).
Proof. intros Hs. eapply reachable_steps; [exact Hs|]. apply drain_steps. Qed.

Lemma opening_reachable : reachable demo_cfg ([], opening_shop).
Proof. exists opening_shop. split; [apply opening_shop_opening|done]. Qed.

Lemma arrives_reaper : arrival demo_cfg demo_reaper. Proof. apply arr_reaper. Qed.
Lemma arrives_poller c : arrival demo_cfg (demo_poller c). Proof. apply arr_recover. Qed.
Lemma arrives_clock d : arrival demo_cfg (clock_tick d). Proof. apply arr_clock. Qed.

Lemma crashed_reachable : reachable demo_cfg crashed_shop.
Proof.
  refine (reachable_arrive _ _ _ arrives_reaper (reachable_arrive _ _ _ (arrives_clock _) (reachable_arrive _ _ _
    (demo_checkout_arrives _ _) opening_reachable))).
Qed.
Lemma retried_reachable : reachable demo_cfg retried_shop.
Proof.
  refine (reachable_arrive _ _ _ (demo_checkout_arrives _ _) (reachable_arrive _ _ _ (arrives_poller _)
    crashed_reachable)).
Qed.
Lemma raced_reachable : reachable demo_cfg raced_shop.
Proof. exact (reachable_drain _ _ _ retried_reachable). Qed.
Lemma dead_money_reachable : reachable demo_cfg dead_money_shop.
Proof.
  refine (reachable_drain _ _ _ (reachable_arrive _ _ _ (arrives_poller _) (reachable_arrive _ _ _ (arrives_clock _)
    (reachable_arrive _ _ _ (demo_checkout_arrives _ _) opening_reachable)))).
Qed.

Lemma reachable_pair s : reachable demo_cfg s → reachable demo_cfg (s.1, s.2).
Proof. by destruct s. Qed.

(** ** The guarantees at these worlds *)

(** The buyer's order and payment once the checkout went through. *)
Definition bought : Order :=
  MkOrder 1 buyer PAID 2500 [MkOrderItem 2 product "mug" 1250 2] 1000 1000 "k1" (body_hash_for "tok_visa")
    "buyer@example.org".

Definition charged_payment (st : PaymentStatus) : Payment :=
  MkPayment 1 1 st 2500 (Some (mint_ref 1)) 1000 None (payment_key_for buyer "k1").

Lemma bought_paid : orders (w_ord paid_shop.2) !! 1%N = Some bought.
Proof. vm_compute. reflexivity. Qed.

Lemma paid_orders_are_backed_witness :
  ∃ pid q, payments (w_pay paid_shop.2) !! pid = Some q ∧ pay_amount q = 2500 ∧ pay_order q = 1%N.
Proof.
  destruct (paid_orders_are_backed demo_cfg paid_shop.1 paid_shop.2 1 bought
    (reachable_pair _ paid_shop_reachable) bought_paid eq_refl) as [(pid & q & Hq & Ho & _ & Ha & _) _].
  exists pid, q. split_and!; [exact Hq|exact Ha|exact Ho].
Defined.

Lemma one_order_one_charge_witness :
  reachable demo_cfg (paid_shop.1, paid_shop.2) ∧
  ∃ r, orders (w_ord paid_shop.2) !! 1%N = Some r ∧ ord_total r = 2500.
Proof.
  split; [exact (reachable_pair _ paid_shop_reachable)|].
  destruct (one_order_one_charge demo_cfg paid_shop.1 paid_shop.2 (reachable_pair _ paid_shop_reachable))
    as (_ & Hp & _).
  destruct (Hp 1%N (charged_payment PSucceeded)) as (r & Hr & Ht); [vm_compute; reflexivity|].
  exists r. split; [exact Hr|symmetry; exact Ht].
Defined.



Lemma stock_is_never_oversold_witness :
  ∃ row, stock (inv_db (w_inv paid_shop.2)) !! uuid_str product = Some row ∧ 0 ≤ reserved row ≤ on_hand row.
Proof.
  destruct (stock_is_never_oversold demo_cfg paid_shop.1 paid_shop.2 (reachable_pair _ paid_shop_reachable)) as [Hs _].
  assert (stock (inv_db (w_inv paid_shop.2)) !! uuid_str product = Some (MkInventory 3 0 3)) as Hrow
    by (vm_compute; reflexivity).
  eexists. split; [exact Hrow|]. destruct (Hs _ _ Hrow) as [H _]. exact H.
Defined.

(** The checkout watched to its answer. *)
Fixpoint observe {A} (fuel : nat) (x : prog shop A * (list (prog shop unit) * shop))
    : prog shop A * (list (prog shop unit) * shop) :=
  match fuel with
  | O => x
  | S f => match x with
           | (Ret _, _) => x
           | (Tick g k, (ts, w)) => observe f (k, (ts, g w))
           | (Atomic m k, (ts, w)) => observe f (k (m w).1, (ts, (m w).2))
           end
  end.

Lemma observe_steps {A} spawnable fuel (x : prog shop A * (list (prog shop unit) * shop)) :
  rtc (observed_step spawnable) x (observe fuel x).
Proof.
  revert x. induction fuel as [|f IH]; intros [p [ts w]]; simpl; [done|]. destruct p as [a|g k|X m k]; [done|..].
  - eapply rtc_l; [constructor|]. apply IH.
  - eapply rtc_l; [apply own_atomic; constructor|]. apply IH.
Qed.

Definition watched : prog shop (result (OrderResponse * bool) * unit) * (list (prog shop unit) * shop) :=
  observe 100 (checkout demo_cfg buyer "k1" "tok_visa" "buyer@example.org" tt, ([], opening_shop)).

Lemma watched_steps :
  rtc (observed_step (arrival demo_cfg))
    (checkout demo_cfg buyer "k1" "tok_visa" "buyer@example.org" tt, ([], opening_shop)) watched.
Proof. exact (observe_steps (arrival demo_cfg) 100 _). Qed.

Lemma checkout_answers_are_paid_witness : paid_answer watched.2.2 buyer "k1" (order_response bought).
Proof.
  apply (checkout_answers_are_paid demo_cfg [] [] opening_shop watched.2.2 buyer "k1" "tok_visa"
    "buyer@example.org" (order_response bought) true opening_reachable).
  - vm_compute. reflexivity.
  - pose proof watched_steps as Hw.
    assert (watched = (Ret (Ok (order_response bought, true), tt), ([], watched.2.2))) as E
      by (vm_compute; reflexivity).
    rewrite E in Hw. exact Hw.
Defined.

(** ** Where the code differs from its promise *)


Section Journal.
Context {B G : Type} `{!BasketPort B} `{!PaymentGateway G}.

(** The journal as deployed: [_log_on] reads [uow.depth] off a [UnitOfWork]. *)
Definition journal_on (cfg : Settings) {D} (s : Session D) : Prop := depth_attribute cfg = uow_depth_attr s.

(** C22: the journal cannot be written. [UnitOfWork] has no attribute [depth], so
    every [_log_on] raises [AttributeError]: whatever the order, basket, stock
    and provider, a drive raises it, its own compensation raises it too, and
    nothing but the compensation counter changes - the order stays pending and
    is never reserved, charged, paid or cancelled. *)
Theorem drive_dies_at_its_journal {D} (cfg : Settings) (s : Session D) (order_id user_id : N)
    (key token : string) (lines : list CheckoutLine) (body_hash : string) (w : World B G)
    (Hj : journal_on cfg s) :
  run (drive cfg order_id user_id key token lines body_hash tt) w =
    ((Err AttributeError, tt), inc "checkout_compensation_total" "reserve" w) ∧
  (∀ failed_step, run (compensate cfg order_id failed_step tt) w =
    ((Err AttributeError, tt), inc "checkout_compensation_total" failed_step w)).
Proof.
  unfold journal_on in Hj. change (uow_depth_attr s) with (Err AttributeError : result nat) in Hj.
  assert (∀ L oid step st, journal_step cfg oid step st = (throw AttributeError : frame (World B G) L unit)) as Hs.
  { intros L oid step st. unfold journal_step. by rewrite Hj. }
  split.
  - unfold drive, drive_body, drive_reserve, drive_exception, compensate, compensate_with. rewrite !Hs. reflexivity.
  - intros failed_step. unfold compensate, compensate_with. rewrite !Hs. reflexivity.
Qed.
End Journal.

Lemma drive_dies_at_its_journal_witness :
  run (drive (MkSettings true 900 86400 (Err AttributeError) true None 300 60 86400) 1 buyer "k1" "tok_visa"
         [MkLine product "mug" 1250 2] "h" tt) opening_shop =
    ((Err AttributeError, tt), inc "checkout_compensation_total" "reserve" opening_shop).
Proof.
  apply (drive_dies_at_its_journal _ (MkSession tt tt 0)). reflexivity.
Defined.

(** A decoder that reads every body as the notification of the buyer's charge. *)
Definition demo_json (body : byte_list) : option Json :=
  Some (JObject [("type", JString "payment.succeeded"); ("idempotency_key", JString (payment_key_for buyer "k1"))]).

Lemma settled_payments_ignore_webhooks_witness :
  ∃ r, run (handle_webhook demo_cfg demo_json 1000 [] (Some (sign_webhook [] "whsec" 1000))
              (Some (int_str 1000)) tt) paid_shop.2 = ((r, tt), paid_shop.2) ∧ r ≠ Ok true.
Proof.
  apply (settled_payments_ignore_webhooks demo_cfg paid_shop.1 paid_shop.2 demo_json 1000 []
    (Some (sign_webhook [] "whsec" 1000)) (Some (int_str 1000)) (reachable_pair _ paid_shop_reachable)).
  intros key pid q _ Hq _.
  assert (payments (w_pay paid_shop.2) = {[1%N := charged_payment PSucceeded]}) as E by (vm_compute; reflexivity).
  rewrite E in Hq. apply lookup_singleton_Some in Hq as [_ <-]. discriminate.
Defined.


(** ** The reaper's turn *)

(** Two holds that ran out at 100, seen at 1000. *)
Definition stale_shop : shop := set_inv sample_svc opening_shop.

Lemma reaper_drains_witness :
  length (expired 1000 (inv_db sample_svc)) = 2%nat ∧
  ∃ s', run (reaper_run 1 (replicate 2 unlocked) tt) stale_shop = (Ok tt, tt, set_inv s' stale_shop) ∧
    expired 1000 (inv_db s') = [].
Proof.
  split; [vm_compute; reflexivity|].
  destruct (reaper_drains 1 2 stale_shop sample_ok) as (s' & Hrun & Hnil & _).
  - intros sku row Hs. revert sku row Hs. apply (bool_decide_unpack (map_Forall (λ _ row, 0 ≤ version row ∧ version row + 2 ≤ int4_max)
      (stock (inv_db sample_svc)))). vm_compute. exact I.
  - apply Nat.leb_le. vm_compute. reflexivity.
  - exists s'. exact (conj Hrun Hnil).
Defined.

(** ** A card number instead of a token *)

(** The exception for a payment token that looks like a card number is documented as a
    400, and a handler is written for it, but it is not registered: the checkout
    that raises it is compensated and answered with a 500. *)
Theorem card_number_answers_500 (reason : Z → option string) :
  let '((r, _), w) := run (checkout demo_cfg buyer "k1" "4242 4242 4242 4242" "buyer@example.org" tt) opening_shop in
  r = Err InvalidPaymentMethodError ∧
  (∃ o, orders (w_ord w) !! 1%N = Some o ∧ ord_status o = CANCELLED) ∧
  documented_status InvalidPaymentMethodError = Some 400 ∧
  pb_status <$> answer reason InvalidPaymentMethodError = Some 500.
Proof.
  match goal with |- context [run ?p ?w0] => destruct (run p w0) as [[r l] w] eqn:E end. vm_compute in E. injection E as <- _ <-.
  split_and!; [reflexivity| |reflexivity..]. eexists. split; vm_compute; reflexivity.
Qed.
