(* ===== verification/Api.v ===== *)
(** * Api: the routes over the whole application

    src/{orders,payments,inventory,catalog,cart}/api/routes.py with what FastAPI runs
    around them - the decorator's dependencies and the parameters' in the order they
    are declared (the bearer token, the rate limit, the caller's mirror row, the role
    gate), then the checks of parameters and bodies - and the registered exception
    handlers; and the adapters of src/bootstrap/container.py that connect the modules.
    One request is one coroutine over the application's world: the JWKS client, the
    identity module, the rate-limit buckets, the catalog with its read cache, and the
    shop.  The catalog's prices as the checkout reads them are the shop's [w_prices]. *)

From Stdlib Require Import Ascii String.
From S2P Require Import Prelude Errors UnitOfWork Inventory InventoryService Text Parse Sha256 Base64 Effects Json.
From S2P Require Import Keyset Orders Payments World Cart PaymentsService CheckoutSaga OrdersService Pagination.
From S2P Require Import Auth Identity RateLimit Http Catalog CatalogService ProductCache Listings.

Record ApiWorld (C K G : Type) := MkApi {
  aw_jwks : JwksWorld (C:=C);
  aw_id : IdWorld K;
  aw_rate : RateWorld;
  aw_cat : CatWorld;
  aw_cache : CacheStore;
  aw_floor : gmap N CatalogDB;
  aw_shop : World CartStore G
}.
Arguments MkApi {C K G} _ _ _ _ _ _ _.
Arguments aw_jwks {C K G} _.
Arguments aw_id {C K G} _.
Arguments aw_rate {C K G} _.
Arguments aw_cat {C K G} _.
Arguments aw_cache {C K G} _.
Arguments aw_floor {C K G} _.
Arguments aw_shop {C K G} _.

(** What the handler returned with its status and headers, or the problem of an error. *)
Record Response (A : Type) := MkResponse { rs_status : Z; rs_headers : list (string * string); rs_body : option A }.
Arguments MkResponse {A} _ _ _.
Arguments rs_status {A} _.
Arguments rs_headers {A} _.
Arguments rs_body {A} _.

(** A request body: no JSON at all, JSON the model refuses, or an instance of it. *)
Inductive Body (A : Type) := Unparsable | Refused | Parsed (a : A).
Arguments Unparsable {A}.
Arguments Refused {A}.
Arguments Parsed {A} a.

(** ** Request models (src/*/application/dto.py, src/*/api/schemas.py) *)

(** [min_length], [max_length]: in characters. *)
Definition bounded_text (lo hi : nat) (s : string) : bool := bool_decide (lo ≤ String.length s ≤ hi)%nat.

(** [_reject_blank_name] with the field's bounds *)
Definition name_ok (s : string) : bool := bounded_text 1 255 s && negb (bool_decide (strip s = EmptyString)).
(** [gt=0, max_digits=12, decimal_places=2], in cents *)
Definition price_ok (cents : Z) : bool := bool_decide (0 < cents < 10 ^ 12).
Definition opt_ok {A} (ok : A → bool) (x : option A) : bool := match x with Some a => ok a | None => true end.

Record ProductCreate := MkCreate { pc_name : string; pc_description : option string; pc_category : option string; pc_price : Z }.
Definition product_create_ok (b : ProductCreate) : bool :=
  name_ok (pc_name b) && opt_ok (bounded_text 0 5000) (pc_description b) &&
  opt_ok (bounded_text 0 255) (pc_category b) && price_ok (pc_price b).

(** [ProductUpdate]: a field is unset, [null] or a value. *)
Record ProductUpdate := MkUpdate {
  pu_name : option (option string);
  pu_description : option (option string);
  pu_category : option (option string);
  pu_price : option (option Z)
}.
Definition sent {A} (x : option (option A)) : bool := bool_decide (is_Some x).

(** The field rules, [_reject_empty_patch] and [_reject_explicit_null]; the fields set. *)
Definition product_update (b : ProductUpdate) : option ProductPatch :=
  if opt_ok (opt_ok name_ok) (pu_name b) && opt_ok (opt_ok (bounded_text 0 5000)) (pu_description b) &&
     opt_ok (opt_ok (bounded_text 0 255)) (pu_category b) && opt_ok (opt_ok price_ok) (pu_price b)
  then if negb (sent (pu_name b) || sent (pu_description b) || sent (pu_category b) || sent (pu_price b)) then None
  else match pu_name b, pu_price b with
       | Some None, _ | _, Some None => None
       | name, price => Some (MkPatch (mjoin name) (pu_description b) (pu_category b) (mjoin price))
       end
  else None.

(** [ImagePresignRequest] *)
Record ImagePresignRequest := MkPresign { ip_content_type : string; ip_content_length : Z }.
Definition presign_ok (b : ImagePresignRequest) : bool := bool_decide (0 < ip_content_length b).

(** What the routes are configured with. *)
Record ApiSettings := MkApiSettings {
  as_auth : AuthSettings;
  as_rates : option RateSettings;
  as_valkey : bool;
  as_shop : Settings;
  as_catalog : CatSettings;
  (* [None] when the feature is off *)
  as_cache : option CacheSettings;
  as_cart_ttl : Z;
  as_cart_items : nat;
  as_cart_qty : Z
}.

Section Api.
Context {C K G : Type} `{!Pyjwt C} `{!IdentityAdminPort K} `{!PaymentGateway G} `{!ResponseCodec}.
Context {numeric : Type} `{SortParsers} `{JsonLists} `{PgCasts numeric} `{Folding}.
Context (st : ApiSettings) (reason : Z → option string) (orm : Orm).
(** How a cached read goes: its lock renewals and jitter, and how many promotions. *)
Context (choices : nat → Choices) (fuel : nat).
Notation W := (ApiWorld C K G).
#[local] Instance api_basket : BasketPort CartStore := cart_basket (as_cart_ttl st).

Definition jwks_part : Lens W (JwksWorld (C:=C)) :=
  MkLens aw_jwks (λ x w, MkApi x (aw_id w) (aw_rate w) (aw_cat w) (aw_cache w) (aw_floor w) (aw_shop w)).
Definition id_part : Lens W (IdWorld K) :=
  MkLens aw_id (λ x w, MkApi (aw_jwks w) x (aw_rate w) (aw_cat w) (aw_cache w) (aw_floor w) (aw_shop w)).
Definition rate_part : Lens W RateWorld :=
  MkLens aw_rate (λ x w, MkApi (aw_jwks w) (aw_id w) x (aw_cat w) (aw_cache w) (aw_floor w) (aw_shop w)).
Definition cat_part : Lens W CatWorld :=
  MkLens aw_cat (λ x w, MkApi (aw_jwks w) (aw_id w) (aw_rate w) x (aw_cache w) (aw_floor w) (aw_shop w)).
Definition shop_part : Lens W (World CartStore G) :=
  MkLens aw_shop (λ x w, MkApi (aw_jwks w) (aw_id w) (aw_rate w) (aw_cat w) (aw_cache w) (aw_floor w) x).

(** [InventoryStockAvailability.available_for]: [max(on_hand - reserved, 0)] per stocked SKU *)
Definition available_for (d : InvDB) : gmap string Z := (λ row, Z.max (on_hand row - reserved row) 0) <$> stock d.

(** What the catalog's reads see: its rows, the stock, and the cache.  They write the
    cache only. *)
Definition cache_part : Lens W CacheWorld := MkLens
  (λ w, MkCacheWorld (cw_db (aw_cat w)) (available_for (inv_db (w_inv (aw_shop w)))) (aw_cache w) (cw_now (aw_cat w)) (aw_floor w))
  (λ x w, MkApi (aw_jwks w) (aw_id w) (aw_rate w) (aw_cat w) (kw_cache x) (kw_floor x) (aw_shop w)).

(** A coroutine of one module, with its own frame. *)
Definition within {D L A} (part : Lens W D) (l0 : L) (p : frame D L A) : frame W unit A := λ u,
  pbind (pzoom part (p l0)) (λ rl, Ret (rl.1, u)).

(** ** Dependencies *)

(** [PrincipalDep], [CurrentUserDep], [rate_limited(bucket)] and the merchant gate *)
Definition principal_dep (credentials : option string) : frame W unit Principal :=
  within jwks_part tt (get_current_user (as_auth st) credentials).
Definition current_user_dep (p : Principal) : frame W unit User :=
  within id_part new_session (with_session (get_current_db_user p)).
Definition rate_limit_dep (bucket : string) (p : Principal) : frame W unit unit :=
  within rate_part tt (rate_limited (as_rates st) (as_valkey st) bucket (pr_sub p)).
Definition merchant_dep (p : Principal) : frame W unit Principal := Effects.of_result (require_role ["merchant"; "admin"]%string p).

(** What pydantic refused answers 422 once the dependencies went through. *)
Definition required {A} (x : option A) : frame W unit A :=
  match x with Some a => mret a | None => throw RequestValidationError end.

(** The body is decoded before the dependencies run, and checked after them. *)
Definition with_body {A B} (b : Body A) (k : option A → frame W unit B) : frame W unit B :=
  match b with Unparsable => throw RequestValidationError | Refused => k None | Parsed a => k (Some a) end.

Definition if_ok {A} (ok : bool) (a : A) : option A := if ok then Some a else None.

(** [if x is None: raise _NOT_FOUND] *)
Definition found {A} (x : option A) : frame W unit A :=
  match x with Some a => mret a | None => throw (HTTPException 404) end.

(** The exception handlers; [None] when the request was cancelled. *)
Definition serve {A} (route : frame W unit (Response A)) : prog W (option (Response A)) :=
  pbind (route tt) (λ rl, Ret (match rl.1 with
    | Ok r => Some r
    | Err e => (λ p, MkResponse (pb_status p) (pb_headers p) None) <$> answer reason e
    end)).

(** ** src/orders/api/routes.py *)

(** [build_checkout_saga] and [get_cart_repository]: without Valkey, 503. *)
Definition valkey_dep : frame W unit unit := if as_valkey st then mret tt else throw DependencyUnavailableError.

(** [IdempotencyKeyDep] and [CheckoutRequest] bound the two texts. *)
Definition checkout_route (credentials : option string) (key : option string) (body : Body string)
    : frame W unit (Response OrderResponse) :=
  with_body body (λ token,
    p ← principal_dep credentials;
    rate_limit_dep "checkout" p ;;
    valkey_dep ;;
    caller ← current_user_dep p;
    key ← required (key ≫= λ k, if_ok (bounded_text 1 200 k) k);
    token ← required (token ≫= λ t, if_ok (bounded_text 1 512 t) t);
    answer ← within shop_part tt (checkout (as_shop st) (u_id caller) key token (u_email caller));
    mret (MkResponse 201 (if (answer.2 : bool) then [] else [("Idempotent-Replay", "true")]%string) (Some answer.1))).

(** [_STATUS_VALUES] *)
Definition status_values (s : string) : option OrderStatus :=
  if decide (s = "pending"%string) then Some PENDING
  else if decide (s = "paid"%string) then Some PAID
  else if decide (s = "shipped"%string) then Some SHIPPED
  else if decide (s = "cancelled"%string) then Some CANCELLED
  else None.

Definition status_filter (s : option string) : result (option OrderStatus) :=
  match s with
  | None => Ok None
  | Some s => match status_values s with
              | Some st => Ok (Some st)
              | None => Err (InvalidQueryParamError "status" s)
              end
  end.

Definition list_orders_route (credentials : option string) (names : list string) (limit : option Z) (sort : string)
    (cursor status : option string) : frame W unit (Response (Page OrderResponse)) :=
  p ← principal_dep credentials;
  caller ← current_user_dep p;
  limit ← required (limit ≫= λ n, if_ok (bool_decide (1 ≤ n ≤ MAX_LIMIT)) n);
  Effects.of_result (reject_unknown_query_params names ["limit"; "sort"; "cursor"; "status"]%string) ;;
  st ← Effects.of_result (status_filter status);
  page ← within shop_part tt (await (ord_op (λ _ d, (svc_list_orders (u_id caller) (MkParams limit sort cursor) st d, d))));
  mret (MkResponse 200 [] (Some page)).

(** The three routes on one order; [order_id] is [None] for a path that is no UUID. *)
Definition order_route {A} (credentials : option string) (order_id : option N)
    (use : N → N → bool → frame (World CartStore G) unit (option A)) : frame W unit (Response A) :=
  p ← principal_dep credentials;
  caller ← current_user_dep p;
  order_id ← required order_id;
  order ← within shop_part tt (use (u_id caller) order_id (is_admin p));
  a ← found order;
  mret (MkResponse 200 [] (Some a)).

Definition get_order_route credentials order_id := order_route credentials order_id get_order_detail.
Definition get_order_execution_route credentials order_id := order_route credentials order_id get_execution.
Definition cancel_order_route credentials order_id := order_route credentials order_id cancel_order.

(** ** src/payments/api/routes.py *)

Definition MAX_WEBHOOK_BODY_BYTES : Z := 64 * 1024.

(** [int(declared) > MAX]; a header that is no number counts as absent. *)
Definition declared_too_big (declared : option string) : bool :=
  match declared ≫= python_int with
  | Some n => bool_decide (MAX_WEBHOOK_BODY_BYTES < n)
  | None => false
  end.

Definition payment_webhook_route (json_loads : byte_list → option PaymentsService.Json) (now : Z) (declared : option string)
    (body : byte_list) (signature timestamp : option string) : frame W unit (Response unit) :=
  if declared_too_big declared then throw (HTTPException 413)
  else if decide (MAX_WEBHOOK_BODY_BYTES < Z.of_nat (length body)) then throw (HTTPException 413)
  else
    within shop_part tt (handle_webhook (as_shop st) json_loads now body signature timestamp) ;;
    mret (MkResponse 204 [] (Some tt)).

(** ** src/inventory/api/routes.py *)

(** [^[A-Za-z0-9._:-]+$], one to 64 characters *)
Definition sku_char (c : ascii) : bool :=
  is_digit c || bool_decide ((65 ≤ N_of_ascii c ≤ 90) ∨ (97 ≤ N_of_ascii c ≤ 122))%N ||
  bool_decide (c ∈ ["."%char; "_"%char; ":"%char; "-"%char]).
Definition sku_path (sku : string) : bool := bounded_text 1 64 sku && all_chars sku_char sku.

(** [CatalogStockOwnership.merchant_id_for_sku] *)
Definition merchant_id_for_sku (sku : string) : frame W unit (option N) :=
  match uuid_parse sku with
  | None => mret None
  | Some pid => p ← within cat_part tt (await (cat_op (λ _, repo_get_product pid))); mret (p_merchant <$> p)
  end.

Definition upsert_stock_route (credentials : option string) (sku : string) (body : Body Z) (if_match : option string)
    : frame W unit (Response Inventory) :=
  with_body body (λ units,
    p ← principal_dep credentials;
    caller ← current_user_dep p;
    merchant_dep p ;;
    sku ← required (if_ok (sku_path sku) sku);
    units ← required (units ≫= λ n, if_ok (bool_decide (0 ≤ n ≤ 1000000000)) n);
    v ← Effects.of_result (parse_if_match if_match);
    owner ← merchant_id_for_sku sku;
    row ← within shop_part tt (await (inv_op (λ _,
      svc_upsert_stock repository_upsert (Some (λ _, owner)) sku units (Some (u_id caller)) (is_admin p) v)));
    row ← found row;
    mret (MkResponse 200 [("ETag", etag_of (version row))]%string (Some row))).

(** ** src/catalog/api/routes.py *)

(** [get_product_cache]: the feature flag, and Valkey. *)
Definition product_cache : option CacheSettings := if as_valkey st then as_cache st else None.
(** The service's settings when there is no cache. *)
Definition uncached : CacheSettings := MkCacheSettings (image_base_url (as_catalog st)) 0 0 0 0.

Definition list_products_route (credentials : option string) (names : list string) (limit : option Z) (sort : string)
    (cursor category : option string) (merchant_id : option (option N)) (search : option string)
    : frame W unit (Response (Page ProductResponse)) :=
  principal_dep credentials ;;
  limit ← required (limit ≫= λ n, if_ok (bool_decide (1 ≤ n ≤ MAX_LIMIT)) n);
  merchant_id ← required (match merchant_id with Some None => None | Some (Some m) => Some (Some m) | None => Some None end);
  required (if_ok (opt_ok (bounded_text 0 200) search) tt) ;;
  Effects.of_result (reject_unknown_query_params names ["limit"; "sort"; "cursor"; "category"; "merchant_id"; "search"]%string) ;;
  let filters := match category with Some c => [("category"%string, FText c)] | None => [] end ++
                 match merchant_id with Some m => [("merchant_id"%string, FUuid m)] | None => [] end in
  page ← within cache_part None (svc_list_products (default uncached product_cache) (MkParams limit sort cursor) filters search);
  mret (MkResponse 200 [] (Some page)).

(** [get_product] of the service, with or without a cache; the outcome it notes. *)
Definition read_product (pid : N) : frame CacheWorld (option CacheOutcome) (option ProductResponse * option CacheOutcome) :=
  r ← match product_cache with
      | Some k => svc_get_product k choices pid fuel
      | None =>
          response ← try_catch (load_product uncached pid)
                       (λ e, match e with RepositoryFailure cause => throw cause | e => throw e end);
          match response with
          | None => mret None
          | Some r => items ← attach_availability [r]; mret (head items)
          end
      end;
  outcome ← locals;
  mret (r, outcome).

(** [CacheOutcome.value] *)
Definition outcome_value (o : CacheOutcome) : string := match o with HIT => "hit" | MISSED => "miss" | BYPASS => "bypass" end.

Definition get_product_route (credentials : option string) (product_id : option N) : frame W unit (Response ProductResponse) :=
  principal_dep credentials ;;
  pid ← required product_id;
  read ← within cache_part None (read_product pid);
  let cache_header := match read.2 with Some o => [("X-Cache"%string, outcome_value o)] | None => [] end in
  mret (match read.1 with
        | None => MkResponse 404 cache_header None
        | Some r => MkResponse 200 (("ETag"%string, etag_of (p_version (pr_product r))) :: cache_header) (Some r)
        end).

Definition create_product_route (credentials : option string) (body : Body ProductCreate) : frame W unit (Response ProductResponse) :=
  with_body body (λ b,
    p ← principal_dep credentials;
    merchant_dep p ;;
    rate_limit_dep "write" p ;;
    caller ← current_user_dep p;
    b ← required (b ≫= λ b, if_ok (product_create_ok b) b);
    r ← within cat_part tt (svc_create_product (as_catalog st) (u_id caller) (pc_name b) (pc_description b) (pc_category b) (pc_price b));
    mret (MkResponse 201 [] (Some r))).

(** The dependencies of the routes on one product of the merchant's. *)
Definition merchant_write {A} (bucket : string) (credentials : option string)
    (use : N → bool → frame W unit (Response A)) : frame W unit (Response A) :=
  p ← principal_dep credentials;
  rate_limit_dep bucket p ;;
  caller ← current_user_dep p;
  merchant_dep p ;;
  use (u_id caller) (is_admin p).

Definition update_product_route (credentials : option string) (product_id : option N) (body : Body ProductUpdate)
    (if_match : option string) : frame W unit (Response ProductResponse) :=
  with_body body (λ b, merchant_write "write" credentials (λ caller admin,
    pid ← required product_id;
    patch ← required (b ≫= product_update);
    v ← Effects.of_result (parse_if_match if_match);
    product ← within cat_part tt (svc_update_product (as_catalog st) orm pid caller admin patch v);
    r ← found product;
    mret (MkResponse 200 [("ETag", etag_of (p_version (pr_product r)))]%string (Some r)))).

Definition delete_product_route (credentials : option string) (product_id : option N) (if_match : option string) (now : Z)
    : frame W unit (Response unit) :=
  merchant_write "write" credentials (λ caller admin,
    pid ← required product_id;
    v ← Effects.of_result (parse_if_match if_match);
    deleted ← within cat_part tt (svc_delete_product orm pid caller admin v now);
    found (if_ok deleted tt) ;;
    mret (MkResponse 204 [] (Some tt))).

Definition presign_product_image_route (credentials : option string) (product_id : option N) (body : Body ImagePresignRequest)
    : frame W unit (Response Ticket) :=
  with_body body (λ b, merchant_write "upload" credentials (λ caller admin,
    pid ← required product_id;
    b ← required (b ≫= λ b, if_ok (presign_ok b) b);
    presigned ← within cat_part tt (svc_presign (as_catalog st) orm pid caller admin (ip_content_type b) (ip_content_length b));
    t ← found presigned;
    mret (MkResponse 200 [] (Some t)))).

(** ** src/cart/api/routes.py *)

(** [CatalogCartProducts.get_snapshot] *)
Definition get_snapshot (pid : N) : frame W unit (option ProductSnapshot) :=
  read ← within cache_part None (read_product pid);
  mret ((λ r, let p := pr_product r in MkSnapshot (p_name p) (p_price p) (pr_image_url r) (Some (p_version p))) <$> read.1).

Definition cart_part {A} (m : Z → ST CartStore A) : frame W unit A := within shop_part tt (await (cart_op m)).

(** The cart service comes first, then the caller. *)
Definition cart_route {A} (credentials : option string) (use : N → frame W unit (Response A)) : frame W unit (Response A) :=
  valkey_dep ;;
  p ← principal_dep credentials;
  caller ← current_user_dep p;
  use (u_id caller).

Definition get_cart_route (credentials : option string) : frame W unit (Response CartResponse) :=
  cart_route credentials (λ user,
    cart ← cart_part (λ now, svc_get_cart (as_cart_ttl st) now user);
    mret (MkResponse 200 [] (Some cart))).

(** A quantity out of range is refused before the product is read. *)
Definition in_range (quantity lowest : Z) : frame W unit unit :=
  if decide (quantity < lowest ∨ as_cart_qty st < quantity)
  then throw (out_of_range quantity lowest (as_cart_qty st)) else mret tt.

Definition add_item_route (credentials : option string) (body : Body (N * Z)) : frame W unit (Response CartResponse) :=
  with_body body (λ b, cart_route credentials (λ user,
    b ← required b;
    in_range b.2 1 ;;
    snapshot ← get_snapshot b.1;
    cart ← cart_part (λ now, svc_add_item (as_cart_ttl st) (as_cart_items st) (as_cart_qty st) now snapshot user b.1 b.2);
    mret (MkResponse 200 [] (Some cart)))).

Definition set_quantity_route (credentials : option string) (product_id : option N) (body : Body Z)
    : frame W unit (Response CartResponse) :=
  with_body body (λ b, cart_route credentials (λ user,
    pid ← required product_id;
    quantity ← required b;
    in_range quantity 0 ;;
    snapshot ← get_snapshot pid;
    cart ← cart_part (λ now, svc_set_quantity (as_cart_ttl st) (as_cart_qty st) now snapshot user pid quantity);
    mret (MkResponse 200 [] (Some cart)))).

Definition remove_item_route (credentials : option string) (product_id : option N) : frame W unit (Response CartResponse) :=
  cart_route credentials (λ user,
    pid ← required product_id;
    cart ← cart_part (λ now, svc_remove_item (as_cart_ttl st) now user pid);
    mret (MkResponse 200 [] (Some cart))).

Definition clear_cart_route (credentials : option string) : frame W unit (Response unit) :=
  cart_route credentials (λ user,
    cart_part (λ _, repo_clear_cart user) ;;
    mret (MkResponse 204 [] (Some tt))).
End Api.
