(* ===== verification/ApiFacts.v ===== *)
(** * ApiFacts: who is answered what, under every interleaving of the application

    [ApiInv] and [api_evolves] are the modules' own invariants and relies, side by
    side; [api_arrival] is everything that may run - every route, the workers, the
    clocks, uploads, the provider, the directory.  The theorems follow a request from
    its bearer token to the row it reads or writes. *)

From Stdlib Require Import Ascii String.
From S2P Require Import Prelude Errors UnitOfWork Inventory InventoryInv InventoryService Text Parse Sha256 Base64 Effects Json.
From S2P Require Import Keyset Orders Payments World Cart PaymentsService CheckoutSaga OrdersService Pagination.
From S2P Require Import Auth AuthFacts Identity IdentityFacts RateLimit Http Catalog CatalogFacts CatalogService.
From S2P Require Import CatalogInv CatalogSafety ProductCache Listings SagaInv SagaSteps SagaWorld SagaSafety SagaDrive Deployment Api.

(** ** Ownership gates of the modules *)

Section Gates.

(** The caller owns the order, or is an administrator. *)
Definition order_of {B G} (oid caller : N) (admin : bool) (w : World B G) : Prop :=
  ∃ o, orders (w_ord w) !! oid = Some o ∧ (ord_user o = caller ∨ admin = true).

Lemma order_of_stays {B G} oid caller admin (w w' : World B G) :
  evolves w w' → order_of oid caller admin w → order_of oid caller admin w'.
Proof.
  intros He (o & Ho & Hown). destruct (ev_orders _ _ _ _ _ _ He _ _ Ho) as (o' & Ho' & Hs & _).
  exists o'. split; [done|]. destruct Hs as (_ & -> & _). done.
Qed.

(** A use-case behind the ownership gate answers only for the caller's orders. *)
Lemma order_gate {B G A} user oid admin (rest : option Order → frame (World B G) unit (option A)) l w :
  rest None = mret None →
  (∀ l w, wpf WInv evolves (owned_order user oid admin ≫= rest) l any any w) →
  wpf WInv evolves (owned_order user oid admin ≫= rest) l
    (λ a _ w', is_Some a → order_of oid user admin w') any w.
Proof.
  intros Hn Hsafe w1 r w2 HI He Ho. destruct (Hsafe l w w1 r w2 HI He Ho) as (HI2 & He2 & Hk). split_and!; [done..|].
  destruct Ho as [|e Hf|e Hf]; [|done..]. unfold ord_op, at_now, zoom, get_order in *. simpl in *.
  destruct (orders (w_ord w1) !! oid) as [o|] eqn:Eo; simpl in *; [|by rewrite Hn; intros [? ?]].
  unfold assert_owner in *. case_decide as Hd; [done|]. simpl in *.
  eapply wp_mono; [apply _| |exact Hk]. intros [[a|e] l'] w3 He3 _; [|done]. intros _.
  eapply order_of_stays; [exact He3|]. exists o. split; [done|].
  destruct admin; [by right|left]. destruct (decide (ord_user o = user)); [done|]. by destruct Hd.
Qed.

(** The caller owns the product, or is an administrator. *)
Definition product_of (pid caller : N) (admin : bool) (w : CatWorld) : Prop :=
  ∃ p, products (cw_db w) !! pid = Some p ∧ (p_merchant p = caller ∨ admin = true).

Lemma product_of_stays pid caller admin (w w' : CatWorld) :
  cat_evolves w w' → product_of pid caller admin w → product_of pid caller admin w'.
Proof.
  intros [[Hr _] _ _ _ _] (p & Hp & Hown). destruct (Hr _ _ Hp) as (q & Hq & He).
  exists q. split; [done|]. by rewrite (re_merchant _ _ He).
Qed.

Lemma product_gate `{Imaging} cfg st {A} pid caller admin (none : A) (rest : Product → frame CatWorld unit A) l w :
  let p := (product ← await (cat_op (λ _, repo_get_product pid));
            match product with
            | None => mret none
            | Some p => assert_product_owner (p_merchant p) caller admin ;; rest p
            end) in
  Safe (CatInv cfg st) cat_evolves p →
  wpf (CatInv cfg st) cat_evolves p l (λ a _ w', a = none ∨ product_of pid caller admin w') (λ _ _ _, True) w.
Proof.
  intros p Hsafe w1 r w2 HI He Ho. destruct (Hsafe l w w1 r w2 HI He Ho) as (HI2 & He2 & Hk). split_and!; [done..|].
  destruct Ho as [|e Hf|e Hf]; [|done..]. unfold cat_op, zoom, repo_get_product in *. simpl in *.
  destruct (live_row pid (cw_db w1)) as [x|] eqn:Eo; simpl in *; [|by left].
  apply live_row_Some in Eo as [Hx _]. unfold assert_product_owner in *.
  destruct (negb (bool_decide (p_merchant x = caller)) && negb admin) eqn:Eg; [done|]. simpl in *.
  eapply wp_mono; [apply _| |exact Hk]. intros [[a|e] l'] w3 He3 _; [|done]. right.
  eapply product_of_stays; [exact He3|]. exists x. split; [done|].
  destruct admin; [by right|left]. apply andb_false_iff in Eg as [Eg|Eg]; [|done].
  by apply negb_false_iff, bool_decide_eq_true in Eg.
Qed.
End Gates.

Create HintDb api.

Section Facts.
Context {C K G : Type} `{!Pyjwt C} `{!IdentityAdminPort K} `{!Accounts K} `{!AdminPortLaws K} `{!PaymentGateway G}.
Context `{!ResponseCodec} `{!Imaging} {numeric : Type} `{SortParsers} `{JsonLists} `{PgCasts numeric} `{Folding}.
Context (st : ApiSettings) (reason : Z → option string) (orm : Orm) (choices : nat → Choices) (fuel : nat).
(** The accounts that had an e-mail when the service started. *)
Context (known : string → Prop).
Notation W := (ApiWorld C K G).
#[local] Instance facts_basket : BasketPort CartStore := cart_basket (as_cart_ttl st).

(** ** The modules side by side *)

Notation CI := (CatInv (as_catalog st) false).

Record ApiInv (w : W) : Prop := {
  ai_id : IdInv known (aw_id w);
  ai_cat : CI (aw_cat w);
  ai_shop : WInv (aw_shop w)
}.

Record api_evolves (w w' : W) : Prop := {
  ae_id : id_evolves (aw_id w) (aw_id w');
  ae_cat : cat_evolves (aw_cat w) (aw_cat w');
  ae_shop : evolves (aw_shop w) (aw_shop w')
}.

#[local] Instance api_evolves_preorder : PreOrder api_evolves.
Proof.
  split.
  - intros w. by split.
  - intros w1 w2 w3 [A1 A2 A3] [B1 B2 B3]. split; by etrans.
Qed.

Notation WP p Q := (wpf ApiInv api_evolves p tt Q (λ _ _ _, True)).
Notation SAFE := (Safe ApiInv api_evolves).
Definition nothing {D : Type} : D → D → Prop := λ _ _, True.
#[local] Instance nothing_preorder {D} : PreOrder (@nothing D).
Proof. done. Qed.

(** A part of the world with an invariant and a rely of its own. *)
Record part_laws {D} (part : Lens W D) (ID : D → Prop) (ED : D → D → Prop) : Prop := {
  pl_inv : ∀ w, ApiInv w → ID (view part w);
  pl_evolves : ∀ w w', api_evolves w w' → ED (view part w) (view part w');
  pl_view_put : ∀ d w, view part (put part d w) = d;
  pl_put_view : ∀ w, put part (view part w) w = w;
  pl_put : ∀ w d, ApiInv w → ID d → ED (view part w) d → ApiInv (put part d w) ∧ api_evolves w (put part d w)
}.

(** The part's own proof of a coroutine is the application's. *)
Section Part.
Context {D : Type} (part : Lens W D) (ID : D → Prop) (ED : D → D → Prop) (Hl : part_laws part ID ED).

Lemma wpf_within {L A} (l0 : L) (p : frame D L A) (Q : A → D → Prop) w :
  wpf ID ED p l0 (λ a _, Q a) (λ _ _ _, True) (view part w) →
  WP (within part l0 p) (λ a _ w', Q a (view part w')) w.
Proof.
  intros Hp. apply wp_pbind. eapply wp_mono; [apply _| |].
  2: { eapply (wp_pzoom part ApiInv api_evolves ID ED); [apply Hl..|exact Hp]. }
  by intros [[a|e] l'] w' _.
Qed.

Lemma safe_part (p : prog D unit) : safe ID ED p → safe ApiInv api_evolves (pzoom part p).
Proof.
  intros Hp w HI. eapply (wp_pzoom part ApiInv api_evolves ID ED) with (Q := λ _ _, True); [apply Hl..|]. by apply Hp, Hl.
Qed.
End Part.

Lemma id_laws : part_laws id_part (IdInv known) id_evolves.
Proof. split; [by intros w []|by intros w w' []|done|by intros []|]. intros w d [A1 A2 A3] Hd He. split; by split. Qed.
Lemma cat_laws : part_laws cat_part CI cat_evolves.
Proof. split; [by intros w []|by intros w w' []|done|by intros []|]. intros w d [A1 A2 A3] Hd He. split; by split. Qed.
Lemma shop_laws : part_laws shop_part WInv evolves.
Proof. split; [by intros w []|by intros w w' []|done|by intros []|]. intros w d [A1 A2 A3] Hd He. split; by split. Qed.

(** Parts the invariant does not mention. *)
Section Free.
Context {D : Type} (part : Lens W D).
Context (Hput : ∀ w d, ApiInv w → ApiInv (put part d w) ∧ api_evolves w (put part d w)).

Lemma wp_free {A} (p : prog D A) w : wp ApiInv api_evolves (pzoom part p) (λ _ _, True) w.
Proof.
  revert w. induction p as [a|f k IH|X m k IH]; intros w; simpl; [done|..].
  - intros w1 HI _. destruct (Hput w1 (f (view part w1)) HI). by split_and!.
  - intros w1 r w2 HI _ Ho.
    assert (w2 = w1 ∨ ∃ d, w2 = put part d w1) as [->|[d ->]].
    { destruct Ho; [right|by left|right]; unfold zoom; destruct (m (view part w1)) as [x d]; by exists d. }
    + by split_and!.
    + destruct (Hput w1 d HI). by split_and!.
Qed.

Lemma Safe_free {L A} (l0 : L) (p : frame D L A) : SAFE (within part l0 p).
Proof.
  intros [] w. apply wp_pbind. eapply wp_mono; [apply _| |apply wp_free]. by intros [[a|e] l'] w' _ _.
Qed.
End Free.

Lemma free_put (w w' : W) :
  ApiInv w → aw_id w' = aw_id w → aw_cat w' = aw_cat w → aw_shop w' = aw_shop w → ApiInv w' ∧ api_evolves w w'.
Proof. intros [A B D] E1 E2 E3. split; split; rewrite ?E1, ?E2, ?E3; done. Qed.

Lemma Safe_jwks {L A} (l0 : L) (p : frame _ L A) : SAFE (within jwks_part l0 p).
Proof. apply Safe_free. intros w d HI. by apply free_put. Qed.
Lemma Safe_rate {L A} (l0 : L) (p : frame _ L A) : SAFE (within rate_part l0 p).
Proof. apply Safe_free. intros w d HI. by apply free_put. Qed.
Lemma Safe_cache {L A} (l0 : L) (p : frame _ L A) : SAFE (within cache_part l0 p).
Proof. apply Safe_free. intros w d HI. by apply free_put. Qed.

Lemma jwks_laws : part_laws jwks_part (λ _, True) any_change.
Proof. split; [done|done|done|by intros []|]. intros w d HI _ _. by apply free_put. Qed.

Lemma Safe_cat {L A} (l0 : L) (p : frame CatWorld L A) : Safe CI cat_evolves p → SAFE (within cat_part l0 p).
Proof. intros Hp [] w. eapply wpf_mono; [apply _| | |apply (wpf_within _ _ _ cat_laws l0 p (λ _ _, True)), Hp]; done. Qed.
Lemma Safe_shop {L A} (l0 : L) (p : frame (World CartStore G) L A) :
  (∀ w, wpf WInv evolves p l0 any any w) → SAFE (within shop_part l0 p).
Proof. intros Hp [] w. eapply wpf_mono; [apply _| | |apply (wpf_within _ _ _ shop_laws l0 p (λ _ _, True)), Hp]; done. Qed.

(** ** Dependencies *)

Lemma principal_dep_ok credentials w :
  WP (principal_dep st credentials) (λ p _ w', validated (as_auth st) credentials p) w.
Proof.
  apply (wpf_within _ _ _ jwks_laws tt _ (λ p _, validated (as_auth st) credentials p)), get_current_user_validated.
Qed.

(** The caller: its row, which was not disabled when the request reached here. *)
Lemma current_user_dep_ok p w :
  WP (current_user_dep p) (λ u _ w', (¬ disabled (aw_id w) (pr_sub p)) ∧ row_of (aw_id w') (pr_sub p) (u_id u)) w.
Proof.
  apply (wpf_within _ _ _ id_laws new_session _ (λ u d, (¬ disabled (aw_id w) (pr_sub p)) ∧ row_of d (pr_sub p) (u_id u))).
  apply (with_session_ok known _ _ (λ u d, (¬ disabled (aw_id w) (pr_sub p)) ∧ row_of d (pr_sub p) (u_id u))).
  - intros u w1 w2 He [Hd Hr]. split; [done|]. by eapply row_of_stays.
  - apply get_current_db_user_ok.
Qed.

Lemma Safe_principal credentials : SAFE (principal_dep st credentials).
Proof. apply Safe_jwks. Qed.
Lemma Safe_caller p : SAFE (current_user_dep p).
Proof. intros [] w. eapply wpf_mono; [apply _| | |apply current_user_dep_ok]; done. Qed.
Lemma Safe_limit bucket p : SAFE (rate_limit_dep st bucket p).
Proof. apply Safe_rate. Qed.
Lemma Safe_required {A} (x : option A) : SAFE (required x).
Proof. by destruct x. Qed.
Lemma Safe_found {A} (x : option A) : SAFE (found x).
Proof. by destruct x. Qed.
Lemma Safe_body {A B} (b : Body A) (k : option A → frame W unit B) : (∀ x, SAFE (k x)) → SAFE (with_body b k).
Proof. intros Hk. destruct b; [apply Safe_throw|apply Hk..]. Qed.
Lemma Safe_merchant p : SAFE (merchant_dep p).
Proof. apply Safe_of_result. Qed.
Lemma Safe_valkey : SAFE (valkey_dep st).
Proof. unfold valkey_dep. by destruct (as_valkey st). Qed.
Lemma Safe_range quantity lowest : SAFE (in_range st quantity lowest).
Proof. unfold in_range. by case_decide. Qed.
Lemma Safe_cart {A} (m : Z → ST CartStore A) : SAFE (cart_part m).
Proof. apply Safe_shop. intros w. apply safe_keeps, keeps_cart. Qed.

#[local] Hint Resolve Safe_principal Safe_caller Safe_limit Safe_required Safe_found Safe_merchant Safe_valkey Safe_range Safe_cart
  Safe_cache Safe_of_result Safe_ret Safe_throw : api.

(** Through a route, dependency by dependency. *)
Ltac route :=
  repeat first
    [ solve [auto with api]
    | rule Safe_bind; [|intros ?]
    | apply Safe_body; intros ?
    | progress (case_match; subst) ].

(** Who was let in: a validated token, whose account was not disabled when the
    request started and is known by this id. *)
Record let_in (credentials : option string) (w0 : W) (p : Principal) (i : N) (w : W) : Prop := {
  li_token : validated (as_auth st) credentials p;
  li_active : ¬ disabled (aw_id w0) (pr_sub p);
  li_row : row_of (aw_id w) (pr_sub p) i
}.

Lemma let_in_stays credentials w0 p i w w' : api_evolves w w' → let_in credentials w0 p i w → let_in credentials w0 p i w'.
Proof. intros He [Ht Ha Hr]. split; [done|done|]. eapply row_of_stays; [apply He|done]. Qed.

Lemma caller_ok credentials w0 p w :
  api_evolves w0 w → validated (as_auth st) credentials p →
  WP (current_user_dep p) (λ u _ w', let_in credentials w0 p (u_id u) w') w.
Proof.
  intros He Hv. eapply wpf_mono; [apply _| | |apply current_user_dep_ok]; [|done].
  intros u l w' He' [Hd Hr]. split; [done| |done]. intros Hdis. apply Hd. eapply disabled_stays; [apply He|done].
Qed.

(** ** Routes *)

Lemma WP_bind {A B} (p : frame W unit A) (f : A → frame W unit B) (P : A → W → Prop) Q w :
  WP p (λ a _ w', P a w') w → (∀ a w', api_evolves w w' → P a w' → WP (f a) Q w') → WP (p ≫= f) Q w.
Proof. intros Hp Hf. rule wpf_bind. eapply wpf_mono; [apply _| | |exact Hp]; [|done]. intros a [] w' He Ha. by apply Hf. Qed.

Lemma WP_skip {A B} (p : frame W unit A) (f : A → frame W unit B) Q w :
  SAFE p → (∀ a w', api_evolves w w' → WP (f a) Q w') → WP (p ≫= f) Q w.
Proof. intros Hp Hf. eapply (WP_bind p f (λ _ _, True)); [apply Hp|]. auto. Qed.

Lemma WP_body {A B} (b : Body A) (k : option A → frame W unit B) Q w : (∀ x, WP (k x) Q w) → WP (with_body b k) Q w.
Proof. intros Hk. destruct b; [done|apply Hk..]. Qed.

(** The value a check lets through. *)
Lemma WP_required {A B} (x : option A) (f : A → frame W unit B) Q w : (∀ a, x = Some a → WP (f a) Q w) → WP (required x ≫= f) Q w.
Proof. intros Hf. destruct x as [a|]; [by apply (Hf a)|done]. Qed.
Lemma WP_found {A B} (x : option A) (f : A → frame W unit B) Q w : (∀ a, x = Some a → WP (f a) Q w) → WP (found x ≫= f) Q w.
Proof. intros Hf. destruct x as [a|]; [by apply (Hf a)|done]. Qed.

(** A module's answer, with what the module proves of it. *)
Lemma WP_shop {L A B} (l0 : L) (p : frame (World CartStore G) L A) (f : A → frame W unit B) Q0 Q w :
  wpf WInv evolves p l0 (λ a _, Q0 a) (λ _ _ _, True) (aw_shop w) →
  (∀ a w', api_evolves w w' → Q0 a (aw_shop w') → WP (f a) Q w') → WP (within shop_part l0 p ≫= f) Q w.
Proof. intros Hp Hf. eapply WP_bind; [by apply (wpf_within _ _ _ shop_laws l0 p Q0)|done]. Qed.
Lemma WP_cat {L A B} (l0 : L) (p : frame CatWorld L A) (f : A → frame W unit B) Q0 Q w :
  wpf CI cat_evolves p l0 (λ a _, Q0 a) (λ _ _ _, True) (aw_cat w) →
  (∀ a w', api_evolves w w' → Q0 a (aw_cat w') → WP (f a) Q w') → WP (within cat_part l0 p ≫= f) Q w.
Proof. intros Hp Hf. eapply WP_bind; [by apply (wpf_within _ _ _ cat_laws l0 p Q0)|done]. Qed.

(** The three routes on one order. *)
Definition order_caller (credentials : option string) (w0 : W) (oid : N) (w : W) : Prop :=
  ∃ p i, let_in credentials w0 p i w ∧ order_of oid i (is_admin p) (aw_shop w).

Lemma order_route_ok {A} credentials oid (use : N → N → bool → frame (World CartStore G) unit (option A)) w :
  (∀ user oid admin w, wpf WInv evolves (use user oid admin) tt (λ a _ w', is_Some a → order_of oid user admin w') any w) →
  WP (order_route st credentials (Some oid) use) (λ _ _ w', order_caller credentials w oid w') w.
Proof.
  intros Hu. eapply WP_bind; [apply principal_dep_ok|]. intros p w1 He1 Hv.
  eapply WP_bind; [by apply (caller_ok credentials w)|]. intros u w2 He2 Hin.
  apply WP_required. intros ? [= <-]. eapply WP_shop; [apply Hu|]. intros o w3 He3 Ho. apply WP_found. intros a ->.
  exists p, (u_id u). split; [by eapply let_in_stays|]. by apply Ho.
Qed.

Lemma detail_ok {B} user oid admin (w : World B G) :
  wpf WInv evolves (get_order_detail user oid admin) tt (λ a _ w', is_Some a → order_of oid user admin w') any w.
Proof.
  apply order_gate; [done|]. intros [] w1. unfold owned_order, get_order. safe_walk.
Qed.
Lemma execution_ok {B} user oid admin (w : World B G) :
  wpf WInv evolves (get_execution user oid admin) tt (λ a _ w', is_Some a → order_of oid user admin w') any w.
Proof.
  apply order_gate; [done|]. intros [] w1. unfold owned_order, get_order, list_saga_steps. safe_walk.
Qed.
Lemma cancel_ok {B} `{!BasketPort B} user oid admin (w : World B G) :
  wpf WInv evolves (cancel_order user oid admin) tt (λ a _ w', is_Some a → order_of oid user admin w') any w.
Proof. apply order_gate; [done|]. intros l w1. apply safe_cancel_order. Qed.

(** A checkout's answer. *)
Definition checkout_caller (credentials : option string) (w0 : W) (key : option string) (r : Response OrderResponse) (w : W) : Prop :=
  ∃ p i k a, let_in credentials w0 p i w ∧ key = Some k ∧ rs_body r = Some a ∧ paid_answer (aw_shop w) i k a.

Lemma checkout_route_ok credentials key body w :
  WP (checkout_route st credentials key body) (λ r _ w', checkout_caller credentials w key r w') w.
Proof.
  apply WP_body. intros token. eapply WP_bind; [apply principal_dep_ok|]. intros p w1 He1 Hv.
  apply WP_skip; [auto with api|]. intros _ w2 He2. apply WP_skip; [auto with api|]. intros _ w3 He3.
  eapply WP_bind; [apply (caller_ok credentials w); [by repeat (etrans; [eassumption|])|done]|]. intros u w4 He4 Hin.
  apply WP_required. intros k Hk. apply WP_required. intros t Ht.
  eapply WP_shop; [apply checkout_records, Hin|].
  intros [o created] w5 He5 Ho. exists p, (u_id u), k, o. split_and!; [by eapply let_in_stays| |done|done].
  destruct key as [k'|]; [|done]. simpl in Hk. unfold if_ok in Hk. by destruct (bounded_text 1 200 k').
Qed.

(** The routes on one product of a merchant's. *)
Definition product_caller (credentials : option string) (w0 : W) (pid : N) (w : W) : Prop :=
  ∃ p i, let_in credentials w0 p i w ∧ has_role ["merchant"; "admin"]%string p = true ∧
         product_of pid i (is_admin p) (aw_cat w).

Lemma merchant_write_ok {A} bucket credentials pid (use : N → bool → frame W unit (Response A)) w :
  (∀ i admin w, WP (use i admin) (λ _ _ w', product_of pid i admin (aw_cat w')) w) →
  WP (merchant_write st bucket credentials use) (λ _ _ w', product_caller credentials w pid w') w.
Proof.
  intros Hu. eapply WP_bind; [apply principal_dep_ok|]. intros p w1 He1 Hv. apply WP_skip; [auto with api|]. intros _ w2 He2.
  eapply WP_bind; [apply (caller_ok credentials w); [by etrans|done]|]. intros u w3 He3 Hin.
  unfold merchant_dep, require_role. destruct (has_role _ p) eqn:Er; [|done]. cbn -[has_role].
  eapply wpf_mono; [apply _| | |apply Hu]; [|done]. intros r [] w4 He4 Hp. exists p, (u_id u).
  split_and!; [by eapply let_in_stays|done|done].
Qed.

Lemma orm_free : orm_ok false orm.
Proof. done. Qed.

Lemma update_route_ok credentials pid body if_match w :
  WP (update_product_route st orm credentials (Some pid) body if_match) (λ _ _ w', product_caller credentials w pid w') w.
Proof.
  apply WP_body. intros b. apply merchant_write_ok. intros i admin w1. apply WP_required. intros ? [= <-].
  apply WP_required. intros patch _. apply WP_skip; [auto with api|]. intros v w2 _.
  eapply WP_cat; [apply product_gate, update_safe, orm_free|]. intros o w3 _ Ho. apply WP_found. intros r ->. by destruct Ho.
Qed.

Lemma delete_route_ok credentials pid if_match now w :
  WP (delete_product_route st orm credentials (Some pid) if_match now) (λ _ _ w', product_caller credentials w pid w') w.
Proof.
  apply merchant_write_ok. intros i admin w1. apply WP_required. intros ? [= <-].
  apply WP_skip; [auto with api|]. intros v w2 _.
  eapply WP_cat; [apply product_gate, delete_safe, orm_free|]. intros o w3 _ Ho. apply WP_found. intros [] E.
  destruct o; [by destruct Ho|done].
Qed.

Lemma presign_route_ok credentials pid body w :
  WP (presign_product_image_route st orm credentials (Some pid) body) (λ _ _ w', product_caller credentials w pid w') w.
Proof.
  apply WP_body. intros b. apply merchant_write_ok. intros i admin w1. apply WP_required. intros ? [= <-].
  apply WP_required. intros x _.
  eapply WP_cat; [apply product_gate, presign_safe, orm_free|]. intros o w3 _ Ho. apply WP_found. intros r ->. by destruct Ho.
Qed.

(** ** Everything that may run *)

Inductive api_arrival : prog W unit → Prop :=
  | aa_checkout c key b : api_arrival (erase (serve reason (checkout_route st c key b)))
  | aa_orders c names limit sort cursor status : api_arrival (erase (serve reason (list_orders_route st c names limit sort cursor status)))
  | aa_order c oid : api_arrival (erase (serve reason (get_order_route st c oid)))
  | aa_execution c oid : api_arrival (erase (serve reason (get_order_execution_route st c oid)))
  | aa_cancel c oid : api_arrival (erase (serve reason (cancel_order_route st c oid)))
  | aa_webhook loads now declared b sg ts : api_arrival (erase (serve reason (payment_webhook_route st loads now declared b sg ts)))
  | aa_stock c sku b v : api_arrival (erase (serve reason (upsert_stock_route st c sku b v)))
  | aa_products c names limit sort cursor cat m search :
      api_arrival (erase (serve reason (list_products_route st c names limit sort cursor cat m search)))
  | aa_product c pid : api_arrival (erase (serve reason (get_product_route st choices fuel c pid)))
  | aa_create c b : api_arrival (erase (serve reason (create_product_route st c b)))
  | aa_update c pid b v : api_arrival (erase (serve reason (update_product_route st orm c pid b v)))
  | aa_delete c pid v now : api_arrival (erase (serve reason (delete_product_route st orm c pid v now)))
  | aa_presign c pid b : api_arrival (erase (serve reason (presign_product_image_route st orm c pid b)))
  | aa_cart c : api_arrival (erase (serve reason (get_cart_route st c)))
  | aa_cart_add c b : api_arrival (erase (serve reason (add_item_route st choices fuel c b)))
  | aa_cart_set c pid b : api_arrival (erase (serve reason (set_quantity_route st choices fuel c pid b)))
  | aa_cart_remove c pid : api_arrival (erase (serve reason (remove_item_route st c pid)))
  | aa_cart_clear c : api_arrival (erase (serve reason (clear_cart_route st c)))
  (** the identity routes and the directory, the saga's workers and the provider,
      the image worker and uploads, and what belongs to no invariant *)
  | aa_identity p : id_arrival p → api_arrival (pzoom id_part p)
  | aa_shop p : arrival (as_shop st) p → api_arrival (pzoom shop_part p)
  | aa_catalog p : cat_arrival (as_catalog st) false p → api_arrival (pzoom cat_part p)
  | aa_jwks p : api_arrival (pzoom jwks_part p)
  | aa_rates p : api_arrival (pzoom rate_part p)
  | aa_cached p : api_arrival (pzoom cache_part p).

Lemma serve_safe {A} (route : frame W unit (Response A)) : SAFE route → safe ApiInv api_evolves (erase (serve reason route)).
Proof.
  intros Hr. apply safe_erase. intros w _. apply wp_pbind. eapply wp_mono; [apply _| |apply (Hr tt w)].
  by intros [[a|e] []].
Qed.

Lemma safe_of_ok {A} (p : frame W unit A) (P : A → W → W → Prop) : (∀ w, WP p (λ a _ w', P a w w') w) → SAFE p.
Proof. intros Hp [] w. eapply wpf_mono; [apply _| | |apply Hp]; done. Qed.

Lemma Safe_order {A} c oid (use : N → N → bool → frame (World CartStore G) unit (option A)) :
  (∀ u o a w, wpf WInv evolves (use u o a) tt any any w) → SAFE (order_route st c oid use).
Proof. intros Hu. unfold order_route. route. apply Safe_shop. intros w. apply Hu. Qed.

Lemma Safe_write {A} bucket c (use : N → bool → frame W unit (Response A)) :
  (∀ i a, SAFE (use i a)) → SAFE (merchant_write st bucket c use).
Proof. intros Hu. unfold merchant_write. route. Qed.

Lemma Safe_basket {A} c (use : N → frame W unit (Response A)) : (∀ i, SAFE (use i)) → SAFE (cart_route st c use).
Proof. intros Hu. unfold cart_route. route. Qed.

Lemma api_arrival_safe p : api_arrival p → safe ApiInv api_evolves p.
Proof.
  destruct 1; try (apply serve_safe).
  - eapply safe_of_ok. apply checkout_route_ok.
  - unfold list_orders_route. route. apply Safe_shop. intros w. apply safe_keeps, keeps_ord_read.
  - apply Safe_order. intros u o a w. eapply wpf_mono; [apply _| | |apply detail_ok]; done.
  - apply Safe_order. intros u o a w. eapply wpf_mono; [apply _| | |apply execution_ok]; done.
  - apply Safe_order. intros u o a w. apply safe_cancel_order.
  - unfold payment_webhook_route. route. apply Safe_shop. intros w. apply safe_handle_webhook.
  - unfold upsert_stock_route, merchant_id_for_sku. route.
    + apply Safe_cat, read_safe. done.
    + apply Safe_shop. intros w. apply safe_keeps. intros w1 HI.
      apply inv_block; [done|..]; rewrite svc_upsert_db; [apply (wi_core w1 HI)|apply inv_evolves_refl].
  - unfold list_products_route. route.
  - unfold get_product_route. route.
  - unfold create_product_route. route. apply Safe_cat, create_safe.
  - unfold update_product_route. apply Safe_body. intros x. apply Safe_write. intros i a. route. apply Safe_cat, update_safe, orm_free.
  - apply Safe_write. intros i a. route. apply Safe_cat, delete_safe, orm_free.
  - unfold presign_product_image_route. apply Safe_body. intros x. apply Safe_write. intros i a. route. apply Safe_cat, presign_safe, orm_free.
  - apply Safe_basket. intros i. route.
  - unfold add_item_route, get_snapshot. apply Safe_body. intros x. apply Safe_basket. intros i. route.
  - unfold set_quantity_route, get_snapshot. apply Safe_body. intros x. apply Safe_basket. intros i. route.
  - apply Safe_basket. intros i. route.
  - apply Safe_basket. intros i. route.
  - apply (safe_part _ _ _ id_laws). by apply id_arrival_safe.
  - apply (safe_part _ _ _ shop_laws). by eapply arrival_safe.
  - apply (safe_part _ _ _ cat_laws). by eapply catalog_safe.
  - intros w _. apply wp_free. intros w1 d HI. by apply free_put.
  - intros w _. apply wp_free. intros w1 d HI. by apply free_put.
  - intros w _. apply wp_free. intros w1 d HI. by apply free_put.
Qed.

(** The answer of one request among everything else. *)
Definition answers_with {A} (route : frame W unit (Response A)) (s s' : list (prog W unit) * W) (r : Response A) : Prop :=
  rtc (observed_step api_arrival) (serve reason route, s) (Ret (Some r), s').

Lemma answered {A} (route : frame W unit (Response A)) (Q : Response A → W → Prop) s s' r a :
  (∀ r w w', Q r w → api_evolves w w' → Q r w') → pool_ok ApiInv api_evolves s →
  WP route (λ r _, Q r) s.2 → answers_with route s s' r → rs_body r = Some a → Q r s'.2.
Proof.
  intros HQ Hok Hroute Hrun Ha.
  pose (Q' := λ (o : option (Response A)) w, ∀ r a, o = Some r → rs_body r = Some a → Q r w).
  assert (observed_ok ApiInv api_evolves Q' (Ret (Some r), s')) as [_ Hq]; [|by apply (Hq r a)].
  eapply (observed_sound _ _ Q' api_arrival); [apply api_arrival_safe| |exact Hrun|].
  - intros o w w' Ho He r1 a1 -> Hb. eapply HQ; [by eapply Ho|done].
  - split; [done|]. apply wp_pbind. eapply wp_mono; [apply _| |exact Hroute].
    intros [[x|e] []] w1 _ Hx; intros r1 a1 Er Hb; simpl in *; [by simplify_eq|].
    destruct (answer reason e); simplify_eq/=.
Qed.

Lemma order_caller_stays c w0 oid w w' : order_caller c w0 oid w → api_evolves w w' → order_caller c w0 oid w'.
Proof.
  intros (p & i & Hin & Ho) He. exists p, i. split; [by eapply let_in_stays|]. eapply order_of_stays; [apply He|done].
Qed.
Lemma product_caller_stays c w0 pid w w' : product_caller c w0 pid w → api_evolves w w' → product_caller c w0 pid w'.
Proof.
  intros (p & i & Hin & Hr & Ho) He. exists p, i. split_and!; [by eapply let_in_stays|done|]. eapply product_of_stays; [apply He|done].
Qed.
Lemma checkout_caller_stays c w0 key r w w' : checkout_caller c w0 key r w → api_evolves w w' → checkout_caller c w0 key r w'.
Proof.
  intros (p & i & k & a & Hin & Hk & Ha & Hp) He. exists p, i, k, a.
  split_and!; [by eapply let_in_stays|done|done|]. eapply paid_answer_mono; [apply He|done].
Qed.
End Facts.

#[export] Existing Instance api_evolves_preorder.

(** ** Theorems *)

Section Theorems.
Context {C K G : Type} `{!Pyjwt C} `{!IdentityAdminPort K} `{!Accounts K} `{!AdminPortLaws K} `{!PaymentGateway G}.
Context `{!ResponseCodec} `{!Imaging} {numeric : Type} `{SortParsers} `{JsonLists} `{PgCasts numeric} `{Folding}.
Context (st : ApiSettings) (reason : Z → option string) (orm : Orm) (choices : nat → Choices) (fuel : nat).
Notation W := (ApiWorld C K G).
Notation arrives := (api_arrival st reason orm choices fuel).
Notation answers := (answers_with st reason orm choices fuel).

(** A deployment before its first request: any stock, prices and baskets, empty
    catalog and mirror, the directory [k]. *)
Definition api_opening (k : K) (w : W) : Prop :=
  opening (aw_shop w) ∧ (∃ now, aw_cat w = cat_start now) ∧ ∃ now, aw_id w = id_start k now.

Definition api_runs (k : K) (s : list (prog W unit) * W) : Prop :=
  ∃ w0, api_opening k w0 ∧ rtc (pool_step arrives) ([], w0) s.

Lemma api_runs_ok k s : api_runs k s → pool_ok (ApiInv st (enabled_at_start k)) api_evolves s.
Proof.
  intros (w0 & (Ho & [now Hc] & [now' Hi]) & Hr).
  destruct (pool_sound _ api_evolves arrives _ _ (api_arrival_safe st reason orm choices fuel (enabled_at_start k)) Hr) as [Hok _]; [|done].
  split; [|constructor]. split; simpl; [rewrite Hi; apply id_start_inv|rewrite Hc; apply cat_start_inv|by apply opening_inv].
Qed.


(** C8: Whatever else runs, and whatever fails: a checkout answers 201 only to a validated
    token of an account that was not disabled when the request started, and with a
    paid order stored under that account's id and the request's idempotency key. *)
Theorem checkout_route_sells_to_caller (k : K) (s s' : list (prog W unit) * W) (credentials key : option string)
    (body : Body string) (r : Response OrderResponse) (a : OrderResponse)
    (Hs : api_runs k s) (Hrun : answers (checkout_route st credentials key body) s s' r) (Ha : rs_body r = Some a) :
  ∃ p i key', let_in st credentials s.2 p i s'.2 ∧ key = Some key' ∧ paid_answer (aw_shop s'.2) i key' a.
Proof.
  destruct (answered st reason orm choices fuel (enabled_at_start k) _ (checkout_caller st credentials s.2 key) _ _ _ _
    ltac:(by apply checkout_caller_stays) (api_runs_ok k s Hs) (checkout_route_ok st _ credentials key body s.2) Hrun Ha)
    as (p & i & key' & a' & Hin & Hk & Ha' & Hp).
  exists p, i, key'. split_and!; [done|done|]. congruence.
Qed.

End Theorems.
