(* ===== verification/ApiScenarios.v ===== *)
(** * ApiScenarios: one application, from its first request on

    A merchant with an empty catalog, a buyer, one product in stock: everything below
    happens through the routes, with tokens, over the small Keycloak of
    IdentityScenarios, the real cart and the stub provider. *)

From Stdlib Require Import Ascii String.
From S2P Require Import Prelude Errors UnitOfWork Inventory InventoryInv InventoryService Text Parse Sha256 Base64 Effects Json.
From S2P Require Import Keyset Orders Payments World Cart PaymentsService CheckoutSaga OrdersService Pagination.
From S2P Require Import Resilience Auth AuthFacts Identity IdentityFacts KeycloakAdmin KeycloakFacts IdentityScenarios RateLimit Http.
From S2P Require Import Catalog CatalogService CatalogSafety CatalogScenarios ProductCache Listings ListingFacts.
From S2P Require Import SagaInv SagaWorld Deployment Scenarios Api ApiFacts.

#[local] Existing Instance demo_gateway.
#[local] Existing Instance demo_imaging.
#[local] Existing Instance canonical_parsers.
#[local] Existing Instance canonical_casts.
#[local] Existing Instance ascii_folding.

(** The tokens: [bob]'s is a merchant's, [eve]'s carries no role. *)
Definition claims_of (sub email : string) (roles : list string) : list (string * json) :=
  [("sub", Json.JString sub); ("email", Json.JString email); ("realm_access", Json.JObject [("roles", Json.JArray (Json.JString <$> roles))])]%string.
Definition demo_claims (token : string) : result (list (string * json)) :=
  if decide (token = "bob"%string) then Ok (claims_of bob "bob@x.io" ["merchant"%string])
  else if decide (token = "eve"%string) then Ok (claims_of eve "eve@x.io" [])
  else Err InvalidTokenError.

#[local] Instance demo_jwt : Pyjwt unit := {|
  SigningKey := unit;
  get_unverified_kid := λ _, Ok (Some "k1"%string);
  jwt_decode := λ token _ _ _ _ _, demo_claims token;
  jwk_set_cache := λ _ _, CachedKeys [Some "k1"%string];
  get_signing_key_from_jwt := λ _ _ c, (Ok tt, c)
|}.

(** The read cache is off. *)
#[local] Instance no_codec : ResponseCodec := {| dump_response := λ _, ""%string; parse_response := λ _, None |}.

Definition demo_api : ApiSettings :=
  MkApiSettings demo_auth (Some shop_limits) true demo_cfg demo_cat None 2592000 100 99.
Definition calm : nat → Choices := λ _, MkChoices 0 0 0.

Definition app : Type := ApiWorld unit KP StubGateway.

(** Five units of the product the merchant is about to list. *)
Definition stocked_shop : shop :=
  MkWorld (MkInvSvc (MkInvDB {[uuid_str 1 := MkInventory 5 0 1]} [] [] 1) 0 0 0)
    (MkOrdDB ∅ [] [] 1) (MkPayDB ∅ [] 1) (MkStub ∅ ∅ ∅ 1) (MkStore ∅ ∅) ∅ {[1%N := 1250]} ∅ 1000.

Definition opening_app : app :=
  MkApi (AuthFacts.fresh_process tt 20000) (id_start (IdentityScenarios.fresh_process demo_toy) 1000) (MkRateWorld ∅ 0)
    (cat_start 1000) (MkCache ∅ ∅ 1) ∅ stocked_shop.

Lemma opening_app_opening : api_opening (IdentityScenarios.fresh_process demo_toy) opening_app.
Proof.
  split_and!; [|by eexists|by eexists].
  split; simpl; try done. split; simpl; try (intros; set_solver); try apply NoDup_nil_2.
  - intros sku row [<- <-]%lookup_singleton_Some. split; vm_compute; intuition congruence.
  - intros sku row [<- <-]%lookup_singleton_Some. done.
Qed.

Definition no_reason : Z → option string := λ _, None.
Notation request p := (erase (serve no_reason p)).
Definition state : Type := list (prog app unit) * app.

Definition list_mug : frame app unit (Response ProductResponse) :=
  create_product_route demo_api (Some "bob"%string) (Parsed (MkCreate "mug" None None 1250)).
Definition add_two : frame app unit (Response CartResponse) :=
  add_item_route demo_api calm 3 (Some "eve"%string) (Parsed (1%N, 2)).
Definition buy : frame app unit (Response OrderResponse) :=
  checkout_route demo_api (Some "eve"%string) (Some "k1"%string) (Parsed "tok_visa"%string).

(** The merchant lists the mug, the buyer puts two into the cart. *)
Definition ready : state := arrive (request add_two) 50 (arrive (request list_mug) 50 ([], opening_app)).
Definition sold : state := arrive (request buy) 100 ready.

Notation arrives := (api_arrival demo_api no_reason exact_orm calm 3).
Notation runs := (api_runs demo_api no_reason exact_orm calm 3 (IdentityScenarios.fresh_process demo_toy)).
Notation answers := (answers_with demo_api no_reason exact_orm calm 3).

Lemma runs_arrive p fuel s : arrives p → runs s → runs (arrive p fuel s).
Proof. intros Hp (w0 & Ho & Hr). exists w0. split; [done|]. etrans; [exact Hr|]. by apply arrive_steps. Qed.

Lemma ready_runs : runs ready.
Proof.
  apply runs_arrive; [apply aa_cart_add|]. apply runs_arrive; [apply aa_create|].
  exists opening_app. split; [apply opening_app_opening|done].
Qed.
Lemma sold_runs : runs sold.
Proof. apply runs_arrive; [apply aa_checkout|apply ready_runs]. Qed.

(** The answer of a request that runs alone. *)
Definition outcome_of {A} (route : frame app unit (Response A)) (s : state) : option (Response A) * state :=
  let rw := run (serve no_reason route) s.2 in (rw.1, (s.1, rw.2)).

Lemma outcome_answers {A} (route : frame app unit (Response A)) s r :
  (outcome_of route s).1 = Some r → answers route s (outcome_of route s).2 r.
Proof.
  destruct s as [ts w]. unfold answers_with, outcome_of. simpl. intros <-. apply run_observed.
Qed.

(** The order the buyer gets. *)
Definition sold_order : OrderResponse :=
  MkOrderResponse 1 1 PAID 2500 [MkOrderItem 2 1 "mug" 1250 2] 1000 1000.
Definition sold_answer (status : Z) : Response OrderResponse := MkResponse status [] (Some sold_order).

(** The buyer's own order; to another account, 403. *)
Definition see (token : string) : frame app unit (Response OrderResponse) := get_order_route demo_api (Some token) (Some 1%N).

Lemma other_account_is_refused : (outcome_of (see "bob") sold).1 = Some (MkResponse 403 [] None).
Proof. vm_compute. reflexivity. Qed.


Lemma checkout_route_sells_to_caller_witness :
  ∃ p i key, let_in demo_api (Some "eve"%string) ready.2 p i (outcome_of buy ready).2.2 ∧ Some "k1"%string = Some key ∧
    paid_answer (aw_shop (outcome_of buy ready).2.2) i key sold_order.
Proof.
  refine (checkout_route_sells_to_caller demo_api no_reason exact_orm calm 3 _ ready _ (Some "eve"%string) (Some "k1"%string)
    (Parsed "tok_visa"%string) (sold_answer 201) sold_order ready_runs _ eq_refl).
  apply outcome_answers. vm_compute. reflexivity.
Defined.

Definition drop : frame app unit (Response unit) := delete_product_route demo_api exact_orm (Some "bob"%string) (Some 1%N) None 2000.

